(* ===== verification/_CoqProject ===== *)
-Q . S2P
Prelude.v
Prog.v
RedisServer.v
Models.v
RedisKeys.v
Scripts.v
WorkflowView.v
WorkflowSpec.v
WorkflowFacts.v
WorkflowInv.v
Interleaving.v
RedisExec.v
Resp.v
RedisRuntime.v
Dequeue.v
Json.v
Validation.v
Database.v
Calls.v
RuntimeGen.v
RuntimeInit.v
RedisAdmission.v
Streams.v
Sqlite.v
SqliteDb.v
SqliteFacts.v
Pool.v
Schema.v
SchemaFacts.v
StatusStore.v
CompletionHandler.v
ClientConfigs.v
AdmissionService.v
Scheduling.v
Mirror.v
BlockingQueue.v
Shutdown.v
Lifecycle.v
Http.v
Session.v
Startup.v
StartupFacts.v
Waits.v
Sample.v
Observe.v
PropsRuntime.v
PropsScripts.v
PropsStore.v
PropsAdmission.v
PropsServices.v
PropsDatabase.v
PropsWire.v
PropsHttp.v
PropsShutdown.v
PropsSchema.v
PropsStartup.v
