(* ===== verification/Prelude.v ===== *)
(** * FlowPilot: a verification of the workflow engine

    FlowPilot accepts workflows (jobs with dependencies) over HTTP, checks them
    against a client's policy, stores their running state in Redis and their
    history in SQLite, and executes the jobs with schedulers and workers.  A
    completion handler and a retry handler move the jobs from status to status.
    The state that matters while a workflow runs is in Redis, and every change
    of it is a Lua script that Redis runs atomically: the development models the
    scripts, the coroutines that call them and the services above, over a
    documented model of the Redis commands they use.

    ** Foundations
    - [Prelude]: decimal texts and their parsers ([std::stoi], [tonumber], ...),
      32- and 64-bit bounds, counting lemmas.
    - [Prog]: effectful code as a free monad, handlers, total runs, a
      weakest-precondition calculus.
    - [RedisServer]: the commands, the keyspace with expiry, and the class
      [RedisServer]: what the program relies on from a server.  Redis itself is
      not under src/; every theorem on scripts holds for each server that
      implements the documented commands ([redis_doc]).
    - [Models]: src/include/database_models.h, flow_pilot_error_msgs.h,
      client_config.h, admission_types.h, and the records of redis_db_async.h.

    ** The Redis layer
    - [RedisKeys]: src/src/redis_keys.cpp, parse_job_key.
    - [Scripts]: the Lua scripts of src/src/redis_db_async*.cpp, one definition
      each, with their loops as separate definitions.
    - [RedisExec]: src/src/redis_command_executor.cpp, over a network that may
      lose a command or a reply.
    - [Resp]: the wire format of redis_db_async.cpp (commands written, replies
      read), connection strings; the reader inverts the documented protocol.
    - [RedisRuntime]: the coroutines of redis_db_async_workflow.cpp, _jobs.cpp,
      _execution_queue.cpp, _retry.cpp, _completion.cpp and the dequeue loop of
      redis_db_async.cpp.
    - [Dequeue]: that loop on any server over a failing network: it ends, and what
      it returns is claimed.
    - [RedisAdmission]: redis_db_async_admission.cpp.
    - [Streams]: the completion stream as a queue, records and payloads read
      back.

    ** The running workflow
    - [WorkflowView]: the abstract state of one workflow and the relation [Rep]
      that a keyspace represents it, with a frame: nothing else changes.
    - [WorkflowSpec]: what each script promises, as a function on views, and the
      refinement theorems.
    - [WorkflowFacts]: consequences, job by job.
    - [WorkflowInv]: a step relation of the schedulers, workers and handlers on
      views (tokens record the messages under way), and the invariant.
    - [Interleaving]: the same steps on keyspaces, every script run by the
      server, in any order, interleaved with other clients; the simulation.
    - [Observe]: the invariant read off the fields stored in Redis.

    ** Admission
    - [Json], [Validation]: the checks of workflow_admission_service.cpp (policy,
      semantics, dependencies by Kahn's algorithm, in any iteration order of the
      hash containers).
    - [Database]: include/async_db_interface.h as events; the events of the
      services.
    - [RuntimeGen], [RuntimeInit]: workflow_runtime_generator.cpp; the runtime it
      stores satisfies the invariant.
    - [ClientConfigs]: the two client configuration managers and the default
      plans (client_sqlite_config_manager.cpp, client_test_config_manager.cpp,
      include/client_config_manager_interface.h).
    - [AdmissionService]: the submission of a workflow from its text to its
      answer (workflow_admission_service.cpp, admission_failure_handler.cpp).

    ** The database and the services
    - [Calls]: rules for the calls that services make on both stores.
    - [Sqlite]: the tables, the statements the program prepares and the class
      [SqlEngine]: what it relies on from SQLite (rows, uniqueness, transactions,
      failing calls).  SQLite itself is not under src/.
    - [SqliteDb], [SqliteFacts]: src/src/sqlite_db.cpp, an operation at a time,
      its invariant and its transactions; [sqlite_prog] is the operation that
      async_db.cpp calls for each event of [Database].
    - [Pool]: the operations that the threads of async_db.cpp run on the one
      connection, interleaved call by call.
    - [Schema], [SchemaFacts]: opening the file, the tables it creates, the SQL of
      every statement over a fragment of SQL; the statements of [Sqlite] are
      their SQL.
    - [StatusStore]: the interface the services are verified against (a database
      that records statuses), and the proof that SQLite provides it.
    - [CompletionHandler]: what completion_handler.cpp does for a completion
      message.
    - [Scheduling]: scheduler.cpp, worker_thread.cpp and retry_handler.cpp: the
      next job, its payload, the body of the worker loop, a due retry.
    - [Mirror]: the database mirrors the statuses in Redis; each handler keeps
      it so.
    - [Waits]: the waits for published messages of redis_db_async.cpp and the main
      loops of the handlers, the scheduler and the workers; a service among the
      other clients of a server, and no wake-up lost.
    - [Lifecycle]: flow_pilot_runtime.cpp, the owner of the components.
    - [Http]: request_handlers.cpp: routing, the handlers and their answers.
    - [Session]: http_server.cpp: a connection served request by request, and the
      loop that accepts connections.
    - [Startup], [StartupFacts]: config.h, the command line, the factories, the
      connections and files that are opened and the threads that are started, up
      to the signal (main.cpp, the constructors); what the process does when one
      of these fails.
    - [BlockingQueue]: include/thread_safe_blocking_queue.h, the hand-over from a
      scheduler to its workers, as a transition system.
    - [Shutdown]: the threads of scheduler.cpp and worker_thread.cpp and the loops
      of the two handlers as program counters, [request_stop] and the
      destructors, as transition systems; [StopsOnRequest] is what a destructor
      relies on from a loop.

    ** Theorems
    - [PropsRuntime]: concurrency limit, dependencies, exact counters (with the
      slots that early failures leave reserved), agreement of queues and statuses,
      completion only at the end, in every reachable state.
    - [PropsScripts]: each script refines its specification; what completion,
      failure, retry and promotion do.
    - [PropsStore]: round trips and key disjointness.
    - [PropsAdmission]: the checks are exact, the runtime plan has what was
      requested within the limits of the policy, admission decides as specified.
    - [PropsServices]: when no call fails, completions, failures and retries are
      recorded in both stores (a completion past the deadline in Redis only), a
      worker reports once, a rejected request is released; the hand-over queue;
      the default clients.
    - [PropsDatabase]: whichever calls fail, the tables stay well formed, a status
      update answers the truth, and batches are atomic, as long as no other
      operation uses the connection.
    - [PropsSchema]: the statements are their SQL and are typed by the schema.
    - [PropsWire]: the framing of commands and replies is exact; taking a job ends;
      completions wake the handler.
    - [PropsHttp]: queries answer what is recorded; the runtime owns what it has
      not asked to stop.
    - [PropsShutdown]: the components stop, and no thread outlives its owner.
    - [PropsStartup]: how the process starts and ends; a connection is answered in
      order, with the responses of the handlers.
    - [Sample]: a workflow of two jobs carried through, for the witnesses.

    ** Fuel and bounds
    Kahn's loop runs at most once per job, so the number of jobs is enough fuel
    ([validate_dependencies_spec] shows it is never exhausted).  The reader of
    replies consumes a line per call, so the length of the input is enough
    ([parse_reply_settled]); the loops over a target move on by a character at
    least.  A round of the dequeue loop that goes on takes an entry off the queue,
    so one more than its entries is enough ([dequeue_terminates]).  The fuel of
    the main loops counts their rounds; the theorems on them hold for every
    number of rounds, and [Shutdown] has them without fuel.  Script
    counters are bounded by 2^52 ([view_ok]), below which Lua numbers and Redis
    integers are exact.

    ** Not modelled
    The libraries under the program: TCP and the HTTP codec, the parser and
    printer of JSON (parameters), SQLite and Redis themselves (interfaces with
    their documented behaviour), the scheduling of the coroutine library (any
    order).  Logging: what is written to the log. *)

(** ** Shared definitions and lemmas *)

From stdpp Require Export gmap strings list pretty fin_maps.
From Stdlib Require Export Ascii ZArith Lia Bool.

#[global] Open Scope string_scope.
#[global] Open Scope Z_scope.

(** ** Decimal numerals

    [std::to_string] on integers and Lua's [tostring] on integral numbers print
    a decimal numeral; this is stdpp's [pretty].  The parsers below are the
    ones the program applies to such numerals. *)

Definition to_str (z : Z) : string := pretty z.

Definition digit (c : ascii) : option N :=
  let n := N_of_ascii c in
  if (48 <=? n)%N && (n <=? 57)%N then Some (n - 48)%N else None.

(** All characters must be digits. *)
Fixpoint digits_go (acc : N) (s : string) : option N :=
  match s with
  | EmptyString => Some acc
  | String c s' =>
      match digit c with
      | Some d => digits_go (10 * acc + d)%N s'
      | None => None
      end
  end.

(** The longest digit prefix, as [strtol] reads it. *)
Fixpoint digits_prefix (acc : N) (s : string) : N :=
  match s with
  | EmptyString => acc
  | String c s' =>
      match digit c with
      | Some d => digits_prefix (10 * acc + d)%N s'
      | None => acc
      end
  end.

Definition parse_nat (s : string) : option N :=
  match s with
  | EmptyString => None
  | _ => digits_go 0 s
  end.

(** A decimal numeral with an optional minus sign. *)
Definition parse_int (s : string) : option Z :=
  match s with
  | String "-" s' => (λ n, - Z.of_N n) <$> parse_nat s'
  | _ => Z.of_N <$> parse_nat s
  end.

Definition int_min : Z := -2147483648.
Definition int_max : Z := 2147483647.
Definition int64_min : Z := -9223372036854775808.
Definition int64_max : Z := 9223372036854775807.

(** Conversion to a 32-bit integer. *)
Definition to_int32 (z : Z) : Z := (z + 2 ^ 31) mod 2 ^ 32 - 2 ^ 31.

Definition in_int (z : Z) : bool := (int_min <=? z) && (z <=? int_max).
Definition in_int64 (z : Z) : bool := (int64_min <=? z) && (z <=? int64_max).

(** [strtol]: white space, an optional sign, then the longest digit prefix;
    no conversion when there is no digit. *)
Fixpoint skip_spaces (s : string) : string :=
  match s with
  | String c s' => if Ascii.is_space c then skip_spaces s' else s
  | EmptyString => s
  end.

Definition strtol_digits (s : string) : option N :=
  match s with
  | String c s' =>
      match digit c with Some d => Some (digits_prefix d s') | None => None end
  | EmptyString => None
  end.

Definition strtol (s : string) : option Z :=
  match skip_spaces s with
  | String "-" s' => (λ n, - Z.of_N n) <$> strtol_digits s'
  | String "+" s' => Z.of_N <$> strtol_digits s'
  | s' => Z.of_N <$> strtol_digits s'
  end.

(** [std::stoi] and [std::stoll]: [None] stands for the exception they throw
    ([std::invalid_argument] or [std::out_of_range]). *)
Definition stoi (s : string) : option Z :=
  z ← strtol s; if in_int z then Some z else None.
Definition stoll (s : string) : option Z :=
  z ← strtol s; if in_int64 z then Some z else None.

(** [std::stoul]: an unsigned 64-bit conversion; a minus sign wraps around. *)
Definition stoul (s : string) : option Z :=
  z ← strtol s;
  if (- (2 ^ 64) <? z) && (z <? 2 ^ 64) then Some (z mod 2 ^ 64) else None.

(** Lua's [tonumber] on a string, restricted to decimal integers (the only
    numerals the program stores in the fields the scripts convert). *)
Definition tonumber (s : string) : option Z := parse_int s.

(** ** Strings *)

Definition str_empty (s : string) : bool :=
  match s with EmptyString => true | _ => false end.

(** [s.find(c, start)]; [None] is [npos]. *)
Definition str_find (c : ascii) (s : string) (start : nat) : option nat :=
  String.index start (String c EmptyString) s.

(** [s.substr(pos)] for [pos <= size]. *)
Fixpoint sdrop (n : nat) (s : string) : string :=
  match n, s with
  | O, _ => s
  | S n', String _ s' => sdrop n' s'
  | S _, EmptyString => EmptyString
  end.

Definition substr (s : string) (pos len : nat) : string := String.substring pos len s.

(** [s.rfind(p, 0) == 0]: [p] is a prefix of [s]. *)
Definition starts_with (p s : string) : bool := String.prefix p s.

Fixpoint no_char (c : ascii) (s : string) : bool :=
  match s with
  | EmptyString => true
  | String d s' => negb (Ascii.eqb c d) && no_char c s'
  end.

(** ** Counting the elements of a list that satisfy a test *)

Fixpoint cnt {A} (f : A → bool) (l : list A) : Z :=
  match l with
  | [] => 0
  | x :: l' => (if f x then 1 else 0) + cnt f l'
  end.

(** ** Decimal numerals: round trips *)

Lemma digit_pretty_char d : (d < 10)%N → digit (pretty_N_char d) = Some d.
Proof.
  intros H.
  assert (d = 0 ∨ d = 1 ∨ d = 2 ∨ d = 3 ∨ d = 4 ∨ d = 5 ∨ d = 6 ∨ d = 7 ∨ d = 8 ∨ d = 9)%N
    as Hd by lia.
  repeat destruct Hd as [->|Hd]; try reflexivity. subst. reflexivity.
Qed.

(** [pretty_N_go x s] puts the digits of [x] before [s]; reading them from a
    zero accumulator leaves [x] in the accumulator. *)
Lemma digits_go_pretty x s :
  digits_go 0 (pretty_N_go x s) = digits_go x s.
Proof.
  revert s. induction (N.lt_wf_0 x) as [x _ IH]; intros s.
  destruct (decide (x = 0)%N) as [->|]; [by rewrite pretty_N_go_0|].
  rewrite pretty_N_go_step by lia. rewrite IH by (apply N.div_lt; lia). simpl.
  rewrite digit_pretty_char by (apply N.mod_lt; lia).
  f_equal. pose proof (N.div_mod' x 10). lia.
Qed.

Lemma pretty_N_go_digit x s :
  (0 < x)%N → ∃ c s', pretty_N_go x s = String c s' ∧ is_Some (digit c).
Proof.
  revert s. induction (N.lt_wf_0 x) as [x _ IH]; intros s Hx.
  rewrite pretty_N_go_step by lia.
  destruct (decide (x `div` 10 = 0)%N) as [->|].
  - rewrite pretty_N_go_0. eexists _, _. split; [done|].
    rewrite digit_pretty_char by (apply N.mod_lt; lia). eauto.
  - apply IH; [by apply N.div_lt|]. by apply N.neq_0_lt_0.
Qed.

Lemma pretty_N_digit (x : N) : ∃ c s', pretty x = String c s' ∧ is_Some (digit c).
Proof.
  unfold pretty, pretty_N. case_decide; [by eexists _, _; vm_compute; eauto|].
  apply pretty_N_go_digit. lia.
Qed.

Lemma parse_nat_pretty (x : N) : parse_nat (pretty x) = Some x.
Proof.
  destruct (pretty_N_digit x) as (c & s' & E & _).
  unfold parse_nat. rewrite E, <-E. unfold pretty, pretty_N. case_decide.
  - by subst.
  - by rewrite digits_go_pretty.
Qed.

Lemma digit_not_char c d : is_Some (digit c) → digit d = None → c ≠ d.
Proof. by intros [? ?] ? ->; simplify_eq. Qed.

Lemma parse_int_pretty z : parse_int (to_str z) = Some z.
Proof.
  unfold to_str. destruct z as [|p|p]; [reflexivity| |].
  - change (pretty (Z.pos p)) with (pretty (N.pos p)).
    destruct (pretty_N_digit (Npos p)) as (c & s' & E & Hc).
    pose proof (parse_nat_pretty (Npos p)) as Hp. rewrite E in Hp |- *.
    pose proof (digit_not_char c "-"%char Hc eq_refl) as Hne.
    unfold parse_int. destruct c as [[] [] [] [] [] [] [] []]; by rewrite ?Hp.
  - change (pretty (Z.neg p)) with (String "-" (pretty (N.pos p))).
    unfold parse_int. by rewrite parse_nat_pretty.
Qed.

Lemma tonumber_to_str z : tonumber (to_str z) = Some z.
Proof. apply parse_int_pretty. Qed.

#[global] Instance to_str_inj : Inj (=) (=) to_str.
Proof. unfold to_str. apply _. Qed.

Lemma digits_go_prefix acc s n : digits_go acc s = Some n → digits_prefix acc s = n.
Proof.
  revert acc. induction s as [|c s IH]; intros acc; simpl; [by intros [= ->]|].
  destruct (digit c); [apply IH|done].
Qed.

Lemma strtol_digits_pretty (x : N) : strtol_digits (pretty x) = Some x.
Proof.
  destruct (pretty_N_digit x) as (c & s' & E & d & Hd).
  pose proof (parse_nat_pretty x) as Hp. rewrite E in Hp |- *. simpl in Hp |- *.
  rewrite Hd in Hp |- *. apply digits_go_prefix in Hp. f_equal. by rewrite <-Hp.
Qed.

Lemma digit_not_space c : is_Some (digit c) → Ascii.is_space c = false.
Proof. destruct c as [[] [] [] [] [] [] [] []]; by intros [? ?]. Qed.

Lemma strtol_to_str z : strtol (to_str z) = Some z.
Proof.
  unfold to_str. destruct z as [|p|p]; [reflexivity| |].
  - change (pretty (Z.pos p)) with (pretty (N.pos p)).
    destruct (pretty_N_digit (Npos p)) as (c & s' & E & Hc).
    pose proof (strtol_digits_pretty (Npos p)) as Hp. rewrite E in Hp |- *.
    unfold strtol. simpl skip_spaces. rewrite (digit_not_space c Hc).
    pose proof (digit_not_char c "-"%char Hc eq_refl) as Hne1.
    pose proof (digit_not_char c "+"%char Hc eq_refl) as Hne2.
    destruct c as [[] [] [] [] [] [] [] []]; by rewrite ?Hp.
  - change (pretty (Z.neg p)) with (String "-" (pretty (N.pos p))).
    transitivity ((λ n, - Z.of_N n) <$> strtol_digits (pretty (N.pos p))); [done|].
    by rewrite strtol_digits_pretty.
Qed.

Lemma stoi_to_str z : in_int z = true → stoi (to_str z) = Some z.
Proof. intros H. unfold stoi. rewrite strtol_to_str. simpl. by rewrite H. Qed.

Lemma stoll_to_str z : in_int64 z = true → stoll (to_str z) = Some z.
Proof. intros H. unfold stoll. rewrite strtol_to_str. simpl. by rewrite H. Qed.

Lemma stoul_to_str z : 0 ≤ z < 2 ^ 64 → stoul (to_str z) = Some z.
Proof.
  intros H. unfold stoul. rewrite strtol_to_str. simpl.
  rewrite (proj2 (Z.ltb_lt (- 2 ^ 64) z)), (proj2 (Z.ltb_lt z (2 ^ 64))) by lia.
  simpl. f_equal. by apply Z.mod_small.
Qed.

Lemma to_int32_id z : in_int z = true → to_int32 z = z.
Proof.
  unfold in_int, int_min, int_max, to_int32. intros [? ?]%andb_true_iff.
  rewrite Z.mod_small; lia.
Qed.

(** ** Counting *)

Section count.
Context {A : Type}.
Implicit Types (f g : A → bool) (l : list A).

Lemma cnt_nonneg f l : 0 ≤ cnt f l.
Proof. induction l; simpl; [lia|]. destruct (f a); lia. Qed.

Lemma cnt_le_length f l : cnt f l ≤ Z.of_nat (length l).
Proof. induction l; simpl; [lia|]. destruct (f a); lia. Qed.

Lemma cnt_ext f g l : (∀ x, x ∈ l → f x = g x) → cnt f l = cnt g l.
Proof.
  induction l as [|x l IH]; intros H; simpl; [done|].
  rewrite (H x) by set_solver. rewrite IH by set_solver. done.
Qed.

Lemma cnt_mono f g l : (∀ x, x ∈ l → f x = true → g x = true) → cnt f l ≤ cnt g l.
Proof.
  induction l as [|x l IH]; intros H; simpl; [lia|].
  specialize (IH ltac:(set_solver)).
  destruct (f x) eqn:E; [rewrite (H x) by (done || set_solver); lia|destruct (g x); lia].
Qed.

(** Changing the test at one element of a duplicate-free list. *)
Lemma cnt_update f g l x :
  NoDup l → x ∈ l → (∀ y, y ∈ l → y ≠ x → f y = g y) →
  cnt g l = cnt f l - (if f x then 1 else 0) + (if g x then 1 else 0).
Proof.
  induction l as [|y l IH]; intros Hnd Hin Hext; [set_solver|].
  apply NoDup_cons in Hnd as [Hy Hnd]. simpl.
  apply elem_of_cons in Hin as [->|Hin].
  - rewrite (cnt_ext f g l); [lia|]. intros z Hz. apply Hext; set_solver.
  - rewrite (Hext y) by set_solver. rewrite IH by set_solver. lia.
Qed.

Lemma cnt_pos f l x : x ∈ l → f x = true → 0 < cnt f l.
Proof.
  induction l as [|y l IH]; [set_solver|]. intros [->|H]%elem_of_cons Hf; simpl.
  - rewrite Hf. pose proof (cnt_nonneg f l). lia.
  - specialize (IH H Hf). destruct (f y); lia.
Qed.

Lemma cnt_zero f l : cnt f l = 0 ↔ ∀ x, x ∈ l → f x = false.
Proof.
  split.
  - intros H x Hx. destruct (f x) eqn:E; [|done]. pose proof (cnt_pos f l x Hx E). lia.
  - intros H. rewrite (cnt_ext f (λ _, false)) by done. induction l; simpl; [done|].
    apply IHl. set_solver.
Qed.

Lemma cnt_full f l : cnt f l = Z.of_nat (length l) ↔ ∀ x, x ∈ l → f x = true.
Proof.
  induction l as [|y l IH]; simpl; [set_solver|].
  pose proof (cnt_le_length f l). split.
  - destruct (f y) eqn:E; [|lia]. intros Hc x [->|Hx]%elem_of_cons; [done|].
    apply IH; [lia|done].
  - intros Hf. rewrite (Hf y) by apply list_elem_of_here.
    assert (cnt f l = Z.of_nat (length l)) as ->; [|lia].
    apply IH. intros x Hx. by apply Hf, list_elem_of_further.
Qed.

Lemma cnt_perm f l1 l2 : l1 ≡ₚ l2 → cnt f l1 = cnt f l2.
Proof. induction 1; simpl; lia. Qed.

Lemma cnt_app f l1 l2 : cnt f (l1 ++ l2) = cnt f l1 + cnt f l2.
Proof. induction l1; simpl; lia. Qed.

Lemma cnt_nodup f l y :
  NoDup l → (∀ x, x ∈ l → f x = true ↔ x = y) → y ∈ l → cnt f l = 1.
Proof.
  induction l as [|x l IH]; intros Hnd Hf Hy; [set_solver|]. simpl.
  apply NoDup_cons in Hnd as [Hx Hnd].
  apply elem_of_cons in Hy as [<-|Hy].
  - rewrite (proj2 (Hf y ltac:(set_solver)) eq_refl).
    assert (cnt f l = 0) as ->; [|lia]. apply cnt_zero. intros z Hz.
    destruct (f z) eqn:E; [|done]. apply Hf in E; [by subst|set_solver].
  - destruct (f x) eqn:E; [apply Hf in E; [by subst|set_solver]|].
    rewrite IH; [done|done| |done]. intros z Hz. apply Hf. set_solver.
Qed.

(** A predicate that implies one of two others. *)
Lemma cnt_orb f g l :
  (∀ x, x ∈ l → f x && g x = false) → cnt (λ x, f x || g x) l = cnt f l + cnt g l.
Proof.
  induction l as [|x l IH]; intros H; simpl; [done|].
  pose proof (H x ltac:(set_solver)) as Hx. rewrite IH by set_solver.
  destruct (f x), (g x); simpl in *; try done; lia.
Qed.
End count.

(** ** Sums and counts over the values of a map *)

Definition msum {A} (f : A → Z) (m : gmap string A) : Z :=
  foldr (λ kx acc, f kx.2 + acc) 0 (map_to_list m).

Definition mcnt {A} (f : A → bool) (m : gmap string A) : Z :=
  msum (λ x, if f x then 1 else 0) m.

Section msum.
Context {A : Type}.
Implicit Types (m : gmap string A) (f : A → Z) (p : A → bool).

Lemma msum_perm f (l l' : list (string * A)) :
  l ≡ₚ l' → foldr (λ kx acc, f kx.2 + acc) 0 l = foldr (λ kx acc, f kx.2 + acc) 0 l'.
Proof. induction 1; simpl; lia. Qed.

Lemma msum_insert_new f m k x :
  m !! k = None → msum f (<[k := x]> m) = f x + msum f m.
Proof. intros Hk. unfold msum. by rewrite (msum_perm f _ _ (map_to_list_insert m k x Hk)). Qed.

Lemma msum_empty f : msum f ∅ = 0.
Proof. unfold msum. by rewrite map_to_list_empty. Qed.

Lemma msum_delete f m k y : m !! k = Some y → msum f (delete k m) = msum f m - f y.
Proof.
  intros Hk. rewrite <-(insert_delete_id m k y Hk) at 2.
  rewrite msum_insert_new by apply lookup_delete_eq. lia.
Qed.

Lemma msum_insert f m k x y :
  m !! k = Some y → msum f (<[k := x]> m) = msum f m - f y + f x.
Proof.
  intros Hk. rewrite <-insert_delete_eq, msum_insert_new by apply lookup_delete_eq.
  rewrite (msum_delete f m k y Hk). lia.
Qed.

Lemma msum_nonneg f m : (∀ x, 0 ≤ f x) → 0 ≤ msum f m.
Proof. intros Hf. unfold msum. induction (map_to_list m) as [|[k x] l IH]; simpl; [lia|]. specialize (Hf x). lia. Qed.

Lemma msum_ge f m k x : (∀ x, 0 ≤ f x) → m !! k = Some x → f x ≤ msum f m.
Proof.
  intros Hf Hk. pose proof (msum_nonneg f (delete k m) Hf) as H.
  rewrite (msum_delete f m k x Hk) in H. lia.
Qed.

Lemma mcnt_nonneg p m : 0 ≤ mcnt p m.
Proof. apply msum_nonneg. intros x. destruct (p x); lia. Qed.

Lemma mcnt_insert p m k x y :
  m !! k = Some y →
  mcnt p (<[k := x]> m) = mcnt p m - (if p y then 1 else 0) + (if p x then 1 else 0).
Proof. apply msum_insert. Qed.

Lemma mcnt_pos p m k x : m !! k = Some x → p x = true → 1 ≤ mcnt p m.
Proof.
  intros Hk Hp. pose proof (msum_ge (λ x, if p x then 1 else 0) m k x) as H.
  simpl in H. rewrite Hp in H. apply H; [|done]. intros y. destruct (p y); lia.
Qed.

Lemma mcnt_le_size p m : mcnt p m ≤ Z.of_nat (size m).
Proof.
  induction m as [|k x m Hk IH] using map_ind.
  - unfold mcnt. by rewrite msum_empty.
  - unfold mcnt in *. rewrite msum_insert_new, map_size_insert_None by done.
    destruct (p x); lia.
Qed.

Lemma mcnt_full p m :
  mcnt p m = Z.of_nat (size m) ↔ ∀ k x, m !! k = Some x → p x = true.
Proof.
  induction m as [|k x m Hk IH] using map_ind.
  - unfold mcnt. rewrite msum_empty. set_solver.
  - unfold mcnt in *. rewrite msum_insert_new, map_size_insert_None by done.
    pose proof (mcnt_le_size p m) as Hle. unfold mcnt in Hle. split.
    + intros H k' x' [[<- <-]|[_ Hx]]%lookup_insert_Some.
      * destruct (p x); [done|lia].
      * apply IH in Hx; [done|]. destruct (p x); lia.
    + intros H. rewrite (H k x) by apply lookup_insert_eq.
      assert (msum (λ x0 : A, if p x0 then 1 else 0) m = Z.of_nat (size m)) as ->; [|lia].
      apply IH. intros k' x' Hx'. apply (H k'). rewrite lookup_insert_ne; [done|].
      by intros ->; simplify_eq.
Qed.

(** Counting by the keys that pass the test. *)
Lemma mcnt_filter p m : mcnt p m = Z.of_nat (size (filter (λ kx, p kx.2 = true) m)).
Proof.
  induction m as [|k x m Hk IH] using map_ind.
  - unfold mcnt. by rewrite msum_empty, map_filter_empty.
  - unfold mcnt in *. rewrite msum_insert_new by done. destruct (p x) eqn:E.
    + rewrite map_filter_insert_True, map_size_insert_None; [lia| |done].
      apply map_lookup_filter_None. by left.
    + rewrite map_filter_insert_False by (simpl; congruence). rewrite delete_id by done. lia.
Qed.

Lemma mcnt_keys p m l :
  NoDup l → (∀ k, k ∈ l ↔ ∃ x, m !! k = Some x ∧ p x = true) →
  mcnt p m = Z.of_nat (length l).
Proof.
  intros Hnd Hl. rewrite mcnt_filter, <-size_dom, <-(size_list_to_set (C := gset string) l Hnd).
  do 2 f_equal. apply set_eq. intros k. rewrite elem_of_dom, elem_of_list_to_set, Hl. split.
  - intros [x [Hx Hp]%map_lookup_filter_Some]. eauto.
  - intros (x & Hx & Hp). exists x. by apply map_lookup_filter_Some.
Qed.

Lemma mcnt_compl p m : mcnt p m + mcnt (λ x, negb (p x)) m = Z.of_nat (size m).
Proof.
  induction m as [|k x m Hk IH] using map_ind.
  - unfold mcnt. by rewrite !msum_empty.
  - unfold mcnt in *. rewrite !msum_insert_new, map_size_insert_None by done.
    destruct (p x); simpl; lia.
Qed.

Lemma mcnt_none p m : (∀ k x, m !! k = Some x → p x = false) → mcnt p m = 0.
Proof.
  intros Hn. rewrite (mcnt_keys p m []); [done|apply NoDup_nil_2|].
  intros k. split; [set_solver|]. intros (x & Hx & Hp). by rewrite (Hn k x Hx) in Hp.
Qed.

Lemma mcnt_msum f p m :
  (∀ k x, m !! k = Some x → f x = if p x then 1 else 0) → msum f m = mcnt p m.
Proof.
  induction m as [|k x m Hk IH] using map_ind; intros Hf.
  - unfold mcnt. by rewrite !msum_empty.
  - unfold mcnt in *. rewrite !msum_insert_new by done. rewrite (Hf k x) by apply lookup_insert_eq.
    rewrite IH; [done|]. intros k' x' Hx'. apply (Hf k'). rewrite lookup_insert_ne; [done|].
    by intros ->; simplify_eq.
Qed.
End msum.

(** ** Strings *)

Lemma string_app_cons c (a b : string) : String c a +:+ b = String c (a +:+ b).
Proof. done. Qed.
Lemma string_app_nil (b : string) : "" +:+ b = b.
Proof. done. Qed.

Create Rewrite HintDb str.
#[export] Hint Rewrite string_app_cons string_app_nil : str.

Lemma sdrop_app p s : sdrop (String.length p) (p +:+ s) = s.
Proof. induction p; simpl; [done|]. autorewrite with str. apply IHp. Qed.

Lemma prefix_app p s : String.prefix p (p +:+ s) = true.
Proof.
  induction p as [|c p IH]; autorewrite with str; simpl; [by destruct s|].
  destruct (Ascii.ascii_dec c c); [apply IH|done].
Qed.

Lemma string_app_assoc (a b c : string) : (a +:+ b) +:+ c = a +:+ (b +:+ c).
Proof. induction a as [|x a IH]; autorewrite with str; [done|]. by rewrite IH. Qed.

Lemma string_length_app (a b : string) :
  String.length (a +:+ b) = (String.length a + String.length b)%nat.
Proof. induction a as [|x a IH]; autorewrite with str; simpl; [done|]. by rewrite IH. Qed.

Lemma substring_app_r (p s : string) n :
  String.substring (String.length p) n (p +:+ s) = String.substring 0 n s.
Proof. induction p as [|c p IH]; autorewrite with str; [done|]. apply IH. Qed.

Lemma substring_prefix (a s : string) :
  String.substring 0 (String.length a) (a +:+ s) = a.
Proof.
  induction a as [|c a IH]; autorewrite with str; simpl; [by destruct s|]. by rewrite IH.
Qed.

Lemma substring_full (s : string) : String.substring 0 (String.length s) s = s.
Proof. induction s as [|c s IH]; simpl; [done|]. by rewrite IH. Qed.

Lemma str_find_skip c (p s : string) :
  str_find c (p +:+ s) (String.length p) = Nat.add (String.length p) <$> str_find c s 0.
Proof.
  unfold str_find. induction p as [|d p IH]; autorewrite with str.
  - simpl. by destruct (String.index 0 (String c "") s).
  - change (String.length (String d p)) with (S (String.length p)).
    simpl. simpl in IH. rewrite IH. by destruct (String.index 0 (String c "") s).
Qed.

Lemma str_find_first c (a s : string) :
  no_char c a = true → str_find c (a +:+ String c s) 0 = Some (String.length a).
Proof.
  unfold str_find. induction a as [|d a IH]; autorewrite with str; simpl.
  - intros _. destruct (Ascii.ascii_dec c c); [by destruct s|done].
  - intros [Hd Ha]%andb_true_iff. apply negb_true_iff, Ascii.eqb_neq in Hd.
    destruct (Ascii.ascii_dec c d); [done|]. simpl in IH. by rewrite IH.
Qed.

Lemma string_app_inv_l (p a b : string) : p +:+ a = p +:+ b → a = b.
Proof. apply (inj (String.append p)). Qed.

(** A prefix free of [c] followed by [c] determines the split. *)
Lemma no_char_split c (a a' s s' : string) :
  no_char c a = true → no_char c a' = true →
  a +:+ String c s = a' +:+ String c s' → a = a' ∧ s = s'.
Proof.
  revert a'. induction a as [|d a IH]; intros [|d' a'] H H' E;
    autorewrite with str in E; simpl in *.
  - by simplify_eq.
  - simplify_eq. apply andb_true_iff in H' as [H' _]. by rewrite Ascii.eqb_refl in H'.
  - simplify_eq. apply andb_true_iff in H as [H _]. by rewrite Ascii.eqb_refl in H.
  - apply andb_true_iff in H as [_ H]. apply andb_true_iff in H' as [_ H'].
    simplify_eq. destruct (IH a' H H') as [-> ->]; done.
Qed.

Lemma no_char_app c a b : no_char c (a +:+ b) = no_char c a && no_char c b.
Proof. induction a as [|d a IH]; [done|]. autorewrite with str. cbn [no_char]. by rewrite IH, andb_assoc. Qed.

Lemma str_find_none c s : no_char c s = true → str_find c s 0 = None.
Proof.
  unfold str_find. induction s as [|d s IH]; simpl; [done|]. intros [Hd Hs]%andb_true_iff.
  apply negb_true_iff, Ascii.eqb_neq in Hd. destruct (Ascii.ascii_dec c d); [done|].
  simpl in IH. by rewrite IH.
Qed.

Lemma string_app_empty (a : string) : a +:+ "" = a.
Proof. induction a as [|c a IH]; [done|]. autorewrite with str. by rewrite IH. Qed.

Lemma prefix_inv p s : String.prefix p s = true → ∃ t, s = p +:+ t.
Proof.
  revert s. induction p as [|c p IH]; intros s H; [by exists s|].
  destruct s as [|d s]; [done|]. simpl in H. destruct (Ascii.ascii_dec c d) as [->|]; [|done].
  destruct (IH s H) as [t ->]. by exists t.
Qed.
