(* ===== verification/Prog.v ===== *)
(** * Programs with effects

    Lua scripts and C++ coroutines are modelled as trees of the calls they make:
    [prog E A] is a program that performs events of type [E X] (each answered
    by an [X]) and returns an [A].  [Throw] is a raised Lua error or an uncaught
    C++ exception: it abandons the rest of the program, keeping the effects made
    so far.  A handler interprets the events over a state; [run] executes the
    whole program against one. *)

From S2P Require Import Prelude.

Inductive prog (E : Type → Type) (A : Type) : Type :=
| Ret (a : A)
| Throw
| Vis (X : Type) (e : E X) (k : X → prog E A).
Arguments Ret {E A} a.
Arguments Throw {E A}.
Arguments Vis {E A X} e k.

Fixpoint pbind {E A B} (p : prog E A) (f : A → prog E B) : prog E B :=
  match p with
  | Ret a => f a
  | Throw => Throw
  | Vis e k => Vis e (λ x, pbind (k x) f)
  end.

(** One event. *)
Definition trigger {E X} (e : E X) : prog E X := Vis e Ret.

Declare Scope prog_scope.
Delimit Scope prog_scope with prog.
Notation "'let*' x ':=' c 'in' k" := (pbind c (λ x, k))
  (at level 100, x name, c at next level, k at level 200, right associativity) : prog_scope.
Notation "'let*' ' p ':=' c 'in' k" := (pbind c (λ x, match x with p => k end))
  (at level 100, p pattern, c at next level, k at level 200, right associativity) : prog_scope.
Notation "c ;; k" := (pbind c (λ _, k))
  (at level 100, right associativity) : prog_scope.
#[global] Open Scope prog_scope.

(** [for _, x in ipairs(l) do ... end], with an accumulator for the variables
    the body assigns. *)
Fixpoint pfold {E A S} (f : S → A → prog E S) (l : list A) (s : S) : prog E S :=
  match l with
  | [] => Ret s
  | x :: l' => let* s' := f s x in pfold f l' s'
  end.

(** The same program over a larger set of events. *)
Fixpoint plift {E F : Type → Type} {A} (f : ∀ X, E X → F X) (p : prog E A) : prog F A :=
  match p with
  | Ret a => Ret a
  | Throw => Throw
  | Vis e k => Vis (f _ e) (λ x, plift f (k x))
  end.

(** A handler answers an event and updates the state; [None] raises. *)
Definition handler (E : Type → Type) (S : Type) : Type := ∀ X, E X → S → option X * S.

Fixpoint run {E S A} (h : handler E S) (p : prog E A) (s : S) : option A * S :=
  match p with
  | Ret a => (Some a, s)
  | Throw => (None, s)
  | Vis e k =>
      match h _ e s with
      | (Some x, s') => run h (k x) s'
      | (None, s') => (None, s')
      end
  end.

Section run.
Context {E : Type → Type} {S : Type} (h : handler E S).

Lemma run_bind {A B} (p : prog E A) (f : A → prog E B) s :
  run h (pbind p f) s =
    match run h p s with
    | (Some a, s') => run h (f a) s'
    | (None, s') => (None, s')
    end.
Proof.
  revert s. induction p as [a| |X e k IH]; intros s; simpl; [done..|].
  destruct (h X e s) as [[x|] s']; [apply IH|done].
Qed.

Lemma run_trigger_bind {X B} (e : E X) (f : X → prog E B) s :
  run h (pbind (trigger e) f) s =
    match h X e s with
    | (Some x, s') => run h (f x) s'
    | (None, s') => (None, s')
    end.
Proof. done. Qed.
End run.

(** ** Simulation of handlers

    When every answer of [h1] is the answer [h2] gives on the abstracted state,
    whole runs agree: a program proved correct against [h2] is correct against
    any [h1] that implements it. *)
Section simulation.
Context {E : Type → Type} {S1 S2 : Type}.
Context (h1 : handler E S1) (h2 : handler E S2) (abs : S1 → S2).
Context (Hsim : ∀ X (e : E X) s,
  h2 X e (abs s) = ((h1 X e s).1, abs (h1 X e s).2)).

Lemma run_simulates {A} (p : prog E A) s :
  run h2 p (abs s) = ((run h1 p s).1, abs (run h1 p s).2).
Proof using Hsim.
  revert s. induction p as [a| |X e k IH]; intros s; simpl; [done..|].
  rewrite Hsim. destruct (h1 X e s) as [[x|] s']; simpl; [apply IH|done].
Qed.
End simulation.

(** ** Weakest preconditions

    [wp h p Q s]: from [s] the program returns normally with a result and a
    state that satisfy [Q]. *)
Definition wp {E S A} (h : handler E S) (p : prog E A) (Q : A → S → Prop) (s : S) : Prop :=
  match run h p s with
  | (Some a, s') => Q a s'
  | (None, _) => False
  end.

Section wp.
Context {E : Type → Type} {S : Type} (h : handler E S).

Lemma wp_ret {A} (a : A) (Q : A → S → Prop) s : Q a s → wp h (Ret a) Q s.
Proof. done. Qed.

Lemma wp_bind {A B} (p : prog E A) (f : A → prog E B) Q s :
  wp h p (λ a s', wp h (f a) Q s') s → wp h (pbind p f) Q s.
Proof.
  unfold wp. rewrite run_bind. destruct (run h p s) as [[a|] s']; done.
Qed.

Lemma wp_event {X} (e : E X) (Q : X → S → Prop) s x s' :
  h X e s = (Some x, s') → Q x s' → wp h (trigger e) Q s.
Proof. intros He HQ. unfold wp. simpl. by rewrite He. Qed.

Lemma wp_mono {A} (p : prog E A) (Q Q' : A → S → Prop) s :
  (∀ a s', Q a s' → Q' a s') → wp h p Q s → wp h p Q' s.
Proof. unfold wp. destruct (run h p s) as [[a|] s']; naive_solver. Qed.

(** A loop that keeps an invariant of its accumulator and of the state, indexed
    by the elements still to do. *)
Lemma wp_fold {A T} (f : T → A → prog E T) (I : list A → T → S → Prop) l t s :
  (∀ x l' t' s', I (x :: l') t' s' → wp h (f t' x) (λ t'' s'', I l' t'' s'') s') →
  I l t s → wp h (pfold f l t) (λ t' s', I [] t' s') s.
Proof.
  intros Hstep. revert t s. induction l as [|x l IH]; intros t s HI; [by apply wp_ret|].
  simpl. apply wp_bind. eapply wp_mono; [|by apply Hstep]. intros t' s' HI'. by apply IH.
Qed.

Lemma wp_run {A} (p : prog E A) (Q : A → S → Prop) s :
  wp h p Q s → ∃ a s', run h p s = (Some a, s') ∧ Q a s'.
Proof. unfold wp. destruct (run h p s) as [[a|] s']; naive_solver. Qed.
End wp.

(** Sequencing is taken apart with [wp_bind] and [run_bind], not by [simpl]. *)
#[global] Arguments pbind : simpl never.
