(* ===== verification/RedisServer.v ===== *)
(** * The Redis server

    Redis is a service the program talks to; its code is not part of the
    repository.  [redis_cmd] lists the commands the program issues, each with
    the type of its reply.  A server is a parameter of the model: a type of
    server states with a handler for the commands ([RedisServer]).  What the
    program relies on is the documented behaviour of each command, stated over
    the documented data model (a keyspace of typed values with expiry times and
    a clock): [redis_doc].  The class demands that the server answers as
    documented.

    Sorted-set scores are integers here: the program only stores priorities and
    millisecond time stamps, which a double represents exactly. *)

From S2P Require Import Prelude.
From S2P Require Import Prog.

Inductive rvalue : Type :=
| RStr (v : string)
| RHash (h : gmap string string)
| RZset (z : gmap string Z)
| RList (l : list string)
| RSet (m : gset string)
| RStream (entries : list ((Z * Z) * list (string * string))) (last : Z * Z).

(** A keyspace entry: a value and an optional expiry time.  Times are in
    microseconds since the epoch. *)
Record rstate : Type := mkR {
  r_keys : gmap string (rvalue * option Z);
  r_clock : Z
}.

Inductive set_cond := SetAlways | SetNX | SetXX.
Inductive set_ttl := NoTtl | ExSec (seconds : Z) | KeepTtl.

Inductive redis_cmd : Type → Type :=
| HGET (k f : string) : redis_cmd (option string)
| HSET (k : string) (fvs : list (string * string)) : redis_cmd Z
| HGETALL (k : string) : redis_cmd (gmap string string)
| HINCRBY (k f : string) (n : Z) : redis_cmd Z
| ZADD (k : string) (score : Z) (m : string) : redis_cmd Z
| ZADD_NX (k : string) (ms : list (string * Z)) : redis_cmd Z
| ZREM (k : string) (ms : list string) : redis_cmd Z
| ZPOPMAX (k : string) : redis_cmd (option (string * Z))
| BZPOPMAX (k : string) : redis_cmd (option (string * Z))
| ZCARD (k : string) : redis_cmd Z
| ZRANGEBYSCORE_FIRST (k : string) (max : Z) : redis_cmd (option string)
| LRANGE_ALL (k : string) : redis_cmd (list string)
| RPUSH (k : string) (vs : list string) : redis_cmd Z
| LPOP (k : string) : redis_cmd (option string)
| LLEN (k : string) : redis_cmd Z
| DEL (k : string) : redis_cmd Z
| EXISTS (k : string) : redis_cmd Z
| TYPE (k : string) : redis_cmd string
| SET (k v : string) (c : set_cond) (t : set_ttl) : redis_cmd bool
| GET (k : string) : redis_cmd (option string)
| MGET (ks : list string) : redis_cmd (list (option string))
| INCR (k : string) : redis_cmd Z
| DECR (k : string) : redis_cmd Z
| EXPIRE (k : string) (seconds : Z) : redis_cmd Z
| SADD (k m : string) : redis_cmd Z
| SREM (k m : string) : redis_cmd Z
| SCARD (k : string) : redis_cmd Z
| SMEMBERS (k : string) : redis_cmd (gset string)
| XADD (k : string) (fvs : list (string * string)) : redis_cmd string
| XRANGE_FIRST (k : string) : redis_cmd (option (string * list (string * string)))
| XDEL (k id : string) : redis_cmd Z
| XLEN (k : string) : redis_cmd Z
| PUBLISH (ch msg : string) : redis_cmd unit
| TIME : redis_cmd (Z * Z).

(** A Lua script: a program whose events are its [redis.call]s. *)
Abbreviation lua := (prog redis_cmd).
Abbreviation call := (@trigger redis_cmd _).

(** ** Reading and writing the keyspace *)

Definition live (s : rstate) (e : rvalue * option Z) : bool :=
  match e.2 with
  | None => true
  | Some t => r_clock s <? t
  end.

(** The value of a key; an expired key is absent. *)
Definition look (s : rstate) (k : string) : option rvalue :=
  match r_keys s !! k with
  | Some e => if live s e then Some e.1 else None
  | None => None
  end.

Definition ttl_at (s : rstate) (k : string) : option Z :=
  match r_keys s !! k with
  | Some e => if live s e then e.2 else None
  | None => None
  end.

(** Write a value, keeping the key's expiry time. *)
Definition put (k : string) (v : rvalue) (s : rstate) : rstate :=
  mkR (<[k := (v, ttl_at s k)]> (r_keys s)) (r_clock s).
Definition put_ttl (k : string) (v : rvalue) (t : option Z) (s : rstate) : rstate :=
  mkR (<[k := (v, t)]> (r_keys s)) (r_clock s).
Definition del (k : string) (s : rstate) : rstate :=
  mkR (delete k (r_keys s)) (r_clock s).

(** Typed access: an absent key reads as the empty container; [None] is the
    WRONGTYPE error. *)
Definition hash_at (s : rstate) (k : string) : option (gmap string string) :=
  match look s k with
  | None => Some ∅ | Some (RHash h) => Some h | Some _ => None
  end.
Definition zset_at (s : rstate) (k : string) : option (gmap string Z) :=
  match look s k with
  | None => Some ∅ | Some (RZset z) => Some z | Some _ => None
  end.
Definition list_at (s : rstate) (k : string) : option (list string) :=
  match look s k with
  | None => Some [] | Some (RList l) => Some l | Some _ => None
  end.
Definition set_at (s : rstate) (k : string) : option (gset string) :=
  match look s k with
  | None => Some ∅ | Some (RSet m) => Some m | Some _ => None
  end.
Definition str_at (s : rstate) (k : string) : option (option string) :=
  match look s k with
  | None => Some None | Some (RStr v) => Some (Some v) | Some _ => None
  end.
Definition stream_at (s : rstate) (k : string) :
  option (list ((Z * Z) * list (string * string)) * (Z * Z)) :=
  match look s k with
  | None => Some ([], (0, 0)) | Some (RStream l last) => Some (l, last) | Some _ => None
  end.

(** Containers that become empty are removed. *)
Definition put_zset (k : string) (z : gmap string Z) (s : rstate) : rstate :=
  if decide (z = ∅) then del k s else put k (RZset z) s.
Definition put_set (k : string) (m : gset string) (s : rstate) : rstate :=
  if decide (m = ∅) then del k s else put k (RSet m) s.

(** ** Values *)

(** A string that Redis accepts as an integer: the canonical numeral of a
    64-bit integer. *)
Definition redis_int (v : string) : option Z :=
  z ← parse_int v;
  if decide (to_str z = v) then if in_int64 z then Some z else None else None.

Definition hset_fields (fvs : list (string * string)) (h : gmap string string) :
  gmap string string :=
  foldl (λ h fv, <[fv.1 := fv.2]> h) h fvs.

Definition zadd_nx (ms : list (string * Z)) (z : gmap string Z) : gmap string Z :=
  foldl (λ z ms, match z !! ms.1 with Some _ => z | None => <[ms.1 := ms.2]> z end) z ms.

Definition zrem (ms : list string) (z : gmap string Z) : gmap string Z :=
  foldl (λ z m, delete m z) z ms.

(** The order of a sorted set: by score, ties by member. *)
Definition zle (a b : string * Z) : bool :=
  (a.2 <? b.2) || ((a.2 =? b.2) && String.leb a.1 b.1).

Definition pick (better : string * Z → string * Z → bool) (l : list (string * Z)) :
  option (string * Z) :=
  foldr (λ x acc,
    match acc with
    | None => Some x
    | Some y => if better x y then Some x else Some y
    end) None l.

Definition zmax (z : gmap string Z) : option (string * Z) :=
  pick (λ x y, zle y x) (map_to_list z).
Definition zmin_upto (max : Z) (z : gmap string Z) : option (string * Z) :=
  pick zle (List.filter (λ x, x.2 <=? max) (map_to_list z)).

Definition stream_id (id : Z * Z) : string := to_str id.1 +:+ "-" +:+ to_str id.2.

Definition next_stream_id (clock : Z) (last : Z * Z) : Z * Z :=
  let ms := clock `div` 1000 in
  if last.1 <? ms then (ms, 0) else (last.1, last.2 + 1).

Definition type_name (v : rvalue) : string :=
  match v with
  | RStr _ => "string" | RHash _ => "hash" | RZset _ => "zset"
  | RList _ => "list" | RSet _ => "set" | RStream _ _ => "stream"
  end.

Definition expiry (s : rstate) (t : set_ttl) (k : string) : option Z :=
  match t with
  | NoTtl => None
  | ExSec n => Some (r_clock s + n * 1000000)
  | KeepTtl => ttl_at s k
  end.

(** INCR / DECR. *)
Definition incr_by (k : string) (n : Z) (s : rstate) : option Z * rstate :=
  match str_at s k with
  | None => (None, s)
  | Some o =>
      match redis_int (default "0" o) with
      | None => (None, s)
      | Some z =>
          if in_int64 (z + n) then (Some (z + n), put k (RStr (to_str (z + n))) s)
          else (None, s)
      end
  end.

Definition zpopmax (k : string) (s : rstate) : option (option (string * Z)) * rstate :=
  match zset_at s k with
  | None => (None, s)
  | Some z =>
      match zmax z with
      | None => (Some None, s)
      | Some (m, sc) => (Some (Some (m, sc)), put_zset k (delete m z) s)
      end
  end.

(** ** Documented behaviour of the commands

    [(None, s)] is an error reply, which leaves the keyspace as it was. *)
Definition redis_doc : handler redis_cmd rstate := λ X c s,
  match c in redis_cmd X return option X * rstate with
  | HGET k f =>
      match hash_at s k with
      | Some h => (Some (h !! f), s) | None => (None, s)
      end
  | HSET k fvs =>
      match hash_at s k with
      | Some h =>
          let h' := hset_fields fvs h in
          (Some (Z.of_nat (size h') - Z.of_nat (size h)), put k (RHash h') s)
      | None => (None, s)
      end
  | HGETALL k =>
      match hash_at s k with
      | Some h => (Some h, s) | None => (None, s)
      end
  | HINCRBY k f n =>
      match hash_at s k with
      | Some h =>
          match redis_int (default "0" (h !! f)) with
          | Some z =>
              if in_int64 (z + n)
              then (Some (z + n), put k (RHash (<[f := to_str (z + n)]> h)) s)
              else (None, s)
          | None => (None, s)
          end
      | None => (None, s)
      end
  | ZADD k score m =>
      match zset_at s k with
      | Some z =>
          (Some (if z !! m is Some _ then 0 else 1), put_zset k (<[m := score]> z) s)
      | None => (None, s)
      end
  | ZADD_NX k ms =>
      match zset_at s k with
      | Some z =>
          let z' := zadd_nx ms z in
          (Some (Z.of_nat (size z') - Z.of_nat (size z)), put_zset k z' s)
      | None => (None, s)
      end
  | ZREM k ms =>
      match zset_at s k with
      | Some z =>
          let z' := zrem ms z in
          (Some (Z.of_nat (size z) - Z.of_nat (size z')), put_zset k z' s)
      | None => (None, s)
      end
  | ZPOPMAX k => zpopmax k s
  | BZPOPMAX k => zpopmax k s
  | ZCARD k =>
      match zset_at s k with
      | Some z => (Some (Z.of_nat (size z)), s) | None => (None, s)
      end
  | ZRANGEBYSCORE_FIRST k max =>
      match zset_at s k with
      | Some z => (Some (fst <$> zmin_upto max z), s) | None => (None, s)
      end
  | LRANGE_ALL k =>
      match list_at s k with
      | Some l => (Some l, s) | None => (None, s)
      end
  | RPUSH k vs =>
      match list_at s k with
      | Some l => (Some (Z.of_nat (length (l ++ vs))), put k (RList (l ++ vs)) s)
      | None => (None, s)
      end
  | LPOP k =>
      match list_at s k with
      | Some (x :: l) => (Some (Some x), if l is [] then del k s else put k (RList l) s)
      | Some [] => (Some None, s)
      | None => (None, s)
      end
  | LLEN k =>
      match list_at s k with
      | Some l => (Some (Z.of_nat (length l)), s) | None => (None, s)
      end
  | DEL k => (Some (if look s k is Some _ then 1 else 0), del k s)
  | EXISTS k => (Some (if look s k is Some _ then 1 else 0), s)
  | TYPE k => (Some (if look s k is Some v then type_name v else "none"), s)
  | SET k v c t =>
      let present := if look s k is Some _ then true else false in
      if (if t is ExSec n then n <=? 0 else false) then (None, s)
      else
        if (match c with SetAlways => true | SetNX => negb present | SetXX => present end)
        then (Some true, put_ttl k (RStr v) (expiry s t k) s)
        else (Some false, s)
  | GET k => (str_at s k, s)
  | MGET ks => (Some ((λ k, default None (str_at s k)) <$> ks), s)
  | INCR k => incr_by k 1 s
  | DECR k => incr_by k (-1) s
  | EXPIRE k n =>
      match look s k with
      | Some v =>
          (Some 1, if n <=? 0 then del k s
                   else put_ttl k v (Some (r_clock s + n * 1000000)) s)
      | None => (Some 0, s)
      end
  | SADD k m =>
      match set_at s k with
      | Some ms => (Some (if decide (m ∈ ms) then 0 else 1), put_set k ({[m]} ∪ ms) s)
      | None => (None, s)
      end
  | SREM k m =>
      match set_at s k with
      | Some ms => (Some (if decide (m ∈ ms) then 1 else 0), put_set k (ms ∖ {[m]}) s)
      | None => (None, s)
      end
  | SCARD k =>
      match set_at s k with
      | Some ms => (Some (Z.of_nat (size ms)), s) | None => (None, s)
      end
  | SMEMBERS k =>
      match set_at s k with
      | Some ms => (Some ms, s) | None => (None, s)
      end
  | XADD k fvs =>
      match stream_at s k with
      | Some (l, last) =>
          let id := next_stream_id (r_clock s) last in
          (Some (stream_id id), put k (RStream (l ++ [(id, fvs)]) id) s)
      | None => (None, s)
      end
  | XRANGE_FIRST k =>
      match stream_at s k with
      | Some (l, _) => (Some ((λ e, (stream_id e.1, e.2)) <$> head l), s)
      | None => (None, s)
      end
  | XDEL k id =>
      match stream_at s k with
      | Some (l, last) =>
          let l' := List.filter (λ e, negb (String.eqb (stream_id e.1) id)) l in
          (Some (Z.of_nat (length l) - Z.of_nat (length l')),
           if look s k is Some _ then put k (RStream l' last) s else s)
      | None => (None, s)
      end
  | XLEN k =>
      match stream_at s k with
      | Some (l, _) => (Some (Z.of_nat (length l)), s) | None => (None, s)
      end
  | PUBLISH _ _ => (Some tt, s)
  | TIME => (Some (r_clock s `div` 1000000, r_clock s `mod` 1000000), s)
  end.

(** ** Servers *)

Class RedisServer (R : Type) : Type := {
  redis_exec : handler redis_cmd R;
  redis_state : R → rstate;
  redis_documented : ∀ X (c : redis_cmd X) (r : R),
    redis_doc X c (redis_state r) = ((redis_exec X c r).1, redis_state (redis_exec X c r).2)
}.

(** EVAL runs a script to completion, with no other command in between. *)
Definition redis_eval `{RedisServer R} {A} (p : lua A) (r : R) : option A * R :=
  run redis_exec p r.

(** The data model is itself a server: the class is inhabited. *)
#[global, program] Instance doc_server : RedisServer rstate := {|
  redis_exec := redis_doc; redis_state := λ s, s
|}.
Next Obligation. intros X c r. by destruct (redis_doc X c r). Qed.

(** A script on any server behaves as the documented commands say. *)
Lemma redis_eval_doc `{RedisServer R} {A} (p : lua A) (r : R) :
  run redis_doc p (redis_state r) = ((redis_eval p r).1, redis_state (redis_eval p r).2).
Proof. apply run_simulates. apply redis_documented. Qed.

Lemma redis_eval_wp `{RedisServer R} {A} (p : lua A) (Q : A → rstate → Prop) (r : R) :
  wp redis_doc p Q (redis_state r) →
  ∃ a, (redis_eval p r).1 = Some a ∧ Q a (redis_state (redis_eval p r).2).
Proof.
  unfold wp. rewrite redis_eval_doc. destruct (redis_eval p r).1; naive_solver.
Qed.

(** ** Lemmas on the keyspace *)

Lemma live_put k v s e : live (put k v s) e = live s e.
Proof. done. Qed.

Lemma look_put k k' v s : look (put k v s) k' = if decide (k = k') then Some v else look s k'.
Proof.
  unfold look, put; simpl. rewrite lookup_insert. case_decide; [|done].
  subst. unfold live, ttl_at; simpl.
  destruct (r_keys s !! k') as [[v0 [t|]]|]; simpl; [|done..].
  unfold live; simpl. destruct (r_clock s <? t) eqn:E; [by rewrite E|done].
Qed.

Lemma look_put_eq k v s : look (put k v s) k = Some v.
Proof. rewrite look_put. by case_decide. Qed.
Lemma look_put_ne k k' v s : k ≠ k' → look (put k v s) k' = look s k'.
Proof. intros. rewrite look_put. by case_decide. Qed.
Lemma look_del_eq k s : look (del k s) k = None.
Proof. unfold look, del; simpl. by rewrite lookup_delete_eq. Qed.
Lemma look_del_ne k k' s : k ≠ k' → look (del k s) k' = look s k'.
Proof. intros. unfold look, del; simpl. by rewrite lookup_delete_ne. Qed.

Lemma look_put_ttl k k' v t s :
  (if t is Some t0 then r_clock s <? t0 else true) = true →
  look (put_ttl k v t s) k' = if decide (k = k') then Some v else look s k'.
Proof.
  intros Ht. unfold look, put_ttl; simpl. rewrite lookup_insert. case_decide; [|done].
  unfold live; simpl. by destruct t; [rewrite Ht|].
Qed.

Lemma look_put_zset_ne k k' z s : k ≠ k' → look (put_zset k z s) k' = look s k'.
Proof. intros. unfold put_zset. case_decide; [by apply look_del_ne|by apply look_put_ne]. Qed.
Lemma look_put_set_ne k k' z s : k ≠ k' → look (put_set k z s) k' = look s k'.
Proof. intros. unfold put_set. case_decide; [by apply look_del_ne|by apply look_put_ne]. Qed.

(** What two states agree on, key by key, their typed reads agree on. *)
Lemma hash_at_look s s' k : look s' k = look s k → hash_at s' k = hash_at s k.
Proof. unfold hash_at. by intros ->. Qed.
Lemma zset_at_look s s' k : look s' k = look s k → zset_at s' k = zset_at s k.
Proof. unfold zset_at. by intros ->. Qed.
Lemma list_at_look s s' k : look s' k = look s k → list_at s' k = list_at s k.
Proof. unfold list_at. by intros ->. Qed.
Lemma set_at_look s s' k : look s' k = look s k → set_at s' k = set_at s k.
Proof. unfold set_at. by intros ->. Qed.
Lemma str_at_look s s' k : look s' k = look s k → str_at s' k = str_at s k.
Proof. unfold str_at. by intros ->. Qed.

Lemma hash_at_put k h s : hash_at (put k (RHash h) s) k = Some h.
Proof. unfold hash_at. by rewrite look_put_eq. Qed.
Lemma zset_at_put k z s : zset_at (put_zset k z s) k = Some z.
Proof.
  unfold zset_at, put_zset. case_decide; subst; [by rewrite look_del_eq|by rewrite look_put_eq].
Qed.
Lemma set_at_put k z s : set_at (put_set k z s) k = Some z.
Proof.
  unfold set_at, put_set. case_decide; subst; [by rewrite look_del_eq|by rewrite look_put_eq].
Qed.
Lemma list_at_put k l s : list_at (put k (RList l) s) k = Some l.
Proof. unfold list_at. by rewrite look_put_eq. Qed.
Lemma list_at_del k s : list_at (del k s) k = Some [].
Proof. unfold list_at. by rewrite look_del_eq. Qed.

Lemma clock_put_zset k z s : r_clock (put_zset k z s) = r_clock s.
Proof. unfold put_zset. by case_decide. Qed.
Lemma clock_put_set k z s : r_clock (put_set k z s) = r_clock s.
Proof. unfold put_set. by case_decide. Qed.

(** ** Integers stored in fields *)

Lemma redis_int_to_str z : in_int64 z = true → redis_int (to_str z) = Some z.
Proof.
  intros H. unfold redis_int. rewrite parse_int_pretty. simpl.
  by rewrite decide_True, H by done.
Qed.

Lemma redis_int_Some v z : redis_int v = Some z → v = to_str z ∧ in_int64 z = true.
Proof.
  unfold redis_int. destruct (parse_int v) as [z'|]; simpl; [|done].
  case_decide; [|done]. destruct (in_int64 z') eqn:E; [|done]. naive_solver.
Qed.

(** ** Sorted sets *)

Lemma pick_None better l : pick better l = None ↔ l = [].
Proof.
  split; [|by intros ->]. destruct l as [|x l]; [done|]. simpl.
  destruct (pick better l); [destruct (better x p)|]; done.
Qed.

Lemma pick_elem better l x : pick better l = Some x → x ∈ l.
Proof.
  revert x. induction l as [|y l IH]; intros x; simpl; [done|].
  destruct (pick better l) as [z|].
  - destruct (better y z); intros [= <-]; [set_solver|]. apply list_elem_of_further, IH, eq_refl.
  - intros [= <-]. set_solver.
Qed.

Lemma zmax_Some z m sc : zmax z = Some (m, sc) → z !! m = Some sc.
Proof. intros H%pick_elem. by apply elem_of_map_to_list. Qed.

Lemma zmax_None z : zmax z = None ↔ z = ∅.
Proof. unfold zmax. rewrite pick_None. apply map_to_list_empty_iff. Qed.

Lemma zle_score a b : zle a b = true → a.2 ≤ b.2.
Proof. unfold zle. intros [?|[? _]%andb_true_iff]%orb_true_iff; lia. Qed.

Lemma zle_false a b : zle a b = false → b.2 ≤ a.2.
Proof. unfold zle. intros [? _]%orb_false_iff. lia. Qed.

Lemma pick_best better l x y :
  (∀ a b, better a b = true → b.2 ≤ a.2) → (∀ a b, better a b = false → a.2 ≤ b.2) →
  pick better l = Some x → y ∈ l → y.2 ≤ x.2.
Proof.
  intros Ht Hf. revert x. induction l as [|z l IH]; intros x; [by intros; set_solver|].
  simpl. destruct (pick better l) as [w|] eqn:E.
  - destruct (better z w) eqn:B; intros [= <-] [->|Hy]%elem_of_cons; try lia.
    + apply Ht in B. specialize (IH w eq_refl Hy). lia.
    + by apply Hf in B.
    + by apply IH.
  - intros [= <-] Hy. apply pick_None in E as ->.
    apply list_elem_of_singleton in Hy as ->. lia.
Qed.

(** ZPOPMAX returns a member of the highest score. *)
Lemma zmax_best z m sc m' sc' : zmax z = Some (m, sc) → z !! m' = Some sc' → sc' ≤ sc.
Proof.
  intros H H'%elem_of_map_to_list.
  apply (pick_best (λ x y, zle y x) (map_to_list z) (m, sc) (m', sc')); [..|done|done];
    intros a b; [apply zle_score|apply zle_false].
Qed.

Lemma zmin_upto_Some max z m sc :
  zmin_upto max z = Some (m, sc) → z !! m = Some sc ∧ sc ≤ max.
Proof.
  intros H%pick_elem%list_elem_of_In%filter_In. destruct H as [H%list_elem_of_In Hle].
  apply elem_of_map_to_list in H. split; [done|]. simpl in Hle. lia.
Qed.

Lemma zmin_upto_None max z :
  zmin_upto max z = None → ∀ m sc, z !! m = Some sc → max < sc.
Proof.
  intros H%pick_None m sc Hm%elem_of_map_to_list.
  destruct (Z.ltb_spec max sc); [done|]. exfalso.
  assert (In (m, sc) (List.filter (λ x, x.2 <=? max) (map_to_list z))) as Hin.
  { apply filter_In. split; [by apply list_elem_of_In|]. simpl. lia. }
  by rewrite H in Hin.
Qed.
