(* ===== verification/Models.v ===== *)
(** * Data model: status enumerations, status codes, records

    include/database_models.h, include/flow_pilot_error_msgs.h,
    include/client_config.h, include/admission_types.h and the structures of
    include/redis_db_async.h.  Each C++ scoped enumeration is a module with its
    enumerators; [to_int] and [from_int] are the casts to and from the
    underlying integer. *)

From S2P Require Import Prelude.

Module ClientStatus.
Inductive t := ACTIVE | SUSPENDED | DISABLED | PENDING | DELETED | UNKNOWN.
#[global] Instance eq_dec : EqDecision t.
Proof. solve_decision. Defined.

Definition to_int (st : t) : Z :=
  match st with
  | ACTIVE => 0 | SUSPENDED => 1 | DISABLED => 2 | PENDING => 3 | DELETED => 4
  | UNKNOWN => 5
  end.

Definition from_int (val : Z) : t :=
  if (0 <=? val) && (val <? to_int UNKNOWN) then
    if val =? 0 then ACTIVE else if val =? 1 then SUSPENDED
    else if val =? 2 then DISABLED else if val =? 3 then PENDING else DELETED
  else UNKNOWN.

Definition from_string (str : string) : t :=
  if String.eqb str "ACTIVE" then ACTIVE
  else if String.eqb str "SUSPENDED" then SUSPENDED
  else if String.eqb str "DISABLED" then DISABLED
  else if String.eqb str "PENDING" then PENDING
  else if String.eqb str "DELETED" then DELETED
  else UNKNOWN.

Definition to_string (st : t) : string :=
  match st with
  | ACTIVE => "ACTIVE" | SUSPENDED => "SUSPENDED" | DISABLED => "DISABLED"
  | PENDING => "PENDING" | DELETED => "DELETED" | UNKNOWN => "UNKNOWN"
  end.
End ClientStatus.

Module RequestStatus.
Inductive t := RECEIVED | REJECTED | ADMITTED | UNKNOWN.
#[global] Instance eq_dec : EqDecision t.
Proof. solve_decision. Defined.

Definition to_int (st : t) : Z :=
  match st with RECEIVED => 0 | REJECTED => 1 | ADMITTED => 2 | UNKNOWN => 3 end.

Definition from_int (val : Z) : t :=
  if (0 <=? val) && (val <? to_int UNKNOWN) then
    if val =? 0 then RECEIVED else if val =? 1 then REJECTED else ADMITTED
  else UNKNOWN.

Definition to_string (st : t) : string :=
  match st with
  | RECEIVED => "RECEIVED" | REJECTED => "REJECTED" | ADMITTED => "ADMITTED"
  | UNKNOWN => "UNKNOWN"
  end.
End RequestStatus.

Module WorkflowStatus.
Inductive t := ADMITTED | READY | RUNNING | COMPLETED | FAILED | CANCELED | UNKNOWN.
#[global] Instance eq_dec : EqDecision t.
Proof. solve_decision. Defined.

Definition to_int (st : t) : Z :=
  match st with
  | ADMITTED => 0 | READY => 1 | RUNNING => 2 | COMPLETED => 3 | FAILED => 4
  | CANCELED => 5 | UNKNOWN => 6
  end.

Definition from_int (val : Z) : t :=
  if (0 <=? val) && (val <? to_int UNKNOWN) then
    if val =? 0 then ADMITTED else if val =? 1 then READY
    else if val =? 2 then RUNNING else if val =? 3 then COMPLETED
    else if val =? 4 then FAILED else CANCELED
  else UNKNOWN.

Definition to_string (st : t) : string :=
  match st with
  | ADMITTED => "ADMITTED" | READY => "READY" | RUNNING => "RUNNING"
  | COMPLETED => "COMPLETED" | FAILED => "FAILED" | CANCELED => "CANCELED"
  | UNKNOWN => "UNKNOWN"
  end.
End WorkflowStatus.

Module JobStatus.
Inductive t :=
| PENDING | READY | QUEUED | PENDING_EXECUTION | RUNNING | RETRY_DELAY
| COMPLETED | FAILED | ABORTED | CANCELED | UNKNOWN.
#[global] Instance eq_dec : EqDecision t.
Proof. solve_decision. Defined.

Definition to_int (st : t) : Z :=
  match st with
  | PENDING => 0 | READY => 1 | QUEUED => 2 | PENDING_EXECUTION => 3 | RUNNING => 4
  | RETRY_DELAY => 5 | COMPLETED => 6 | FAILED => 7 | ABORTED => 8 | CANCELED => 9
  | UNKNOWN => 10
  end.

Definition from_int (val : Z) : t :=
  if (0 <=? val) && (val <? to_int UNKNOWN) then
    if val =? 0 then PENDING else if val =? 1 then READY else if val =? 2 then QUEUED
    else if val =? 3 then PENDING_EXECUTION else if val =? 4 then RUNNING
    else if val =? 5 then RETRY_DELAY else if val =? 6 then COMPLETED
    else if val =? 7 then FAILED else if val =? 8 then ABORTED else CANCELED
  else UNKNOWN.

Definition to_string (st : t) : string :=
  match st with
  | PENDING => "PENDING" | READY => "READY" | QUEUED => "QUEUED"
  | PENDING_EXECUTION => "PENDING_EXECUTION" | RUNNING => "RUNNING"
  | RETRY_DELAY => "RETRY_DELAY" | COMPLETED => "COMPLETED" | FAILED => "FAILED"
  | ABORTED => "ABORTED" | CANCELED => "CANCELED" | UNKNOWN => "UNKNOWN"
  end.

(** src/redis_db_async_completion.cpp, [job_status_from_string]. *)
Definition from_string (value : string) : t :=
  if String.eqb value (to_string PENDING) then PENDING
  else if String.eqb value (to_string READY) then READY
  else if String.eqb value (to_string QUEUED) then QUEUED
  else if String.eqb value (to_string PENDING_EXECUTION) then PENDING_EXECUTION
  else if String.eqb value (to_string RUNNING) then RUNNING
  else if String.eqb value (to_string RETRY_DELAY) then RETRY_DELAY
  else if String.eqb value (to_string COMPLETED) then COMPLETED
  else if String.eqb value (to_string FAILED) then FAILED
  else if String.eqb value (to_string ABORTED) then ABORTED
  else if String.eqb value (to_string CANCELED) then CANCELED
  else UNKNOWN.
End JobStatus.

(** [parse_status]: the flag says whether the value is a known status; a
    [std::stoi] exception yields [UNKNOWN]. *)
Definition parse_status {T} `{EqDecision T} (unknown : T) (from_int_fn : Z → T)
  (value : string) : T * bool :=
  match stoi value with
  | Some parsed =>
      let status := from_int_fn parsed in (status, negb (bool_decide (status = unknown)))
  | None => (unknown, false)
  end.

Module StatusCodes.
Inductive t :=
| INVALID_JSON_FORMAT | SCHEMA_VALIDATION_FAILED | CLIENT_NOT_FOUND
| WORKFLOW_SIZE_EXCEEDED | JOB_POLICY_VIOLATION | JOB_COUNT_EXCEEDED | JOB_COUNT_ZERO
| JOB_SIZE_EXCEEDED | MISSING_DEPENDENCY | DUPLICATE_DEPENDENCY | DUPLICATE_JOB_ID
| CIRCULAR_DEPENDENCY | CLIENT_POLICY_VIOLATION | INTERNAL_DB_FAILURE
| DUPLICATE_REQUEST | WORKFLOW_ID_EXISTS | RATE_LIMIT_EXCEEDED
| CONCURRENT_WORKFLOW_LIMIT_EXCEEDED | REQUEST_ADMITTED | WORKFLOW_ADMITTED
| STATUS_UPDATED_FAILURE | JOB_EXECUTION_FAILURE | OK.
#[global] Instance eq_dec : EqDecision t.
Proof. solve_decision. Defined.

(** The enumerators in order of their values. *)
Definition all : list t :=
  [ INVALID_JSON_FORMAT; SCHEMA_VALIDATION_FAILED; CLIENT_NOT_FOUND;
    WORKFLOW_SIZE_EXCEEDED; JOB_POLICY_VIOLATION; JOB_COUNT_EXCEEDED; JOB_COUNT_ZERO;
    JOB_SIZE_EXCEEDED; MISSING_DEPENDENCY; DUPLICATE_DEPENDENCY; DUPLICATE_JOB_ID;
    CIRCULAR_DEPENDENCY; CLIENT_POLICY_VIOLATION; INTERNAL_DB_FAILURE;
    DUPLICATE_REQUEST; WORKFLOW_ID_EXISTS; RATE_LIMIT_EXCEEDED;
    CONCURRENT_WORKFLOW_LIMIT_EXCEEDED; REQUEST_ADMITTED; WORKFLOW_ADMITTED;
    STATUS_UPDATED_FAILURE; JOB_EXECUTION_FAILURE; OK ].

Fixpoint index_of (c : t) (l : list t) : Z :=
  match l with
  | [] => 0
  | d :: l' => if decide (c = d) then 0 else 1 + index_of c l'
  end.

Definition to_int (c : t) : Z := index_of c all.

(** [status_code_to_string]. *)
Definition to_string (c : t) : string :=
  match c with
  | INVALID_JSON_FORMAT => "Invalid JSON format"
  | SCHEMA_VALIDATION_FAILED => "Schema validation failed"
  | CLIENT_NOT_FOUND => "Client not found"
  | WORKFLOW_SIZE_EXCEEDED => "Workflow size exceeds the maximum allowed by client's policy"
  | JOB_POLICY_VIOLATION => "Job parameter values violates client's policy constraints"
  | JOB_COUNT_EXCEEDED =>
      "Number of jobs in workflow exceeds the maximum allowed by client's policy"
  | JOB_COUNT_ZERO => "Workflow must contain at least one job"
  | JOB_SIZE_EXCEEDED =>
      "A job in the workflow exceeds the maximum allowed size by client's policy"
  | MISSING_DEPENDENCY => "A job has a missing dependency"
  | DUPLICATE_DEPENDENCY => "Duplicate dependency found for job"
  | DUPLICATE_JOB_ID => "Duplicate job ID found for job"
  | CIRCULAR_DEPENDENCY => "Circular dependency detected in workflow"
  | CLIENT_POLICY_VIOLATION => "Workflow violates client's policy constraints"
  | INTERNAL_DB_FAILURE => "Internal DB failure"
  | DUPLICATE_REQUEST => "Duplicate request"
  | WORKFLOW_ID_EXISTS => "Workflow ID already exists"
  | RATE_LIMIT_EXCEEDED => "Rate limit exceeded"
  | CONCURRENT_WORKFLOW_LIMIT_EXCEEDED => "Concurrent workflow limit exceeded"
  | REQUEST_ADMITTED => "Request was admitted"
  | WORKFLOW_ADMITTED => "Workflow was validated and admitted"
  | STATUS_UPDATED_FAILURE => "Failed to update status"
  | JOB_EXECUTION_FAILURE => "Job execution failed"
  | OK => "OK"
  end.

(** src/redis_db_async_completion.cpp, [status_code_from_string]: the value is
    parsed with [std::stoi]; a failure or an out-of-range value is an internal
    database failure. *)
Definition from_string (value : string) : t :=
  match stoi value with
  | Some parsed =>
      if (to_int INVALID_JSON_FORMAT <=? parsed) && (parsed <=? to_int OK)
      then default INTERNAL_DB_FAILURE (all !! Z.to_nat parsed)
      else INTERNAL_DB_FAILURE
  | None => INTERNAL_DB_FAILURE
  end.
End StatusCodes.

Module AdmissionStage.
Inductive t :=
| PARSE_REQUEST | GET_CLIENT_CONFIG | ADMIT_REQUEST | PERSIST_REQUEST
| VALIDATE_WORKFLOW | PERSIST_WORKFLOW | GENERATE_RUNTIME_DATA.

Definition to_int (a : t) : Z :=
  match a with
  | PARSE_REQUEST => 0 | GET_CLIENT_CONFIG => 1 | ADMIT_REQUEST => 2
  | PERSIST_REQUEST => 3 | VALIDATE_WORKFLOW => 4 | PERSIST_WORKFLOW => 5
  | GENERATE_RUNTIME_DATA => 6
  end.
End AdmissionStage.

Record ValidationResult := mkValidationResult {
  vr_valid : bool; vr_status_code : StatusCodes.t; vr_errors_msg : string }.

Record RequestData := mkRequestData {
  rq_client_id : string; rq_request_id : string; rq_workflow_id : string;
  rq_workflow_payload_size_bytes : Z; rq_operation : string;
  rq_status : RequestStatus.t; rq_reject_reason : string }.

Record WorkflowData := mkWorkflowData {
  wd_info : RequestData; wd_status : WorkflowStatus.t;
  wd_workflow_type : string; wd_workflow_version : string; wd_total_jobs : Z;
  wd_received_at : Z; wd_ready_at : Z; wd_started_at : Z; wd_completed_at : Z }.

Record WorkflowJob := mkWorkflowJob {
  wj_job_uuid : string; wj_client_id : string; wj_workflow_id : string;
  wj_job_id : string; wj_status : JobStatus.t; wj_retry_num : Z;
  wj_submitted_at : Z; wj_ready_at : Z; wj_queued_at : Z; wj_started_at : Z;
  wj_completed_at : Z }.

Record JobData := mkJobData {
  jd_job_uuid : string; jd_job_id : string; jd_status : JobStatus.t }.

Record WorkflowJobList := mkWorkflowJobList {
  wl_client_id : string; wl_workflow_id : string; wl_retry_count : Z;
  wl_jobs : list JobData }.

Record RateLimitConfig := mkRateLimitConfig {
  rl_plan_name : string; rl_max_concurrent_workflows : Z; rl_max_requests : Z;
  rl_window_sec : Z }.

Record PolicyPlan := mkPolicyPlan {
  pp_plan_name : string;
  pp_max_workflow_size_kb : Z; pp_max_jobs_in_workflow : Z; pp_max_job_size_bytes : Z;
  pp_max_workflow_runtime_sec : Z; pp_max_workflow_total_retries : Z;
  pp_max_job_runtime_sec : Z; pp_max_job_retries : Z; pp_max_concurrent_jobs : Z;
  pp_max_pending_jobs : Z;
  pp_max_job_dependencies : Z; pp_max_job_retry_delay_sec : Z;
  pp_default_retry_backoff_policy : Z; pp_max_job_priority : Z;
  pp_workflow_retention_days : Z; pp_request_retention_days : Z;
  pp_payload_retention_days : Z }.

Record ClientData := mkClientData {
  cd_client_id : string; cd_rate_limit_config_plan_name : string;
  cd_policy_plan_name : string }.

Record ClientConfig := mkClientConfig {
  cc_client_id : string; cc_rate_limit_config : RateLimitConfig;
  cc_policy_config : PolicyPlan }.

Record WorkflowIdentity := mkIdentity { client_id : string; workflow_id : string }.
#[global] Instance identity_eq_dec : EqDecision WorkflowIdentity.
Proof. solve_decision. Defined.

(** A UUID is the 128-bit number its big-endian bytes encode: their
    lexicographic order is the order of the numbers. *)
Record PrioritizedJob := mkPrioritizedJob {
  pj_job_id : string; pj_job_uuid : Z; pj_priority : Z }.

Record WorkflowRuntimeData := mkWorkflowRuntimeData {
  wr_workflow_id : string; wr_status : string; wr_max_concurrent_jobs : Z;
  wr_reserved_execution_slots : Z; wr_max_runtime_sec : Z; wr_total_jobs : Z;
  wr_pending_jobs : Z; wr_completed_jobs : Z; wr_failed_jobs : Z }.

Record JobRuntimeData := mkJobRuntimeData {
  jr_job_uuid : Z; jr_job_id : string; jr_job_name : string; jr_status : string;
  jr_remaining_dependencies : Z; jr_priority : Z; jr_timeout_sec : Z;
  jr_start_run_time : Z; jr_max_retries : Z; jr_current_retry_count : Z;
  jr_retry_delay_sec : Z; jr_payload_size_bytes : Z; jr_retry_backoff_policy : string;
  jr_successors : list string }.

Record WorkflowRuntimeInfo := mkWorkflowRuntimeInfo {
  ri_identity : WorkflowIdentity; ri_workflow : WorkflowRuntimeData;
  ri_jobs : list JobRuntimeData; ri_ready_job_list : list PrioritizedJob;
  ri_jobs_queued_for_execution : list PrioritizedJob }.

Record JobCompletionData := mkJobCompletionData {
  jc_stream_id : string; jc_identity : WorkflowIdentity; jc_job_id : string;
  jc_status : JobStatus.t; jc_error_code : StatusCodes.t }.

Definition default_completion : JobCompletionData :=
  mkJobCompletionData "" (mkIdentity "" "") "" JobStatus.UNKNOWN StatusCodes.OK.

Record JobRetryData := mkJobRetryData {
  rt_identity : WorkflowIdentity; rt_job_id : string }.

Module StartJobResult.
Inductive t :=
| FIRST_TO_START | STARTED | CANCELED_BY_WORKFLOW_STATE | ALREADY_CANCELED
| INVARIANT_VIOLATION_JOB_STATUS | INVARIANT_VIOLATION_WORKFLOW_STATUS
| INVARIANT_VIOLATION_WORKFLOW_TIME | INTERNAL_ERROR.
End StartJobResult.

(** ** Round trips *)

Lemma ClientStatus_from_to st : ClientStatus.from_int (ClientStatus.to_int st) = st.
Proof. by destruct st. Qed.
Lemma RequestStatus_from_to st : RequestStatus.from_int (RequestStatus.to_int st) = st.
Proof. by destruct st. Qed.
Lemma WorkflowStatus_from_to st : WorkflowStatus.from_int (WorkflowStatus.to_int st) = st.
Proof. by destruct st. Qed.
Lemma JobStatus_from_to st : JobStatus.from_int (JobStatus.to_int st) = st.
Proof. by destruct st. Qed.
Lemma JobStatus_string_roundtrip st : JobStatus.from_string (JobStatus.to_string st) = st.
Proof. by destruct st. Qed.
Lemma StatusCodes_string_roundtrip c :
  StatusCodes.from_string (to_str (StatusCodes.to_int c)) = c.
Proof. by destruct c; vm_compute. Qed.

Lemma JobStatus_from_to_int val :
  JobStatus.from_int val ≠ JobStatus.UNKNOWN → JobStatus.to_int (JobStatus.from_int val) = val.
Proof.
  unfold JobStatus.from_int. simpl.
  destruct ((0 <=? val) && (val <? 10)) eqn:E; [|done]. intros _.
  assert (val = 0 ∨ val = 1 ∨ val = 2 ∨ val = 3 ∨ val = 4 ∨ val = 5 ∨ val = 6 ∨ val = 7
    ∨ val = 8 ∨ val = 9) as H by lia.
  repeat destruct H as [->|H]; try done. by subst.
Qed.

#[global] Instance JobStatus_to_string_inj : Inj (=) (=) JobStatus.to_string.
Proof.
  intros a b E. rewrite <-(JobStatus_string_roundtrip a), E. apply JobStatus_string_roundtrip.
Qed.
#[global] Instance WorkflowStatus_to_string_inj : Inj (=) (=) WorkflowStatus.to_string.
Proof. by intros [] []. Qed.
