(* ===== verification/RedisKeys.v ===== *)
(** * Redis key names

    src/redis_keys.cpp, the constant keys of the redis_db_async_*.cpp files and
    the inverse of [job_key], [parse_job_key] of src/redis_db_async_retry.cpp.

    Job keys of one workflow never collide, nor do keys of different kinds of
    one workflow, whatever the identifiers are: the scripts of a workflow may
    be analysed key by key.  Keys of different workflows are distinct, and a job
    key parses back to its components, when the client and workflow identifiers
    contain no colon; with colons both fail ([job_key_colon_collision]). *)

From S2P Require Import Prelude.
From S2P Require Import Models.

Definition workflow_key (w : WorkflowIdentity) : string :=
  "fp:workflow:" +:+ client_id w +:+ ":" +:+ workflow_id w.
Definition workflow_waiting_jobs_key (w : WorkflowIdentity) : string :=
  "fp:workflow:" +:+ client_id w +:+ ":" +:+ workflow_id w +:+ ":waiting_ready".
Definition job_key (w : WorkflowIdentity) (job_id : string) : string :=
  "fp:job:" +:+ client_id w +:+ ":" +:+ workflow_id w +:+ ":" +:+ job_id.
Definition successors_key (w : WorkflowIdentity) (job_id : string) : string :=
  "fp:successors:" +:+ client_id w +:+ ":" +:+ workflow_id w +:+ ":" +:+ job_id.
Definition payload_key (w : WorkflowIdentity) (job_id : string) : string :=
  "fp:payload:" +:+ client_id w +:+ ":" +:+ workflow_id w +:+ ":" +:+ job_id.

Definition EXECUTION_QUEUE_KEY : string := "fp:execution_queue".
Definition EXECUTION_QUEUE_READY_CHANNEL : string := "fp:execution_queue:ready".
Definition JOB_COMPLETION_STREAM_KEY : string := "fp:job_completion_stream".
Definition JOB_COMPLETION_READY_CHANNEL : string := "fp:job_completion_stream:ready".
Definition JOB_RETRY_STREAM_KEY : string := "fp:job_retry_stream".
Definition JOB_RETRY_READY_CHANNEL : string := "fp:job_retry_stream:ready".

(** [parse_job_key]: [None] is the result [false]. *)
Definition parse_job_key (job_key : string) : option JobRetryData :=
  let job_key_prefix := "fp:job:" in
  if negb (starts_with job_key_prefix job_key) then None
  else
    let start := String.length job_key_prefix in
    match str_find ":" job_key start with
    | None => None
    | Some e =>
        let cid := substr job_key start (e - start) in
        let start := S e in
        match str_find ":" job_key start with
        | None => None
        | Some e =>
            let wid := substr job_key start (e - start) in
            let jid := sdrop (S e) job_key in
            if negb (str_empty cid) && negb (str_empty wid) && negb (str_empty jid)
            then Some (mkJobRetryData (mkIdentity cid wid) jid) else None
        end
    end.

(** Identifiers for which keys can be parsed back. *)
Definition plain_identity (w : WorkflowIdentity) : bool :=
  no_char ":" (client_id w) && no_char ":" (workflow_id w) &&
  negb (str_empty (client_id w)) && negb (str_empty (workflow_id w)).

(** ** One workflow *)

#[global] Instance job_key_inj w : Inj (=) (=) (job_key w).
Proof. intros a b E. unfold job_key in E. by repeat apply string_app_inv_l in E. Qed.
#[global] Instance successors_key_inj w : Inj (=) (=) (successors_key w).
Proof. intros a b E. unfold successors_key in E. by repeat apply string_app_inv_l in E. Qed.
#[global] Instance payload_key_inj w : Inj (=) (=) (payload_key w).
Proof. intros a b E. unfold payload_key in E. by repeat apply string_app_inv_l in E. Qed.

Lemma waiting_key_ne_workflow_key w : workflow_waiting_jobs_key w ≠ workflow_key w.
Proof.
  intros E%(f_equal String.length). unfold workflow_waiting_jobs_key, workflow_key in E.
  rewrite !string_length_app in E. simpl in E. lia.
Qed.

(** Keys with different literal prefixes differ; [key_ne] decides it by the
    first character on which the literals disagree. *)
Ltac key_ne :=
  try apply not_eq_sym;
  first
    [ apply waiting_key_ne_workflow_key
    | apply not_eq_sym, waiting_key_ne_workflow_key
    | let H := fresh in intros H;
      unfold workflow_key, workflow_waiting_jobs_key, job_key, successors_key, payload_key,
        EXECUTION_QUEUE_KEY, JOB_COMPLETION_STREAM_KEY, JOB_RETRY_STREAM_KEY in H;
      autorewrite with str in H; discriminate H ].

Lemma job_key_prefix_sdrop w j :
  sdrop (String.length (job_key w "")) (job_key w j) = j.
Proof.
  replace (job_key w j) with (job_key w "" +:+ j); [apply sdrop_app|].
  unfold job_key. rewrite !string_app_assoc. done.
Qed.

Lemma job_key_prefix_starts w j : starts_with (job_key w "") (job_key w j) = true.
Proof.
  unfold starts_with. replace (job_key w j) with (job_key w "" +:+ j); [apply prefix_app|].
  unfold job_key. rewrite !string_app_assoc. done.
Qed.

Lemma job_key_concat w j : job_key w "" +:+ j = job_key w j.
Proof. unfold job_key. by rewrite !string_app_assoc. Qed.

(** ** Round trip and collisions *)

Lemma parse_job_key_job_key w j :
  plain_identity w = true → str_empty j = false →
  parse_job_key (job_key w j) = Some (mkJobRetryData w j).
Proof.
  destruct w as [c d]. unfold plain_identity; simpl. rewrite !andb_true_iff.
  intros [[[Hc Hd] Hce] Hde] Hj.
  unfold parse_job_key, job_key; simpl client_id; simpl workflow_id.
  unfold starts_with. rewrite prefix_app. cbn [negb].
  set (p := "fp:job:").
  change (p +:+ c +:+ ":" +:+ d +:+ ":" +:+ j) with (p +:+ c +:+ String ":" (d +:+ ":" +:+ j)).
  rewrite (str_find_skip ":" p). rewrite str_find_first by done. cbn [fmap option_fmap option_map].
  assert (∀ s, substr (p +:+ c +:+ s) (String.length p) (String.length p + String.length c - String.length p) = c) as ->.
  { intros s. unfold substr. rewrite substring_app_r.
    replace (_ + _ - _)%nat with (String.length c) by lia. apply substring_prefix. }
  set (p2 := p +:+ c +:+ ":").
  assert (p +:+ c +:+ String ":" (d +:+ ":" +:+ j) = p2 +:+ (d +:+ String ":" j)) as ->.
  { unfold p2. rewrite !string_app_assoc. done. }
  assert (S (String.length p + String.length c) = String.length p2) as ->.
  { unfold p2. rewrite !string_length_app. simpl. lia. }
  rewrite (str_find_skip ":" p2). rewrite str_find_first by done. cbn [fmap option_fmap option_map].
  assert (substr (p2 +:+ d +:+ String ":" j) (String.length p2) (String.length p2 + String.length d - String.length p2) = d) as ->.
  { unfold substr. rewrite substring_app_r.
    replace (_ + _ - _)%nat with (String.length d) by lia. apply substring_prefix. }
  assert (sdrop (S (String.length p2 + String.length d)) (p2 +:+ d +:+ String ":" j) = j) as ->.
  { replace (p2 +:+ d +:+ String ":" j) with ((p2 +:+ d +:+ ":") +:+ j)
      by (rewrite !string_app_assoc; done).
    replace (S _) with (String.length (p2 +:+ d +:+ ":"))
      by (rewrite !string_length_app; simpl; lia).
    apply sdrop_app. }
  by rewrite Hce, Hde, Hj.
Qed.

(** Keys of different workflows are different. *)
Lemma workflow_keys_disjoint w w' j j' :
  plain_identity w = true → plain_identity w' = true →
  job_key w j = job_key w' j' → w = w' ∧ j = j'.
Proof.
  destruct w as [c d], w' as [c' d']. unfold plain_identity; simpl. rewrite !andb_true_iff.
  intros [[[Hc Hd] _] _] [[[Hc' Hd'] _] _] E. unfold job_key in E; simpl in E.
  apply string_app_inv_l in E. autorewrite with str in E.
  apply no_char_split in E as [-> E]; [|done..].
  by apply no_char_split in E as [-> ->].
Qed.

Lemma job_key_colon_collision :
  job_key (mkIdentity "a:b" "c") "j" = job_key (mkIdentity "a" "b:c") "j".
Proof. reflexivity. Qed.

Lemma waiting_key_collision :
  workflow_waiting_jobs_key (mkIdentity "a" "w") = workflow_key (mkIdentity "a" "w:waiting_ready").
Proof. reflexivity. Qed.
