(* ===== verification/Scripts.v ===== *)
(** * The Lua scripts of the workflow runtime

    The scripts embedded in src/redis_db_async_workflow.cpp,
    src/redis_db_async_retry.cpp, src/redis_db_async_execution_queue.cpp,
    src/redis_db_async_jobs.cpp, src/redis_db_async_completion.cpp and
    src/redis_db_async.cpp, call by call.  A script is given the values its
    C++ caller passes in KEYS and ARGV; it returns the reply array as the RESP
    reader of the caller presents it (integers as decimal strings). *)

From S2P Require Import Prelude.
From S2P Require Import Prog.
From S2P Require Import RedisServer.
From S2P Require Import Models.
From S2P Require Import RedisKeys.

(** [tonumber(v or d) or 0] on a possibly missing field. *)
Definition num_or (d : string) (v : option string) : Z := default 0 (tonumber (default d v)).

(** [redis.call('TIME')[1]]. *)
Definition time_sec : lua Z := let* t := call TIME in Ret t.1.

Section names.
Import WorkflowStatus.
Definition wf_ready : string := to_string READY.
Definition wf_running : string := to_string RUNNING.
Definition wf_completed : string := to_string COMPLETED.
Definition wf_failed : string := to_string FAILED.
Definition wf_canceled : string := to_string CANCELED.
End names.

Section names.
Import JobStatus.
Definition st_pending : string := to_string PENDING.
Definition st_ready : string := to_string READY.
Definition st_queued : string := to_string QUEUED.
Definition st_pending_execution : string := to_string PENDING_EXECUTION.
Definition st_running : string := to_string RUNNING.
Definition st_retry_delay : string := to_string RETRY_DELAY.
Definition st_completed : string := to_string COMPLETED.
Definition st_failed : string := to_string FAILED.
Definition st_aborted : string := to_string ABORTED.
End names.

(** [v == s] for a field that may be missing ([false] in Lua). *)
Definition is_str (v : option string) (s : string) : bool :=
  match v with Some x => String.eqb x s | None => false end.

(** ** redis_db_async_workflow.cpp *)

Definition try_acquire_job_slot_lua (workflow_key : string) : lua (list string) :=
  let* st := call (HGET workflow_key "status") in
  let status := default "UNKNOWN" st in
  if String.eqb status "READY" || String.eqb status "RUNNING" then
    let* r := call (HGET workflow_key "reserved_execution_slots") in
    let* m := call (HGET workflow_key "max_concurrent_jobs") in
    match tonumber (default "0" r), m ≫= tonumber with
    | Some running_jobs, Some max_concurrent_jobs =>
        if running_jobs <? max_concurrent_jobs then
          call (HINCRBY workflow_key "reserved_execution_slots" 1) ;;
          Ret ["1"; status]
        else Ret ["0"; status]
    | _, _ => Throw
    end
  else Ret ["0"; status].

Definition update_workflow_runtime_lua (workflow_key : string) (fields : list (string * string)) :
  lua (list string) :=
  pfold (λ _ fv, call (HSET workflow_key [fv]) ;; Ret tt) fields tt ;;
  Ret ["1"].

(** The deadline test two scripts share: the workflow has started, has a
    limit, and has run longer than it. *)
Definition past_deadline (now start_run_time max_run_time : Z) : bool :=
  (0 <? start_run_time) && (0 <? max_run_time) && (max_run_time <? now - start_run_time).

Definition increment_completed_jobs_lua (workflow_key last_update_time : string) :
  lua (list string) :=
  let* completed_jobs := call (HINCRBY workflow_key "completed_jobs" 1) in
  call (HSET workflow_key [("last_update_time", last_update_time)]) ;;
  let* status := call (HGET workflow_key "status") in
  if negb (String.eqb (default "" status) wf_running) then Ret ["0"]
  else
    let* now := time_sec in
    let* s := call (HGET workflow_key "start_run_time") in
    let* m := call (HGET workflow_key "max_run_time") in
    if past_deadline now (num_or "" s) (num_or "" m) then
      call (HSET workflow_key [("status", wf_failed); ("last_update_time", to_str now)]) ;;
      Ret ["-1"]
    else
      let* t := call (HGET workflow_key "total_jobs") in
      let total_jobs := num_or "" t in
      if (0 <? total_jobs) && (completed_jobs =? total_jobs) then
        call (HSET workflow_key [("status", wf_completed)]) ;;
        Ret ["1"]
      else Ret ["0"].

(** [reserved_slots], one less when positive. *)
Definition release (reserved_slots : Z) : Z :=
  if 0 <? reserved_slots then reserved_slots - 1 else reserved_slots.

(** The tail several scripts end with: pop the best waiting job, mark it
    QUEUED, put it on the execution queue and take a slot for it.  The result is
    the promoted job key. *)
Definition promote_waiting (workflow_key waiting_ready_key execution_queue_key now : string) :
  lua (option string) :=
  let* popped := call (ZPOPMAX waiting_ready_key) in
  match popped with
  | None => Ret None
  | Some (promoted_job_key, priority) =>
      call (HSET promoted_job_key [("status", st_queued); ("last_update_time", now)]) ;;
      call (ZADD execution_queue_key priority promoted_job_key) ;;
      call (HINCRBY workflow_key "reserved_execution_slots" 1) ;;
      Ret (Some promoted_job_key)
  end.

(** One round of the successor loop of [complete_successful_job_runtime_async]:
    the accumulator is [newly_ready]. *)
Definition release_successor (workflow_key waiting_ready_key job_key_prefix last_update_time : string)
  (newly_ready : list string) (successor_id : string) : lua (list string) :=
  let successor_key := job_key_prefix +:+ successor_id in
  let* successor_status := call (HGET successor_key "status") in
  if String.eqb (default "" successor_status) st_pending then
    let* remaining := call (HINCRBY successor_key "remaining_dependencies" (-1)) in
    call (HSET successor_key [("last_update_time", last_update_time)]) ;;
    if remaining <=? 0 then
      call (HSET successor_key
        [("remaining_dependencies", "0"); ("status", st_ready);
         ("last_update_time", last_update_time)]) ;;
      let* p := call (HGET workflow_key "pending_jobs") in
      (if 0 <? num_or "0" p
       then call (HINCRBY workflow_key "pending_jobs" (-1)) ;; Ret tt else Ret tt) ;;
      let* priority := call (HGET successor_key "priority") in
      call (ZADD waiting_ready_key (num_or "0" priority) successor_key) ;;
      Ret (newly_ready ++ [successor_id])%list
    else Ret newly_ready
  else Ret newly_ready.

Definition complete_successful_lua
  (workflow_key waiting_ready_key execution_queue_key completed_job_key successors_key
   last_update_time job_key_prefix : string) : lua (list string) :=
  let* workflow_status := call (HGET workflow_key "status") in
  let* completed_job_status := call (HGET completed_job_key "status") in
  match workflow_status, completed_job_status with
  | Some workflow_status, Some completed_job_status =>
      if String.eqb completed_job_status st_completed then Ret ["1"; "0"; ""; "0"]
      else if negb (String.eqb workflow_status wf_running) then Ret ["0"]
      else
        let* now := time_sec in
        let* s := call (HGET workflow_key "start_run_time") in
        let* m := call (HGET workflow_key "max_run_time") in
        if past_deadline now (num_or "" s) (num_or "" m) then
          call (HSET workflow_key [("status", wf_failed); ("last_update_time", to_str now)]) ;;
          Ret ["-1"]
        else
          call (HSET completed_job_key
            [("status", st_completed); ("last_update_time", last_update_time)]) ;;
          let* successors := call (LRANGE_ALL successors_key) in
          call (DEL successors_key) ;;
          let* newly_ready :=
            pfold (release_successor workflow_key waiting_ready_key job_key_prefix last_update_time)
              successors [] in
          let* completed_jobs := call (HINCRBY workflow_key "completed_jobs" 1) in
          let* r := call (HGET workflow_key "reserved_execution_slots") in
          let reserved_slots := release (num_or "0" r) in
          call (HSET workflow_key
            [("reserved_execution_slots", to_str reserved_slots);
             ("last_update_time", last_update_time)]) ;;
          let* t := call (HGET workflow_key "total_jobs") in
          let total_jobs := num_or "0" t in
          let completed_workflow := (0 <? total_jobs) && (completed_jobs =? total_jobs) in
          (if completed_workflow then
             call (HSET workflow_key
               [("status", wf_completed); ("last_update_time", last_update_time)]) ;; Ret tt
           else Ret tt) ;;
          let* promoted_job_id :=
            (if completed_workflow then Ret ""
             else
               let* mc := call (HGET workflow_key "max_concurrent_jobs") in
               if reserved_slots <? num_or "0" mc then
                 let* promoted :=
                   promote_waiting workflow_key waiting_ready_key execution_queue_key
                     last_update_time in
                 Ret match promoted with
                     | Some k => sdrop (String.length job_key_prefix) k
                     | None => ""
                     end
               else Ret "") in
          Ret (["1"; if completed_workflow then "1" else "0"; promoted_job_id;
                to_str (Z.of_nat (length newly_ready))] ++ newly_ready)%list
  | _, _ => Ret ["0"]
  end.

(** One round of the sibling loop of [complete_failed_job_runtime_async]: the
    accumulator is the list [canceled]. *)
Definition cancel_sibling (waiting_ready_key execution_queue_key retry_stream_key
  failed_job_key now : string) (canceled : list string) (job : string * string) :
  lua (list string) :=
  let '(job_id, job_key) := job in
  if String.eqb job_key failed_job_key then Ret canceled
  else
    let* st := call (HGET job_key "status") in
    let job_status := default "" st in
    if String.eqb job_status st_pending || String.eqb job_status st_ready
       || String.eqb job_status st_queued || String.eqb job_status st_retry_delay
    then
      call (HSET job_key [("status", st_aborted); ("last_update_time", now)]) ;;
      call (ZREM waiting_ready_key [job_key]) ;;
      (if String.eqb job_status st_queued
       then call (ZREM execution_queue_key [job_key]) ;; Ret tt else Ret tt) ;;
      (if String.eqb job_status st_retry_delay
       then call (ZREM retry_stream_key [job_key]) ;; Ret tt else Ret tt) ;;
      Ret (canceled ++ [job_id])%list
    else Ret canceled.

(** [completed_increment] is one more than the number of canceled siblings. *)
Definition complete_failed_lua
  (workflow_key waiting_ready_key execution_queue_key retry_stream_key failed_job_key
   updated_retry_count : string) (jobs : list (string * string)) : lua (list string) :=
  let* now := time_sec in
  let now := to_str now in
  call (HSET failed_job_key
    [("status", st_failed); ("current_retry_count", updated_retry_count);
     ("last_update_time", now)]) ;;
  let* ws := call (HGET workflow_key "status") in
  let failed_workflow := String.eqb (default "" ws) wf_running in
  let* canceled :=
    (if failed_workflow then
       let* r := call (HGET workflow_key "reserved_execution_slots") in
       call (HSET workflow_key
         [("status", wf_failed); ("reserved_execution_slots", to_str (release (num_or "0" r)));
          ("last_update_time", now)]) ;;
       pfold (cancel_sibling waiting_ready_key execution_queue_key retry_stream_key
                failed_job_key now) jobs []
     else Ret []) in
  let completed_increment := 1 + Z.of_nat (length canceled) in
  let* completed_jobs := call (HINCRBY workflow_key "completed_jobs" completed_increment) in
  call (HINCRBY workflow_key "failed_jobs" 1) ;;
  call (HSET workflow_key [("last_update_time", now)]) ;;
  let* t := call (HGET workflow_key "total_jobs") in
  let total_jobs := num_or "0" t in
  let completed_workflow := (0 <? total_jobs) && (completed_jobs =? total_jobs) in
  Ret (["1"; if failed_workflow then "1" else "0"; if completed_workflow then "1" else "0";
        to_str (Z.of_nat (length canceled))] ++ canceled)%list.

(** ** redis_db_async_execution_queue.cpp *)

Definition release_execution_slot_lua
  (workflow_key waiting_ready_key execution_queue_key : string) : lua (list string) :=
  let* now := time_sec in
  let now := to_str now in
  let* r := call (HGET workflow_key "reserved_execution_slots") in
  match tonumber (default "0" r) with
  | None => Throw
  | Some r =>
      let reserved_slots := release r in
      call (HSET workflow_key
        [("reserved_execution_slots", to_str reserved_slots); ("last_update_time", now)]) ;;
      let* workflow_status := call (HGET workflow_key "status") in
      if negb (is_str workflow_status wf_running) then Ret ["1"; ""]
      else
        let* m := call (HGET workflow_key "max_concurrent_jobs") in
        match tonumber (default "0" m) with
        | None => Throw
        | Some max_concurrent_jobs =>
            if max_concurrent_jobs <=? reserved_slots then Ret ["1"; ""]
            else
              let* promoted := promote_waiting workflow_key waiting_ready_key
                                 execution_queue_key now in
              Ret ["1"; default "" promoted]
        end
  end.

(** ** redis_db_async_retry.cpp *)

Definition schedule_job_retry_lua
  (workflow_key waiting_ready_key execution_queue_key retry_job_key retry_stream_key
   updated_retry_count : string) (retry_at_ms : Z) (ready_channel : string) :
  lua (list string) :=
  let* now := time_sec in
  let now := to_str now in
  call (HSET retry_job_key
    [("status", st_retry_delay); ("current_retry_count", updated_retry_count);
     ("start_run_time", ""); ("owned_by", ""); ("last_update_time", now)]) ;;
  call (ZADD retry_stream_key retry_at_ms retry_job_key) ;;
  call (PUBLISH ready_channel retry_job_key) ;;
  let* r := call (HGET workflow_key "reserved_execution_slots") in
  let reserved_slots := release (num_or "0" r) in
  call (HSET workflow_key
    [("reserved_execution_slots", to_str reserved_slots); ("last_update_time", now)]) ;;
  let* workflow_status := call (HGET workflow_key "status") in
  if negb (is_str workflow_status wf_running) then Ret ["1"; ""]
  else
    let* m := call (HGET workflow_key "max_concurrent_jobs") in
    if num_or "0" m <=? reserved_slots then Ret ["1"; ""]
    else
      let* promoted := promote_waiting workflow_key waiting_ready_key execution_queue_key now in
      Ret ["1"; default "" promoted].

Definition dequeue_due_job_retry_lua (retry_stream_key : string) (now_ms : Z) :
  lua (list string) :=
  let* entries := call (ZRANGEBYSCORE_FIRST retry_stream_key now_ms) in
  match entries with
  | None => Ret []
  | Some job_key =>
      let* removed := call (ZREM retry_stream_key [job_key]) in
      if removed =? 0 then Ret [] else Ret [job_key]
  end.

Definition promote_retry_job_lua
  (workflow_key waiting_ready_key execution_queue_key retry_job_key : string) :
  lua (list string) :=
  let* now := time_sec in
  let now := to_str now in
  let* workflow_status := call (HGET workflow_key "status") in
  let* job_status := call (HGET retry_job_key "status") in
  match workflow_status, job_status with
  | Some workflow_status, Some job_status =>
      if negb (String.eqb workflow_status wf_running) then
        call (HSET retry_job_key [("status", st_aborted); ("last_update_time", now)]) ;;
        Ret ["1"; ""]
      else if negb (String.eqb job_status st_retry_delay) && negb (String.eqb job_status st_ready)
      then Ret ["1"; ""]
      else
        let* r := call (HGET workflow_key "reserved_execution_slots") in
        let reserved_slots := num_or "0" r in
        let* m := call (HGET workflow_key "max_concurrent_jobs") in
        let max_concurrent_jobs := num_or "0" m in
        let* p := call (HGET retry_job_key "priority") in
        let priority := num_or "0" p in
        let* direct :=
          (if reserved_slots <? max_concurrent_jobs then
             let* waiting_count := call (ZCARD waiting_ready_key) in
             Ret (waiting_count =? 0)
           else Ret false) in
        if direct then
          call (HSET retry_job_key [("status", st_queued); ("last_update_time", now)]) ;;
          call (ZADD execution_queue_key priority retry_job_key) ;;
          call (HINCRBY workflow_key "reserved_execution_slots" 1) ;;
          Ret ["1"; retry_job_key]
        else
          call (HSET retry_job_key [("status", st_ready); ("last_update_time", now)]) ;;
          call (ZADD waiting_ready_key priority retry_job_key) ;;
          if max_concurrent_jobs <=? reserved_slots then Ret ["1"; ""]
          else
            let* promoted := promote_waiting workflow_key waiting_ready_key execution_queue_key
                               now in
            Ret ["1"; default "" promoted]
  | _, _ => Ret ["1"; ""]
  end.

(** ** redis_db_async_jobs.cpp *)

Definition try_set_job_to_running_lua (workflow_key job_key : string) : lua (list string) :=
  let* job_status := call (HGET job_key "status") in
  if is_str job_status st_aborted then Ret ["ALREADY_CANCELED"]
  else
    let* now := time_sec in
    let now := to_str now in
    if negb (is_str job_status st_pending_execution) then
      call (HSET workflow_key [("status", wf_failed); ("last_update_time", now)]) ;;
      Ret ["INVARIANT_VIOLATION_JOB_STATUS"]
    else
      let* workflow_status := call (HGET workflow_key "status") in
      if is_str workflow_status wf_ready then
        let* start_run_time := call (HGET workflow_key "start_run_time") in
        if negb (String.eqb (default "" start_run_time) "") then
          call (HSET job_key [("status", st_aborted)]) ;;
          call (HSET workflow_key [("status", wf_failed); ("last_update_time", now)]) ;;
          Ret ["INVARIANT_VIOLATION_WORKFLOW_TIME"]
        else
          call (HSET workflow_key
            [("status", wf_running); ("start_run_time", now); ("last_update_time", now)]) ;;
          call (HSET job_key [("status", st_running); ("start_run_time", now)]) ;;
          Ret ["FIRST_TO_START"]
      else if is_str workflow_status wf_running then
        call (HSET job_key [("status", st_running); ("start_run_time", now)]) ;;
        Ret ["STARTED"]
      else if is_str workflow_status wf_failed || is_str workflow_status wf_canceled then
        call (HSET job_key [("status", st_aborted)]) ;;
        Ret ["CANCELED_BY_WORKFLOW_STATE"]
      else
        call (HSET job_key [("status", st_aborted)]) ;;
        call (HSET workflow_key [("status", wf_failed); ("last_update_time", now)]) ;;
        Ret ["INVARIANT_VIOLATION_WORKFLOW_STATUS"].

(** ** redis_db_async_completion.cpp *)

Definition enqueue_job_completion_lua
  (stream_key client_id workflow_id job_id status error_code ready_channel : string) :
  lua (list string) :=
  let* id := call (XADD stream_key
    [("client_id", client_id); ("workflow_id", workflow_id); ("job_id", job_id);
     ("status", status); ("error_code", error_code)]) in
  call (PUBLISH ready_channel id) ;;
  Ret [id].

(** The reply flattens the field-value pairs after the identifier. *)
Definition flatten_fields (fields : list (string * string)) : list string :=
  concat ((λ fv, [fv.1; fv.2]) <$> fields).

Definition dequeue_job_completion_lua (stream_key : string) : lua (list string) :=
  let* entries := call (XRANGE_FIRST stream_key) in
  match entries with
  | None => Ret []
  | Some (id, fields) =>
      call (XDEL stream_key id) ;;
      Ret (id :: flatten_fields fields)
  end.

(** ** redis_db_async.cpp *)

Definition claim_lua (job_key scheduler_id : string) : lua (list string) :=
  let* job_status := call (HGET job_key "status") in
  if negb (is_str job_status st_ready) && negb (is_str job_status st_queued) then Ret ["0"]
  else
    call (HSET job_key [("owned_by", scheduler_id); ("status", st_pending_execution)]) ;;
    Ret ["1"].

Definition retry_due_check_lua (retry_stream_key : string) : lua (list string) :=
  let* now := call TIME in
  let now_ms := now.1 * 1000 + now.2 `div` 1000 in
  let* entries := call (ZRANGEBYSCORE_FIRST retry_stream_key now_ms) in
  match entries with None => Ret ["0"] | Some _ => Ret ["1"] end.
