(* ===== verification/WorkflowView.v ===== *)
(** * A typed view of one workflow in the Redis keyspace

    The runtime state of a workflow is spread over a hash for the workflow, a
    hash and a successor list per job, the sorted set of its waiting jobs, and
    the execution queue and retry queue shared by all workflows.  [wview] is
    that state with its numbers and statuses typed; [Rep w J s0 s v] says that
    the keyspace [s] holds the view [v] of workflow [w] with job keys [J], and
    differs from [s0] only in keys (and members of the shared queues) that
    belong to [w].  The rules at the end give the effect of every Redis command
    the scripts issue on a represented view. *)

From S2P Require Import Prelude.
From S2P Require Import Prog.
From S2P Require Import RedisServer.
From S2P Require Import Models.
From S2P Require Import RedisKeys.
From S2P Require Import Scripts.

Record jobv := mkJobv {
  jv_status : JobStatus.t; jv_deps : Z; jv_prio : Z; jv_retry : Z }.

Record wfv := mkWfv {
  w_status : WorkflowStatus.t; w_reserved : Z; w_maxc : Z; w_total : Z; w_completed : Z;
  w_failed : Z; w_pending : Z; w_maxrun : Z; w_start : option Z }.

Record wview := mkView {
  v_wf : wfv;
  v_jobs : gmap string jobv;
  v_waiting : gmap string Z;
  v_exec : gmap string Z;
  v_retry : gmap string Z;
  v_succ : gmap string (list string) }.

(** ** Updates of a view *)

Definition set_status st (x : wfv) : wfv :=
  mkWfv st (w_reserved x) (w_maxc x) (w_total x) (w_completed x) (w_failed x) (w_pending x)
    (w_maxrun x) (w_start x).
Definition set_reserved n (x : wfv) : wfv :=
  mkWfv (w_status x) n (w_maxc x) (w_total x) (w_completed x) (w_failed x) (w_pending x)
    (w_maxrun x) (w_start x).
Definition set_completed n (x : wfv) : wfv :=
  mkWfv (w_status x) (w_reserved x) (w_maxc x) (w_total x) n (w_failed x) (w_pending x)
    (w_maxrun x) (w_start x).
Definition set_failed n (x : wfv) : wfv :=
  mkWfv (w_status x) (w_reserved x) (w_maxc x) (w_total x) (w_completed x) n (w_pending x)
    (w_maxrun x) (w_start x).
Definition set_pending n (x : wfv) : wfv :=
  mkWfv (w_status x) (w_reserved x) (w_maxc x) (w_total x) (w_completed x) (w_failed x) n
    (w_maxrun x) (w_start x).
Definition set_start t (x : wfv) : wfv :=
  mkWfv (w_status x) (w_reserved x) (w_maxc x) (w_total x) (w_completed x) (w_failed x)
    (w_pending x) (w_maxrun x) t.

Definition with_wf (x : wfv) (v : wview) : wview :=
  mkView x (v_jobs v) (v_waiting v) (v_exec v) (v_retry v) (v_succ v).
Definition with_jobs (x : gmap string jobv) (v : wview) : wview :=
  mkView (v_wf v) x (v_waiting v) (v_exec v) (v_retry v) (v_succ v).
Definition with_waiting (x : gmap string Z) (v : wview) : wview :=
  mkView (v_wf v) (v_jobs v) x (v_exec v) (v_retry v) (v_succ v).
Definition with_exec (x : gmap string Z) (v : wview) : wview :=
  mkView (v_wf v) (v_jobs v) (v_waiting v) x (v_retry v) (v_succ v).
Definition with_retry (x : gmap string Z) (v : wview) : wview :=
  mkView (v_wf v) (v_jobs v) (v_waiting v) (v_exec v) x (v_succ v).
Definition with_succ (x : gmap string (list string)) (v : wview) : wview :=
  mkView (v_wf v) (v_jobs v) (v_waiting v) (v_exec v) (v_retry v) x.

Definition job_st (st : JobStatus.t) (x : jobv) : jobv :=
  mkJobv st (jv_deps x) (jv_prio x) (jv_retry x).
Definition job_deps (n : Z) (x : jobv) : jobv :=
  mkJobv (jv_status x) n (jv_prio x) (jv_retry x).
Definition job_retry (n : Z) (x : jobv) : jobv :=
  mkJobv (jv_status x) (jv_deps x) (jv_prio x) n.

(** Replace the record of a job. *)
Definition put_job (k : string) (x : jobv) (v : wview) : wview :=
  with_jobs (<[k := x]> (v_jobs v)) v.

Definition succ_of (v : wview) (j : string) : list string := default [] (v_succ v !! j).

(** ** Representation *)

Definition start_str (t : option Z) : string :=
  match t with Some t => to_str t | None => "" end.

Definition wf_fields (h : gmap string string) (x : wfv) : Prop :=
  h !! "status" = Some (WorkflowStatus.to_string (w_status x)) ∧
  h !! "reserved_execution_slots" = Some (to_str (w_reserved x)) ∧
  h !! "max_concurrent_jobs" = Some (to_str (w_maxc x)) ∧
  h !! "total_jobs" = Some (to_str (w_total x)) ∧
  h !! "completed_jobs" = Some (to_str (w_completed x)) ∧
  h !! "failed_jobs" = Some (to_str (w_failed x)) ∧
  h !! "pending_jobs" = Some (to_str (w_pending x)) ∧
  h !! "max_run_time" = Some (to_str (w_maxrun x)) ∧
  h !! "start_run_time" = Some (start_str (w_start x)).

Definition job_fields (h : gmap string string) (x : jobv) : Prop :=
  h !! "status" = Some (JobStatus.to_string (jv_status x)) ∧
  h !! "remaining_dependencies" = Some (to_str (jv_deps x)) ∧
  h !! "priority" = Some (to_str (jv_prio x)) ∧
  h !! "current_retry_count" = Some (to_str (jv_retry x)).

(** The members of a shared sorted set that belong to [J] are [z]; the others
    are those of [s0]. *)
Definition shared_zset (J : gset string) (s0 s : rstate) (K : string) (z : gmap string Z) : Prop :=
  dom z ⊆ J ∧
  ∃ z0 z1, zset_at s0 K = Some z0 ∧ zset_at s K = Some z1 ∧
    (∀ k, k ∈ J → z1 !! k = z !! k) ∧ (∀ k, k ∉ J → z1 !! k = z0 !! k).

Definition owned (w : WorkflowIdentity) (J : gset string) (k : string) : Prop :=
  k = workflow_key w ∨ k = workflow_waiting_jobs_key w ∨ k = EXECUTION_QUEUE_KEY ∨
  k = JOB_RETRY_STREAM_KEY ∨ k ∈ J ∨ ∃ j, job_key w j ∈ J ∧ k = successors_key w j.

Record Rep (w : WorkflowIdentity) (J : gset string) (s0 s : rstate) (v : wview) : Prop := {
  rep_dom : dom (v_jobs v) = J;
  rep_keys : ∀ k, k ∈ J → ∃ j, k = job_key w j;
  rep_wf : ∃ h, hash_at s (workflow_key w) = Some h ∧ wf_fields h (v_wf v);
  rep_job : ∀ k x, v_jobs v !! k = Some x → ∃ h, hash_at s k = Some h ∧ job_fields h x;
  rep_waiting : zset_at s (workflow_waiting_jobs_key w) = Some (v_waiting v);
  rep_exec : shared_zset J s0 s EXECUTION_QUEUE_KEY (v_exec v);
  rep_retry : shared_zset J s0 s JOB_RETRY_STREAM_KEY (v_retry v);
  rep_succ : ∀ j, job_key w j ∈ J → list_at s (successors_key w j) = Some (succ_of v j);
  rep_frame : ∀ k, ¬ owned w J k → look s k = look s0 k;
  rep_clock : r_clock s = r_clock s0
}.

(** Fields of the representation after an update, by computing the lookups. *)
Ltac fields_tac :=
  intros; unfold wf_fields, job_fields, hset_fields in *; simpl in *; destruct_and?;
  split_and?; first [done | by simplify_map_eq].

Section rules.
Context (w : WorkflowIdentity) (J : gset string) (s0 : rstate).
Implicit Types (s : rstate) (v : wview).

Lemma shared_look s s' K z :
  look s' K = look s K → shared_zset J s0 s K z → shared_zset J s0 s' K z.
Proof.
  intros E (Hd & z0 & z1 & H0 & H1 & HJ & HN). split; [done|].
  exists z0, z1. by rewrite (zset_at_look s s' K E).
Qed.

Lemma rep_job_key s v k x : Rep w J s0 s v → v_jobs v !! k = Some x → ∃ j, k = job_key w j.
Proof. intros HR Hk. apply (rep_keys _ _ _ _ _ HR). rewrite <-(rep_dom _ _ _ _ _ HR). by eapply elem_of_dom_2. Qed.

Lemma rep_in_J s v k x : Rep w J s0 s v → v_jobs v !! k = Some x → k ∈ J.
Proof. intros HR Hk. rewrite <-(rep_dom _ _ _ _ _ HR). by eapply elem_of_dom_2. Qed.

(** The parts of a representation that a write to another key leaves alone;
    [ne] is the lemma that says the write does not change other keys. *)
Ltac rep_other ne :=
  match goal with
  | H : ∃ h, hash_at _ _ = Some h ∧ wf_fields h _ |- ∃ h, _ ∧ wf_fields h _ =>
      destruct H as (? & ? & ?); eexists; split; [|eassumption];
      erewrite hash_at_look; [eassumption|apply ne; key_ne]
  | Hd : dom (v_jobs _) = ?J, Hk : ∀ k, k ∈ ?J → _, Hj : ∀ k x, _ → ∃ h, _ ∧ job_fields h _
    |- ∀ k x, _ → ∃ h, _ ∧ job_fields h _ =>
      let k := fresh "k" in let y := fresh "y" in let Hy := fresh "Hy" in
      intros k y Hy; destruct (Hk k) as [? ->];
        [rewrite <-Hd; by eapply elem_of_dom_2|];
      erewrite hash_at_look; [by apply Hj|apply ne; key_ne]
  | |- zset_at _ _ = Some _ => erewrite zset_at_look; [eassumption|apply ne; key_ne]
  | |- shared_zset _ _ _ _ _ => eapply shared_look; [apply ne; key_ne|eassumption]
  | Hs : ∀ j, job_key _ j ∈ _ → list_at _ _ = _ |- ∀ j, _ → list_at _ _ = _ =>
      intros ??; erewrite list_at_look; [by apply Hs|apply ne; key_ne]
  | Hf : ∀ k, ¬ owned _ _ k → _ |- ∀ k, ¬ owned _ _ k → _ =>
      let Hn := fresh "Hn" in
      intros ? Hn; rewrite ne; [by apply Hf|intros <-; apply Hn; unfold owned; naive_solver]
  | |- r_clock _ = _ => first [done | by rewrite clock_put_zset]
  end.

(** Writing the workflow hash. *)
Lemma rep_put_wf s v h x :
  Rep w J s0 s v → wf_fields h x →
  Rep w J s0 (put (workflow_key w) (RHash h) s) (with_wf x v).
Proof.
  intros [Hd Hk Hw Hj Hwt He Hr Hs Hf Hc] Hx.
  split; simpl; try done; try (rep_other look_put_ne).
  eexists. by rewrite hash_at_put.
Qed.

(** Writing the hash of a job. *)
Lemma rep_put_job s v k y h x :
  Rep w J s0 s v → v_jobs v !! k = Some y → job_fields h x →
  Rep w J s0 (put k (RHash h) s) (put_job k x v).
Proof.
  intros HR Hy Hx. destruct (rep_job_key _ _ _ _ HR Hy) as [j0 ->].
  pose proof (rep_in_J _ _ _ _ HR Hy) as HkJ.
  destruct HR as [Hd Hk Hw Hj Hwt He Hr Hs Hf Hc].
  split; simpl; try done; try (rep_other look_put_ne).
  - rewrite dom_insert_L, Hd. set_solver.
  - intros k' x' [[<- <-]|[Hne Hx']]%lookup_insert_Some.
    + exists h. by rewrite hash_at_put.
    + erewrite hash_at_look; [by apply Hj|]. by apply look_put_ne.
Qed.

(** Writing the waiting set. *)
Lemma rep_put_waiting s v z :
  Rep w J s0 s v →
  Rep w J s0 (put_zset (workflow_waiting_jobs_key w) z s) (with_waiting z v).
Proof.
  intros [Hd Hk Hw Hj Hwt He Hr Hs Hf Hc].
  split; simpl; try done; try apply zset_at_put; rep_other look_put_zset_ne.
Qed.

(** Writing members of this workflow in a shared sorted set. *)
Lemma shared_update s K z z1 z1' z' :
  shared_zset J s0 s K z → zset_at s K = Some z1 →
  (∀ k, k ∈ J → z1' !! k = z' !! k) → (∀ k, k ∉ J → z1' !! k = z1 !! k) → dom z' ⊆ J →
  shared_zset J s0 (put_zset K z1' s) K z'.
Proof.
  intros (Hd & z0 & z1'' & H0 & H1 & HJ & HN) Hz1 HJ' HN' Hd'. simplify_eq. split; [done|].
  exists z0, z1'. rewrite zset_at_put. split_and!; try done.
  intros k Hk. rewrite HN' by done. by apply HN.
Qed.

Lemma rep_put_exec s v z1 z1' z' :
  Rep w J s0 s v → zset_at s EXECUTION_QUEUE_KEY = Some z1 →
  (∀ k, k ∈ J → z1' !! k = z' !! k) → (∀ k, k ∉ J → z1' !! k = z1 !! k) → dom z' ⊆ J →
  Rep w J s0 (put_zset EXECUTION_QUEUE_KEY z1' s) (with_exec z' v).
Proof.
  intros [Hd Hk Hw Hj Hwt He Hr Hs Hf Hc] ????.
  split; simpl; try done; try (by eapply shared_update); rep_other look_put_zset_ne.
Qed.

Lemma rep_put_retry s v z1 z1' z' :
  Rep w J s0 s v → zset_at s JOB_RETRY_STREAM_KEY = Some z1 →
  (∀ k, k ∈ J → z1' !! k = z' !! k) → (∀ k, k ∉ J → z1' !! k = z1 !! k) → dom z' ⊆ J →
  Rep w J s0 (put_zset JOB_RETRY_STREAM_KEY z1' s) (with_retry z' v).
Proof.
  intros [Hd Hk Hw Hj Hwt He Hr Hs Hf Hc] ????.
  split; simpl; try done; try (by eapply shared_update); rep_other look_put_zset_ne.
Qed.

(** Deleting the successor list of a job. *)
Lemma rep_del_succ s v j :
  Rep w J s0 s v → job_key w j ∈ J →
  Rep w J s0 (del (successors_key w j) s) (with_succ (delete j (v_succ v)) v).
Proof.
  intros [Hd Hk Hw Hj Hwt He Hr Hs Hf Hc] HjJ.
  split; simpl; try done; try (rep_other look_del_ne).
  intros j' HJ'. unfold succ_of; simpl. destruct (decide (j = j')) as [->|Hne].
  - by rewrite list_at_del, lookup_delete_eq.
  - rewrite lookup_delete_ne by done.
    erewrite list_at_look; [by apply Hs|]. apply look_del_ne.
    by intros E%(inj (successors_key w)).
Qed.

(** The view of a state, seen as a new base state. *)
Lemma rep_rebase s v : Rep w J s0 s v → Rep w J s s v.
Proof.
  intros [Hd Hk Hw Hj Hwt (Hde & z0 & z1 & Hz0 & Hz1 & HJe & HNe)
          (Hdr & y0 & y1 & Hy0 & Hy1 & HJr & HNr) Hs Hf Hc].
  split; try done; split; try done; eexists _, _; eauto.
Qed.
(** ** Commands on a represented view *)

Abbreviation wpr c Q s := (wp redis_doc (call c) Q s).

Lemma wp_time s v (Q : Z → rstate → Prop) :
  Rep w J s0 s v → Q (r_clock s0 `div` 1000000) s → wp redis_doc time_sec Q s.
Proof. intros HR HQ. unfold wp, time_sec; simpl. by rewrite (rep_clock _ _ _ _ _ HR). Qed.

Lemma wp_publish ch m s (Q : unit → rstate → Prop) : Q tt s → wpr (PUBLISH ch m) Q s.
Proof. done. Qed.

Lemma wp_wf_hget s v f x (Q : option string → rstate → Prop) :
  Rep w J s0 s v → (∀ h, wf_fields h (v_wf v) → h !! f = Some x) →
  Q (Some x) s → wpr (HGET (workflow_key w) f) Q s.
Proof.
  intros HR Hf HQ. destruct (rep_wf _ _ _ _ _ HR) as (h & Hh & Hw).
  unfold wp; simpl. rewrite Hh. by rewrite (Hf h Hw).
Qed.

Lemma wp_wf_hset s v fvs x (Q : Z → rstate → Prop) :
  Rep w J s0 s v → (∀ h, wf_fields h (v_wf v) → wf_fields (hset_fields fvs h) x) →
  (∀ n s', Rep w J s0 s' (with_wf x v) → Q n s') → wpr (HSET (workflow_key w) fvs) Q s.
Proof.
  intros HR Hf HQ. destruct (rep_wf _ _ _ _ _ HR) as (h & Hh & Hw).
  unfold wp; simpl. rewrite Hh. apply HQ. apply rep_put_wf; [done|by apply Hf].
Qed.

Lemma wp_hincr s k f n z h (Q : Z → rstate → Prop) :
  hash_at s k = Some h → h !! f = Some (to_str z) →
  in_int64 z = true → in_int64 (z + n) = true →
  Q (z + n) (put k (RHash (<[f := to_str (z + n)]> h)) s) → wpr (HINCRBY k f n) Q s.
Proof.
  intros Hh Hf Hz Hzn HQ. unfold wp; simpl. rewrite Hh, Hf. simpl.
  rewrite redis_int_to_str by done. by rewrite Hzn.
Qed.

Lemma wp_wf_hincr s v f n z x (Q : Z → rstate → Prop) :
  Rep w J s0 s v → (∀ h, wf_fields h (v_wf v) → h !! f = Some (to_str z)) →
  in_int64 z = true → in_int64 (z + n) = true →
  (∀ h, wf_fields h (v_wf v) → wf_fields (<[f := to_str (z + n)]> h) x) →
  (∀ s', Rep w J s0 s' (with_wf x v) → Q (z + n) s') →
  wpr (HINCRBY (workflow_key w) f n) Q s.
Proof.
  intros HR Hf Hz Hzn Hx HQ. destruct (rep_wf _ _ _ _ _ HR) as (h & Hh & Hw).
  eapply wp_hincr; [done|by apply Hf|done..|]. apply HQ. apply rep_put_wf; [done|by apply Hx].
Qed.

Lemma wp_job_hget s v k y f x (Q : option string → rstate → Prop) :
  Rep w J s0 s v → v_jobs v !! k = Some y → (∀ h, job_fields h y → h !! f = Some x) →
  Q (Some x) s → wpr (HGET k f) Q s.
Proof.
  intros HR Hy Hf HQ. destruct (rep_job _ _ _ _ _ HR k y Hy) as (h & Hh & Hw).
  unfold wp; simpl. rewrite Hh. by rewrite (Hf h Hw).
Qed.

Lemma wp_job_hset s v k y fvs x (Q : Z → rstate → Prop) :
  Rep w J s0 s v → v_jobs v !! k = Some y →
  (∀ h, job_fields h y → job_fields (hset_fields fvs h) x) →
  (∀ n s', Rep w J s0 s' (put_job k x v) → Q n s') → wpr (HSET k fvs) Q s.
Proof.
  intros HR Hy Hf HQ. destruct (rep_job _ _ _ _ _ HR k y Hy) as (h & Hh & Hw).
  unfold wp; simpl. rewrite Hh. apply HQ. eapply rep_put_job; [done..|by apply Hf].
Qed.

(** A write of fields the view does not track. *)
Lemma wp_job_touch s v k y fvs (Q : Z → rstate → Prop) :
  Rep w J s0 s v → v_jobs v !! k = Some y →
  (∀ h, job_fields h y → job_fields (hset_fields fvs h) y) →
  (∀ n s', Rep w J s0 s' v → Q n s') → wpr (HSET k fvs) Q s.
Proof.
  intros HR Hy Hf HQ. eapply wp_job_hset; [done..|]. intros n s'.
  unfold put_job. rewrite insert_id by done. destruct v; apply HQ.
Qed.

Lemma wp_job_hincr s v k y f n z x (Q : Z → rstate → Prop) :
  Rep w J s0 s v → v_jobs v !! k = Some y → (∀ h, job_fields h y → h !! f = Some (to_str z)) →
  in_int64 z = true → in_int64 (z + n) = true →
  (∀ h, job_fields h y → job_fields (<[f := to_str (z + n)]> h) x) →
  (∀ s', Rep w J s0 s' (put_job k x v) → Q (z + n) s') → wpr (HINCRBY k f n) Q s.
Proof.
  intros HR Hy Hf Hz Hzn Hx HQ. destruct (rep_job _ _ _ _ _ HR k y Hy) as (h & Hh & Hw).
  eapply wp_hincr; [done|by apply Hf|done..|]. apply HQ. eapply rep_put_job; [done..|by apply Hx].
Qed.

Lemma wp_waiting_zadd s v sc k (Q : Z → rstate → Prop) :
  Rep w J s0 s v →
  (∀ n s', Rep w J s0 s' (with_waiting (<[k := sc]> (v_waiting v)) v) → Q n s') →
  wpr (ZADD (workflow_waiting_jobs_key w) sc k) Q s.
Proof.
  intros HR HQ. unfold wp; simpl. rewrite (rep_waiting _ _ _ _ _ HR).
  apply HQ. by apply rep_put_waiting.
Qed.

Lemma wp_waiting_zrem s v k (Q : Z → rstate → Prop) :
  Rep w J s0 s v →
  (∀ n s', Rep w J s0 s' (with_waiting (delete k (v_waiting v)) v) → Q n s') →
  wpr (ZREM (workflow_waiting_jobs_key w) [k]) Q s.
Proof.
  intros HR HQ. unfold wp; simpl. rewrite (rep_waiting _ _ _ _ _ HR).
  apply HQ. by apply rep_put_waiting.
Qed.

Lemma wp_waiting_card s v (Q : Z → rstate → Prop) :
  Rep w J s0 s v → Q (Z.of_nat (size (v_waiting v))) s →
  wpr (ZCARD (workflow_waiting_jobs_key w)) Q s.
Proof. intros HR HQ. unfold wp; simpl. by rewrite (rep_waiting _ _ _ _ _ HR). Qed.

Lemma wp_waiting_pop s v (Q : option (string * Z) → rstate → Prop) :
  Rep w J s0 s v →
  match zmax (v_waiting v) with
  | None => Q None s
  | Some (k, p) =>
      ∀ s', Rep w J s0 s' (with_waiting (delete k (v_waiting v)) v) → Q (Some (k, p)) s'
  end →
  wpr (ZPOPMAX (workflow_waiting_jobs_key w)) Q s.
Proof.
  intros HR HQ. unfold wp; simpl. unfold zpopmax. rewrite (rep_waiting _ _ _ _ _ HR).
  destruct (zmax (v_waiting v)) as [[k p]|]; [|done]. apply HQ. by apply rep_put_waiting.
Qed.

(** Inserting or deleting a member of [J] in a shared set. *)
Lemma insert_agree (z1 z : gmap string Z) k0 n :
  (∀ k, k ∈ J → z1 !! k = z !! k) →
  ∀ k, k ∈ J → <[k0 := n]> z1 !! k = <[k0 := n]> z !! k.
Proof. intros H k Hk. rewrite !lookup_insert. case_decide; [done|by apply H]. Qed.
Lemma delete_agree (z1 z : gmap string Z) k0 :
  (∀ k, k ∈ J → z1 !! k = z !! k) →
  ∀ k, k ∈ J → delete k0 z1 !! k = delete k0 z !! k.
Proof. intros H k Hk. rewrite !lookup_delete. case_decide; [done|by apply H]. Qed.

Lemma wp_exec_zadd s v sc k (Q : Z → rstate → Prop) :
  Rep w J s0 s v → k ∈ J →
  (∀ n s', Rep w J s0 s' (with_exec (<[k := sc]> (v_exec v)) v) → Q n s') →
  wpr (ZADD EXECUTION_QUEUE_KEY sc k) Q s.
Proof.
  intros HR Hk HQ. destruct (rep_exec _ _ _ _ _ HR) as (Hd & z0 & z1 & Hz0 & Hz1 & HJ & HN).
  unfold wp; simpl. rewrite Hz1. apply HQ. eapply rep_put_exec; [done|done|by apply insert_agree|..].
  - intros k' Hk'. rewrite lookup_insert_ne; [done|]. by intros ->.
  - rewrite dom_insert_L. set_solver.
Qed.

Lemma wp_exec_zrem s v k (Q : Z → rstate → Prop) :
  Rep w J s0 s v → k ∈ J →
  (∀ n s', Rep w J s0 s' (with_exec (delete k (v_exec v)) v) → Q n s') →
  wpr (ZREM EXECUTION_QUEUE_KEY [k]) Q s.
Proof.
  intros HR Hk HQ. destruct (rep_exec _ _ _ _ _ HR) as (Hd & z0 & z1 & Hz0 & Hz1 & HJ & HN).
  unfold wp; simpl. rewrite Hz1. apply HQ. eapply rep_put_exec; [done|done|by apply delete_agree|..].
  - intros k' Hk'. rewrite lookup_delete_ne; [done|]. by intros ->.
  - rewrite dom_delete_L. set_solver.
Qed.

Lemma wp_retry_zadd s v sc k (Q : Z → rstate → Prop) :
  Rep w J s0 s v → k ∈ J →
  (∀ n s', Rep w J s0 s' (with_retry (<[k := sc]> (v_retry v)) v) → Q n s') →
  wpr (ZADD JOB_RETRY_STREAM_KEY sc k) Q s.
Proof.
  intros HR Hk HQ. destruct (rep_retry _ _ _ _ _ HR) as (Hd & z0 & z1 & Hz0 & Hz1 & HJ & HN).
  unfold wp; simpl. rewrite Hz1. apply HQ. eapply rep_put_retry; [done|done|by apply insert_agree|..].
  - intros k' Hk'. rewrite lookup_insert_ne; [done|]. by intros ->.
  - rewrite dom_insert_L. set_solver.
Qed.

Lemma wp_retry_zrem s v k (Q : Z → rstate → Prop) :
  Rep w J s0 s v → k ∈ J →
  (∀ n s', Rep w J s0 s' (with_retry (delete k (v_retry v)) v) → Q n s') →
  wpr (ZREM JOB_RETRY_STREAM_KEY [k]) Q s.
Proof.
  intros HR Hk HQ. destruct (rep_retry _ _ _ _ _ HR) as (Hd & z0 & z1 & Hz0 & Hz1 & HJ & HN).
  unfold wp; simpl. rewrite Hz1. apply HQ. eapply rep_put_retry; [done|done|by apply delete_agree|..].
  - intros k' Hk'. rewrite lookup_delete_ne; [done|]. by intros ->.
  - rewrite dom_delete_L. set_solver.
Qed.

Lemma wp_succ_range s v j (Q : list string → rstate → Prop) :
  Rep w J s0 s v → job_key w j ∈ J → Q (succ_of v j) s →
  wpr (LRANGE_ALL (successors_key w j)) Q s.
Proof. intros HR Hj HQ. unfold wp; simpl. by rewrite (rep_succ _ _ _ _ _ HR j Hj). Qed.

Lemma wp_succ_del s v j (Q : Z → rstate → Prop) :
  Rep w J s0 s v → job_key w j ∈ J →
  (∀ n s', Rep w J s0 s' (with_succ (delete j (v_succ v)) v) → Q n s') →
  wpr (DEL (successors_key w j)) Q s.
Proof. intros HR Hj HQ. unfold wp; simpl. apply HQ. by apply rep_del_succ. Qed.
End rules.
