(* ===== verification/WorkflowSpec.v ===== *)
(** * What each script does to a workflow

    For every runtime script, a function on typed views ([spec_*]) that says
    what the script promises, and the refinement theorem that the script, run
    on any keyspace that represents the view, answers as the function says and
    leaves a keyspace that represents the resulting view (and touches nothing
    outside the workflow, by [Rep]). *)

From S2P Require Import Prelude.
From S2P Require Import Prog.
From S2P Require Import RedisServer.
From S2P Require Import Models.
From S2P Require Import RedisKeys.
From S2P Require Import Scripts.
From S2P Require Import WorkflowView.

(** ** Specifications *)

(** Counters stay far from the bounds of a 64-bit integer and are exact as Lua
    numbers. *)
Definition small (z : Z) : Prop := - 2 ^ 52 ≤ z ≤ 2 ^ 52.

Record view_ok (v : wview) : Prop := {
  ok_reserved : small (w_reserved (v_wf v));
  ok_completed : small (w_completed (v_wf v));
  ok_failed : small (w_failed (v_wf v));
  ok_pending : small (w_pending (v_wf v));
  ok_deps : ∀ k x, v_jobs v !! k = Some x → small (jv_deps x);
  ok_waiting : dom (v_waiting v) ⊆ dom (v_jobs v)
}.

Definition wf_is (st : WorkflowStatus.t) (v : wview) : bool :=
  bool_decide (w_status (v_wf v) = st).
Definition job_is (st : JobStatus.t) (x : jobv) : bool := bool_decide (jv_status x = st).

(** Mark a job QUEUED, publish it on the execution queue and reserve its slot. *)
Definition spec_queue (k : string) (p : Z) (x : jobv) (v : wview) : wview :=
  with_wf (set_reserved (w_reserved (v_wf v) + 1) (v_wf v))
    (with_exec (<[k := p]> (v_exec v)) (put_job k (job_st JobStatus.QUEUED x) v)).

(** Promote the best waiting job. *)
Definition spec_promote (v : wview) : option string * wview :=
  match zmax (v_waiting v) with
  | None => (None, v)
  | Some (k, p) =>
      match v_jobs v !! k with
      | None => (None, v)
      | Some x => (Some k, spec_queue k p x (with_waiting (delete k (v_waiting v)) v))
      end
  end.

(** A completed predecessor of job [id]. *)
Definition spec_release_successor (w : WorkflowIdentity) (acc : list string * wview)
  (id : string) : list string * wview :=
  let '(newly, v) := acc in
  let k := job_key w id in
  match v_jobs v !! k with
  | None => (newly, v)
  | Some x =>
      if job_is JobStatus.PENDING x then
        if jv_deps x - 1 <=? 0 then
          let v1 := put_job k (job_st JobStatus.READY (job_deps 0 x)) v in
          let p := w_pending (v_wf v) in
          let v2 := if 0 <? p then with_wf (set_pending (p - 1) (v_wf v1)) v1 else v1 in
          ((newly ++ [id])%list, with_waiting (<[k := jv_prio x]> (v_waiting v2)) v2)
        else (newly, put_job k (job_deps (jv_deps x - 1) x) v)
      else (newly, v)
  end.

Inductive complete_result :=
| AlreadyCompleted
| NotRunning
| DeadlinePassed
| Completed (workflow : bool) (promoted : option string) (newly_ready : list string).

(** The job's outcome recorded: dependants released, slot returned. *)
Definition spec_record_success (w : WorkflowIdentity) (j : string) (x : jobv) (v : wview) :
  list string * wview :=
  let v1 := put_job (job_key w j) (job_st JobStatus.COMPLETED x) v in
  let v2 := with_succ (delete j (v_succ v1)) v1 in
  let '(newly, v3) := foldl (spec_release_successor w) ([], v2) (succ_of v j) in
  (newly,
   with_wf (set_reserved (release (w_reserved (v_wf v3)))
             (set_completed (w_completed (v_wf v3) + 1) (v_wf v3))) v3).

Definition spec_complete (w : WorkflowIdentity) (now : Z) (j : string) (x : jobv) (v : wview) :
  complete_result * wview :=
  if job_is JobStatus.COMPLETED x then (AlreadyCompleted, v)
  else if negb (wf_is WorkflowStatus.RUNNING v) then (NotRunning, v)
  else if past_deadline now (default 0 (w_start (v_wf v))) (w_maxrun (v_wf v)) then
    (DeadlinePassed, with_wf (set_status WorkflowStatus.FAILED (v_wf v)) v)
  else
    let '(newly, v1) := spec_record_success w j x v in
    let total := w_total (v_wf v1) in
    if (0 <? total) && (w_completed (v_wf v1) =? total) then
      (Completed true None newly, with_wf (set_status WorkflowStatus.COMPLETED (v_wf v1)) v1)
    else if w_reserved (v_wf v1) <? w_maxc (v_wf v1) then
      let '(promoted, v2) := spec_promote v1 in (Completed false promoted newly, v2)
    else (Completed false None newly, v1).

(** The reply array of [complete_successful_job_runtime_async]. *)
Definition job_id_of (w : WorkflowIdentity) (promoted : option string) : string :=
  match promoted with Some k => sdrop (String.length (job_key w "")) k | None => "" end.

Definition complete_reply (w : WorkflowIdentity) (r : complete_result) : list string :=
  match r with
  | AlreadyCompleted => ["1"; "0"; ""; "0"]
  | NotRunning => ["0"]
  | DeadlinePassed => ["-1"]
  | Completed wf promoted newly =>
      (["1"; if wf then "1" else "0"; job_id_of w promoted; to_str (Z.of_nat (length newly))]
       ++ newly)%list
  end.

(** A sibling of the failed job. *)
Definition cancelable (st : JobStatus.t) : bool :=
  match st with
  | JobStatus.PENDING | JobStatus.READY | JobStatus.QUEUED | JobStatus.RETRY_DELAY => true
  | _ => false
  end.

Definition spec_cancel (w : WorkflowIdentity) (failed : string) (acc : list string * wview)
  (id : string) : list string * wview :=
  let '(canceled, v) := acc in
  let k := job_key w id in
  if decide (k = job_key w failed) then (canceled, v)
  else
    match v_jobs v !! k with
    | None => (canceled, v)
    | Some x =>
        if cancelable (jv_status x) then
          let v1 := put_job k (job_st JobStatus.ABORTED x) v in
          let v2 := with_waiting (delete k (v_waiting v1)) v1 in
          let v3 := if job_is JobStatus.QUEUED x
                    then with_exec (delete k (v_exec v2)) v2 else v2 in
          let v4 := if job_is JobStatus.RETRY_DELAY x
                    then with_retry (delete k (v_retry v3)) v3 else v3 in
          ((canceled ++ [id])%list, v4)
        else (canceled, v)
    end.

Record fail_result := mkFail {
  fr_failed_workflow : bool; fr_completed_workflow : bool; fr_canceled : list string }.

Definition spec_fail (w : WorkflowIdentity) (j : string) (retry : Z) (ids : list string)
  (x : jobv) (v : wview) : fail_result * wview :=
  let v1 := put_job (job_key w j) (job_st JobStatus.FAILED (job_retry retry x)) v in
  let failed := wf_is WorkflowStatus.RUNNING v in
  let '(canceled, v2) :=
    if failed then
      foldl (spec_cancel w j)
        ([], with_wf (set_reserved (release (w_reserved (v_wf v1)))
                       (set_status WorkflowStatus.FAILED (v_wf v1))) v1) ids
    else ([], v1) in
  let v3 := with_wf (set_failed (w_failed (v_wf v2) + 1)
              (set_completed (w_completed (v_wf v2) + (1 + Z.of_nat (length canceled)))
                (v_wf v2))) v2 in
  let total := w_total (v_wf v3) in
  (mkFail failed ((0 <? total) && (w_completed (v_wf v3) =? total)) canceled, v3).

Definition fail_reply (r : fail_result) : list string :=
  (["1"; if fr_failed_workflow r then "1" else "0"; if fr_completed_workflow r then "1" else "0";
    to_str (Z.of_nat (length (fr_canceled r)))] ++ fr_canceled r)%list.

(** Put a job in the retry queue, return its slot and promote a waiting job. *)
Definition spec_retry (w : WorkflowIdentity) (j : string) (retry at_ms : Z) (x : jobv)
  (v : wview) : option string * wview :=
  let k := job_key w j in
  let v1 := put_job k (job_st JobStatus.RETRY_DELAY (job_retry retry x)) v in
  let v2 := with_retry (<[k := at_ms]> (v_retry v1)) v1 in
  let v3 := with_wf (set_reserved (release (w_reserved (v_wf v2))) (v_wf v2)) v2 in
  if wf_is WorkflowStatus.RUNNING v then
    if w_maxc (v_wf v3) <=? w_reserved (v_wf v3) then (None, v3) else spec_promote v3
  else (None, v3).

(** A job whose retry delay is over. *)
Definition spec_promote_retry (w : WorkflowIdentity) (j : string) (x : jobv) (v : wview) :
  option string * wview :=
  let k := job_key w j in
  if negb (wf_is WorkflowStatus.RUNNING v) then
    (None, put_job k (job_st JobStatus.ABORTED x) v)
  else if negb (job_is JobStatus.RETRY_DELAY x) && negb (job_is JobStatus.READY x) then (None, v)
  else
    let full := w_maxc (v_wf v) <=? w_reserved (v_wf v) in
    if negb full && (Z.of_nat (size (v_waiting v)) =? 0) then
      (Some k, spec_queue k (jv_prio x) x v)
    else
      let v1 := put_job k (job_st JobStatus.READY x) v in
      let v2 := with_waiting (<[k := jv_prio x]> (v_waiting v1)) v1 in
      if full then (None, v2) else spec_promote v2.

Definition promoted_reply (promoted : option string) : list string :=
  ["1"; default "" promoted].

(** A scheduler claims a job it popped from the execution queue. *)
Definition spec_claim (k : string) (x : jobv) (v : wview) : bool * wview :=
  if job_is JobStatus.READY x || job_is JobStatus.QUEUED x
  then (true, put_job k (job_st JobStatus.PENDING_EXECUTION x) v)
  else (false, v).

(** A worker starts a claimed job. *)
Definition spec_start (w : WorkflowIdentity) (now : Z) (j : string) (x : jobv) (v : wview) :
  StartJobResult.t * wview :=
  let k := job_key w j in
  let fail v := with_wf (set_status WorkflowStatus.FAILED (v_wf v)) v in
  let abort v := put_job k (job_st JobStatus.ABORTED x) v in
  let start v := put_job k (job_st JobStatus.RUNNING x) v in
  if job_is JobStatus.ABORTED x then (StartJobResult.ALREADY_CANCELED, v)
  else if negb (job_is JobStatus.PENDING_EXECUTION x) then
    (StartJobResult.INVARIANT_VIOLATION_JOB_STATUS, fail v)
  else
    match w_status (v_wf v) with
    | WorkflowStatus.READY =>
        match w_start (v_wf v) with
        | Some _ => (StartJobResult.INVARIANT_VIOLATION_WORKFLOW_TIME, fail (abort v))
        | None =>
            (StartJobResult.FIRST_TO_START,
             start (with_wf (set_start (Some now)
                      (set_status WorkflowStatus.RUNNING (v_wf v))) v))
        end
    | WorkflowStatus.RUNNING => (StartJobResult.STARTED, start v)
    | WorkflowStatus.FAILED | WorkflowStatus.CANCELED =>
        (StartJobResult.CANCELED_BY_WORKFLOW_STATE, abort v)
    | _ => (StartJobResult.INVARIANT_VIOLATION_WORKFLOW_STATUS, fail (abort v))
    end.

Definition start_reply (r : StartJobResult.t) : list string :=
  match r with
  | StartJobResult.FIRST_TO_START => ["FIRST_TO_START"]
  | StartJobResult.STARTED => ["STARTED"]
  | StartJobResult.CANCELED_BY_WORKFLOW_STATE => ["CANCELED_BY_WORKFLOW_STATE"]
  | StartJobResult.ALREADY_CANCELED => ["ALREADY_CANCELED"]
  | StartJobResult.INVARIANT_VIOLATION_JOB_STATUS => ["INVARIANT_VIOLATION_JOB_STATUS"]
  | StartJobResult.INVARIANT_VIOLATION_WORKFLOW_STATUS =>
      ["INVARIANT_VIOLATION_WORKFLOW_STATUS"]
  | StartJobResult.INVARIANT_VIOLATION_WORKFLOW_TIME => ["INVARIANT_VIOLATION_WORKFLOW_TIME"]
  | StartJobResult.INTERNAL_ERROR => []
  end.

(** ** Lemmas on statuses and numbers *)

Lemma jst_eqb a b :
  String.eqb (JobStatus.to_string a) (JobStatus.to_string b) = bool_decide (a = b).
Proof. by destruct a, b. Qed.
Lemma wst_eqb a b :
  String.eqb (WorkflowStatus.to_string a) (WorkflowStatus.to_string b) = bool_decide (a = b).
Proof. by destruct a, b. Qed.
Lemma num_or_to_str d z : num_or d (Some (to_str z)) = z.
Proof. unfold num_or; simpl. by rewrite tonumber_to_str. Qed.
Lemma num_or_start t : num_or "" (Some (start_str t)) = default 0 t.
Proof. destruct t; simpl; [apply num_or_to_str|done]. Qed.
Lemma small_int64 z n : small z → - 2 ^ 53 ≤ n ≤ 2 ^ 53 → in_int64 (z + n) = true.
Proof. unfold small, in_int64, int64_min, int64_max. lia. Qed.
Lemma small_int64_0 z : small z → in_int64 z = true.
Proof. unfold small, in_int64, int64_min, int64_max. lia. Qed.

Lemma release_small z : small z → small (release z).
Proof. unfold release, small. case_match; lia. Qed.

(** ** Refinement *)

Ltac names :=
  unfold wf_ready, wf_running, wf_completed, wf_failed, wf_canceled, st_pending, st_ready,
    st_queued, st_pending_execution, st_running, st_retry_delay, st_completed, st_failed,
    st_aborted, is_str in *;
  cbn [default from_option id];
  rewrite ?jst_eqb, ?wst_eqb, ?num_or_to_str, ?num_or_start.

(** Read a tracked field of the workflow, of a job, or the clock. *)
Ltac wf_get := apply wp_bind; eapply wp_wf_hget; [eassumption|fields_tac|]; names.
Ltac job_get Hk := apply wp_bind; eapply wp_job_hget; [eassumption|exact Hk|fields_tac|]; names.
Ltac get_time := apply wp_bind; eapply wp_time; [eassumption|]; cbn zeta.

(** Write the workflow hash so that it becomes [y]. *)
Ltac wf_set y HR :=
  apply wp_bind; eapply wp_wf_hset with (x := y);
    [eassumption|fields_tac|clear HR; intros ? ? HR].
Ltac job_set y Hk HR :=
  apply wp_bind; eapply wp_job_hset with (x := y);
    [eassumption|exact Hk|fields_tac|clear HR; intros ? ? HR].

Section refinement.
Context (w : WorkflowIdentity) (J : gset string) (s0 : rstate).
Implicit Types (s : rstate) (v : wview).

Abbreviation now := (r_clock s0 `div` 1000000).

Lemma promote_refines s v lut :
  Rep w J s0 s v → small (w_reserved (v_wf v)) → dom (v_waiting v) ⊆ dom (v_jobs v) →
  wp redis_doc
    (promote_waiting (workflow_key w) (workflow_waiting_jobs_key w) EXECUTION_QUEUE_KEY lut)
    (λ r s', r = (spec_promote v).1 ∧ Rep w J s0 s' (spec_promote v).2) s.
Proof.
  intros HR Hres Hwait. unfold promote_waiting, spec_promote.
  apply wp_bind. eapply wp_waiting_pop; [done|].
  destruct (zmax (v_waiting v)) as [[k p]|] eqn:Hm; [|by apply wp_ret].
  assert (is_Some (v_jobs v !! k)) as [x Hx].
  { apply elem_of_dom, Hwait. apply zmax_Some in Hm. by eapply elem_of_dom_2. }
  rewrite Hx. intros ? HR1. pose proof (rep_in_J _ _ _ _ _ _ _ HR Hx) as HkJ.
  job_set (job_st JobStatus.QUEUED x) Hx HR1.
  apply wp_bind. eapply wp_exec_zadd; [done|exact HkJ|]. clear HR1. intros _ ? HR1.
  apply wp_bind. eapply wp_wf_hincr
    with (x := set_reserved (w_reserved (v_wf v) + 1) (v_wf v)); [done|fields_tac| | |fields_tac|].
  - by apply small_int64_0.
  - by apply small_int64; [|lia].
  - intros ? HR3. by apply wp_ret.
Qed.

Lemma schedule_retry_refines s v j x retry at_ms ch :
  Rep w J s0 s v → view_ok v → v_jobs v !! job_key w j = Some x →
  wp redis_doc
    (schedule_job_retry_lua (workflow_key w) (workflow_waiting_jobs_key w) EXECUTION_QUEUE_KEY
      (job_key w j) JOB_RETRY_STREAM_KEY (to_str retry) at_ms ch)
    (λ r s', r = promoted_reply (spec_retry w j retry at_ms x v).1 ∧
             Rep w J s0 s' (spec_retry w j retry at_ms x v).2) s.
Proof.
  intros HR Hok Hx. pose proof (rep_in_J _ _ _ _ _ _ _ HR Hx) as HkJ.
  unfold schedule_job_retry_lua, spec_retry.
  get_time. job_set (job_st JobStatus.RETRY_DELAY (job_retry retry x)) Hx HR.
  apply wp_bind. eapply wp_retry_zadd; [done|exact HkJ|]. clear HR. intros _ ? HR.
  apply wp_bind, wp_publish.
  wf_get. wf_set (set_reserved (release (w_reserved (v_wf v))) (v_wf v)) HR.
  wf_get. fold (wf_is WorkflowStatus.RUNNING v).
  destruct (wf_is WorkflowStatus.RUNNING v); cbn [negb]; [|by apply wp_ret].
  wf_get. destruct (_ <=? _); [by apply wp_ret|].
  apply wp_bind. eapply wp_mono; [|eapply promote_refines; [done|..]].
  - intros r ? [-> HR']. by apply wp_ret.
  - apply release_small, Hok.
  - simpl. rewrite dom_insert_L. pose proof (ok_waiting _ Hok). set_solver.
Qed.

Lemma promote_retry_refines s v j x :
  Rep w J s0 s v → view_ok v → v_jobs v !! job_key w j = Some x →
  wp redis_doc
    (promote_retry_job_lua (workflow_key w) (workflow_waiting_jobs_key w) EXECUTION_QUEUE_KEY
      (job_key w j))
    (λ r s', r = promoted_reply (spec_promote_retry w j x v).1 ∧
             Rep w J s0 s' (spec_promote_retry w j x v).2) s.
Proof.
  intros HR Hok Hx. pose proof (rep_in_J _ _ _ _ _ _ _ HR Hx) as HkJ.
  unfold promote_retry_job_lua, spec_promote_retry.
  get_time. wf_get. job_get Hx.
  fold (wf_is WorkflowStatus.RUNNING v) (job_is JobStatus.RETRY_DELAY x) (job_is JobStatus.READY x).
  destruct (wf_is WorkflowStatus.RUNNING v); cbn [negb].
  2:{ job_set (job_st JobStatus.ABORTED x) Hx HR. by apply wp_ret. }
  destruct (negb (job_is JobStatus.RETRY_DELAY x) && negb (job_is JobStatus.READY x));
    [by apply wp_ret|].
  wf_get. wf_get. job_get Hx. rewrite Z.ltb_antisym.
  apply wp_bind.
  eapply (wp_mono _ _ (λ b s', Rep w J s0 s' v ∧
    b = negb (w_maxc (v_wf v) <=? w_reserved (v_wf v)) && (Z.of_nat (size (v_waiting v)) =? 0))).
  2:{ destruct (_ <=? _); simpl; [by apply wp_ret|].
      apply wp_bind. eapply wp_waiting_card; [done|]. by apply wp_ret. }
  clear s HR. intros b s [HR ->].
  destruct (negb _ && _) eqn:Hb.
  - job_set (job_st JobStatus.QUEUED x) Hx HR.
    apply wp_bind. eapply wp_exec_zadd; [done|exact HkJ|]. clear HR. intros _ ? HR.
    apply wp_bind. eapply wp_wf_hincr
      with (x := set_reserved (w_reserved (v_wf v) + 1) (v_wf v)); [done|fields_tac| | |fields_tac|].
    + apply small_int64_0, Hok.
    + apply small_int64; [apply Hok|lia].
    + intros ? HR3. by apply wp_ret.
  - job_set (job_st JobStatus.READY x) Hx HR.
    apply wp_bind. eapply wp_waiting_zadd; [done|]. clear HR. intros _ ? HR.
    destruct (_ <=? _); [by apply wp_ret|].
    apply wp_bind. eapply wp_mono; [|eapply promote_refines; [done|..]].
    + intros r ? [-> HR']. by apply wp_ret.
    + apply Hok.
    + simpl. rewrite !dom_insert_L. pose proof (ok_waiting _ Hok). set_solver.
Qed.

Lemma claim_refines s v k x sid :
  Rep w J s0 s v → v_jobs v !! k = Some x →
  wp redis_doc (claim_lua k sid)
    (λ r s', r = [if (spec_claim k x v).1 then "1" else "0"] ∧
             Rep w J s0 s' (spec_claim k x v).2) s.
Proof.
  intros HR Hx. unfold claim_lua, spec_claim. job_get Hx.
  fold (job_is JobStatus.READY x) (job_is JobStatus.QUEUED x).
  rewrite <-negb_orb. destruct (job_is JobStatus.READY x || job_is JobStatus.QUEUED x); cbn [negb].
  - job_set (job_st JobStatus.PENDING_EXECUTION x) Hx HR. by apply wp_ret.
  - by apply wp_ret.
Qed.

Lemma put_job_wf k y x v : put_job k y (with_wf x v) = with_wf x (put_job k y v).
Proof. done. Qed.

Lemma start_str_empty t : String.eqb (start_str t) "" = match t with None => true | _ => false end.
Proof.
  destruct t as [z|]; [|done]. simpl. pose proof (parse_int_pretty z) as H.
  destruct (to_str z); done.
Qed.

Lemma start_refines s v j x :
  Rep w J s0 s v → v_jobs v !! job_key w j = Some x →
  wp redis_doc (try_set_job_to_running_lua (workflow_key w) (job_key w j))
    (λ r s', r = start_reply (spec_start w now j x v).1 ∧
             Rep w J s0 s' (spec_start w now j x v).2) s.
Proof.
  intros HR Hx. unfold try_set_job_to_running_lua, spec_start. job_get Hx.
  fold (job_is JobStatus.ABORTED x) (job_is JobStatus.PENDING_EXECUTION x).
  destruct (job_is JobStatus.ABORTED x); [by apply wp_ret|].
  get_time. destruct (job_is JobStatus.PENDING_EXECUTION x); cbn [negb].
  2:{ wf_set (set_status WorkflowStatus.FAILED (v_wf v)) HR. by apply wp_ret. }
  wf_get. destruct (w_status (v_wf v)) eqn:Est; simpl.
  all: try (job_set (job_st JobStatus.ABORTED x) Hx HR; by apply wp_ret).
  all: try (job_set (job_st JobStatus.RUNNING x) Hx HR; by apply wp_ret).
  all: try (job_set (job_st JobStatus.ABORTED x) Hx HR;
            wf_set (set_status WorkflowStatus.FAILED (v_wf v)) HR; by apply wp_ret).
  wf_get. rewrite start_str_empty. destruct (w_start (v_wf v)); cbn [negb].
  - job_set (job_st JobStatus.ABORTED x) Hx HR.
    wf_set (set_status WorkflowStatus.FAILED (v_wf v)) HR; by apply wp_ret.
  - wf_set (set_start (Some now) (set_status WorkflowStatus.RUNNING (v_wf v))) HR.
    job_set (job_st JobStatus.RUNNING x) Hx HR. by apply wp_ret.
Qed.

(** The successor loop. *)
Lemma release_successor_refines s v newly id lut :
  Rep w J s0 s v → view_ok v → job_key w id ∈ J →
  wp redis_doc
    (release_successor (workflow_key w) (workflow_waiting_jobs_key w) (job_key w "") lut newly id)
    (λ r s', r = (spec_release_successor w (newly, v) id).1 ∧
             Rep w J s0 s' (spec_release_successor w (newly, v) id).2) s.
Proof.
  intros HR Hok HJ. unfold release_successor, spec_release_successor. rewrite job_key_concat.
  rewrite <-(rep_dom _ _ _ _ _ HR), elem_of_dom in HJ. destruct HJ as [x Hx]. rewrite Hx.
  pose proof (ok_deps _ Hok _ _ Hx) as Hsm.
  job_get Hx. fold (job_is JobStatus.PENDING x).
  destruct (job_is JobStatus.PENDING x) eqn:Hp; [|by apply wp_ret].
  apply wp_bind. eapply wp_job_hincr with (x := job_deps (jv_deps x - 1) x);
    [done|exact Hx|fields_tac|by apply small_int64_0|by apply small_int64; [|lia]|fields_tac|].
  clear HR. intros s1 HR.
  assert (Hx1 : v_jobs (put_job (job_key w id) (job_deps (jv_deps x - 1) x) v)
                !! job_key w id = Some (job_deps (jv_deps x - 1) x)).
  { simpl. by rewrite lookup_insert_eq. }
  apply wp_bind. eapply wp_job_touch; [done|exact Hx1|fields_tac|]. clear HR. intros _ s2 HR.
  change (jv_deps x + -1) with (jv_deps x - 1).
  destruct (jv_deps x - 1 <=? 0); [|by apply wp_ret].
  job_set (job_st JobStatus.READY (job_deps 0 x)) Hx1 HR.
  assert (HR' : Rep w J s0 s' (put_job (job_key w id) (job_st JobStatus.READY (job_deps 0 x)) v)).
  { revert HR. unfold put_job; simpl. by rewrite insert_insert_eq. }
  clear HR. rename HR' into HR.
  wf_get. simpl.
  apply wp_bind.
  set (v1 := put_job (job_key w id) (job_st JobStatus.READY (job_deps 0 x)) v) in *.
  set (v2 := if 0 <? w_pending (v_wf v)
             then with_wf (set_pending (w_pending (v_wf v) - 1) (v_wf v)) v1 else v1).
  eapply (wp_mono _ _ (λ _ s', Rep w J s0 s' v2)).
  2:{ unfold v2. destruct (0 <? w_pending (v_wf v)); [|by apply wp_ret].
      apply wp_bind. eapply wp_wf_hincr with (x := set_pending (w_pending (v_wf v) - 1) (v_wf v));
        [done|fields_tac| | |fields_tac|].
      - apply small_int64_0, Hok.
      - apply small_int64; [apply Hok|lia].
      - intros s4 HR4. by apply wp_ret. }
  clear HR. intros _ s4 HR.
  assert (Hx2 : v_jobs v2 !! job_key w id = Some (job_st JobStatus.READY (job_deps 0 x))).
  { unfold v2, v1. destruct (0 <? _); simpl; by rewrite lookup_insert_eq. }
  job_get Hx2. apply wp_bind. eapply wp_waiting_zadd; [done|]. intros _ s5 HR5. by apply wp_ret.
Qed.

Lemma spec_release_successor_ok newly v id :
  view_ok v → view_ok (spec_release_successor w (newly, v) id).2.
Proof.
  intros Hok. unfold spec_release_successor.
  destruct (v_jobs v !! job_key w id) as [x|] eqn:Hx; [|done].
  destruct (job_is _ x); [|done]. pose proof (ok_deps _ Hok _ _ Hx).
  destruct Hok. destruct (jv_deps x - 1 <=? 0) eqn:Hle; simpl.
  - destruct (0 <? w_pending (v_wf v)) eqn:Hp; split; simpl; try done.
    all: try (unfold small in *; lia).
    all: try (intros k y [[<- <-]|[_ Hy]]%lookup_insert_Some; simpl; [unfold small; lia|eauto]).
    all: rewrite !dom_insert_L; set_solver.
  - split; simpl; try done.
    + intros k y [[<- <-]|[_ Hy]]%lookup_insert_Some; simpl; [unfold small in *; lia|eauto].
    + rewrite !dom_insert_L; set_solver.
Qed.

Lemma release_successors_refines s v newly ids lut :
  Rep w J s0 s v → view_ok v → Forall (λ id, job_key w id ∈ J) ids →
  wp redis_doc
    (pfold (release_successor (workflow_key w) (workflow_waiting_jobs_key w) (job_key w "") lut)
       ids newly)
    (λ r s', r = (foldl (spec_release_successor w) (newly, v) ids).1 ∧
             Rep w J s0 s' (foldl (spec_release_successor w) (newly, v) ids).2 ∧
             view_ok (foldl (spec_release_successor w) (newly, v) ids).2) s.
Proof.
  intros HR Hok Hids. revert s v newly HR Hok.
  induction Hids as [|id ids Hid _ IH]; intros s v newly HR Hok; [by apply wp_ret|].
  cbn [pfold foldl]. apply wp_bind.
  eapply wp_mono; [|by apply release_successor_refines].
  intros r s' [-> HR']. pose proof (spec_release_successor_ok newly v id Hok) as Hok'.
  destruct (spec_release_successor w (newly, v) id) as [newly' v'] eqn:E.
  by apply IH.
Qed.

Lemma foldl_release_dom acc ids :
  dom (v_jobs (foldl (spec_release_successor w) acc ids).2) = dom (v_jobs acc.2).
Proof.
  revert acc. induction ids as [|id ids IH]; intros [newly v]; [done|].
  cbn [foldl]. rewrite IH. unfold spec_release_successor.
  destruct (v_jobs v !! job_key w id) as [x|] eqn:Hx; [|done].
  apply elem_of_dom_2 in Hx.
  repeat (case_match; simpl; try done); rewrite dom_insert_L; set_solver.
Qed.

Lemma complete_refines s v j x lut :
  Rep w J s0 s v → view_ok v → v_jobs v !! job_key w j = Some x →
  Forall (λ id, job_key w id ∈ J) (succ_of v j) →
  wp redis_doc
    (complete_successful_lua (workflow_key w) (workflow_waiting_jobs_key w) EXECUTION_QUEUE_KEY
      (job_key w j) (successors_key w j) lut (job_key w ""))
    (λ r s', r = complete_reply w (spec_complete w now j x v).1 ∧
             Rep w J s0 s' (spec_complete w now j x v).2) s.
Proof.
  intros HR Hok Hx Hids. pose proof (rep_in_J _ _ _ _ _ _ _ HR Hx) as HkJ.
  unfold complete_successful_lua, spec_complete, spec_record_success.
  wf_get. job_get Hx. fold (job_is JobStatus.COMPLETED x) (wf_is WorkflowStatus.RUNNING v).
  destruct (job_is JobStatus.COMPLETED x); [by apply wp_ret|].
  destruct (wf_is WorkflowStatus.RUNNING v); cbn [negb]; [|by apply wp_ret].
  get_time. wf_get. wf_get. destruct (past_deadline _ _ _).
  { wf_set (set_status WorkflowStatus.FAILED (v_wf v)) HR. by apply wp_ret. }
  job_set (job_st JobStatus.COMPLETED x) Hx HR.
  apply wp_bind. eapply wp_succ_range; [done|exact HkJ|].
  apply wp_bind. eapply wp_succ_del; [done|exact HkJ|]. clear HR. intros _ s1 HR.
  set (v1 := put_job (job_key w j) (job_st JobStatus.COMPLETED x) v) in *.
  change (succ_of v1 j) with (succ_of v j).
  set (v2 := with_succ (delete j (v_succ v1)) v1) in *.
  assert (Hok2 : view_ok v2).
  { destruct Hok. split; simpl; try done.
    - intros k y [[<- <-]|[_ Hy]]%lookup_insert_Some; simpl; eauto.
    - rewrite dom_insert_L. set_solver. }
  apply wp_bind. eapply wp_mono; [|by apply release_successors_refines].
  clear HR. intros newly s2 (-> & HR & Hok3).
  destruct (foldl _ _ _) as [newly v3]. simpl in HR, Hok3 |- *.
  apply wp_bind. eapply wp_wf_hincr with (x := set_completed (w_completed (v_wf v3) + 1) (v_wf v3));
    [done|fields_tac| | |fields_tac|].
  { apply small_int64_0, Hok3. }
  { apply small_int64; [apply Hok3|lia]. }
  clear HR. intros s3 HR. wf_get.
  wf_set (set_reserved (release (w_reserved (v_wf v3)))
           (set_completed (w_completed (v_wf v3) + 1) (v_wf v3))) HR.
  wf_get. simpl. set (x4 := set_reserved _ _) in *.
  apply wp_bind. destruct ((0 <? _) && _); simpl.
  - wf_set (set_status WorkflowStatus.COMPLETED x4) HR. by apply wp_ret, wp_bind, wp_ret, wp_ret.
  - apply wp_ret. apply wp_bind. wf_get. simpl.
    destruct (release _ <? _); [|by apply wp_ret, wp_ret].
    apply wp_bind. eapply wp_mono; [|eapply promote_refines; [exact HR|..]].
    + intros r ? [-> HR']. apply wp_ret, wp_ret. simpl.
      by destruct (spec_promote _) as [promoted v5].
    + apply release_small, Hok3.
    + apply Hok3.
Qed.

(** The sibling loop. *)
Lemma cancel_refines s v canceled j id lut :
  Rep w J s0 s v → job_key w id ∈ J →
  wp redis_doc
    (cancel_sibling (workflow_waiting_jobs_key w) EXECUTION_QUEUE_KEY JOB_RETRY_STREAM_KEY
       (job_key w j) lut canceled (id, job_key w id))
    (λ r s', r = (spec_cancel w j (canceled, v) id).1 ∧
             Rep w J s0 s' (spec_cancel w j (canceled, v) id).2) s.
Proof.
  intros HR HJ. unfold cancel_sibling, spec_cancel.
  destruct (String.eqb_spec (job_key w id) (job_key w j)) as [E|E].
  { rewrite decide_True by done. by apply wp_ret. }
  rewrite decide_False by done.
  pose proof HJ as HJ'. rewrite <-(rep_dom _ _ _ _ _ HR), elem_of_dom in HJ'.
  destruct HJ' as [x Hx]. rewrite Hx. job_get Hx.
  assert (∀ st, bool_decide (jv_status x = st) = job_is st x) as Hfold by done.
  rewrite !Hfold.
  assert (cancelable (jv_status x) =
    job_is JobStatus.PENDING x || job_is JobStatus.READY x || job_is JobStatus.QUEUED x
    || job_is JobStatus.RETRY_DELAY x) as ->.
  { unfold job_is. by destruct (jv_status x). }
  destruct (_ || _); [|by apply wp_ret].
  job_set (job_st JobStatus.ABORTED x) Hx HR.
  apply wp_bind. eapply wp_waiting_zrem; [done|]. clear HR. intros _ ? HR.
  apply wp_bind. destruct (job_is JobStatus.QUEUED x).
  - apply wp_bind. eapply wp_exec_zrem; [done|exact HJ|]. clear HR. intros _ ? HR. apply wp_ret.
    apply wp_bind. destruct (job_is JobStatus.RETRY_DELAY x); [|by apply wp_ret, wp_ret].
    apply wp_bind. eapply wp_retry_zrem; [done|exact HJ|]. intros _ ? ?. by apply wp_ret, wp_ret.
  - apply wp_ret.
    apply wp_bind. destruct (job_is JobStatus.RETRY_DELAY x); [|by apply wp_ret, wp_ret].
    apply wp_bind. eapply wp_retry_zrem; [done|exact HJ|]. intros _ ? ?. by apply wp_ret, wp_ret.
Qed.

Lemma cancels_refine s v canceled j ids lut :
  Rep w J s0 s v → Forall (λ id, job_key w id ∈ J) ids →
  wp redis_doc
    (pfold (cancel_sibling (workflow_waiting_jobs_key w) EXECUTION_QUEUE_KEY JOB_RETRY_STREAM_KEY
       (job_key w j) lut) ((λ id, (id, job_key w id)) <$> ids) canceled)
    (λ r s', r = (foldl (spec_cancel w j) (canceled, v) ids).1 ∧
             Rep w J s0 s' (foldl (spec_cancel w j) (canceled, v) ids).2) s.
Proof.
  intros HR Hids. revert s v canceled HR.
  induction Hids as [|id ids Hid _ IH]; intros s v canceled HR; [by apply wp_ret|].
  cbn [pfold foldl fmap list_fmap]. apply wp_bind.
  eapply wp_mono; [|by apply cancel_refines]. intros r s' [-> HR'].
  destruct (spec_cancel w j (canceled, v) id) as [canceled' v']. by apply IH.
Qed.

Lemma spec_cancel_wf j acc id :
  v_wf (spec_cancel w j acc id).2 = v_wf acc.2.
Proof.
  unfold spec_cancel. destruct acc as [canceled v]. repeat (case_match; simpl; try done).
Qed.

Lemma foldl_cancel_wf j acc ids : v_wf (foldl (spec_cancel w j) acc ids).2 = v_wf acc.2.
Proof.
  revert acc. induction ids as [|id ids IH]; intros acc; [done|].
  cbn [foldl]. by rewrite IH, spec_cancel_wf.
Qed.

Lemma foldl_cancel_length j acc ids :
  (length (foldl (spec_cancel w j) acc ids).1 ≤ length acc.1 + length ids)%nat.
Proof.
  revert acc. induction ids as [|id ids IH]; intros acc; cbn [foldl length]; [lia|].
  etransitivity; [apply IH|]. enough (length (spec_cancel w j acc id).1 ≤ S (length acc.1))%nat
    by lia. unfold spec_cancel. destruct acc as [canceled v].
  repeat (case_match; simpl; try lia). rewrite length_app. simpl. lia.
Qed.

Lemma fail_refines s v j x retry ids :
  Rep w J s0 s v → view_ok v → v_jobs v !! job_key w j = Some x →
  Forall (λ id, job_key w id ∈ J) ids → Z.of_nat (length ids) < 2 ^ 52 →
  wp redis_doc
    (complete_failed_lua (workflow_key w) (workflow_waiting_jobs_key w) EXECUTION_QUEUE_KEY
      JOB_RETRY_STREAM_KEY (job_key w j) (to_str retry) ((λ id, (id, job_key w id)) <$> ids))
    (λ r s', r = fail_reply (spec_fail w j retry ids x v).1 ∧
             Rep w J s0 s' (spec_fail w j retry ids x v).2) s.
Proof.
  intros HR Hok Hx Hids Hlen. unfold complete_failed_lua, spec_fail.
  get_time. job_set (job_st JobStatus.FAILED (job_retry retry x)) Hx HR.
  wf_get. fold (wf_is WorkflowStatus.RUNNING v).
  set (v1 := put_job (job_key w j) _ v) in *.
  set (v1' := with_wf (set_reserved (release (w_reserved (v_wf v1)))
                        (set_status WorkflowStatus.FAILED (v_wf v1))) v1).
  apply wp_bind.
  eapply (wp_mono _ _ (λ r s', let p := if wf_is WorkflowStatus.RUNNING v
      then foldl (spec_cancel w j) ([], v1') ids else ([], v1) in
      r = p.1 ∧ Rep w J s0 s' p.2)).
  2:{ destruct (wf_is WorkflowStatus.RUNNING v); [|by apply wp_ret].
      wf_get. wf_set (v_wf v1') HR. by apply cancels_refine. }
  clear HR. intros canceled s1.
  set (p := if wf_is WorkflowStatus.RUNNING v then foldl _ ([], v1') _ else ([], v1)).
  intros [-> HR].
  assert (Hc : w_completed (v_wf p.2) = w_completed (v_wf v) ∧
               w_failed (v_wf p.2) = w_failed (v_wf v) ∧ (length p.1 ≤ length ids)%nat).
  { unfold p. case_match; [|simpl; split_and!; lia].
    rewrite !foldl_cancel_wf. split_and!; [done..|]. apply foldl_cancel_length. }
  destruct p as [canceled v2]. simpl in HR, Hc. cbn [fst snd]. destruct Hc as (Hc1 & Hc2 & Hc3).
  apply wp_bind.
  eapply wp_wf_hincr with (x := set_completed
      (w_completed (v_wf v2) + (1 + Z.of_nat (length canceled))) (v_wf v2));
    [done|fields_tac| | |fields_tac|].
  { rewrite Hc1. apply small_int64_0, Hok. }
  { rewrite Hc1. apply small_int64; [apply Hok|lia]. }
  clear HR. intros s2 HR. apply wp_bind.
  eapply wp_wf_hincr with (x := set_failed (w_failed (v_wf v2) + 1)
      (set_completed (w_completed (v_wf v2) + (1 + Z.of_nat (length canceled))) (v_wf v2)));
    [done|fields_tac| | |fields_tac|].
  { rewrite Hc2. apply small_int64_0, Hok. }
  { rewrite Hc2. apply small_int64; [apply Hok|lia]. }
  clear HR. intros s3 HR.
  wf_set (set_failed (w_failed (v_wf v2) + 1)
      (set_completed (w_completed (v_wf v2) + (1 + Z.of_nat (length canceled))) (v_wf v2))) HR.
  wf_get. by apply wp_ret.
Qed.
End refinement.
