(* ===== verification/WorkflowFacts.v ===== *)
(** * What the specifications of the scripts amount to

    Consequences of the functions of [WorkflowSpec], job by job: which jobs a
    failure cancels, which jobs a completion releases, which waiting job is
    promoted, and two sequences of scripts in which a workflow is left
    inconsistent. *)

From S2P Require Import Prelude.
From S2P Require Import Prog.
From S2P Require Import RedisServer.
From S2P Require Import Models.
From S2P Require Import RedisKeys.
From S2P Require Import Scripts.
From S2P Require Import WorkflowView.
From S2P Require Import WorkflowSpec.

Section facts.
Context (w : WorkflowIdentity).
Implicit Types (v : wview) (x y : jobv).

(** ** Cancelling *)

Definition canceled x : jobv :=
  if cancelable (jv_status x) then job_st JobStatus.ABORTED x else x.

Lemma canceled_idem x : canceled (canceled x) = canceled x.
Proof.
  unfold canceled. destruct (cancelable (jv_status x)) eqn:E; [done|]. by rewrite E.
Qed.

Lemma canceled_done x : cancelable (jv_status (canceled x)) = false.
Proof. unfold canceled. by destruct (cancelable (jv_status x)) eqn:E. Qed.

Lemma spec_cancel_jobs failed acc id k :
  v_jobs (spec_cancel w failed acc id).2 !! k =
    if decide (k = job_key w id ∧ k ≠ job_key w failed) then canceled <$> v_jobs acc.2 !! k
    else v_jobs acc.2 !! k.
Proof.
  destruct acc as [l v]. unfold spec_cancel. cbn [snd].
  destruct (decide (job_key w id = job_key w failed)) as [E|E].
  { rewrite decide_False; [done|]. intros [-> ?]. done. }
  destruct (v_jobs v !! job_key w id) as [x|] eqn:Hx.
  2: { cbn [snd]. case_decide as Hk; [|done]. destruct Hk as [-> _]. by rewrite Hx. }
  destruct (cancelable (jv_status x)) eqn:Ec; cbn [snd].
  - transitivity (<[job_key w id := job_st JobStatus.ABORTED x]> (v_jobs v) !! k).
    { by destruct (job_is JobStatus.QUEUED x), (job_is JobStatus.RETRY_DELAY x). }
    rewrite lookup_insert. destruct (decide (job_key w id = k)) as [<-|Hne].
    + rewrite decide_True by done. rewrite Hx. unfold canceled. simpl. by rewrite Ec.
    + rewrite decide_False; [done|]. intros [? _]. by apply Hne.
  - case_decide as Hk; [|done]. destruct Hk as [-> _]. rewrite Hx. unfold canceled. simpl. by rewrite Ec.
Qed.

Lemma cancel_all_jobs failed ids acc k :
  v_jobs (foldl (spec_cancel w failed) acc ids).2 !! k =
    if decide (k ≠ job_key w failed ∧ Exists (λ id, k = job_key w id) ids)
    then canceled <$> v_jobs acc.2 !! k else v_jobs acc.2 !! k.
Proof.
  revert acc. induction ids as [|id ids IH]; intros acc; simpl.
  { rewrite decide_False; [done|]. intros [_ H]. inversion H. }
  rewrite IH, spec_cancel_jobs.
  destruct (decide (k = job_key w failed)) as [Hf|Hf].
  { rewrite !decide_False by tauto. done. }
  destruct (decide (k = job_key w id)) as [Hid|Hid].
  - rewrite (decide_True (P := k = job_key w id ∧ _)) by done.
    rewrite (decide_True (P := _ ∧ Exists _ (id :: ids))) by (split; [done|by left]).
    case_decide; [|done]. destruct (v_jobs acc.2 !! k); simpl; [by rewrite canceled_idem|done].
  - rewrite (decide_False (P := k = job_key w id ∧ _)) by tauto.
    destruct (decide (Exists (λ id0, k = job_key w id0) ids)) as [He|He].
    + rewrite !decide_True; [done|split; [done|by right]|done].
    + rewrite !decide_False; [done| |tauto]. intros [_ H]. inversion H; simplify_eq; done.
Qed.

(** The jobs after a failure of job [j] in a RUNNING workflow. *)
Lemma fail_jobs j retry ids x v k :
  w_status (v_wf v) = WorkflowStatus.RUNNING →
  v_jobs (spec_fail w j retry ids x v).2 !! k =
    if decide (k = job_key w j) then Some (job_st JobStatus.FAILED (job_retry retry x))
    else if decide (Exists (λ id, k = job_key w id) ids) then canceled <$> v_jobs v !! k
    else v_jobs v !! k.
Proof.
  intros Hst. unfold spec_fail, wf_is. rewrite bool_decide_true by done.
  match goal with |- context [foldl ?f ?a ids] =>
    pose proof (cancel_all_jobs j ids a k) as Hc; destruct (foldl f a ids) as [l v2] end.
  cbn [snd v_jobs with_wf] in *. rewrite Hc. unfold put_job. simpl. rewrite !lookup_insert.
  destruct (decide (k = job_key w j)) as [->|Hk].
  - rewrite !decide_False by tauto. by rewrite decide_True.
  - rewrite (decide_False (P := job_key w j = k)) by congruence.
    destruct (decide (Exists (λ id, k = job_key w id) ids)).
    + by rewrite decide_True.
    + by rewrite decide_False by tauto.
Qed.

(** Canceling siblings leaves the workflow's own record alone. *)
Lemma cancel_wf failed ids acc :
  v_wf (foldl (spec_cancel w failed) acc ids).2 = v_wf acc.2.
Proof.
  revert acc. induction ids as [|id ids IH]; intros [l u]; simpl; [done|]. rewrite IH.
  unfold spec_cancel. case_decide; [done|].
  destruct (v_jobs u !! job_key w id) as [y|]; [|done]. destruct (cancelable (jv_status y)); [|done].
  by destruct (job_is JobStatus.QUEUED y), (job_is JobStatus.RETRY_DELAY y).
Qed.

Lemma fail_status j retry ids x v :
  w_status (v_wf v) = WorkflowStatus.RUNNING →
  w_status (v_wf (spec_fail w j retry ids x v).2) = WorkflowStatus.FAILED.
Proof.
  intros Hst. unfold spec_fail, wf_is. rewrite bool_decide_true by done.
  match goal with |- context [foldl ?f ?a ids] =>
    pose proof (cancel_wf j ids a) as Hc; destruct (foldl f a ids) as [l v2] end.
  cbn [snd] in *. simpl. by rewrite Hc.
Qed.

(** ** Releasing *)

Definition released x : jobv :=
  if job_is JobStatus.PENDING x then
    if jv_deps x - 1 <=? 0 then job_st JobStatus.READY (job_deps 0 x)
    else job_deps (jv_deps x - 1) x
  else x.

Definition becomes_ready x : bool := job_is JobStatus.PENDING x && (jv_deps x - 1 <=? 0).

Lemma spec_release_jobs acc id k :
  v_jobs (spec_release_successor w acc id).2 !! k =
    if decide (k = job_key w id) then released <$> v_jobs acc.2 !! k else v_jobs acc.2 !! k.
Proof.
  destruct acc as [l v]. unfold spec_release_successor. cbn [snd].
  destruct (v_jobs v !! job_key w id) as [x|] eqn:Hx.
  2: { cbn [snd]. case_decide; [|done]. subst. by rewrite Hx. }
  unfold released. destruct (job_is JobStatus.PENDING x) eqn:Ep; cbn [snd].
  2: { case_decide; [|done]. subst. rewrite Hx. simpl. by rewrite Ep. }
  destruct (jv_deps x - 1 <=? 0) eqn:Ed; cbn [snd].
  - transitivity (<[job_key w id := job_st JobStatus.READY (job_deps 0 x)]> (v_jobs v) !! k).
    { by destruct (0 <? w_pending (v_wf v)). }
    rewrite lookup_insert. case_decide as Hk; [subst k|].
    + rewrite decide_True by done. rewrite Hx. simpl. by rewrite Ep, Ed.
    + by rewrite decide_False by congruence.
  - unfold put_job. simpl. rewrite lookup_insert. case_decide as Hk; [subst k|].
    + rewrite decide_True by done. rewrite Hx. simpl. by rewrite Ep, Ed.
    + by rewrite decide_False by congruence.
Qed.

Lemma spec_release_newly acc id :
  (spec_release_successor w acc id).1 =
    (acc.1 ++ match v_jobs acc.2 !! job_key w id with
              | Some x => if becomes_ready x then [id] else []
              | None => [] end)%list.
Proof.
  destruct acc as [l v]. unfold spec_release_successor, becomes_ready. cbn [fst snd].
  destruct (v_jobs v !! job_key w id) as [x|]; [|by rewrite app_nil_r].
  destruct (job_is JobStatus.PENDING x); [|by rewrite app_nil_r].
  by destruct (jv_deps x - 1 <=? 0); [|rewrite app_nil_r].
Qed.

Lemma release_all ids acc :
  NoDup ids →
  (∀ k, v_jobs (foldl (spec_release_successor w) acc ids).2 !! k =
     if decide (Exists (λ id, k = job_key w id) ids) then released <$> v_jobs acc.2 !! k
     else v_jobs acc.2 !! k) ∧
  (foldl (spec_release_successor w) acc ids).1 =
    (acc.1 ++ List.filter (λ id, match v_jobs acc.2 !! job_key w id with
                                 | Some x => becomes_ready x | None => false end) ids)%list.
Proof.
  revert acc. induction ids as [|id ids IH]; intros acc Hnd; simpl.
  { split; [done|by rewrite app_nil_r]. }
  apply NoDup_cons in Hnd as [Hid Hnd]. destruct (IH (spec_release_successor w acc id) Hnd) as [Hj Hl].
  assert (Hne : ∀ id', id' ∈ ids → job_key w id' ≠ job_key w id).
  { intros id' Hin E%(inj (job_key w)). by subst. }
  split.
  - intros k. rewrite Hj, spec_release_jobs. destruct (decide (k = job_key w id)) as [->|Hk].
    + rewrite decide_False.
      2: { intros He. apply Exists_exists in He as (id' & Hin & E). by eapply Hne. }
      rewrite decide_True; [done|by left].
    + destruct (decide (Exists (λ id0, k = job_key w id0) ids)) as [He|He].
      * rewrite decide_True; [done|by right].
      * rewrite decide_False; [done|]. intros H. inversion H; simplify_eq; done.
  - rewrite Hl, spec_release_newly, <-app_assoc. f_equal.
    rewrite (filter_ext_in _ (λ id0, match v_jobs acc.2 !! job_key w id0 with
      | Some x => becomes_ready x | None => false end)).
    + destruct (v_jobs acc.2 !! job_key w id) as [x|]; [by destruct (becomes_ready x)|done].
    + intros id' Hin%list_elem_of_In. cbn beta. rewrite spec_release_jobs.
      by rewrite decide_False by (by apply Hne).
Qed.

(** ** Promotion *)

Lemma promote_best lut wk wr eq s z k s' :
  zset_at s wr = Some z →
  run redis_doc (promote_waiting wk wr eq lut) s = (Some (Some k), s') →
  ∃ p, z !! k = Some p ∧ ∀ k' p', z !! k' = Some p' → p' ≤ p.
Proof.
  intros Hz. unfold promote_waiting. rewrite run_trigger_bind. cbn [redis_doc]. unfold zpopmax. rewrite Hz.
  destruct (zmax z) as [[k0 p]|] eqn:Hm; [|done]. intros Hrun.
  assert (k0 = k) as <-.
  { rewrite run_trigger_bind in Hrun. destruct (redis_doc _ _ _) as [[?|] ?]; [|done].
    rewrite run_trigger_bind in Hrun. destruct (redis_doc _ _ _) as [[?|] ?]; [|done].
    rewrite run_trigger_bind in Hrun. destruct (redis_doc _ _ _) as [[?|] ?]; [|done].
    by injection Hrun. }
  exists p. split; [by apply zmax_Some|]. intros k' p' Hk'. by eapply zmax_best.
Qed.

Lemma spec_promote_jobs v k :
  v_jobs (spec_promote v).2 !! k =
    if decide ((spec_promote v).1 = Some k) then job_st JobStatus.QUEUED <$> v_jobs v !! k
    else v_jobs v !! k.
Proof.
  unfold spec_promote. destruct (zmax (v_waiting v)) as [[k0 p]|]; [|done].
  destruct (v_jobs v !! k0) as [x|] eqn:Hx; [|done]. simpl. rewrite lookup_insert.
  destruct (decide (k0 = k)) as [->|Hne].
  - rewrite decide_True by done. by rewrite Hx.
  - by rewrite decide_False by congruence.
Qed.

(** The jobs after job [j] has been recorded as completed. *)
Lemma complete_jobs now j x v wf promoted newly :
  (spec_complete w now j x v).1 = Completed wf promoted newly →
  NoDup (succ_of v j) → j ∉ succ_of v j →
  newly = List.filter (λ id, match v_jobs v !! job_key w id with
                             | Some y => becomes_ready y | None => false end) (succ_of v j) ∧
  ∀ k, v_jobs (spec_complete w now j x v).2 !! k =
    let y := if decide (k = job_key w j) then Some (job_st JobStatus.COMPLETED x)
             else if decide (Exists (λ id, k = job_key w id) (succ_of v j))
             then released <$> v_jobs v !! k else v_jobs v !! k in
    if decide (promoted = Some k) then job_st JobStatus.QUEUED <$> y else y.
Proof.
  unfold spec_complete. destruct (job_is JobStatus.COMPLETED x); [done|].
  destruct (wf_is WorkflowStatus.RUNNING v); [|done]. cbn [negb].
  destruct (past_deadline _ _ _); [done|]. unfold spec_record_success. intros Hr Hnd Hj.
  match type of Hr with context [foldl ?f ?a (succ_of v j)] =>
    pose proof (release_all (succ_of v j) a Hnd) as [Hjobs Hnew]; destruct (foldl f a (succ_of v j)) as [l v3] end.
  cbn [fst snd] in Hjobs, Hnew. cbn [app] in Hnew.
  assert (Hnew' : l = List.filter (λ id, match v_jobs v !! job_key w id with
                      | Some y => becomes_ready y | None => false end) (succ_of v j)).
  { rewrite Hnew. apply filter_ext_in. intros id Hid%list_elem_of_In. simpl.
    rewrite lookup_insert_ne; [done|]. intros E%(inj (job_key w)). by subst. }
  assert (Hk : ∀ k, v_jobs v3 !! k =
    if decide (k = job_key w j) then Some (job_st JobStatus.COMPLETED x)
    else if decide (Exists (λ id, k = job_key w id) (succ_of v j))
    then released <$> v_jobs v !! k else v_jobs v !! k).
  { intros k. rewrite Hjobs. simpl. destruct (decide (k = job_key w j)) as [->|Hne].
    - rewrite decide_False; [by rewrite lookup_insert_eq|].
      intros (id & Hid & E%(inj (job_key w)))%Exists_exists. by subst.
    - by rewrite lookup_insert_ne by congruence. }
  cbn zeta. destruct (_ && _); [simplify_eq/=; split; [done|]; intros k; by rewrite <-Hk|].
  destruct (_ <? _); [|simplify_eq/=; split; [done|]; intros k; by rewrite <-Hk].
  match type of Hr with context [spec_promote ?u] =>
    pose proof (spec_promote_jobs u) as Hp; destruct (spec_promote u) as [pr v5] eqn:Epr end.
  cbn [fst snd] in *. injection Hr as _ -> ->. split; [done|]. intros k. rewrite Hp. simpl. by rewrite <-Hk.
Qed.

(** ** Two sequences that leave a workflow inconsistent *)

(** On a RUNNING workflow within its deadline, a completion is recorded. *)
Lemma complete_completes now j x v :
  jv_status x ≠ JobStatus.COMPLETED → w_status (v_wf v) = WorkflowStatus.RUNNING →
  past_deadline now (default 0 (w_start (v_wf v))) (w_maxrun (v_wf v)) = false →
  ∃ wf promoted newly, (spec_complete w now j x v).1 = Completed wf promoted newly.
Proof.
  intros Hx Hw Hd. unfold spec_complete, job_is, wf_is.
  rewrite bool_decide_false, bool_decide_true, Hd by done. cbn [negb].
  destruct (spec_record_success w j x v) as [newly v1]. destruct (_ && _); [eauto|].
  destruct (_ <? _); [|eauto]. destruct (spec_promote v1). eauto.
Qed.

(** Past the deadline a completion fails the workflow and nothing else. *)
Lemma complete_deadline now j x v :
  jv_status x ≠ JobStatus.COMPLETED → w_status (v_wf v) = WorkflowStatus.RUNNING →
  past_deadline now (default 0 (w_start (v_wf v))) (w_maxrun (v_wf v)) = true →
  spec_complete w now j x v =
    (DeadlinePassed, with_wf (set_status WorkflowStatus.FAILED (v_wf v)) v).
Proof.
  intros Hx Hw Hd. unfold spec_complete, job_is, wf_is.
  by rewrite bool_decide_false, bool_decide_true, Hd by done.
Qed.

(** A job that fails while its workflow has not started. *)
Lemma early_failure_no_cancel j retry ids x v :
  w_status (v_wf v) = WorkflowStatus.READY →
  let '(r, v') := spec_fail w j retry ids x v in
  fr_failed_workflow r = false ∧ fr_canceled r = [] ∧
  w_status (v_wf v') = WorkflowStatus.READY ∧
  w_reserved (v_wf v') = w_reserved (v_wf v) ∧
  v_jobs v' = <[job_key w j := job_st JobStatus.FAILED (job_retry retry x)]> (v_jobs v).
Proof. intros Hst. unfold spec_fail, wf_is. rewrite Hst. done. Qed.

(** A job counted as completed and then handled as failed is counted twice. *)
Lemma completed_then_failed now j retry ids x v wf promoted newly :
  (spec_complete w now j x v).1 = Completed wf promoted newly →
  w_completed (v_wf (spec_complete w now j x v).2) = w_completed (v_wf v) + 1 →
  let v1 := (spec_complete w now j x v).2 in
  let '(r, v2) := spec_fail w j retry ids x v1 in
  w_completed (v_wf v2) = w_completed (v_wf v) + 2 + Z.of_nat (length (fr_canceled r)).
Proof.
  intros _ Hc. cbn zeta. set (v1 := (spec_complete w now j x v).2) in *.
  unfold spec_fail. set (v1' := put_job _ _ v1). assert (Hw : v_wf v1' = v_wf v1) by done.
  destruct (wf_is WorkflowStatus.RUNNING v1); [|simpl; rewrite ?Hw; simpl; lia].
  match goal with |- context [foldl ?f ?a ids] =>
    pose proof (cancel_wf j ids a) as Hf; destruct (foldl f a ids) as [l u] end.
  cbn [snd] in Hf. simpl. rewrite Hf. simpl. rewrite ?Hw. lia.
Qed.
End facts.
