(* ===== verification/WorkflowInv.v ===== *)
(** * The runtime invariant of a workflow

    A workflow is driven by schedulers, workers, the completion handler and the
    retry handler, which run the scripts of [WorkflowSpec] in any interleaving.
    [sys] is the view of the workflow with what these actors hold: job keys a
    scheduler has popped and not yet claimed, job keys the retry handler has
    dequeued and not yet promoted, and for each claimed job a [token] that says
    how far its execution has come.  [step] is one atomic action of one actor,
    with the order each actor observes as its only guard; lost messages and
    failed database updates are steps too.

    [Inv] holds in every reachable state ([step_inv], [reachable_inv]): no more
    than [max_concurrent_jobs] jobs hold a slot, the counters are exact, a READY
    job is in the waiting set and nowhere else, and a job leaves PENDING only
    when all its predecessors are COMPLETED. *)

From S2P Require Import Prelude.
From S2P Require Import Prog.
From S2P Require Import RedisServer.
From S2P Require Import Models.
From S2P Require Import RedisKeys.
From S2P Require Import Scripts.
From S2P Require Import WorkflowView.
From S2P Require Import WorkflowSpec.

(** ** System states *)

Inductive token :=
| TClaimed  (* a scheduler set the job to PENDING_EXECUTION *)
| TStarted  (* a worker set it to RUNNING *)
| TDone     (* a completion message COMPLETED *)
| TFailed   (* a completion message FAILED *)
| TAborted  (* a completion message ABORTED *)
| TBroken   (* the COMPLETED message could not be recorded *)
| TMark.    (* recorded as failed, about to be marked ABORTED *)

(** A state of one workflow.  [s_unclaimed] are the jobs popped from the
    execution queue for which no claim has run since, [s_unpromoted] those taken
    from the retry queue for which no promotion has run since: whoever popped
    such a job may still hold it, or may have dropped it. *)
Record sys := mkSys {
  sv : wview; s_unclaimed : gset string; s_unpromoted : gset string; s_tok : gmap string token }.

Definition slot (x : jobv) : bool :=
  match jv_status x with
  | JobStatus.QUEUED | JobStatus.PENDING_EXECUTION | JobStatus.RUNNING => true
  | _ => false
  end.

Definition terminal (x : jobv) : bool :=
  match jv_status x with
  | JobStatus.COMPLETED | JobStatus.FAILED | JobStatus.ABORTED => true
  | _ => false
  end.

(** A job the failure of its workflow has ended. *)
Definition dropped (x : jobv) : bool :=
  match jv_status x with JobStatus.FAILED | JobStatus.ABORTED => true | _ => false end.

Definition active (v : wview) : bool :=
  match w_status (v_wf v) with
  | WorkflowStatus.READY | WorkflowStatus.RUNNING => true
  | _ => false
  end.

Section system.
Context (w : WorkflowIdentity).

Definition started (r : StartJobResult.t) : bool :=
  match r with StartJobResult.FIRST_TO_START | StartJobResult.STARTED => true | _ => false end.

Definition recorded (r : complete_result) : bool :=
  match r with AlreadyCompleted | Completed _ _ _ => true | _ => false end.

Inductive step (σ : sys) : sys → Prop :=
| step_pop k :
    is_Some (v_exec (sv σ) !! k) →
    step σ (mkSys (with_exec (delete k (v_exec (sv σ))) (sv σ)) ({[k]} ∪ s_unclaimed σ)
              (s_unpromoted σ) (s_tok σ))
| step_claim k x :
    k ∈ s_unclaimed σ → v_jobs (sv σ) !! k = Some x →
    step σ (mkSys (spec_claim k x (sv σ)).2 (s_unclaimed σ ∖ {[k]}) (s_unpromoted σ)
              (if (spec_claim k x (sv σ)).1 then <[k := TClaimed]> (s_tok σ) else s_tok σ))
| step_payload_missing k :
    s_tok σ !! k = Some TClaimed →
    step σ (mkSys (sv σ) (s_unclaimed σ) (s_unpromoted σ) (<[k := TAborted]> (s_tok σ)))
| step_start now j x :
    s_tok σ !! job_key w j = Some TClaimed → v_jobs (sv σ) !! job_key w j = Some x →
    step σ (mkSys (spec_start w now j x (sv σ)).2 (s_unclaimed σ) (s_unpromoted σ)
              (<[job_key w j := if started (spec_start w now j x (sv σ)).1
                                then TStarted else TAborted]> (s_tok σ)))
| step_finish k t :
    s_tok σ !! k = Some TStarted → t = TDone ∨ t = TFailed ∨ t = TAborted →
    step σ (mkSys (sv σ) (s_unclaimed σ) (s_unpromoted σ) (<[k := t]> (s_tok σ)))
| step_lose k :
    step σ (mkSys (sv σ) (s_unclaimed σ) (s_unpromoted σ) (delete k (s_tok σ)))
| step_complete now j x persisted :
    s_tok σ !! job_key w j = Some TDone → v_jobs (sv σ) !! job_key w j = Some x →
    step σ (mkSys (spec_complete w now j x (sv σ)).2 (s_unclaimed σ) (s_unpromoted σ)
              (if recorded (spec_complete w now j x (sv σ)).1 && persisted
               then delete (job_key w j) (s_tok σ)
               else <[job_key w j := TBroken]> (s_tok σ)))
| step_retry j x retry at_ms :
    s_tok σ !! job_key w j = Some TFailed → v_jobs (sv σ) !! job_key w j = Some x →
    step σ (mkSys (spec_retry w j retry at_ms x (sv σ)).2 (s_unclaimed σ) (s_unpromoted σ)
              (delete (job_key w j) (s_tok σ)))
| step_fail j x t retry ids :
    s_tok σ !! job_key w j = Some t → t = TFailed ∨ t = TAborted ∨ t = TBroken →
    v_jobs (sv σ) !! job_key w j = Some x →
    Forall (λ id, job_key w id ∈ dom (v_jobs (sv σ))) ids →
    step σ (mkSys (spec_fail w j retry ids x (sv σ)).2 (s_unclaimed σ) (s_unpromoted σ)
              (match t with
               | TAborted => <[job_key w j := TMark]> (s_tok σ)
               | _ => delete (job_key w j) (s_tok σ)
               end))
| step_mark k x :
    s_tok σ !! k = Some TMark → v_jobs (sv σ) !! k = Some x →
    step σ (mkSys (put_job k (job_st JobStatus.ABORTED x) (sv σ)) (s_unclaimed σ) (s_unpromoted σ)
              (delete k (s_tok σ)))
| step_dequeue_retry k :
    is_Some (v_retry (sv σ) !! k) →
    step σ (mkSys (with_retry (delete k (v_retry (sv σ))) (sv σ)) (s_unclaimed σ)
              ({[k]} ∪ s_unpromoted σ) (s_tok σ))
| step_promote_retry j x :
    job_key w j ∈ s_unpromoted σ → v_jobs (sv σ) !! job_key w j = Some x →
    step σ (mkSys (spec_promote_retry w j x (sv σ)).2 (s_unclaimed σ) (s_unpromoted σ ∖ {[job_key w j]})
              (s_tok σ)).

Inductive reachable (σ0 : sys) : sys → Prop :=
| reach_init : reachable σ0 σ0
| reach_step σ σ' : reachable σ0 σ → step σ σ' → reachable σ0 σ'.

(** ** The invariant *)

(** How often job [j] occurs in the successor lists that are left. *)
Definition occ (j : string) (l : list string) : Z := cnt (String.eqb j) l.
Definition indeg (m : gmap string (list string)) (j : string) : Z := msum (occ j) m.

Context (succ0 : gmap string (list string)).

(** Slots and counters; [a] slots are still to be returned and [b] completions
    still to be counted by the script in progress.  A job that failed before the
    workflow ran keeps its slot. *)
Record Counts (v : wview) (a b : Z) : Prop := {
  c_status : w_status (v_wf v) = WorkflowStatus.READY ∨ w_status (v_wf v) = WorkflowStatus.RUNNING ∨
             w_status (v_wf v) = WorkflowStatus.COMPLETED ∨ w_status (v_wf v) = WorkflowStatus.FAILED;
  c_slots : mcnt slot (v_jobs v) ≤ w_maxc (v_wf v);
  c_reserved : active v = true →
    w_reserved (v_wf v) = mcnt slot (v_jobs v) + mcnt dropped (v_jobs v) + a ∧
    w_reserved (v_wf v) ≤ w_maxc (v_wf v);
  c_failed : active v = true → w_failed (v_wf v) = mcnt dropped (v_jobs v);
  c_completed : active v = true → w_completed (v_wf v) + b = mcnt terminal (v_jobs v);
  c_pending : active v = true → w_pending (v_wf v) = mcnt (job_is JobStatus.PENDING) (v_jobs v);
  c_total : w_total (v_wf v) = Z.of_nat (size (v_jobs v));
  c_ready : w_status (v_wf v) = WorkflowStatus.READY →
    w_start (v_wf v) = None ∧
    ∀ k x, v_jobs v !! k = Some x →
      jv_status x ≠ JobStatus.RETRY_DELAY ∧ jv_status x ≠ JobStatus.RUNNING ∧
      jv_status x ≠ JobStatus.COMPLETED;
  c_done : w_status (v_wf v) = WorkflowStatus.COMPLETED →
    ∀ k x, v_jobs v !! k = Some x → terminal x = true
}.

(** The queues agree with the statuses: a QUEUED job is in the execution queue or
    was popped and not claimed since, a RETRY_DELAY job in the retry queue or
    taken from it and not promoted since. *)
Record Queues (v : wview) (popped due : gset string) : Prop := {
  q_keys : ∀ k, k ∈ dom (v_jobs v) → ∃ j, k = job_key w j;
  q_waiting_dom : dom (v_waiting v) ⊆ dom (v_jobs v);
  q_waiting : active v = true → ∀ k x, v_jobs v !! k = Some x →
    is_Some (v_waiting v !! k) ↔ jv_status x = JobStatus.READY;
  q_exec : ∀ k, is_Some (v_exec v !! k) ∨ k ∈ popped →
    ∃ x, v_jobs v !! k = Some x ∧
      (jv_status x = JobStatus.QUEUED ∨ active v = false ∧ dropped x = true);
  q_queued : active v = true → ∀ k x, v_jobs v !! k = Some x →
    jv_status x = JobStatus.QUEUED → is_Some (v_exec v !! k) ∨ k ∈ popped;
  q_popped : ∀ k, k ∈ popped → v_exec v !! k = None;
  q_retry : ∀ k, is_Some (v_retry v !! k) ∨ k ∈ due →
    ∃ x, v_jobs v !! k = Some x ∧
      (jv_status x = JobStatus.RETRY_DELAY ∨ active v = false ∧ dropped x = true);
  q_delayed : active v = true → ∀ k x, v_jobs v !! k = Some x →
    jv_status x = JobStatus.RETRY_DELAY → is_Some (v_retry v !! k) ∨ k ∈ due;
  q_due : ∀ k, k ∈ due → v_retry v !! k = None
}.

(** What a token says of the status of its job. *)
Definition token_ok (v : wview) (t : token) (st : JobStatus.t) : Prop :=
  match t with
  | TClaimed => st = JobStatus.PENDING_EXECUTION
  | TStarted | TDone | TFailed => st = JobStatus.RUNNING ∧ w_status (v_wf v) ≠ WorkflowStatus.READY
  | TAborted => st = JobStatus.PENDING_EXECUTION ∨ st = JobStatus.RUNNING ∨
                active v = false ∧ st = JobStatus.ABORTED
  | TBroken => (st = JobStatus.RUNNING ∧ active v = false) ∨
               (st = JobStatus.COMPLETED ∧ w_status (v_wf v) ≠ WorkflowStatus.READY)
  | TMark => st = JobStatus.FAILED ∨ active v = false ∧ st = JobStatus.ABORTED
  end.

Definition Tokens (v : wview) (tok : gmap string token) : Prop :=
  ∀ k t, tok !! k = Some t → ∃ x, v_jobs v !! k = Some x ∧ token_ok v t (jv_status x).

(** Dependencies; [r] are the successors the script in progress has still to
    release. *)
Definition Deps (v : wview) (r : list string) : Prop :=
  (∀ j l, v_succ v !! j = Some l →
     job_key w j ∈ dom (v_jobs v) ∧ Forall (λ id, job_key w id ∈ dom (v_jobs v)) l) ∧
  (active v = true → ∀ j x, v_jobs v !! job_key w j = Some x →
     indeg (v_succ v) j + occ j r = (if job_is JobStatus.PENDING x then jv_deps x else 0) ∧
     (jv_status x = JobStatus.PENDING → 1 ≤ jv_deps x) ∧
     v_succ v !! j = (if job_is JobStatus.COMPLETED x then None else succ0 !! j)).

Record Inv (σ : sys) : Prop := {
  inv_counts : Counts (sv σ) 0 0;
  inv_queues : Queues (sv σ) (s_unclaimed σ) (s_unpromoted σ);
  inv_tokens : Tokens (sv σ) (s_tok σ);
  inv_deps : Deps (sv σ) []
}.

(** ** One job changes its status *)

Lemma is_st st x : job_is st x = true ↔ jv_status x = st.
Proof. unfold job_is. by rewrite bool_decide_eq_true. Qed.

(** Rewrite the lookups in updated maps and split on the keys. *)
Ltac look_cases :=
  repeat match goal with
  | H : context [<[_ := _]> _ !! _] |- _ => rewrite lookup_insert in H
  | H : context [delete _ _ !! _] |- _ => rewrite lookup_delete in H
  | |- context [<[_ := _]> _ !! _] => rewrite lookup_insert
  | |- context [delete _ _ !! _] => rewrite lookup_delete
  end;
  repeat case_decide; simplify_eq/=.

Definition b2z (b : bool) : Z := if b then 1 else 0.

(** The accounts after job [k] changed from [x] to [y]. *)
Lemma counts_put_pending v k x y a b :
  Counts v a b → v_jobs v !! k = Some x →
  (slot y = true → slot x = true) →
  (w_status (v_wf v) = WorkflowStatus.READY →
     jv_status y ≠ JobStatus.RETRY_DELAY ∧ jv_status y ≠ JobStatus.RUNNING ∧
     jv_status y ≠ JobStatus.COMPLETED) →
  (w_status (v_wf v) = WorkflowStatus.COMPLETED → terminal y = true) →
  (active v = true → dropped y = dropped x) →
  Counts
    (with_wf (set_pending (w_pending (v_wf v) - b2z (job_is JobStatus.PENDING x)
                           + b2z (job_is JobStatus.PENDING y)) (v_wf v)) (put_job k y v))
    (a + b2z (slot x) - b2z (slot y)) (b + b2z (terminal y) - b2z (terminal x)).
Proof.
  intros [] Hx Hs Hr Hd Hdr. unfold b2z.
  split; unfold active, put_job in *; simpl; try done.
  - rewrite (mcnt_insert _ _ _ _ _ Hx). destruct (slot x), (slot y); first [lia|naive_solver].
  - intros Ha. specialize (c_reserved0 Ha). rewrite !(mcnt_insert _ _ _ _ _ Hx), (Hdr Ha). lia.
  - intros Ha. specialize (c_failed0 Ha). rewrite (mcnt_insert _ _ _ _ _ Hx), (Hdr Ha). lia.
  - intros Ha. specialize (c_completed0 Ha). rewrite (mcnt_insert _ _ _ _ _ Hx). lia.
  - intros Ha. rewrite (mcnt_insert _ _ _ _ _ Hx). specialize (c_pending0 Ha). lia.
  - by rewrite map_size_insert_Some.
  - intros HR. specialize (c_ready0 HR) as [? ?]. split; [done|]. intros k' z Hz. look_cases; eauto.
  - intros HC k' z Hz. look_cases; eauto.
Qed.

(** [Counts] looks only at the workflow record and the jobs. *)
Lemma counts_with v v' a b :
  Counts v a b → v_wf v' = v_wf v → v_jobs v' = v_jobs v → Counts v' a b.
Proof. intros [] Ew Ej. split; unfold active in *; rewrite ?Ew, ?Ej; done. Qed.

Lemma counts_put v k x y a b :
  Counts v a b → v_jobs v !! k = Some x →
  (slot y = true → slot x = true) →
  job_is JobStatus.PENDING y = job_is JobStatus.PENDING x →
  (w_status (v_wf v) = WorkflowStatus.READY →
     jv_status y ≠ JobStatus.RETRY_DELAY ∧ jv_status y ≠ JobStatus.RUNNING ∧
     jv_status y ≠ JobStatus.COMPLETED) →
  (w_status (v_wf v) = WorkflowStatus.COMPLETED → terminal y = true) →
  (active v = true → dropped y = dropped x) →
  Counts (put_job k y v) (a + b2z (slot x) - b2z (slot y))
    (b + b2z (terminal y) - b2z (terminal x)).
Proof.
  intros HC Hx Hs Ep Hr Hd Hdr.
  pose proof (counts_put_pending v k x y a b HC Hx Hs Hr Hd Hdr) as H. rewrite Ep in H.
  eapply counts_with; [exact H|..]; [|done]. simpl. destruct (v_wf v). unfold set_pending; simpl.
  f_equal. lia.
Qed.

(** A status change that keeps both accounts. *)
Lemma counts_put_same v k x y a b :
  Counts v a b → v_jobs v !! k = Some x → slot y = slot x → terminal y = terminal x →
  job_is JobStatus.PENDING y = job_is JobStatus.PENDING x →
  (w_status (v_wf v) = WorkflowStatus.READY →
     jv_status y ≠ JobStatus.RETRY_DELAY ∧ jv_status y ≠ JobStatus.RUNNING ∧
     jv_status y ≠ JobStatus.COMPLETED) →
  (active v = true → dropped y = dropped x) →
  Counts (put_job k y v) a b.
Proof.
  intros HC Hx Es Et Ep Hr Hdr.
  pose proof (counts_put v k x y a b HC Hx) as H. rewrite Es, Et in H.
  replace (a + _ - _) with a in H by lia. replace (b + _ - _) with b in H by lia.
  apply H; try done. intros HD. by rewrite (c_done _ _ _ HC HD k x).
Qed.

(** Only the statuses matter for dependencies. *)
Lemma deps_put v k x y r :
  Deps v r → v_jobs v !! k = Some x →
  jv_deps y = jv_deps x → job_is JobStatus.PENDING y = job_is JobStatus.PENDING x →
  job_is JobStatus.COMPLETED y = job_is JobStatus.COMPLETED x → Deps (put_job k y v) r.
Proof.
  intros [HD HA] Hx Ed Ep Ec. split; unfold put_job; simpl.
  - intros j l Hl. rewrite dom_insert_L. destruct (HD j l Hl) as [? Hf]. split; [set_solver|].
    eapply Forall_impl; [done|]. set_solver.
  - intros Ha j z Hz. unfold active in *. simpl in *. look_cases; [|by apply HA].
    rewrite Ep, Ec, Ed. destruct (HA Ha j x Hx) as (? & ? & ?). split_and!; try done.
    intros Hst. apply is_st in Hst. rewrite Ep in Hst. by apply is_st in Hst; auto.
Qed.

(** Dependencies of a workflow that is no longer active. *)
Lemma deps_inactive v v' r r' :
  Deps v r → active v' = false → dom (v_jobs v') = dom (v_jobs v) →
  (∀ j l, v_succ v' !! j = Some l → v_succ v !! j = Some l) → Deps v' r'.
Proof.
  intros [HD _] Ha Hd Hs. split.
  - intros j l Hl. rewrite Hd. by apply HD, Hs.
  - by rewrite Ha.
Qed.

Lemma deps_with v v' r :
  Deps v r → v_jobs v' = v_jobs v → v_succ v' = v_succ v → (active v' = true → active v = true) →
  Deps v' r.
Proof.
  intros [HD HA] Ej Es Ha. unfold Deps. rewrite Ej, Es. split; [done|]. auto.
Qed.

(** ** Promotion *)

Lemma counts_queue v k p x a b :
  Counts v a b → v_jobs v !! k = Some x → active v = true →
  w_reserved (v_wf v) < w_maxc (v_wf v) → 0 ≤ a →
  jv_status x = JobStatus.READY ∨ jv_status x = JobStatus.RETRY_DELAY →
  Counts (spec_queue k p x v) a b.
Proof.
  intros HC Hx Ha Hlt Ha0 Hst.
  assert (slot x = false ∧ terminal x = false ∧ dropped x = false ∧ job_is JobStatus.PENDING x = false)
    as (Es & Et & Edr & Ep).
  { unfold slot, terminal, dropped, job_is. by destruct Hst as [-> | ->]. }
  pose proof (mcnt_nonneg dropped (v_jobs v)).
  destruct HC. unfold spec_queue. split; unfold active, put_job in *; simpl in *; try done.
  - rewrite (mcnt_insert _ _ _ _ _ Hx), Es. specialize (c_reserved0 Ha). simpl. lia.
  - intros _. rewrite !(mcnt_insert _ _ _ _ _ Hx), Es, Edr. specialize (c_reserved0 Ha). simpl. lia.
  - intros _. rewrite (mcnt_insert _ _ _ _ _ Hx), Edr. specialize (c_failed0 Ha). simpl. lia.
  - intros _. rewrite (mcnt_insert _ _ _ _ _ Hx), Et. specialize (c_completed0 Ha). simpl. lia.
  - intros _. rewrite (mcnt_insert _ _ _ _ _ Hx), Ep. specialize (c_pending0 Ha). simpl. lia.
  - by rewrite map_size_insert_Some.
  - intros HR. specialize (c_ready0 HR) as [? ?]. split; [done|]. intros k' z Hz. look_cases; eauto.
  - intros HC. by rewrite HC in Ha.
Qed.

Lemma queues_promote v k p x popped due :
  Queues v popped due → active v = true → v_jobs v !! k = Some x →
  jv_status x = JobStatus.READY →
  Queues (spec_queue k p x (with_waiting (delete k (v_waiting v)) v)) popped due.
Proof.
  intros [] Ha Hx Hst. unfold spec_queue. split; unfold active, put_job in *; simpl in *.
  - rewrite dom_insert_L. apply elem_of_dom_2 in Hx. set_solver.
  - rewrite dom_insert_L, dom_delete_L. set_solver.
  - intros _ k' z Hz. look_cases; [|by apply q_waiting0]. split; [by intros []|done].
  - intros k' Hk'. look_cases; [by eauto|]. destruct (q_exec0 k' Hk') as (z & ? & ?). eauto.
  - intros _ k' z Hz Hq. look_cases; eauto.
  - intros k' Hk'. look_cases; [|by apply q_popped0].
    destruct (q_exec0 k' (or_intror Hk')) as (z & ? & [E|[E _]]); simplify_eq; congruence.
  - intros k' Hk'. destruct (q_retry0 k' Hk') as (z & Hz & Hz'). look_cases; [|eauto].
    destruct Hz' as [E|[E _]]; congruence.
  - intros _ k' z Hz Hd. look_cases; eauto.
  - done.
Qed.

(** ** Queues and tokens under an update *)

(** A status outside the ones the queues hold. *)
Definition unqueued (st : JobStatus.t) : bool :=
  match st with
  | JobStatus.READY | JobStatus.QUEUED | JobStatus.RETRY_DELAY => false
  | _ => true
  end.

Lemma queues_with v v' popped due :
  Queues v popped due → v_jobs v' = v_jobs v → v_waiting v' = v_waiting v →
  v_exec v' = v_exec v → v_retry v' = v_retry v → (active v' = true → active v = true) →
  Queues v' popped due.
Proof.
  intros [] Ej Ew Ee Er Ha.
  assert (active v = false → active v' = false) as Ha'.
  { destruct (active v'); [|done]. by rewrite Ha. }
  split; rewrite ?Ej, ?Ew, ?Ee, ?Er in *; try done.
  - intros H. apply q_waiting0. auto.
  - intros k Hk. destruct (q_exec0 k Hk) as (x & ? & [?|[? ?]]); exists x; auto.
  - intros H. apply q_queued0. auto.
  - intros k Hk. destruct (q_retry0 k Hk) as (x & ? & [?|[? ?]]); exists x; auto.
  - intros H. apply q_delayed0. auto.
Qed.

Lemma queues_put v k x y popped due :
  Queues v popped due → v_jobs v !! k = Some x →
  unqueued (jv_status x) = true → unqueued (jv_status y) = true →
  (dropped x = true → dropped y = true) →
  Queues (put_job k y v) popped due.
Proof.
  intros [] Hx Hux Huy Hab. unfold put_job.
  assert (∀ st, unqueued st = false → jv_status x ≠ st ∧ jv_status y ≠ st) as Hne.
  { intros st Hst. split; intros E; subst st; congruence. }
  split; unfold active in *; simpl in *.
  - rewrite dom_insert_L. apply elem_of_dom_2 in Hx. set_solver.
  - rewrite dom_insert_L. set_solver.
  - intros Ha k' z Hz. look_cases; [|by apply q_waiting0].
    destruct (Hne JobStatus.READY eq_refl). rewrite (q_waiting0 Ha _ _ Hx). tauto.
  - intros k' Hk'. destruct (q_exec0 k' Hk') as (z & Hz & Hz'). look_cases; [|eauto].
    destruct Hz' as [E|[? E]]; [by destruct (Hne JobStatus.QUEUED eq_refl)|]. exists y. auto.
  - intros Ha k' z Hz Hq. look_cases; [by destruct (Hne JobStatus.QUEUED eq_refl)|eauto].
  - done.
  - intros k' Hk'. destruct (q_retry0 k' Hk') as (z & Hz & Hz'). look_cases; [|eauto].
    destruct Hz' as [E|[? E]]; [by destruct (Hne JobStatus.RETRY_DELAY eq_refl)|]. exists y. auto.
  - intros Ha k' z Hz Hq. look_cases; [by destruct (Hne JobStatus.RETRY_DELAY eq_refl)|eauto].
  - done.
Qed.

Definition weaker (v v' : wview) : Prop :=
  (active v' = true → active v = true) ∧
  (w_status (v_wf v) ≠ WorkflowStatus.READY → w_status (v_wf v') ≠ WorkflowStatus.READY).

Lemma token_ok_weaker v v' t st : weaker v v' → token_ok v t st → token_ok v' t st.
Proof.
  intros [Ha Hr]. assert (active v = false → active v' = false) as Ha'.
  { destruct (active v'); [|done]. by rewrite Ha. }
  destruct t; simpl; naive_solver.
Qed.

Lemma weaker_same v v' : w_status (v_wf v') = w_status (v_wf v) → weaker v v'.
Proof. unfold weaker, active. by intros ->. Qed.

Lemma weaker_status v v' st :
  w_status (v_wf v') = st → w_status (v_wf v) = WorkflowStatus.RUNNING ∨ active v = true →
  st = WorkflowStatus.RUNNING ∨ st = WorkflowStatus.FAILED ∨ st = WorkflowStatus.COMPLETED →
  weaker v v'.
Proof.
  unfold weaker, active. intros -> H Hst. destruct H as [->|H].
  - destruct Hst as [->|[->| ->]]; split; try done.
  - destruct Hst as [->|[->| ->]]; split; try done.
Qed.

(** The job at [k] and its token change. *)
Lemma tokens_put v v' k y tok tok' :
  Tokens v tok → weaker v v' →
  (∀ k' x, k' ≠ k → v_jobs v !! k' = Some x → v_jobs v' !! k' = Some x) →
  (∀ k', k' ≠ k → tok' !! k' = tok !! k') →
  v_jobs v' !! k = Some y → (∀ t, tok' !! k = Some t → token_ok v' t (jv_status y)) →
  Tokens v' tok'.
Proof.
  intros HT Hw Hj Ht Hy Hk k' t Hk'. destruct (decide (k' = k)) as [->|Hne].
  - exists y. auto.
  - rewrite Ht in Hk' by done. destruct (HT k' t Hk') as (x & Hx & Hok).
    exists x. split; [auto|]. by eapply token_ok_weaker.
Qed.

Lemma tokens_with v v' tok :
  Tokens v tok → weaker v v' → v_jobs v' = v_jobs v → Tokens v' tok.
Proof.
  intros HT Hw Ej k t Hk. rewrite Ej. destruct (HT k t Hk) as (x & Hx & Hok).
  exists x. split; [done|]. by eapply token_ok_weaker.
Qed.

(** A job in a queue has no token, unless it was aborted. *)
Lemma no_token v tok k x t :
  Tokens v tok → v_jobs v !! k = Some x → tok !! k = Some t → unqueued (jv_status x) = true ∧
  jv_status x ≠ JobStatus.PENDING.
Proof.
  intros HT Hx Ht. destruct (HT k t Ht) as (x' & Hx' & Hok). simplify_eq.
  destruct t; simpl in Hok; destruct (jv_status x); simpl; naive_solver.
Qed.

(** Promotion of the best waiting job, from the point where there is room. *)
Lemma promote_inv v a b popped due tok r :
  Counts v a b → Queues v popped due → Tokens v tok → Deps v r → active v = true →
  w_reserved (v_wf v) < w_maxc (v_wf v) → 0 ≤ a →
  Counts (spec_promote v).2 a b ∧ Queues (spec_promote v).2 popped due ∧
  Tokens (spec_promote v).2 tok ∧ Deps (spec_promote v).2 r.
Proof.
  intros HC HQ HT HD Ha Hlt Ha0. unfold spec_promote.
  destruct (zmax (v_waiting v)) as [[k p]|] eqn:Hz; [|done].
  destruct (v_jobs v !! k) as [x|] eqn:Hx; [|done].
  assert (Hst : jv_status x = JobStatus.READY).
  { apply (q_waiting _ _ _ HQ Ha k x Hx). apply zmax_Some in Hz. eauto. }
  simpl. split_and!.
  - apply (counts_queue (with_waiting (delete k (v_waiting v)) v)); auto. by destruct HC.
  - by apply queues_promote.
  - eapply (tokens_put v _ k _ tok tok); [done|by apply weaker_same| |done|..].
    + intros k' z Hne Hz'. simpl. by rewrite lookup_insert_ne.
    + simpl. by rewrite lookup_insert_eq.
    + intros t Ht. destruct (no_token _ _ _ _ _ HT Hx Ht) as [E _]. by rewrite Hst in E.
  - eapply (deps_with (put_job k (job_st JobStatus.QUEUED x) v)); [|done..].
    apply (deps_put v k x); auto; unfold job_is; simpl; by rewrite Hst.
Qed.

(** ** Releasing successors *)

Definition Mid (v : wview) (a b : Z) (popped due : gset string) (tok : gmap string token)
  (r : list string) : Prop :=
  Counts v a b ∧ Queues v popped due ∧ Tokens v tok ∧ Deps v r.

Lemma occ_cons j i l : occ j (i :: l) = (if String.eqb j i then 1 else 0) + occ j l.
Proof. done. Qed.

Lemma occ_nonneg j l : 0 ≤ occ j l.
Proof. apply cnt_nonneg. Qed.

Lemma indeg_nonneg m j : 0 ≤ indeg m j.
Proof. apply msum_nonneg. intros. apply occ_nonneg. Qed.

(** The head of the work list is PENDING: a job whose predecessors are all
    released does not occur in any list. *)
Lemma deps_head v id r x :
  Deps v (id :: r) → active v = true → v_jobs v !! job_key w id = Some x →
  jv_status x = JobStatus.PENDING ∧ jv_deps x = 1 + (indeg (v_succ v) id + occ id r).
Proof.
  intros [_ HA] Ha Hx. destruct (HA Ha id x Hx) as (H & _ & _).
  rewrite occ_cons, String.eqb_refl in H.
  pose proof (indeg_nonneg (v_succ v) id). pose proof (occ_nonneg id r).
  destruct (job_is JobStatus.PENDING x) eqn:E; [|lia]. apply is_st in E. split; [done|lia].
Qed.

Lemma deps_release v id r x y :
  Deps v (id :: r) → v_jobs v !! job_key w id = Some x → active v = true →
  jv_deps y = jv_deps x - 1 →
  (jv_status y = JobStatus.PENDING ∧ 1 < jv_deps x ∨ jv_status y = JobStatus.READY ∧ jv_deps x = 1) →
  Deps (put_job (job_key w id) y v) r.
Proof.
  intros HD Hx Ha Ed Hy. destruct (deps_head _ _ _ _ HD Ha Hx) as [Hp Hn].
  destruct HD as [HD HA]. split; unfold put_job; simpl.
  - intros j l Hl. rewrite dom_insert_L. destruct (HD j l Hl) as [? Hf]. split; [set_solver|].
    eapply Forall_impl; [done|]. set_solver.
  - intros _ j z Hz. rewrite lookup_insert in Hz. case_decide as Hk; simplify_eq.
    + destruct (HA Ha j x Hx) as (H & _ & Hs). rewrite occ_cons, String.eqb_refl in H.
      unfold job_is in *. rewrite Hp in Hs, H. simpl in Hs, H.
      destruct Hy as [[-> ?]|[-> ?]]; simpl; rewrite Hs; split_and!; try done; lia.
    + destruct (HA Ha j z Hz) as (H & ? & ?). split_and!; try done.
      rewrite occ_cons in H. destruct (String.eqb_spec j id); [by subst|lia].
Qed.

(** A PENDING job becomes READY and joins the waiting set. *)
Lemma queues_ready v v' k x y p popped due :
  Queues v popped due → active v = true → v_jobs v !! k = Some x →
  jv_status x = JobStatus.PENDING → jv_status y = JobStatus.READY →
  v_jobs v' = <[k := y]> (v_jobs v) → v_waiting v' = <[k := p]> (v_waiting v) →
  v_exec v' = v_exec v → v_retry v' = v_retry v → active v' = true →
  Queues v' popped due.
Proof.
  intros [] Ha Hx Hp Hy Ej Ew Ee Er Ha'.
  split; rewrite ?Ej, ?Ew, ?Ee, ?Er, ?Ha' in *; try done.
  - rewrite dom_insert_L. apply elem_of_dom_2 in Hx. set_solver.
  - rewrite !dom_insert_L. set_solver.
  - intros _ k' z Hz. look_cases; [|by apply q_waiting0]. split; [done|eauto].
  - intros k' Hk. destruct (q_exec0 k' Hk) as (z & Hz & Hz'). look_cases.
    + destruct Hz' as [E|[E _]]; congruence.
    + exists z. split; [done|]. destruct Hz' as [?|[? ?]]; [auto|congruence].
  - intros _ k' z Hz Hq. look_cases; [congruence|eauto].
  - intros k' Hk. destruct (q_retry0 k' Hk) as (z & Hz & Hz'). look_cases.
    + destruct Hz' as [E|[E _]]; congruence.
    + exists z. split; [done|]. destruct Hz' as [?|[? ?]]; [auto|congruence].
  - intros _ k' z Hz Hq. look_cases; [congruence|eauto].
Qed.

Lemma release_step v a b popped due tok id r newly :
  Mid v a b popped due tok (id :: r) → active v = true → job_key w id ∈ dom (v_jobs v) →
  Mid (spec_release_successor w (newly, v) id).2 a b popped due tok r.
Proof.
  intros (HC & HQ & HT & HD) Ha [x Hx]%elem_of_dom.
  destruct (deps_head _ _ _ _ HD Ha Hx) as [Hp Hn].
  pose proof (indeg_nonneg (v_succ v) id) as Hi. pose proof (occ_nonneg id r) as Ho.
  assert (Hpos : 1 ≤ w_pending (v_wf v)).
  { rewrite (c_pending _ _ _ HC Ha). eapply mcnt_pos; [done|by apply is_st]. }
  assert (Hnt : tok !! job_key w id = None).
  { destruct (tok !! job_key w id) as [t|] eqn:Ht; [|done].
    destruct (no_token _ _ _ _ _ HT Hx Ht) as [_ E]. done. }
  unfold spec_release_successor. rewrite Hx. rewrite (proj2 (is_st _ _) Hp).
  destruct (Z.leb_spec (jv_deps x - 1) 0) as [Hle|Hgt]; simpl.
  - rewrite (proj2 (Z.ltb_lt 0 (w_pending (v_wf v)))) by lia. simpl.
    set (y := job_st JobStatus.READY (job_deps 0 x)).
    split_and!.
    + pose proof (counts_put_pending v (job_key w id) x y a b HC Hx) as H.
      assert (slot x = false ∧ terminal x = false) as [Es Et].
      { unfold slot, terminal. by rewrite Hp. }
      rewrite Es, Et, (proj2 (is_st _ _) Hp) in H. simpl in H.
      replace (a + 0 - 0) with a in H by lia. replace (b + 0 - 0) with b in H by lia.
      replace (_ - 1 + 0) with (w_pending (v_wf v) - 1) in H by lia.
      eapply counts_with; [apply H|done..]; try done.
      * intros HR. unfold active in Ha. by rewrite HR in Ha.
      * intros _. unfold dropped. by rewrite Hp.
    + by eapply (queues_ready v _ (job_key w id) x y (jv_prio x)).
    + eapply (tokens_put v _ (job_key w id) y tok tok); [done|by apply weaker_same| |done|..]; simpl.
      * intros k z Hne Hz. by rewrite lookup_insert_ne.
      * by rewrite lookup_insert_eq.
      * intros t Ht. congruence.
    + eapply deps_with; [eapply (deps_release v id r x y)|..]; try done; simpl; [lia|].
      right. split; [done|lia].
  - set (y := job_deps (jv_deps x - 1) x). split_and!.
    + apply (counts_put_same v _ x); try done; simpl; by rewrite Hp.
    + by eapply queues_put; [done|done|..]; simpl; rewrite ?Hp; unfold dropped.
    + eapply (tokens_put v _ (job_key w id) y tok tok); [done|by apply weaker_same| |done|..]; simpl.
      * intros k z Hne Hz. by rewrite lookup_insert_ne.
      * by rewrite lookup_insert_eq.
      * intros t Ht. congruence.
    + eapply (deps_release v id r x y); try done. left. split; [done|lia].
Qed.

Lemma release_wf v newly id :
  let v' := (spec_release_successor w (newly, v) id).2 in
  v_wf v' = set_pending (w_pending (v_wf v')) (v_wf v) ∧ v_succ v' = v_succ v ∧
  dom (v_jobs v') = dom (v_jobs v).
Proof.
  unfold spec_release_successor. destruct (v_jobs v !! job_key w id) as [x|] eqn:Hx; simpl.
  2:{ destruct (v_wf v); done. }
  apply elem_of_dom_2 in Hx.
  repeat (case_match; simpl); rewrite ?dom_insert_L; (split; [by destruct (v_wf v)|]);
    (split; [done|]); set_solver.
Qed.

Lemma release_fold v a b popped due tok ids newly :
  Mid v a b popped due tok ids → active v = true →
  Forall (λ id, job_key w id ∈ dom (v_jobs v)) ids →
  let v' := (foldl (spec_release_successor w) (newly, v) ids).2 in
  Mid v' a b popped due tok [] ∧ v_wf v' = set_pending (w_pending (v_wf v')) (v_wf v) ∧
  v_succ v' = v_succ v.
Proof.
  intros HM Ha Hids. revert v newly HM Ha Hids.
  induction ids as [|id ids IH]; intros v newly HM Ha Hids; cbn [foldl].
  { split_and!; [done| |done]. simpl. by destruct (v_wf v). }
  apply Forall_cons in Hids as [Hid Hids].
  pose proof (release_step v a b popped due tok id ids newly HM Ha Hid) as HM'.
  destruct (release_wf v newly id) as (Ew & Es & Ed).
  destruct (spec_release_successor w (newly, v) id) as [newly' v'] eqn:E. simpl in Ew, Es, Ed, HM'.
  assert (Ha' : active v' = true) by (unfold active in *; by rewrite Ew).
  rewrite <-Ed in Hids. destruct (IH v' newly' HM' Ha' Hids) as (? & Ew' & Es').
  split_and!; [done| |congruence]. rewrite Ew' at 1. by rewrite Ew.
Qed.

(** Taking the successor list of [j] out of the map. *)
Lemma indeg_delete m j i : indeg (delete j m) i + occ i (default [] (m !! j)) = indeg m i.
Proof.
  unfold indeg. destruct (m !! j) as [l|] eqn:E; simpl.
  - rewrite (msum_delete _ _ _ _ E). lia.
  - rewrite delete_id by done. unfold occ at 2. simpl. lia.
Qed.

Lemma deps_complete v j x y :
  Deps v [] → v_jobs v !! job_key w j = Some x → active v = true →
  jv_status x = JobStatus.RUNNING → jv_status y = JobStatus.COMPLETED →
  Deps (with_succ (delete j (v_succ v)) (put_job (job_key w j) y v)) (succ_of v j).
Proof.
  intros [HD HA] Hx Ha Hr Hy. split; unfold put_job; simpl.
  - intros i l Hl. look_cases. rewrite dom_insert_L. destruct (HD i l Hl) as [? Hf].
    split; [set_solver|]. eapply Forall_impl; [done|]. set_solver.
  - intros _ i z Hz. unfold succ_of. rewrite indeg_delete.
    rewrite lookup_insert in Hz. case_decide as Hk; simplify_eq.
    + destruct (HA Ha i x Hx) as (H & _ & _). unfold job_is in *. rewrite Hr in H. rewrite Hy.
      simpl in *. unfold occ in H. simpl in H. rewrite lookup_delete_eq. split_and!; done || lia.
    + destruct (HA Ha i z Hz) as (H & ? & ?). unfold occ in H. simpl in H.
      rewrite lookup_delete_ne by (by intros ->). split_and!; done || lia.
Qed.

(** The completed job leaves its slot and its dependants are released. *)
Lemma record_success_inv v popped due tok tok' j x :
  Mid v 0 0 popped due tok [] → w_status (v_wf v) = WorkflowStatus.RUNNING →
  v_jobs v !! job_key w j = Some x → jv_status x = JobStatus.RUNNING →
  (∀ k, k ≠ job_key w j → tok' !! k = tok !! k) →
  (∀ t, tok' !! job_key w j = Some t → t = TBroken) →
  let v' := (spec_record_success w j x v).2 in
  Mid v' 0 0 popped due tok' [] ∧
  v_wf v' = set_reserved (w_reserved (v_wf v) - 1) (set_completed (w_completed (v_wf v) + 1)
              (set_pending (w_pending (v_wf v')) (v_wf v))).
Proof.
  intros (HC & HQ & HT & HD) Hrun Hx Hr Htok Hbrk.
  assert (Ha : active v = true) by (unfold active; by rewrite Hrun).
  set (y := job_st JobStatus.COMPLETED x).
  set (v2 := with_succ (delete j (v_succ v)) (put_job (job_key w j) y v)).
  assert (HM : Mid v2 1 1 popped due tok' (succ_of v j)).
  { split_and!.
    - pose proof (counts_put v (job_key w j) x y 0 0 HC Hx) as H.
      assert (slot x = true ∧ terminal x = false) as [Es Et].
      { unfold slot, terminal. by rewrite Hr. }
      rewrite Es, Et in H. eapply counts_with; [apply H|done..]; try done.
      + unfold job_is. by rewrite Hr.
      + by rewrite Hrun.
      + intros _. unfold dropped. by rewrite Hr.
    - eapply queues_with; [eapply (queues_put v _ x y); try done|done..]; unfold dropped; by rewrite Hr.
    - eapply (tokens_put v _ (job_key w j) y tok tok'); [done|by apply weaker_same| |done|..]; simpl.
      + intros k z Hne Hz. by rewrite lookup_insert_ne.
      + by rewrite lookup_insert_eq.
      + intros t ->%Hbrk. right. simpl. by rewrite Hrun.
    - by eapply deps_complete. }
  assert (Hids : Forall (λ id, job_key w id ∈ dom (v_jobs v2)) (succ_of v j)).
  { unfold succ_of. destruct (v_succ v !! j) as [l|] eqn:El; [|constructor]. simpl.
    rewrite dom_insert_L. eapply Forall_impl; [apply (proj1 HD j l El)|]. set_solver. }
  destruct (release_fold v2 1 1 popped due tok' (succ_of v j) [] HM) as (HM3 & Ew & _); [done..|].
  unfold spec_record_success. fold y.
  change (with_succ (delete j (v_succ (put_job (job_key w j) y v))) _) with v2.
  destruct (foldl _ _ _) as [newly v3]. simpl in *. destruct HM3 as (HC3 & HQ3 & HT3 & HD3).
  assert (Ha3 : active v3 = true) by (unfold active in *; by rewrite Ew).
  assert (w_reserved (v_wf v3) = w_reserved (v_wf v) ∧ w_completed (v_wf v3) = w_completed (v_wf v)
    ∧ w_status (v_wf v3) = w_status (v_wf v)) as (Er & Ec & Est) by (by rewrite Ew).
  assert (Hrel : release (w_reserved (v_wf v3)) = w_reserved (v_wf v) - 1).
  { unfold release. rewrite Er. pose proof (c_reserved _ _ _ HC Ha) as [H _].
    pose proof (mcnt_nonneg dropped (v_jobs v)).
    pose proof (mcnt_pos slot (v_jobs v) _ x Hx) as Hpos. unfold slot at 1 in Hpos.
    rewrite Hr in Hpos. specialize (Hpos eq_refl). destruct (Z.ltb_spec 0 (w_reserved (v_wf v))); lia. }
  rewrite Hrel, Ec. split; [split_and!|].
  - destruct HC3. split; unfold active in *; simpl in *; try done.
    + intros _. specialize (c_reserved0 Ha3). lia.
    + intros _. specialize (c_completed0 Ha3). lia.
  - eapply queues_with; [done..|]. intros _. done.
  - eapply tokens_with; [done| |done]. by apply weaker_same.
  - by eapply deps_with.
  - rewrite Ew at 1. by destruct (v_wf v).
Qed.

(** ** A failed workflow *)

Lemma counts_failed v a b :
  w_status (v_wf v) = WorkflowStatus.FAILED → mcnt slot (v_jobs v) ≤ w_maxc (v_wf v) →
  w_total (v_wf v) = Z.of_nat (size (v_jobs v)) → Counts v a b.
Proof. intros Hst Hs Ht. split; unfold active; rewrite ?Hst; try done. tauto. Qed.

Lemma mid_set_failed v a b popped due tok r :
  Mid v a b popped due tok r → active v = true →
  Mid (with_wf (set_status WorkflowStatus.FAILED (v_wf v)) v) 0 0 popped due tok [].
Proof.
  intros (HC & HQ & HT & HD) Ha. split_and!.
  - apply counts_failed; [done|apply HC..].
  - by eapply queues_with.
  - eapply tokens_with; [done| |done]. eapply weaker_status; naive_solver.
  - by eapply deps_inactive.
Qed.

(** Job [k] becomes [y] in a failed workflow. *)
Lemma mid_put_failed v a b popped due tok tok' k x y :
  Mid v a b popped due tok [] → w_status (v_wf v) = WorkflowStatus.FAILED →
  v_jobs v !! k = Some x → (slot y = true → slot x = true) →
  (is_Some (v_exec v !! k) ∨ k ∈ popped → jv_status y = JobStatus.QUEUED ∨ dropped y = true) →
  (is_Some (v_retry v !! k) ∨ k ∈ due → jv_status y = JobStatus.RETRY_DELAY ∨ dropped y = true) →
  (∀ k', k' ≠ k → tok' !! k' = tok !! k') →
  (∀ t, tok' !! k = Some t → token_ok v t (jv_status y)) →
  Mid (put_job k y v) 0 0 popped due tok' [].
Proof.
  intros (HC & HQ & HT & HD) Hf Hx Hs He Hr Htok Hk. assert (Ha : active v = false).
  { unfold active. by rewrite Hf. }
  split_and!.
  - apply counts_failed; [done| |].
    + unfold put_job; simpl. rewrite (mcnt_insert _ _ _ _ _ Hx).
      pose proof (c_slots _ _ _ HC). destruct (slot x), (slot y); first [lia|naive_solver].
    + unfold put_job; simpl. rewrite map_size_insert_Some by done. apply HC.
  - destruct HQ. split; unfold put_job, active in *; simpl in *; rewrite ?Hf in *; try done.
    + rewrite dom_insert_L. apply elem_of_dom_2 in Hx. set_solver.
    + rewrite dom_insert_L. set_solver.
    + intros k' Hk'. destruct (q_exec0 k' Hk') as (z & Hz & Hz'). look_cases; [|eauto].
      exists y. split; [done|]. destruct (He Hk'); auto.
    + intros k' Hk'. destruct (q_retry0 k' Hk') as (z & Hz & Hz'). look_cases; [|eauto].
      exists y. split; [done|]. destruct (Hr Hk'); auto.
  - eapply (tokens_put v _ k y tok tok'); [done|by apply weaker_same| |done|..]; simpl.
    + intros k' z Hne Hz. by rewrite lookup_insert_ne.
    + by rewrite lookup_insert_eq.
    + intros t Ht. by apply Hk.
  - eapply deps_inactive; [done..| |done]. unfold put_job; simpl. rewrite dom_insert_L.
    apply elem_of_dom_2 in Hx. set_solver.
Qed.

(** The queues of a failed workflow may lose entries. *)
Lemma mid_shrink v v' a b popped due tok :
  Mid v a b popped due tok [] → w_status (v_wf v) = WorkflowStatus.FAILED →
  v_wf v' = v_wf v → v_jobs v' = v_jobs v → v_succ v' = v_succ v →
  v_waiting v' ⊆ v_waiting v → v_exec v' ⊆ v_exec v → v_retry v' ⊆ v_retry v →
  Mid v' a b popped due tok [].
Proof.
  intros (HC & HQ & HT & HD) Hf Ew Ej Es Hw He Hr. assert (Ha : active v' = false).
  { unfold active. by rewrite Ew, Hf. }
  assert (Hsome : ∀ (m m' : gmap string Z) k, m' ⊆ m → is_Some (m' !! k) → is_Some (m !! k)).
  { intros m m' k Hm [z Hz]. exists z. by eapply lookup_weaken. }
  split_and!.
  - by eapply counts_with.
  - destruct HQ. split; rewrite ?Ej, ?Ha in *; try done.
    + apply subseteq_dom in Hw. set_solver.
    + intros k [H|H]; destruct (q_exec0 k) as (x & ? & ?); eauto; exists x; naive_solver.
    + intros k Hk. destruct (v_exec v' !! k) eqn:E; [|done]. specialize (q_popped0 k Hk).
      by rewrite (lookup_weaken _ _ _ _ E He) in q_popped0.
    + intros k [H|H]; destruct (q_retry0 k) as (x & ? & ?); eauto; exists x; naive_solver.
    + intros k Hk. destruct (v_retry v' !! k) eqn:E; [|done]. specialize (q_due0 k Hk).
      by rewrite (lookup_weaken _ _ _ _ E Hr) in q_due0.
  - eapply tokens_with; [done| |done]. apply weaker_same. by rewrite Ew.
  - eapply deps_inactive; [done..| |]; [by rewrite Ej|by rewrite Es].
Qed.

Lemma cancel_inv v popped due tok j id canceled :
  Mid v 0 0 popped due tok [] → w_status (v_wf v) = WorkflowStatus.FAILED →
  Mid (spec_cancel w j (canceled, v) id).2 0 0 popped due tok [].
Proof.
  intros HM Hf. unfold spec_cancel. case_decide; [done|].
  destruct (v_jobs v !! job_key w id) as [x|] eqn:Hx; [|done].
  destruct (cancelable (jv_status x)) eqn:Hc; [|done]. simpl.
  set (v1 := put_job _ _ v).
  assert (HM1 : Mid v1 0 0 popped due tok []).
  { eapply mid_put_failed; try done; [auto..|]. intros t Ht.
    destruct HM as (_ & _ & HT & _). destruct (no_token _ _ _ _ _ HT Hx Ht) as [E1 E2].
    by destruct (jv_status x). }
  eapply (mid_shrink v1); [done|done|repeat case_match; done..| | |];
    repeat case_match; simpl; try done; apply delete_subseteq.
Qed.

Lemma cancels_inv v popped due tok j ids canceled :
  Mid v 0 0 popped due tok [] → w_status (v_wf v) = WorkflowStatus.FAILED →
  Mid (foldl (spec_cancel w j) (canceled, v) ids).2 0 0 popped due tok [].
Proof.
  revert v canceled. induction ids as [|id ids IH]; intros v canceled HM Hf; [done|].
  cbn [foldl]. pose proof (cancel_inv v popped due tok j id canceled HM Hf) as HM'.
  pose proof (spec_cancel_wf w j (canceled, v) id) as Ew.
  destruct (spec_cancel w j (canceled, v) id) as [canceled' v']. simpl in *.
  apply IH; [done|]. by rewrite Ew.
Qed.

(** ** Every step keeps the invariant *)

Lemma inv_mid σ : Inv σ ↔ Mid (sv σ) 0 0 (s_unclaimed σ) (s_unpromoted σ) (s_tok σ) [].
Proof. split; [by intros []|]. by intros (? & ? & ? & ?). Qed.

(** Facts a token gives about its job. *)
Lemma token_job v tok k t x :
  Tokens v tok → tok !! k = Some t → v_jobs v !! k = Some x → token_ok v t (jv_status x).
Proof. intros HT Ht Hx. destruct (HT k t Ht) as (y & Hy & Hok). by simplify_eq. Qed.

(** A change of one token, the view untouched. *)
Lemma mid_token v popped due tok k t' :
  Mid v 0 0 popped due tok [] →
  (∀ x, v_jobs v !! k = Some x → token_ok v t' (jv_status x)) → is_Some (v_jobs v !! k) →
  Mid v 0 0 popped due (<[k := t']> tok) [].
Proof.
  intros (HC & HQ & HT & HD) Hok [x Hx]. split_and!; try done.
  intros k' t Ht. look_cases; [|by apply HT]. exists x. auto.
Qed.

Lemma mid_token_delete v popped due tok k :
  Mid v 0 0 popped due tok [] → Mid v 0 0 popped due (delete k tok) [].
Proof.
  intros (HC & HQ & HT & HD). split_and!; try done. intros k' t Ht. look_cases. by apply HT.
Qed.

Lemma inv_pop v popped due tok k :
  Mid v 0 0 popped due tok [] → is_Some (v_exec v !! k) →
  Mid (with_exec (delete k (v_exec v)) v) 0 0 ({[k]} ∪ popped) due tok [].
Proof.
  intros (HC & HQ & HT & HD) Hk. split_and!.
  - by eapply counts_with.
  - destruct HQ. split; simpl; try done.
    + intros k' Hk'. apply q_exec0. look_cases; [by left|]. set_solver.
    + intros Ha k' x Hx Hq. look_cases; [set_solver|].
      destruct (q_queued0 Ha k' x Hx Hq); set_solver.
    + intros k' Hk'. look_cases; [done|]. apply q_popped0. set_solver.
  - eapply tokens_with; [done| |done]. by apply weaker_same.
  - by eapply deps_with.
Qed.

Lemma inv_dequeue_retry v popped due tok k :
  Mid v 0 0 popped due tok [] → is_Some (v_retry v !! k) →
  Mid (with_retry (delete k (v_retry v)) v) 0 0 popped ({[k]} ∪ due) tok [].
Proof.
  intros (HC & HQ & HT & HD) Hk. split_and!.
  - by eapply counts_with.
  - destruct HQ. split; simpl; try done.
    + intros k' Hk'. apply q_retry0. look_cases; [by left|]. set_solver.
    + intros Ha k' x Hx Hq. look_cases; [set_solver|].
      destruct (q_delayed0 Ha k' x Hx Hq); set_solver.
    + intros k' Hk'. look_cases; [done|]. apply q_due0. set_solver.
  - eapply tokens_with; [done| |done]. by apply weaker_same.
  - by eapply deps_with.
Qed.

(** A popped job is claimed only while it is QUEUED. *)
Lemma inv_claim v popped due tok k x :
  Mid v 0 0 popped due tok [] → k ∈ popped → v_jobs v !! k = Some x →
  Mid (spec_claim k x v).2 0 0 (popped ∖ {[k]}) due
    (if (spec_claim k x v).1 then <[k := TClaimed]> tok else tok) [].
Proof.
  intros (HC & HQ & HT & HD) Hk Hx.
  destruct (q_exec _ _ _ HQ k (or_intror Hk)) as (x' & Hx' & Hst). simplify_eq.
  unfold spec_claim. destruct (job_is JobStatus.READY x || job_is JobStatus.QUEUED x) eqn:Hb; simpl.
  - assert (Hq : jv_status x = JobStatus.QUEUED).
    { destruct Hst as [?|[_ Hd]]; [done|]. unfold dropped, job_is in *. by destruct (jv_status x). }
    split_and!.
    + apply (counts_put_same v k x); unfold slot, terminal, dropped, job_is; rewrite ?Hq; done.
    + destruct HQ. split; unfold put_job, active in *; simpl in *; try done.
      * rewrite dom_insert_L. apply elem_of_dom_2 in Hx. set_solver.
      * rewrite dom_insert_L. set_solver.
      * intros Ha k' z Hz. look_cases; [|by apply q_waiting0].
        rewrite (q_waiting0 Ha _ _ Hx). by rewrite Hq.
      * intros k' Hk'. destruct (q_exec0 k') as (z & Hz & Hz'); [set_solver|].
        look_cases; [|eauto]. exfalso. destruct Hk' as [Hk'|Hk']; [|set_solver].
        rewrite q_popped0 in Hk' by done. by destruct Hk'.
      * intros Ha k' z Hz Hqz. look_cases. destruct (q_queued0 Ha k' z Hz Hqz); set_solver.
      * set_solver.
      * intros k' Hk'. destruct (q_retry0 k' Hk') as (z & Hz & Hz'). look_cases; [|eauto].
        unfold dropped in Hz'. rewrite Hq in Hz'. naive_solver.
      * intros Ha k' z Hz Hqz. look_cases. eauto.
    + eapply (tokens_put v _ k); [done|by apply weaker_same| | |..]; simpl.
      * intros k' z Hne Hz. by rewrite lookup_insert_ne.
      * intros k' Hne. by rewrite lookup_insert_ne.
      * by rewrite lookup_insert_eq.
      * intros t Ht. look_cases. done.
    + apply (deps_put v k x); auto; unfold job_is; simpl; by rewrite Hq.
  - split_and!; try done. destruct HQ. split; try done.
    + intros k' Hk'. apply q_exec0. set_solver.
    + intros Ha k' z Hz Hqz. destruct (q_queued0 Ha k' z Hz Hqz) as [?|?]; [auto|].
      right. apply elem_of_difference. split; [done|]. intros ->%elem_of_singleton.
      simplify_eq. unfold job_is in Hb. by rewrite Hqz in Hb.
    + set_solver.
Qed.

Lemma counts_inactive v a b a' b' : active v = false → Counts v a b → Counts v a' b'.
Proof. intros Ha []. split; try done; by rewrite Ha. Qed.

(** A job that is in no queue changes its status and its token. *)
Lemma mid_put v a b popped due tok tok' k x y r :
  Mid v a b popped due tok r → v_jobs v !! k = Some x →
  unqueued (jv_status x) = true → unqueued (jv_status y) = true →
  (dropped x = true → dropped y = true) → (slot y = true → slot x = true) →
  jv_deps y = jv_deps x →
  job_is JobStatus.PENDING y = job_is JobStatus.PENDING x →
  job_is JobStatus.COMPLETED y = job_is JobStatus.COMPLETED x →
  (w_status (v_wf v) = WorkflowStatus.READY → jv_status y ≠ JobStatus.RUNNING) →
  (w_status (v_wf v) = WorkflowStatus.COMPLETED → terminal y = true) →
  (active v = true → dropped y = dropped x) →
  (∀ k', k' ≠ k → tok' !! k' = tok !! k') →
  (∀ t, tok' !! k = Some t → token_ok v t (jv_status y)) →
  Mid (put_job k y v) (a + b2z (slot x) - b2z (slot y)) (b + b2z (terminal y) - b2z (terminal x))
    popped due tok' r.
Proof.
  intros (HC & HQ & HT & HD) Hx Hux Huy Hdr Hs Ed Ep Ec Hr Hd Hsame Htok Hk. split_and!.
  - apply counts_put; try done. intros HR. split_and!.
    + intros E. by rewrite E in Huy.
    + by apply Hr.
    + intros E%is_st. rewrite Ec in E. apply is_st in E.
      by destruct (proj2 (c_ready _ _ _ HC HR) k x Hx) as (_ & _ & ?).
  - by eapply queues_put.
  - eapply (tokens_put v _ k y tok tok'); [done|by apply weaker_same| |done|..]; simpl.
    + intros k' z Hne Hz. by rewrite lookup_insert_ne.
    + by rewrite lookup_insert_eq.
    + intros t Ht. by apply Hk.
  - by eapply deps_put.
Qed.

(** The same in a workflow that is no longer active. *)
Lemma mid_counts v a b a' b' popped due tok r :
  active v = false → Mid v a b popped due tok r → Mid v a' b' popped due tok r.
Proof. intros Ha (HC & ?). split; [by eapply counts_inactive|done]. Qed.

Lemma mid_start_running v now popped due tok :
  Mid v 0 0 popped due tok [] → w_status (v_wf v) = WorkflowStatus.READY →
  Mid (with_wf (set_start (Some now) (set_status WorkflowStatus.RUNNING (v_wf v))) v) 0 0
    popped due tok [].
Proof.
  intros (HC & HQ & HT & HD) Hst. assert (Ha : active v = true) by (unfold active; by rewrite Hst).
  split_and!.
  - destruct HC. split; simpl; auto; try done.
  - by eapply queues_with.
  - eapply tokens_with; [done| |done]. by eapply weaker_status; eauto.
  - by eapply deps_with.
Qed.

Lemma inv_start v popped due tok now j x :
  Mid v 0 0 popped due tok [] → tok !! job_key w j = Some TClaimed →
  v_jobs v !! job_key w j = Some x →
  Mid (spec_start w now j x v).2 0 0 popped due
    (<[job_key w j := if started (spec_start w now j x v).1 then TStarted else TAborted]> tok) [].
Proof.
  intros HM Ht Hx. pose proof HM as (HC & HQ & HT & HD).
  pose proof (token_job _ _ _ _ _ HT Ht Hx) as Hst. simpl in Hst.
  unfold spec_start. unfold job_is. rewrite Hst. simpl.
  assert (Hput : ∀ v' st t, Mid v' 0 0 popped due tok [] → v_jobs v' = v_jobs v →
    st = JobStatus.RUNNING ∧ w_status (v_wf v') = WorkflowStatus.RUNNING ∨
    st = JobStatus.ABORTED ∧ w_status (v_wf v') = WorkflowStatus.FAILED →
    token_ok v' t st →
    Mid (put_job (job_key w j) (job_st st x) v') 0 0 popped due (<[job_key w j := t]> tok) []).
  { intros v' st t HM' Ej Hcase Htok.
    assert (HM2 := mid_put v' 0 0 popped due tok (<[job_key w j := t]> tok) (job_key w j) x
      (job_st st x) [] HM'). rewrite Ej in HM2. unfold job_is, slot, terminal, dropped in HM2.
    rewrite Hst in HM2. simpl in HM2.
    destruct Hcase as [[-> Hw]|[-> Hw]]; simpl in HM2; rewrite Hw in HM2.
    - apply HM2; try done; [intros; by rewrite lookup_insert_ne|].
      intros t' Ht'. by rewrite lookup_insert_eq in Ht'; simplify_eq.
    - eapply mid_counts; [unfold active; simpl; by rewrite Hw|].
      apply HM2; try done; [unfold active; by rewrite Hw|intros; by rewrite lookup_insert_ne|].
      intros t' Ht'. by rewrite lookup_insert_eq in Ht'; simplify_eq. }
  destruct (c_status _ _ _ HC) as [Hw|[Hw|[Hw|Hw]]]; rewrite Hw; simpl.
  - destruct (c_ready _ _ _ HC Hw) as [-> _]. simpl.
    apply (Hput _ JobStatus.RUNNING); [by apply mid_start_running|done|by left|done].
  - apply (Hput v JobStatus.RUNNING); auto. simpl. by rewrite Hw.
  - pose proof (c_done _ _ _ HC Hw _ _ Hx) as E. unfold terminal in E. by rewrite Hst in E.
  - apply (Hput v JobStatus.ABORTED); auto. simpl. unfold active. rewrite Hw. auto.
Qed.

(** Return the slot of a job that has left it. *)
Lemma mid_release v b popped due tok r :
  Mid v 1 b popped due tok r →
  Mid (with_wf (set_reserved (release (w_reserved (v_wf v))) (v_wf v)) v) 0 b popped due tok r.
Proof.
  intros (HC & HQ & HT & HD). split_and!.
  - destruct HC. split; unfold active in *; simpl; try done. intros Ha.
    specialize (c_reserved0 Ha). pose proof (mcnt_nonneg slot (v_jobs v)).
    pose proof (mcnt_nonneg dropped (v_jobs v)). unfold release. destruct (Z.ltb_spec 0 (w_reserved (v_wf v))); lia.
  - by eapply queues_with.
  - eapply tokens_with; [done| |done]. by apply weaker_same.
  - by eapply deps_with.
Qed.

Lemma inv_complete v popped due tok now j x persisted :
  Mid v 0 0 popped due tok [] → tok !! job_key w j = Some TDone →
  v_jobs v !! job_key w j = Some x →
  Mid (spec_complete w now j x v).2 0 0 popped due
    (if recorded (spec_complete w now j x v).1 && persisted
     then delete (job_key w j) tok else <[job_key w j := TBroken]> tok) [].
Proof.
  intros HM Ht Hx. pose proof HM as (HC & HQ & HT & HD).
  destruct (token_job _ _ _ _ _ HT Ht Hx) as [Hst Hnr].
  unfold spec_complete. unfold job_is, wf_is. rewrite Hst. cbn [bool_decide decide_rel]. simpl.
  case_bool_decide as Hrun; simpl.
  2:{ apply mid_token; [done| |eauto]. intros x' ?. simplify_eq. simpl. rewrite Hst. left.
      split; [done|]. unfold active. by destruct (w_status (v_wf v)). }
  assert (Ha : active v = true) by (unfold active; by rewrite Hrun).
  destruct (past_deadline _ _ _); simpl.
  { apply mid_token; [by eapply mid_set_failed| |eauto]. simpl. intros x' ?. simplify_eq. auto. }
  pose (tok' := if persisted then delete (job_key w j) tok else <[job_key w j := TBroken]> tok).
  destruct (record_success_inv v popped due tok tok' j x HM Hrun Hx Hst) as [HM' Ew].
  { intros k Hne. unfold tok'. destruct persisted; [by rewrite lookup_delete_ne|by rewrite lookup_insert_ne]. }
  { intros t. unfold tok'. destruct persisted; [by rewrite lookup_delete_eq|rewrite lookup_insert_eq; by intros [= <-]]. }
  destruct (spec_record_success w j x v) as [newly v1]. simpl in HM', Ew.
  assert (Hrun1 : w_status (v_wf v1) = WorkflowStatus.RUNNING) by (by rewrite Ew).
  assert (Ha1 : active v1 = true) by (unfold active; by rewrite Hrun1).
  pose proof HM' as (HC1 & HQ1 & HT1 & HD1).
  destruct ((0 <? w_total (v_wf v1)) && (w_completed (v_wf v1) =? w_total (v_wf v1))) eqn:Hall; simpl; fold tok'.
  - split_and!.
    + apply andb_true_iff in Hall as [_ Hall]. destruct HC1. split; unfold active; simpl; try done; auto.
      intros _. apply mcnt_full. rewrite <-(c_completed0 Ha1). lia.
    + by eapply queues_with.
    + eapply tokens_with; [done| |done]. eapply weaker_status; eauto.
    + by eapply deps_inactive.
  - destruct (Z.ltb_spec (w_reserved (v_wf v1)) (w_maxc (v_wf v1))); simpl; [|done].
    pose proof (promote_inv v1 0 0 popped due tok' [] HC1 HQ1 HT1 HD1 Ha1) as HP.
    destruct (spec_promote v1) as [promoted v2]. simpl in *. by apply HP.
Qed.

(** A running job goes to the retry queue. *)
Lemma queues_delay v k x y at_ms popped due :
  Queues v popped due → v_jobs v !! k = Some x → jv_status x = JobStatus.RUNNING →
  jv_status y = JobStatus.RETRY_DELAY →
  Queues (with_retry (<[k := at_ms]> (v_retry v)) (put_job k y v)) popped due.
Proof.
  intros [] Hx Hr Hy. split; unfold active in *; simpl in *; try done.
  - rewrite dom_insert_L. apply elem_of_dom_2 in Hx. set_solver.
  - rewrite dom_insert_L. set_solver.
  - intros Ha k' z Hz. look_cases; [|by apply q_waiting0].
    rewrite (q_waiting0 Ha _ _ Hx). by rewrite Hr, Hy.
  - intros k' Hk'. destruct (q_exec0 k' Hk') as (z & Hz & Hz'). look_cases; [|eauto].
    unfold dropped in Hz'. rewrite Hr in Hz'. naive_solver.
  - intros Ha k' z Hz Hq. look_cases; [congruence|eauto].
  - intros k' Hk'. look_cases; [eauto|]. destruct (q_retry0 k' Hk') as (z & Hz & Hz'). eauto.
  - intros Ha k' z Hz Hq. look_cases; [eauto|]. eauto.
  - intros k' Hk'. look_cases; [|by apply q_due0].
    destruct (q_retry0 k' (or_intror Hk')) as (z & Hz & Hz'). simplify_eq.
    unfold dropped in Hz'. rewrite Hr in Hz'. naive_solver.
Qed.

Lemma inv_retry v popped due tok j x retry at_ms :
  Mid v 0 0 popped due tok [] → tok !! job_key w j = Some TFailed →
  v_jobs v !! job_key w j = Some x →
  Mid (spec_retry w j retry at_ms x v).2 0 0 popped due (delete (job_key w j) tok) [].
Proof.
  intros HM Ht Hx. pose proof HM as (HC & HQ & HT & HD).
  destruct (token_job _ _ _ _ _ HT Ht Hx) as [Hst Hnr].
  unfold spec_retry. set (y := job_st JobStatus.RETRY_DELAY (job_retry retry x)).
  set (v2 := with_retry _ (put_job (job_key w j) y v)).
  assert (HM2 : Mid v2 1 0 popped due (delete (job_key w j) tok) []).
  { assert (slot x = true ∧ terminal x = false) as [Es Et] by (unfold slot, terminal; by rewrite Hst).
    split_and!.
    - pose proof (counts_put v (job_key w j) x y 0 0 HC Hx) as H. rewrite Es, Et in H.
      eapply counts_with; [apply H|done..]; try done.
      + unfold job_is. by rewrite Hst.
      + intros HD'. pose proof (c_done _ _ _ HC HD' _ _ Hx). congruence.
      + intros _. unfold dropped. by rewrite Hst.
    - by apply (queues_delay v _ x y).
    - eapply (tokens_put v _ (job_key w j) y tok); [done|by apply weaker_same| |..]; simpl.
      + intros k z Hne Hz. by rewrite lookup_insert_ne.
      + intros k Hne. by rewrite lookup_delete_ne.
      + by rewrite lookup_insert_eq.
      + intros t Ht'. by rewrite lookup_delete_eq in Ht'.
    - eapply deps_with; [eapply (deps_put v _ x y)|..]; try done; unfold job_is; simpl; by rewrite Hst. }
  apply mid_release in HM2. set (v3 := with_wf _ v2) in *.
  unfold wf_is. case_bool_decide as Hrun; [|done].
  destruct (Z.leb_spec (w_maxc (v_wf v3)) (w_reserved (v_wf v3))); [done|].
  destruct HM2 as (HC3 & HQ3 & HT3 & HD3). apply promote_inv; try done.
  unfold active. simpl. by rewrite Hrun.
Qed.

(** The tally of a job that fails in a workflow that has ended. *)
Lemma mid_tally v n m a b popped due tok r :
  Mid v a b popped due tok r → active v = false →
  Mid (with_wf (set_failed n (set_completed m (v_wf v))) v) 0 0 popped due tok r.
Proof.
  intros (HC & HQ & HT & HD) Ha. split_and!.
  - apply (counts_inactive _ a b); [done|]. destruct HC. unfold active in *.
    by split; unfold active; simpl; rewrite ?Ha.
  - by eapply queues_with.
  - eapply tokens_with; [done| |done]. by apply weaker_same.
  - by eapply deps_with.
Qed.

(** A claimed job fails before the workflow has started: it is counted as
    finished and as failed, and its slot stays reserved. *)
Lemma counts_fail_ready v k x y :
  Counts v 0 0 → w_status (v_wf v) = WorkflowStatus.READY → v_jobs v !! k = Some x →
  jv_status x = JobStatus.PENDING_EXECUTION → jv_status y = JobStatus.FAILED →
  Counts (with_wf (set_failed (w_failed (v_wf v) + 1)
            (set_completed (w_completed (v_wf v) + 1) (v_wf v))) (put_job k y v)) 0 0.
Proof.
  intros [] Hw Hx Ex Ey. assert (Ha : active v = true) by (unfold active; by rewrite Hw).
  assert (mcnt slot (<[k := y]> (v_jobs v)) = mcnt slot (v_jobs v) - 1 ∧
    mcnt dropped (<[k := y]> (v_jobs v)) = mcnt dropped (v_jobs v) + 1 ∧
    mcnt terminal (<[k := y]> (v_jobs v)) = mcnt terminal (v_jobs v) + 1 ∧
    mcnt (job_is JobStatus.PENDING) (<[k := y]> (v_jobs v))
      = mcnt (job_is JobStatus.PENDING) (v_jobs v)) as (Es & Ed & Et & Ep).
  { rewrite !(mcnt_insert _ _ _ _ _ Hx). unfold slot, dropped, terminal, job_is.
    rewrite Ex, Ey. simpl. lia. }
  specialize (c_reserved0 Ha). specialize (c_failed0 Ha). specialize (c_completed0 Ha).
  split; unfold active in *; simpl; rewrite ?Es, ?Ed, ?Et, ?Ep, ?Hw; try done; auto; try lia.
  - by rewrite map_size_insert_Some.
  - intros _. destruct (c_ready0 Hw) as [? Hj]. split; [done|].
    intros k' z Hz. look_cases; [by rewrite Ey|eauto].
Qed.

(** What the completion handler knows of a job it records as failed. *)
Lemma failing_job v tok k t x :
  Tokens v tok → tok !! k = Some t → t = TFailed ∨ t = TAborted ∨ t = TBroken →
  v_jobs v !! k = Some x →
  unqueued (jv_status x) = true ∧ jv_status x ≠ JobStatus.PENDING ∧ jv_status x ≠ JobStatus.FAILED.
Proof.
  intros HT Ht Hcase Hx. pose proof (token_job _ _ _ _ _ HT Ht Hx) as Hok.
  destruct Hcase as [->|[->| ->]]; simpl in Hok.
  - destruct Hok as [-> ?]. done.
  - by destruct Hok as [-> | [-> | [Ha ->]]].
  - by destruct Hok as [[-> Ha]|[-> ?]].
Qed.

Lemma inv_fail v popped due tok j x t retry ids :
  Mid v 0 0 popped due tok [] → tok !! job_key w j = Some t →
  t = TFailed ∨ t = TAborted ∨ t = TBroken → v_jobs v !! job_key w j = Some x →
  Mid (spec_fail w j retry ids x v).2 0 0 popped due
    (match t with
     | TAborted => <[job_key w j := TMark]> tok
     | _ => delete (job_key w j) tok
     end) [].
Proof.
  intros HM Ht Hcase Hx. pose proof HM as (HC & HQ & HT & HD).
  destruct (failing_job v tok _ t x HT Ht Hcase Hx) as (Hu & Hnp & Hnf).
  set (tok' := match t with TAborted => _ | _ => _ end).
  assert (Hoff : ∀ k, k ≠ job_key w j → tok' !! k = tok !! k).
  { intros k Hne. unfold tok'. destruct t; by rewrite ?lookup_insert_ne, ?lookup_delete_ne. }
  assert (Hon : ∀ v' t', tok' !! job_key w j = Some t' → token_ok v' t' JobStatus.FAILED).
  { intros v' t'. unfold tok'. destruct t; rewrite ?lookup_insert_eq, ?lookup_delete_eq; try done.
    intros [= <-]. by left. }
  unfold spec_fail. set (y := job_st JobStatus.FAILED (job_retry retry x)).
  set (v1 := put_job (job_key w j) y v).
  unfold wf_is. case_bool_decide as Hrun.
  - assert (Ha : active v = true) by (unfold active; by rewrite Hrun).
    set (vf := with_wf _ v1).
    assert (HMf : Mid vf 0 0 popped due tok' []).
    { pose proof (mid_set_failed v 0 0 popped due tok [] HM Ha) as HM1.
      pose proof (mid_put_failed _ 0 0 popped due tok tok' (job_key w j) x y HM1) as HM2.
      simpl in HM2. eapply (mid_tally _ (w_failed (v_wf v)) (w_completed (v_wf v))) in HM2; try done.
      - destruct HM2 as (HC2 & HQ2 & HT2 & HD2). split_and!.
        + apply counts_failed; [done|apply HC2..].
        + by eapply queues_with.
        + eapply tokens_with; [done| |done]. by apply weaker_same.
        + by eapply deps_inactive.
      - intros _. by right.
      - intros _. by right.
      - intros t' Ht'. by apply Hon. }
    pose proof (cancels_inv vf popped due tok' j ids [] HMf) as HMc.
    pose proof (foldl_cancel_wf w j ([], vf) ids) as Ewf.
    destruct (foldl (spec_cancel w j) ([], vf) ids) as [canceled v2]. simpl in HMc, Ewf |- *.
    eapply mid_tally; [by apply HMc|]. unfold active. by rewrite Ewf.
  - destruct (active v) eqn:Ha.
    + assert (Hr : w_status (v_wf v) = WorkflowStatus.READY).
      { unfold active in Ha. by destruct (w_status (v_wf v)). }
      assert (Hpe : jv_status x = JobStatus.PENDING_EXECUTION).
      { destruct (proj2 (c_ready _ _ _ HC Hr) _ _ Hx) as (_ & ? & ?).
        pose proof (token_job _ _ _ _ _ HT Ht Hx) as Hok.
        destruct Hcase as [-> | [-> | ->]]; simpl in Hok; rewrite ?Ha in Hok; naive_solver. }
      simpl. split_and!.
      * apply (counts_fail_ready v _ x y); try done.
      * eapply queues_with; [by eapply (queues_put v _ x y)|done..].
      * eapply (tokens_put v _ (job_key w j) y tok tok'); [done|by apply weaker_same| |done|..]; simpl.
        -- intros k z Hne Hz. by rewrite lookup_insert_ne.
        -- by rewrite lookup_insert_eq.
        -- intros t' Ht'. by apply Hon.
      * eapply deps_with; [eapply (deps_put v _ x y)|..]; try done; unfold job_is; simpl; by rewrite Hpe.
    + simpl. eapply (mid_tally v1 _ _ 0 0); [|done].
      destruct (c_status _ _ _ HC) as [E|[E|[E|E]]]; try (unfold active in Ha; by rewrite E in Ha).
      * split_and!.
        -- eapply counts_inactive; [by unfold active in *|]. apply (counts_put v _ x y 0 0); try done.
           ++ unfold job_is; simpl. by rewrite bool_decide_eq_false_2.
           ++ by rewrite Ha.
        -- eapply (queues_put v _ x y); done.
        -- eapply (tokens_put v _ (job_key w j) y tok tok'); [done|by apply weaker_same| |done|..]; simpl.
           ++ intros k z Hne Hz. by rewrite lookup_insert_ne.
           ++ by rewrite lookup_insert_eq.
           ++ intros t' Ht'. by apply Hon.
        -- eapply deps_inactive; [done..| |done]. simpl. rewrite dom_insert_L.
           apply elem_of_dom_2 in Hx. set_solver.
      * eapply mid_put_failed; try done.
        -- intros _. by right.
        -- intros _. by right.
        -- intros t' Ht'. by apply Hon.
Qed.

Lemma inv_mark v popped due tok k x :
  Mid v 0 0 popped due tok [] → tok !! k = Some TMark → v_jobs v !! k = Some x →
  Mid (put_job k (job_st JobStatus.ABORTED x) v) 0 0 popped due (delete k tok) [].
Proof.
  intros HM Ht Hx. pose proof HM as (HC & HQ & HT & HD).
  pose proof (token_job _ _ _ _ _ HT Ht Hx) as Hok. simpl in Hok.
  assert (jv_status x = JobStatus.FAILED ∨ jv_status x = JobStatus.ABORTED) as Hst by tauto.
  assert (HM' := mid_put v 0 0 popped due tok (delete k tok) k x (job_st JobStatus.ABORTED x) [] HM Hx).
  unfold slot, terminal, dropped, job_is in HM'. simpl in HM'.
  destruct Hst as [E|E]; rewrite E in HM'; simpl in HM'; apply HM'; try done;
    intros k' Hk'; first [by rewrite lookup_delete_ne|by rewrite lookup_delete_eq in Hk'].
Qed.

(** A delayed job leaves the retry handler for the execution queue. *)
Lemma queues_requeue v k p x popped due :
  Queues v popped due → active v = true → v_jobs v !! k = Some x →
  jv_status x = JobStatus.RETRY_DELAY → k ∈ due →
  Queues (spec_queue k p x v) popped (due ∖ {[k]}).
Proof.
  intros [] Ha Hx Hst Hk. unfold spec_queue. split; unfold active, put_job in *; simpl in *.
  - rewrite dom_insert_L. apply elem_of_dom_2 in Hx. set_solver.
  - rewrite dom_insert_L. set_solver.
  - intros _ k' z Hz. look_cases; [|by apply q_waiting0].
    rewrite (q_waiting0 Ha _ _ Hx). by rewrite Hst.
  - intros k' Hk'. look_cases; [by eauto|]. destruct (q_exec0 k' Hk') as (z & ? & ?). eauto.
  - intros _ k' z Hz Hq. look_cases; eauto.
  - intros k' Hk'. look_cases; [|by apply q_popped0].
    destruct (q_exec0 k' (or_intror Hk')) as (z & ? & [E|[E _]]); simplify_eq; congruence.
  - intros k' Hk'. destruct (q_retry0 k') as (z & Hz & Hz'); [set_solver|]. look_cases; [|eauto].
    exfalso. destruct Hk' as [Hk'|Hk']; [|set_solver]. rewrite q_due0 in Hk' by done. by destruct Hk'.
  - intros _ k' z Hz Hd. look_cases. destruct (q_delayed0 Ha k' z Hz Hd); set_solver.
  - set_solver.
Qed.

(** A delayed job leaves the retry handler for the waiting set. *)
Lemma queues_rewait v k p x popped due :
  Queues v popped due → active v = true → v_jobs v !! k = Some x →
  jv_status x = JobStatus.RETRY_DELAY → k ∈ due →
  Queues (with_waiting (<[k := p]> (v_waiting v)) (put_job k (job_st JobStatus.READY x) v))
    popped (due ∖ {[k]}).
Proof.
  intros [] Ha Hx Hst Hk. split; unfold active, put_job in *; simpl in *; try done.
  - rewrite dom_insert_L. apply elem_of_dom_2 in Hx. set_solver.
  - rewrite !dom_insert_L. set_solver.
  - intros _ k' z Hz. look_cases; [|by apply q_waiting0]. split; [done|eauto].
  - intros k' Hk'. destruct (q_exec0 k' Hk') as (z & Hz & Hz'). look_cases; [|eauto].
    destruct Hz' as [E|[E _]]; congruence.
  - intros _ k' z Hz Hq. look_cases. eauto.
  - intros k' Hk'. destruct (q_retry0 k') as (z & Hz & Hz'); [set_solver|]. look_cases; [|eauto].
    exfalso. destruct Hk' as [Hk'|Hk']; [|set_solver]. rewrite q_due0 in Hk' by done. by destruct Hk'.
  - intros _ k' z Hz Hd. look_cases. destruct (q_delayed0 Ha k' z Hz Hd); set_solver.
  - set_solver.
Qed.

Lemma mid_rewait v popped due tok k x p :
  Mid v 0 0 popped due tok [] → active v = true → v_jobs v !! k = Some x →
  jv_status x = JobStatus.RETRY_DELAY → k ∈ due →
  Mid (with_waiting (<[k := p]> (v_waiting v)) (put_job k (job_st JobStatus.READY x) v)) 0 0
    popped (due ∖ {[k]}) tok [].
Proof.
  intros (HC & HQ & HT & HD) Ha Hx Hst Hk. split_and!.
  - eapply counts_with; [apply (counts_put_same v k x)|done..]; try done;
      unfold slot, terminal, dropped, job_is; by rewrite Hst.
  - by apply queues_rewait.
  - eapply (tokens_put v _ k _ tok tok); [done|by apply weaker_same| |done|..]; simpl.
    + intros k' z Hne Hz. by rewrite lookup_insert_ne.
    + by rewrite lookup_insert_eq.
    + intros t Ht. destruct (no_token _ _ _ _ _ HT Hx Ht) as [E _]. by rewrite Hst in E.
  - eapply (deps_with (put_job k (job_st JobStatus.READY x) v)); [|done..].
    apply (deps_put v _ x); auto; unfold job_is; simpl; by rewrite Hst.
Qed.

Lemma mid_forget_due v a b popped due tok r k :
  active v = false → Mid v a b popped due tok r → Mid v a b popped (due ∖ {[k]}) tok r.
Proof.
  intros Ha (HC & HQ & HT & HD). split_and!; try done. destruct HQ. split; try done.
  - intros k' Hk'. apply q_retry0. set_solver.
  - by rewrite Ha.
  - set_solver.
Qed.

Lemma inv_promote_retry v popped due tok j x :
  Mid v 0 0 popped due tok [] → job_key w j ∈ due → v_jobs v !! job_key w j = Some x →
  Mid (spec_promote_retry w j x v).2 0 0 popped (due ∖ {[job_key w j]}) tok [].
Proof.
  intros HM Hk Hx. pose proof HM as (HC & HQ & HT & HD).
  destruct (q_retry _ _ _ HQ _ (or_intror Hk)) as (x' & Hx' & Hst). simplify_eq.
  unfold spec_promote_retry, wf_is. case_bool_decide as Hrun; simpl.
  - assert (Ha : active v = true) by (unfold active; by rewrite Hrun).
    assert (Hrd : jv_status x = JobStatus.RETRY_DELAY) by (destruct Hst as [?|[E _]]; congruence).
    unfold job_is. rewrite Hrd. simpl.
    assert (Hnt : ∀ t, tok !! job_key w j = Some t → False).
    { intros t Ht. destruct (no_token _ _ _ _ _ HT Hx Ht) as [E _]. by rewrite Hrd in E. }
    destruct (Z.leb_spec (w_maxc (v_wf v)) (w_reserved (v_wf v))) as [Hfull|Hroom]; simpl.
    + by apply mid_rewait.
    + destruct (Z.of_nat (size (v_waiting v)) =? 0); simpl.
      * split_and!.
        -- apply counts_queue; auto; lia.
        -- by apply queues_requeue.
        -- eapply (tokens_put v _ (job_key w j) _ tok tok); [done|by apply weaker_same| |done|..]; simpl.
           ++ intros k z Hne Hz. by rewrite lookup_insert_ne.
           ++ by rewrite lookup_insert_eq.
           ++ intros t Ht. by apply Hnt in Ht.
        -- eapply (deps_with (put_job (job_key w j) (job_st JobStatus.QUEUED x) v)); [|done..].
           apply (deps_put v _ x); auto; unfold job_is; simpl; by rewrite Hrd.
      * assert (HM' := mid_rewait v popped due tok (job_key w j) x (jv_prio x) HM Ha Hx Hrd Hk).
        destruct HM' as (HC' & HQ' & HT' & HD'). by apply promote_inv.
  - destruct (c_status _ _ _ HC) as [E|[E|[E|E]]]; [|done|..].
    + destruct (proj2 (c_ready _ _ _ HC E) _ _ Hx) as (? & _). unfold active in Hst. rewrite E in Hst.
      naive_solver.
    + assert (Ha : active v = false) by (unfold active; by rewrite E).
      assert (Hdr : dropped x = true).
      { pose proof (c_done _ _ _ HC E _ _ Hx) as Ht. destruct Hst as [Hst|[_ ?]]; [|done].
        unfold terminal in Ht. by rewrite Hst in Ht. }
      apply mid_forget_due; [done|]. eapply mid_counts; [done|].
      eapply (mid_put v 0 0 popped due tok tok); try done; try (by unfold dropped in Hdr; destruct (jv_status x)).
      * unfold dropped, job_is in *. by destruct (jv_status x).
      * unfold dropped, job_is in *. by destruct (jv_status x).
      * intros t Ht. pose proof (token_job _ _ _ _ _ HT Ht Hx) as Hok. unfold dropped in Hdr.
        destruct t; simpl in Hok |- *; rewrite ?Ha; destruct (jv_status x); naive_solver.
    + assert (Ha : active v = false) by (unfold active; by rewrite E).
      apply mid_forget_due; [done|]. eapply (mid_put_failed v 0 0 popped due tok tok); try done.
      * intros _. by right.
      * intros _. by right.
      * intros t Ht. pose proof (token_job _ _ _ _ _ HT Ht Hx) as Hok. unfold dropped in Hst.
        destruct t; simpl in Hok |- *; rewrite ?Ha; destruct (jv_status x); naive_solver.
Qed.

Lemma step_inv σ σ' : Inv σ → step σ σ' → Inv σ'.
Proof.
  intros HI%inv_mid Hs. apply inv_mid.
  destruct Hs as [k Hk|k x Hk Hx|k Ht|now j x Ht Hx|k t Ht Hcase|k|now j x p Ht Hx|j x retry at_ms Ht Hx
    |j x t retry ids Ht Hcase Hx Hids|k x Ht Hx|k Hk|j x Hk Hx]; simpl.
  - by apply inv_pop.
  - by apply inv_claim.
  - destruct HI as (HC & HQ & HT & HD). destruct (HT k _ Ht) as (x & Hx & Hok). simpl in Hok.
    apply mid_token; [done| |eauto]. intros. simplify_eq. by left.
  - by apply inv_start.
  - pose proof HI as (HC & HQ & HT & HD). destruct (HT k _ Ht) as (x & Hx & Hok). simpl in Hok.
    apply mid_token; [done| |eauto]. intros. simplify_eq.
    destruct Hcase as [->|[->| ->]]; simpl; tauto.
  - by apply mid_token_delete.
  - by apply inv_complete.
  - by apply inv_retry.
  - by apply inv_fail.
  - by apply inv_mark.
  - by apply inv_dequeue_retry.
  - by apply inv_promote_retry.
Qed.

Lemma reachable_inv σ0 σ : Inv σ0 → reachable σ0 σ → Inv σ.
Proof. intros H0. induction 1; [done|]. by eapply step_inv. Qed.

(** ** Consequences *)

(** A job that has been released has only completed predecessors. *)
Lemma released_deps v j x d y :
  Deps v [] → active v = true → v_jobs v !! job_key w j = Some x →
  jv_status x ≠ JobStatus.PENDING → v_jobs v !! job_key w d = Some y →
  j ∈ default [] (succ0 !! d) → jv_status y = JobStatus.COMPLETED.
Proof.
  intros [_ HD] Ha Hx Hne Hy Hj. destruct (HD Ha j x Hx) as (Hin & _ & _).
  destruct (HD Ha d y Hy) as (_ & _ & Hs).
  destruct (job_is JobStatus.COMPLETED y) eqn:Ec; [by apply is_st|]. exfalso.
  destruct (succ0 !! d) as [l|] eqn:El; simpl in Hj; [|by apply not_elem_of_nil in Hj].
  replace (job_is JobStatus.PENDING x) with false in Hin
    by (symmetry; unfold job_is; by apply bool_decide_eq_false).
  change (occ j []) with 0 in Hin.
  pose proof (msum_ge (occ j) (v_succ v) d l) as Hge. unfold indeg in Hin. rewrite Hs in Hge.
  specialize (Hge (λ l, cnt_nonneg _ l) eq_refl).
  pose proof (cnt_pos (String.eqb j) l j Hj (String.eqb_refl j)). unfold occ in *. lia.
Qed.

(** Which queue a job of an active workflow is in. *)
Lemma queues_where v popped due :
  Queues v popped due → active v = true → ∀ k x, v_jobs v !! k = Some x →
  (is_Some (v_waiting v !! k) ↔ jv_status x = JobStatus.READY) ∧
  (is_Some (v_exec v !! k) ↔ jv_status x = JobStatus.QUEUED ∧ k ∉ popped) ∧
  (is_Some (v_retry v !! k) ↔ jv_status x = JobStatus.RETRY_DELAY ∧ k ∉ due).
Proof.
  intros [] Ha k x Hx. split_and!.
  - by apply q_waiting0.
  - split.
    + intros Hin. destruct (q_exec0 k (or_introl Hin)) as (x' & Hx' & [?|[E _]]); [|congruence].
      simplify_eq. split; [done|]. intros Hp%q_popped0. destruct Hin; congruence.
    + intros [Hq Hp]. by destruct (q_queued0 Ha k x Hx Hq).
  - split.
    + intros Hin. destruct (q_retry0 k (or_introl Hin)) as (x' & Hx' & [?|[E _]]); [|congruence].
      simplify_eq. split; [done|]. intros Hp%q_due0. destruct Hin; congruence.
    + intros [Hq Hp]. by destruct (q_delayed0 Ha k x Hx Hq).
Qed.

(** A claimed job can be started, unless its workflow has failed. *)
Lemma start_claimed v j x now a b :
  Counts v a b → v_jobs v !! job_key w j = Some x → jv_status x = JobStatus.PENDING_EXECUTION →
  start_reply (spec_start w now j x v).1 = ["FIRST_TO_START"] ∨
  start_reply (spec_start w now j x v).1 = ["STARTED"] ∨
  start_reply (spec_start w now j x v).1 = ["CANCELED_BY_WORKFLOW_STATE"].
Proof.
  intros HC Hx Hst. unfold spec_start, job_is. rewrite Hst. simpl.
  pose proof (c_status _ _ _ HC) as Hw. pose proof (c_ready _ _ _ HC) as Hr.
  pose proof (c_done _ _ _ HC) as Hd.
  destruct Hw as [E|[E|[E|E]]]; rewrite E; simpl; auto.
  - destruct (Hr E) as [-> _]. simpl. auto.
  - specialize (Hd E _ _ Hx). unfold terminal in Hd. by rewrite Hst in Hd.
Qed.
End system.
