(* ===== verification/Interleaving.v ===== *)
(** * The scripts of one workflow, interleaved on a Redis server

    [cstep] is one atomic action on the keyspace itself: a script of the
    workflow run to completion with the arguments its C++ caller passes, a pop
    from a shared queue, or an action on other workflows ([undisturbed]).
    [cstep_sim] shows that each of them is a step of [WorkflowInv] on the view
    the keyspace represents, so that the invariant holds of the keyspace after
    any interleaving ([creachable_good]). *)

From S2P Require Import Prelude.
From S2P Require Import Prog.
From S2P Require Import RedisServer.
From S2P Require Import Models.
From S2P Require Import RedisKeys.
From S2P Require Import Scripts.
From S2P Require Import WorkflowView.
From S2P Require Import WorkflowSpec.
From S2P Require Import WorkflowInv.

(** The keyspace, and what the keyspace does not show: the jobs popped from the
    execution queue and not claimed since, those taken from the retry queue and
    not promoted since (an actor that drops the job it popped leaves it there),
    and the messages under way. *)
Record csys := mkC {
  c_s : rstate; c_unclaimed : gset string; c_unpromoted : gset string; c_tok : gmap string token }.

Section interleaving.
Context (w : WorkflowIdentity) (J : gset string).

(** Other workflows' actions keep the keys of this one; in the shared queues
    they keep its members.  Time passes. *)
Definition undisturbed (s s' : rstate) : Prop :=
  (∀ k, owned w J k → k ≠ EXECUTION_QUEUE_KEY → k ≠ JOB_RETRY_STREAM_KEY → look s' k = look s k) ∧
  (∀ K, K = EXECUTION_QUEUE_KEY ∨ K = JOB_RETRY_STREAM_KEY →
     ∃ z z', zset_at s K = Some z ∧ zset_at s' K = Some z' ∧ ∀ k, k ∈ J → z' !! k = z !! k).

(** No counter of the workflow is beyond the range in which it is exact. *)
Definition counters_small (s : rstate) : Prop :=
  (∀ h f z, hash_at s (workflow_key w) = Some h →
     f ∈ ["reserved_execution_slots"; "completed_jobs"; "failed_jobs"; "pending_jobs"] →
     h !! f = Some (to_str z) → small z) ∧
  (∀ k h z, k ∈ J → hash_at s k = Some h → h !! "remaining_dependencies" = Some (to_str z) → small z).

Definition start_ok (reply : list string) : bool :=
  bool_decide (reply = ["FIRST_TO_START"]) || bool_decide (reply = ["STARTED"]).

Definition complete_ok (reply : list string) : bool :=
  match reply with r :: _ => String.eqb r "1" | [] => false end.

Inductive cstep (σ : csys) : csys → Prop :=
| cstep_other s' :
    undisturbed (c_s σ) s' → cstep σ (mkC s' (c_unclaimed σ) (c_unpromoted σ) (c_tok σ))
| cstep_pop k p s' :
    run redis_doc (call (BZPOPMAX EXECUTION_QUEUE_KEY)) (c_s σ) = (Some (Some (k, p)), s') →
    k ∈ J → cstep σ (mkC s' ({[k]} ∪ c_unclaimed σ) (c_unpromoted σ) (c_tok σ))
| cstep_claim k scheduler_id reply s' :
    k ∈ c_unclaimed σ → k ∈ J →
    run redis_doc (claim_lua k scheduler_id) (c_s σ) = (Some reply, s') →
    cstep σ (mkC s' (c_unclaimed σ ∖ {[k]}) (c_unpromoted σ)
               (if bool_decide (reply = ["1"]) then <[k := TClaimed]> (c_tok σ) else c_tok σ))
| cstep_payload_missing k :
    c_tok σ !! k = Some TClaimed →
    cstep σ (mkC (c_s σ) (c_unclaimed σ) (c_unpromoted σ) (<[k := TAborted]> (c_tok σ)))
| cstep_start j reply s' :
    c_tok σ !! job_key w j = Some TClaimed → job_key w j ∈ J →
    run redis_doc (try_set_job_to_running_lua (workflow_key w) (job_key w j)) (c_s σ)
      = (Some reply, s') →
    cstep σ (mkC s' (c_unclaimed σ) (c_unpromoted σ)
               (<[job_key w j := if start_ok reply then TStarted else TAborted]> (c_tok σ)))
| cstep_finish k t :
    c_tok σ !! k = Some TStarted → t = TDone ∨ t = TFailed ∨ t = TAborted →
    cstep σ (mkC (c_s σ) (c_unclaimed σ) (c_unpromoted σ) (<[k := t]> (c_tok σ)))
| cstep_lose k :
    cstep σ (mkC (c_s σ) (c_unclaimed σ) (c_unpromoted σ) (delete k (c_tok σ)))
| cstep_complete j now persisted reply s' :
    c_tok σ !! job_key w j = Some TDone → job_key w j ∈ J → counters_small (c_s σ) →
    run redis_doc
      (complete_successful_lua (workflow_key w) (workflow_waiting_jobs_key w) EXECUTION_QUEUE_KEY
         (job_key w j) (successors_key w j) now (job_key w "")) (c_s σ) = (Some reply, s') →
    cstep σ (mkC s' (c_unclaimed σ) (c_unpromoted σ)
               (if complete_ok reply && persisted then delete (job_key w j) (c_tok σ)
                else <[job_key w j := TBroken]> (c_tok σ)))
| cstep_retry j retry at_ms reply s' :
    c_tok σ !! job_key w j = Some TFailed → job_key w j ∈ J → counters_small (c_s σ) →
    run redis_doc
      (schedule_job_retry_lua (workflow_key w) (workflow_waiting_jobs_key w) EXECUTION_QUEUE_KEY
         (job_key w j) JOB_RETRY_STREAM_KEY (to_str retry) at_ms JOB_RETRY_READY_CHANNEL) (c_s σ)
      = (Some reply, s') →
    cstep σ (mkC s' (c_unclaimed σ) (c_unpromoted σ) (delete (job_key w j) (c_tok σ)))
| cstep_fail j t retry ids reply s' :
    c_tok σ !! job_key w j = Some t → t = TFailed ∨ t = TAborted ∨ t = TBroken →
    job_key w j ∈ J → Forall (λ id, job_key w id ∈ J) ids → Z.of_nat (length ids) < 2 ^ 52 →
    counters_small (c_s σ) →
    run redis_doc
      (complete_failed_lua (workflow_key w) (workflow_waiting_jobs_key w) EXECUTION_QUEUE_KEY
         JOB_RETRY_STREAM_KEY (job_key w j) (to_str retry) ((λ id, (id, job_key w id)) <$> ids))
      (c_s σ) = (Some reply, s') →
    cstep σ (mkC s' (c_unclaimed σ) (c_unpromoted σ)
               (match t with
                | TAborted => <[job_key w j := TMark]> (c_tok σ)
                | _ => delete (job_key w j) (c_tok σ)
                end))
| cstep_mark k now n s' :
    c_tok σ !! k = Some TMark → k ∈ J →
    run redis_doc (call (HSET k [("status", st_aborted); ("last_update_time", now)])) (c_s σ)
      = (Some n, s') →
    cstep σ (mkC s' (c_unclaimed σ) (c_unpromoted σ) (delete k (c_tok σ)))
| cstep_dequeue_retry now_ms k s' :
    run redis_doc (dequeue_due_job_retry_lua JOB_RETRY_STREAM_KEY now_ms) (c_s σ) = (Some [k], s') →
    k ∈ J → cstep σ (mkC s' (c_unclaimed σ) ({[k]} ∪ c_unpromoted σ) (c_tok σ))
| cstep_promote_retry j reply s' :
    job_key w j ∈ c_unpromoted σ → job_key w j ∈ J → counters_small (c_s σ) →
    run redis_doc
      (promote_retry_job_lua (workflow_key w) (workflow_waiting_jobs_key w) EXECUTION_QUEUE_KEY
         (job_key w j)) (c_s σ) = (Some reply, s') →
    cstep σ (mkC s' (c_unclaimed σ) (c_unpromoted σ ∖ {[job_key w j]}) (c_tok σ)).

Inductive creachable (σ0 : csys) : csys → Prop :=
| creach_init : creachable σ0 σ0
| creach_step σ σ' : creachable σ0 σ → cstep σ σ' → creachable σ0 σ'.

Context (succ0 : gmap string (list string)).

(** The keyspace represents a view that satisfies the invariant. *)
Definition Good (σ : csys) : Prop :=
  ∃ v, Rep w J (c_s σ) (c_s σ) v ∧ Inv w succ0 (mkSys v (c_unclaimed σ) (c_unpromoted σ) (c_tok σ)).

(** ** Simulation *)

Lemma wp_result {A} (p : lua A) (Q : A → rstate → Prop) s a s' :
  wp redis_doc p Q s → run redis_doc p s = (Some a, s') → Q a s'.
Proof. unfold wp. intros H E. by rewrite E in H. Qed.

Lemma counters_view_ok s v popped due tok :
  Rep w J s s v → Inv w succ0 (mkSys v popped due tok) → counters_small s → view_ok v.
Proof.
  intros HR HI [Hw Hj]. destruct (rep_wf _ _ _ _ _ HR) as (h & Hh & Hf).
  destruct Hf as (_ & ? & _ & _ & ? & ? & ? & _).
  split; try (eapply Hw; [done| |done]; set_solver).
  - intros k x Hx. destruct (rep_job _ _ _ _ _ HR k x Hx) as (h' & Hh' & _ & ? & _).
    eapply Hj; [by eapply rep_in_J|done..].
  - apply HI.
Qed.

Lemma undisturbed_rep s s' v : undisturbed s s' → Rep w J s s v → Rep w J s' s' v.
Proof.
  intros [Hk Hz] HR. pose proof HR as [Hd Hkeys (h & Hh & Hf) Hj Hwt He Hr Hs _ _].
  assert (Hown : ∀ k x, v_jobs v !! k = Some x → look s' k = look s k).
  { intros k x Hx. destruct (rep_job_key _ _ _ _ _ _ _ HR Hx) as [j ->].
    apply Hk; [|key_ne..]. do 4 right. left. by eapply rep_in_J. }
  assert (Hsh : ∀ K z, K = EXECUTION_QUEUE_KEY ∨ K = JOB_RETRY_STREAM_KEY →
    shared_zset J s s K z → shared_zset J s' s' K z).
  { intros K z HK (Hdz & _ & z1 & _ & H1 & HJ & _). split; [done|].
    destruct (Hz K HK) as (y & y' & Hy & Hy' & Hyy). exists y', y'. split_and!; try done.
    intros k HkJ. rewrite Hyy by done. simplify_eq. by apply HJ. }
  split; try done; auto.
  - exists h. split; [|done]. erewrite hash_at_look; [done|]. apply Hk; [by left|key_ne..].
  - intros k x Hx. destruct (Hj k x Hx) as (h' & Hh' & ?). exists h'. split; [|done].
    erewrite hash_at_look; [done|]. by eapply Hown.
  - erewrite zset_at_look; [done|]. apply Hk; [by right; left|key_ne..].
  - intros j HjJ. erewrite list_at_look; [by apply Hs|]. apply Hk; [|key_ne..].
    do 5 right. eauto.
Qed.

Lemma start_ok_reply r : start_ok (start_reply r) = started r.
Proof. by destruct r. Qed.

Lemma complete_ok_reply r : complete_ok (complete_reply w r) = recorded r.
Proof. by destruct r. Qed.

Lemma pop_rep s v k p s' :
  Rep w J s s v → k ∈ J →
  run redis_doc (call (BZPOPMAX EXECUTION_QUEUE_KEY)) s = (Some (Some (k, p)), s') →
  is_Some (v_exec v !! k) ∧ Rep w J s s' (with_exec (delete k (v_exec v)) v).
Proof.
  intros HR Hk. destruct (rep_exec _ _ _ _ _ HR) as (Hd & z0 & z1 & Hz0 & Hz1 & HJ & HN).
  simpl. unfold zpopmax. rewrite Hz1. destruct (zmax z1) as [[k' p']|] eqn:Hm; [|done].
  intros [= -> -> <-]. apply zmax_Some in Hm. split; [rewrite <-HJ by done; eauto|].
  eapply rep_put_exec; [done|done|by apply delete_agree|..].
  - intros k' Hk'. rewrite lookup_delete_ne; [done|]. by intros ->.
  - rewrite dom_delete_L. set_solver.
Qed.

Lemma dequeue_rep s v k now_ms s' :
  Rep w J s s v → k ∈ J →
  run redis_doc (dequeue_due_job_retry_lua JOB_RETRY_STREAM_KEY now_ms) s = (Some [k], s') →
  is_Some (v_retry v !! k) ∧ Rep w J s s' (with_retry (delete k (v_retry v)) v).
Proof.
  intros HR Hk. destruct (rep_retry _ _ _ _ _ HR) as (Hd & z0 & z1 & Hz0 & Hz1 & HJ & HN).
  unfold dequeue_due_job_retry_lua. rewrite run_trigger_bind. simpl. rewrite Hz1.
  destruct (zmin_upto now_ms z1) as [[k' p']|] eqn:Hm; simpl; [|done].
  rewrite Hz1, run_bind. simpl.
  destruct (_ =? 0); simpl; [done|]. intros [= -> <-].
  apply zmin_upto_Some in Hm as [Hm _]. split; [rewrite <-HJ by done; eauto|].
  eapply rep_put_retry; [done|done|by apply delete_agree|..].
  - intros k' Hk'. rewrite lookup_delete_ne; [done|]. by intros ->.
  - rewrite dom_delete_L. set_solver.
Qed.

Lemma cstep_sim σ σ' : Good σ → cstep σ σ' → Good σ'.
Proof.
  intros (v & HR & HI) Hs.
  assert (Hjob : ∀ k, k ∈ J → ∃ x, v_jobs v !! k = Some x).
  { intros k Hk. rewrite <-(rep_dom _ _ _ _ _ HR) in Hk. by apply elem_of_dom in Hk. }
  destruct Hs as [s' Hu|k p s' Hrun Hk|k sid reply s' Hp Hk Hrun|k Ht|j reply s' Ht Hk Hrun|k t Ht Hc|k
    |j now per reply s' Ht Hk Hsm Hrun|j retry at_ms reply s' Ht Hk Hsm Hrun
    |j t retry ids reply s' Ht Hc Hk Hids Hlen Hsm Hrun|k now n s' Ht Hk Hrun|now_ms k s' Hrun Hk
    |j reply s' Hdue Hk Hsm Hrun]; unfold Good;
    cbn [c_s c_unclaimed c_unpromoted c_tok].
  - exists v. split; [by eapply undisturbed_rep|done].
  - destruct (pop_rep _ _ _ _ _ HR Hk Hrun) as [He HR']. eexists. split; [by eapply rep_rebase|].
    by eapply step_inv, (step_pop w (mkSys v _ _ _)).
  - destruct (Hjob k Hk) as [x Hx].
    destruct (wp_result _ _ _ _ _ (claim_refines _ _ _ _ _ _ _ sid HR Hx) Hrun) as [-> HR'].
    eexists. split; [by eapply rep_rebase|].
    pose proof (step_inv _ _ _ _ HI (step_claim w (mkSys v _ _ _) k x Hp Hx)) as HI'. simpl in HI'.
    destruct (spec_claim k x v) as [[] v']; exact HI'.
  - exists v. split; [done|]. by eapply step_inv, (step_payload_missing w (mkSys v _ _ _)).
  - destruct (Hjob _ Hk) as [x Hx].
    destruct (wp_result _ _ _ _ _ (start_refines _ _ _ _ _ _ _ HR Hx) Hrun) as [-> HR'].
    eexists. split; [by eapply rep_rebase|]. rewrite start_ok_reply.
    by eapply step_inv, (step_start w (mkSys v _ _ _)).
  - exists v. split; [done|]. by eapply step_inv, (step_finish w (mkSys v _ _ _)).
  - exists v. split; [done|]. eapply step_inv; [done|]. apply (step_lose w (mkSys v _ _ _)).
  - destruct (Hjob _ Hk) as [x Hx]. pose proof (counters_view_ok _ _ _ _ _ HR HI Hsm) as Hok.
    assert (Hids : Forall (λ id, job_key w id ∈ J) (succ_of v j)).
    { unfold succ_of. destruct (v_succ v !! j) as [l|] eqn:El; [|constructor]. simpl.
      rewrite <-(rep_dom _ _ _ _ _ HR). by eapply (inv_deps _ _ _ HI). }
    destruct (wp_result _ _ _ _ _ (complete_refines _ _ _ _ _ _ _ now HR Hok Hx Hids) Hrun) as [-> HR'].
    eexists. split; [by eapply rep_rebase|]. rewrite complete_ok_reply.
    by eapply step_inv, (step_complete w (mkSys v _ _ _)).
  - destruct (Hjob _ Hk) as [x Hx]. pose proof (counters_view_ok _ _ _ _ _ HR HI Hsm) as Hok.
    destruct (wp_result _ _ _ _ _ (schedule_retry_refines _ _ _ _ _ _ _ retry at_ms JOB_RETRY_READY_CHANNEL HR Hok Hx) Hrun)
      as [-> HR'].
    eexists. split; [by eapply rep_rebase|]. by eapply step_inv, (step_retry w (mkSys v _ _ _)).
  - destruct (Hjob _ Hk) as [x Hx]. pose proof (counters_view_ok _ _ _ _ _ HR HI Hsm) as Hok.
    destruct (wp_result _ _ _ _ _ (fail_refines _ _ _ _ _ _ _ retry ids HR Hok Hx Hids Hlen) Hrun)
      as [-> HR'].
    eexists. split; [by eapply rep_rebase|].
    eapply step_inv, (step_fail w (mkSys v _ _ _)); try done.
    simpl. by rewrite (rep_dom _ _ _ _ _ HR).
  - destruct (Hjob _ Hk) as [x Hx]. exists (put_job k (job_st JobStatus.ABORTED x) v).
    assert (wp redis_doc (call (HSET k [("status", st_aborted); ("last_update_time", now)]))
      (λ _ s'', Rep w J (c_s σ) s'' (put_job k (job_st JobStatus.ABORTED x) v)) (c_s σ)) as Hwp.
    { unfold st_aborted. eapply wp_job_hset with (x := job_st JobStatus.ABORTED x); [done|done|fields_tac|]. intros _ s'' HR''. exact HR''. }
    split; [exact (rep_rebase _ _ _ _ _ (wp_result _ _ _ _ _ Hwp Hrun))|]. by eapply step_inv, (step_mark w (mkSys v _ _ _)).
  - destruct (dequeue_rep _ _ _ _ _ HR Hk Hrun) as [He HR']. eexists. split; [by eapply rep_rebase|].
    by eapply step_inv, (step_dequeue_retry w (mkSys v _ _ _)).
  - destruct (Hjob _ Hk) as [x Hx]. pose proof (counters_view_ok _ _ _ _ _ HR HI Hsm) as Hok.
    destruct (wp_result _ _ _ _ _ (promote_retry_refines _ _ _ _ _ _ _ HR Hok Hx) Hrun) as [-> HR'].
    eexists. split; [by eapply rep_rebase|]. by eapply step_inv, (step_promote_retry w (mkSys v _ _ _)).
Qed.

Lemma creachable_good σ0 σ : Good σ0 → creachable σ0 σ → Good σ.
Proof. intros H0. induction 1; [done|]. by eapply cstep_sim. Qed.
End interleaving.
