(* ===== verification/RedisExec.v ===== *)
(** * Executing Redis commands from C++

    src/redis_command_executor.cpp over the connection of
    src/redis_db_async.cpp.  A coroutine of the Redis layer is a program whose
    events are the round trips it makes ([Execute]) and the readings of the
    system clock ([TimeNow]).  A round trip that throws (a lost connection, an
    error reply) answers [None]; every executor operation catches the exception.

    [world] is a server together with the faults the network has in store: a
    command can be lost before it runs, or its reply lost after it ran. *)

From S2P Require Import Prelude.
From S2P Require Import Prog.
From S2P Require Import RedisServer.
From S2P Require Import Models.
From S2P Require Import RedisKeys.
From S2P Require Import Scripts.

(** include/redis_base.h; an array holds strings, integers printed in decimal
    and anything else as the empty string ([ImplAsync::parse_reply_async]). *)
Inductive RedisReply :=
| Nil | SimpleString (s : string) | Integer (n : Z) | BulkString (s : string)
| Array (l : list string).

(** The reply of a command, as the RESP reader presents it. *)
Definition bulk (v : option string) : RedisReply :=
  match v with Some s => BulkString s | None => Nil end.

Definition reply_of {X} (c : redis_cmd X) : X → RedisReply :=
  match c in redis_cmd X return X → RedisReply with
  | HGET _ _ => bulk
  | HSET _ _ => Integer
  | HGETALL _ => λ h, Array (flatten_fields (map_to_list h))
  | HINCRBY _ _ _ => Integer
  | ZADD _ _ _ => Integer
  | ZADD_NX _ _ => Integer
  | ZREM _ _ => Integer
  | ZPOPMAX _ => λ r, Array match r with Some (m, p) => [m; to_str p] | None => [] end
  | BZPOPMAX k => λ r, match r with Some (m, p) => Array [k; m; to_str p] | None => Nil end
  | ZCARD _ => Integer
  | ZRANGEBYSCORE_FIRST _ _ => λ r, Array match r with Some m => [m] | None => [] end
  | LRANGE_ALL _ => Array
  | RPUSH _ _ => Integer
  | LPOP _ => bulk
  | LLEN _ => Integer
  | DEL _ => Integer
  | EXISTS _ => Integer
  | TYPE _ => SimpleString
  | SET _ _ _ _ => λ ok, if ok then SimpleString "OK" else Nil
  | GET _ => bulk
  | MGET _ => λ l, Array (default "" <$> l)
  | INCR _ => Integer
  | DECR _ => Integer
  | EXPIRE _ _ => Integer
  | SADD _ _ => Integer
  | SREM _ _ => Integer
  | SCARD _ => Integer
  | SMEMBERS _ => λ ms, Array (elements ms)
  | XADD _ _ => BulkString
  | XRANGE_FIRST _ => λ r, Array match r with Some _ => [""] | None => [] end
  | XDEL _ _ => Integer
  | XLEN _ => Integer
  | PUBLISH _ _ => λ _, Integer 0
  | TIME => λ t, Array [to_str t.1; to_str t.2]
  end.

Inductive command :=
| Cmd {X} (c : redis_cmd X)
| Eval (script : lua (list string)).

Inductive redis_ev : Type → Type :=
| Execute (c : command) : redis_ev (option RedisReply)
| TimeNow : redis_ev Z.

Abbreviation redis_prog := (prog redis_ev).
Definition execute (c : command) : redis_prog (option RedisReply) := trigger (Execute c).
Definition time_now : redis_prog Z := trigger TimeNow.

(** ** The executor *)

Definition execute_integer_command_async (c : command) : redis_prog (option Z) :=
  let* reply := execute c in
  Ret match reply with
      | Some (Integer n) => Some n
      | Some (SimpleString s) => stoll s
      | _ => None
      end.

Definition execute_bulk_string_command_async (c : command) : redis_prog (option string) :=
  let* reply := execute c in
  Ret match reply with
      | Some (BulkString s) | Some (SimpleString s) => Some s
      | _ => None
      end.

(** [None]: the result [false], with [values] cleared. *)
Definition execute_lua_script_async (script : lua (list string)) :
  redis_prog (option (list string)) :=
  let* reply := execute (Eval script) in
  Ret match reply with Some (Array l) => Some l | _ => None end.

Definition execute_set_command_async (key value : string) (expire_seconds : Z)
  (only_if_not_exists : bool) : redis_prog bool :=
  let* reply := execute (Cmd (SET key value
      (if only_if_not_exists then SetNX else SetAlways)
      (if 0 <? expire_seconds then ExSec expire_seconds else NoTtl))) in
  Ret match reply with Some (SimpleString s) => String.eqb s "OK" | _ => false end.

Definition execute_hset_command_async (key : string) (fields : list (string * string)) :
  redis_prog bool :=
  match fields with
  | [] => Ret false
  | _ =>
      let* reply := execute (Cmd (HSET key fields)) in
      Ret match reply with Some (Integer _) | Some (SimpleString _) => true | _ => false end
  end.

Definition execute_mget_command_async (keys : list string) : redis_prog (option (list string)) :=
  let* reply := execute (Cmd (MGET keys)) in
  Ret match reply with Some (Array l) => Some l | _ => None end.

Definition execute_list_get_command_async (key : string) : redis_prog (option (list string)) :=
  let* reply := execute (Cmd (LRANGE_ALL key)) in
  Ret match reply with Some (Array l) => Some l | Some Nil => Some [] | _ => None end.

(** [fields[a[i]] = a[i + 1]] for each even [i] with a successor. *)
Fixpoint pair_up (l : list string) : list (string * string) :=
  match l with
  | f :: v :: l' => (f, v) :: pair_up l'
  | _ => []
  end.

Definition execute_hgetall_command_async (key : string) :
  redis_prog (option (gmap string string)) :=
  let* reply := execute (Cmd (HGETALL key)) in
  Ret match reply with
      | Some (Array l) => Some (hset_fields (pair_up l) ∅)
      | _ => None
      end.

Definition execute_list_add_command_async (key : string) (values : list string) :
  redis_prog bool :=
  match values with
  | [] => Ret true
  | _ =>
      let* reply := execute (Cmd (RPUSH key values)) in
      Ret match reply with Some (Integer _) => true | _ => false end
  end.

Definition execute_smembers_command_async (key : string) : redis_prog (option (list string)) :=
  let* reply := execute (Cmd (SMEMBERS key)) in
  Ret match reply with Some (Array l) => Some l | _ => None end.

Definition execute_rpush_command_async (key value : string) : redis_prog bool :=
  let* reply := execute (Cmd (RPUSH key [value])) in
  Ret match reply with Some (Integer _) => true | _ => false end.

(** An empty list is an empty value. *)
Definition execute_lpop_command_async (key : string) : redis_prog (option string) :=
  let* reply := execute (Cmd (LPOP key)) in
  Ret match reply with
      | Some (BulkString s) | Some (SimpleString s) => Some s
      | Some Nil => Some ""
      | _ => None
      end.

Definition execute_list_len_command_async (key : string) : redis_prog (bool * Z) :=
  let* r := execute_integer_command_async (Cmd (LLEN key)) in
  Ret match r with Some length => (true, length) | None => (false, 0) end.

Definition execute_zset_enqueue_command_async (key : string) (members : gmap string Z) :
  redis_prog bool :=
  if decide (members = ∅) then Ret true
  else
    let* reply := execute (Cmd (ZADD_NX key (map_to_list members))) in
    Ret match reply with Some (Integer _) => true | _ => false end.

Definition execute_zset_remove_command_async (key : string) (members : list string) :
  redis_prog bool :=
  match members with
  | [] => Ret true
  | _ =>
      let* reply := execute (Cmd (ZREM key members)) in
      Ret match reply with Some (Integer _) => true | _ => false end
  end.

Definition execute_zset_dequeue_command_async (key : string) : redis_prog (option string) :=
  let* reply := execute (Cmd (ZPOPMAX key)) in
  Ret match reply with
      | Some (Array []) => Some ""
      | Some (Array (m :: _)) => Some m
      | _ => None
      end.

(** The empty string stands for a timeout. *)
Definition execute_zset_blocking_dequeue_command_async (key : string) :
  redis_prog (option string) :=
  let* reply := execute (Cmd (BZPOPMAX key)) in
  Ret match reply with
      | Some (Array []) => Some ""
      | Some (Array (_ :: m :: _)) => Some m
      | Some Nil => Some ""
      | _ => None
      end.

(** ** Worlds *)

Inductive fault := Fine | LostCommand | LostReply.

Record world (R : Type) := mkWorld {
  wd_redis : R; wd_faults : list fault; wd_clock : Z }.
Arguments mkWorld {R} _ _ _.
Arguments wd_redis {R} _.
Arguments wd_faults {R} _.
Arguments wd_clock {R} _.

Section world.
Context {R : Type} `{RedisServer R}.

Definition serve (c : command) (r : R) : option RedisReply * R :=
  match c with
  | @Cmd X c =>
      match redis_exec X c r with
      | (Some x, r') => (Some (reply_of c x), r')
      | (None, r') => (None, r')
      end
  | Eval p =>
      match redis_eval p r with
      | (Some l, r') => (Some (Array l), r')
      | (None, r') => (None, r')
      end
  end.

Definition redis_io : handler redis_ev (world R) := λ X e σ,
  match e in redis_ev X return option X * world R with
  | Execute c =>
      match wd_faults σ with
      | [] | Fine :: _ =>
          let '(reply, r') := serve c (wd_redis σ) in
          (Some reply, mkWorld r' (tail (wd_faults σ)) (wd_clock σ))
      | LostCommand :: fs => (Some None, mkWorld (wd_redis σ) fs (wd_clock σ))
      | LostReply :: fs =>
          (Some None, mkWorld (serve c (wd_redis σ)).2 fs (wd_clock σ))
      end
  | TimeNow => (Some (wd_clock σ), σ)
  end.

(** Whatever the network does, a round trip runs the command or does not. *)
Lemma redis_io_execute c σ :
  ∃ reply r' fs, redis_io _ (Execute c) σ = (Some reply, mkWorld r' fs (wd_clock σ)) ∧
    (r' = wd_redis σ ∧ reply = None ∨ r' = (serve c (wd_redis σ)).2).
Proof.
  simpl. destruct (wd_faults σ) as [|[] fs]; destruct (serve c (wd_redis σ)) as [reply r'] eqn:E;
    simpl; eauto 10.
Qed.

End world.

(** With no fault pending, a script call is a run of the script. *)
Lemma run_lua_script (script : lua (list string)) (s : rstate) clk r s' :
  run redis_doc script s = (Some r, s') →
  run redis_io (execute_lua_script_async script) (mkWorld s [] clk) =
    (Some (Some r), mkWorld s' [] clk).
Proof.
  intros Hrun. unfold execute_lua_script_async, execute. rewrite run_trigger_bind.
  unfold redis_io at 1, serve, redis_eval. cbn [wd_faults wd_redis redis_exec doc_server].
  by rewrite Hrun.
Qed.
