(* ===== verification/Resp.v ===== *)
(** * The Redis wire format

    The connection of src/redis_db_async.cpp ([ImplAsync]): commands are written
    as arrays of bulk strings, replies are read back line by line from the bytes
    that arrive.  [parse_reply] reads from the bytes still unread; the outcome
    says what the coroutine does: it returns ([Got]), throws ([Raised]) or waits
    for bytes that are not there ([Starved]).  [resp] and [encode] are the
    protocol as Redis documents it (RESP2), [wire] the reply of each command.

    The reader inverts both: what a server answers is what [reply_of] says the
    executor sees, byte for byte, and the next reply starts where it ends. *)

From S2P Require Import Prelude.
From S2P Require Import Prog.
From S2P Require Import RedisServer.
From S2P Require Import Models.
From S2P Require Import RedisKeys.
From S2P Require Import Scripts.
From S2P Require Import RedisExec.

Definition CR : ascii := "013".
Definition LF : ascii := "010".
Definition crlf : string := String CR (String LF "").

(** ** Connection strings *)

(** [None] is the result [false]. The arguments hold the values before the call. *)
Definition parse_connection_string (connection_string host port password : string) :
  option (string * string * string) :=
  if starts_with "redis://" connection_string then
    let endpoint := sdrop 8 connection_string in
    let '(endpoint, password) :=
      match str_find "@" endpoint 0 with
      | Some auth_pos =>
          let auth := substr endpoint 0 auth_pos in
          (sdrop (S auth_pos) endpoint,
           match auth with String ":" pw => pw | _ => password end)
      | None => (endpoint, password)
      end in
    match str_find ":" endpoint 0 with
    | None => None
    | Some pos => Some (substr endpoint 0 pos, sdrop (S pos) endpoint, password)
    end
  else
    match str_find ":" connection_string 0 with
    | None => Some (connection_string, port, password)
    | Some pos => Some (substr connection_string 0 pos, sdrop (S pos) connection_string, password)
    end.

(** The host, port and password that [RedisDatabaseAsync::connect] uses. *)
Definition connect_target (connection_string password : string) : option (string * string * string) :=
  if str_empty connection_string then Some ("127.0.0.1", "6379", password)
  else
    '(host, port, auth_password) ←
       parse_connection_string connection_string "127.0.0.1" "6379" password;
    Some (if str_empty host then "127.0.0.1" else host,
          if str_empty port then "6379" else port, auth_password).

(** ** Writing a command *)

Fixpoint write_args (args : list string) : string :=
  match args with
  | [] => ""
  | arg :: args' =>
      String "$" (to_str (Z.of_nat (String.length arg))) +:+ crlf +:+ arg +:+ crlf +:+ write_args args'
  end.

Definition write_command (args : list string) : string :=
  String "*" (to_str (Z.of_nat (length args))) +:+ crlf +:+ write_args args.

(** ** Reading a reply *)

Fixpoint has_crlf (s : string) : bool :=
  match s with
  | String c ((String d _) as s') => (Ascii.eqb c CR && Ascii.eqb d LF) || has_crlf s'
  | _ => false
  end.

(** [std::getline]: up to the first newline, which is dropped. *)
Fixpoint getline (s : string) : string * string :=
  match s with
  | EmptyString => ("", "")
  | String c s' =>
      if Ascii.eqb c LF then ("", s')
      else let '(l, rest) := getline s' in (String c l, rest)
  end.

Fixpoint trim_crlf (line : string) : string :=
  match line with
  | EmptyString => ""
  | String c EmptyString => if Ascii.eqb c CR then "" else line
  | String c line' => String c (trim_crlf line')
  end.

(** [async_read_until] waits for a CR LF; the line ends at the first LF. *)
Definition read_line (buf : string) : option (string * string) :=
  if has_crlf buf then let '(line, rest) := getline buf in Some (trim_crlf line, rest) else None.

Inductive outcome (A : Type) :=
| Got (x : A) (rest : string)
| Raised (rest : string)
| Starved
| OutOfFuel.
Arguments Got {A} x rest.
Arguments Raised {A} rest.
Arguments Starved {A}.
Arguments OutOfFuel {A}.

Definition obind {A B} (o : outcome A) (f : A → string → outcome B) : outcome B :=
  match o with
  | Got x rest => f x rest
  | Raised rest => Raised rest
  | Starved => Starved
  | OutOfFuel => OutOfFuel
  end.

(** An element of an array, as it is appended to [array_value]. *)
Definition element_text (element : RedisReply) : string :=
  match element with
  | BulkString s | SimpleString s => s
  | Integer n => to_str n
  | Nil | Array _ => ""
  end.

Fixpoint read_elements (parse : string → outcome RedisReply) (count : nat) (buf : string) :
  outcome (list string) :=
  match count with
  | O => Got [] buf
  | S count' =>
      obind (parse buf) (λ element rest,
        obind (read_elements parse count' rest) (λ l rest', Got (element_text element :: l) rest'))
  end.

(** The body of a bulk string.  [length + 2] is computed at 32 bits and
    converted to an unsigned size: a negative sum asks for more bytes than can
    arrive.  A negative length is refused by the constructor of the string. *)
Definition read_bulk (length : Z) (rest : string) : outcome RedisReply :=
  let required := to_int32 (length + 2) in
  if (required <? 0) || (Z.of_nat (String.length rest) <? required) then Starved
  else if length <? 0 then Raised rest
  else Got (BulkString (substr rest 0 (Z.to_nat length))) (sdrop (Z.to_nat length + 2) rest).

(** A call per nested array; [parse_reply] has enough fuel for its input. *)
Fixpoint parse_reply_go (fuel : nat) (buf : string) : outcome RedisReply :=
  match fuel with
  | O => OutOfFuel
  | S fuel' =>
      match read_line buf with
      | None => Starved
      | Some (EmptyString, rest) => Raised rest
      | Some (String prefix payload, rest) =>
          match prefix with
          | "+"%char => Got (SimpleString payload) rest
          | "-"%char => Raised rest
          | ":"%char =>
              match stoll payload with
              | Some n => Got (Integer n) rest
              | None => Raised rest
              end
          | "$"%char =>
              match stoi payload with
              | Some length => if length =? -1 then Got Nil rest else read_bulk length rest
              | None => Raised rest
              end
          | "*"%char =>
              match stoi payload with
              | Some count =>
                  if count =? -1 then Got Nil rest
                  else if count <? 0 then Raised rest
                  else obind (read_elements (parse_reply_go fuel') (Z.to_nat count) rest)
                         (λ l rest', Got (Array l) rest')
              | None => Raised rest
              end
          | _ => Raised rest
          end
      end
  end.

Definition parse_reply (buf : string) : outcome RedisReply :=
  parse_reply_go (S (String.length buf)) buf.

(** ** Published messages *)

Definition subscribed_to (channel : string) (r : RedisReply) : bool :=
  match r with
  | Array (a :: b :: _ :: _) => String.eqb a "subscribe" && String.eqb b channel
  | _ => false
  end.

Definition is_message_on (channel : string) (r : RedisReply) : bool :=
  match r with
  | Array (a :: b :: _ :: _) => String.eqb a "message" && String.eqb b channel
  | _ => false
  end.

(** [subscribe_async], after the command was written. *)
Definition subscribe_reply (channel : string) (buf : string) : outcome bool :=
  obind (parse_reply buf) (λ r rest, Got (subscribed_to channel r) rest).

(** The loop reads a reply per round. *)
Fixpoint wait_message (fuel : nat) (channel buf : string) : outcome unit :=
  match fuel with
  | O => OutOfFuel
  | S fuel' =>
      obind (parse_reply buf) (λ r rest,
        if is_message_on channel r then Got tt rest else wait_message fuel' channel rest)
  end.

Definition wait_for_subscribed_pubsub_message (channel buf : string) : outcome unit :=
  wait_message (S (String.length buf)) channel buf.

(** ** The protocol *)

Inductive resp :=
| RSimple (s : string) | RError (s : string) | RInt (n : Z) | RBulk (s : string)
| RNull | RNullArray | RArray (l : list resp).

(** Induction with the hypothesis for every element of an array. *)
Fixpoint resp_nested_ind (P : resp → Prop) (Hs : ∀ s, P (RSimple s)) (He : ∀ s, P (RError s))
  (Hi : ∀ n, P (RInt n)) (Hb : ∀ s, P (RBulk s)) (Hn : P RNull) (Hna : P RNullArray)
  (Ha : ∀ l, Forall P l → P (RArray l)) (v : resp) : P v :=
  match v with
  | RSimple s => Hs s
  | RError s => He s
  | RInt n => Hi n
  | RBulk s => Hb s
  | RNull => Hn
  | RNullArray => Hna
  | RArray l => Ha l ((fix go l : Forall P l :=
      match l with
      | [] => Forall_nil_2 P
      | x :: l' => Forall_cons_2 P x l' (resp_nested_ind P Hs He Hi Hb Hn Hna Ha x) (go l')
      end) l)
  end.

Definition line (prefix : ascii) (s : string) : string := String prefix s +:+ crlf.

Fixpoint encode (v : resp) : string :=
  match v with
  | RSimple s => line "+" s
  | RError s => line "-" s
  | RInt n => line ":" (to_str n)
  | RBulk s => line "$" (to_str (Z.of_nat (String.length s))) +:+ s +:+ crlf
  | RNull => line "$" "-1"
  | RNullArray => line "*" "-1"
  | RArray l => line "*" (to_str (Z.of_nat (length l))) +:+ foldr (λ x acc, encode x +:+ acc) "" l
  end.

Abbreviation encode_all l := (foldr (λ x acc, encode x +:+ acc) "" l).

Definition text_line (s : string) : bool := no_char CR s && no_char LF s.

(** What a server can send: one-line texts, 64-bit integers, bulk strings and
    arrays whose size fits the reader's [int]. *)
Fixpoint wire_ok (v : resp) : bool :=
  match v with
  | RSimple s | RError s => text_line s
  | RInt n => in_int64 n
  | RBulk s => Z.of_nat (String.length s) <=? int_max - 2
  | RNull | RNullArray => true
  | RArray l => (Z.of_nat (length l) <=? int_max) && forallb wire_ok l
  end.

(** What the reader makes of it; [None]: it throws at the first error. *)
Fixpoint present (v : resp) : option RedisReply :=
  match v with
  | RSimple s => Some (SimpleString s)
  | RError _ => None
  | RInt n => Some (Integer n)
  | RBulk s => Some (BulkString s)
  | RNull | RNullArray => Some Nil
  | RArray l =>
      Array <$> foldr (λ x acc,
        match present x, acc with Some r, Some t => Some (element_text r :: t) | _, _ => None end)
        (Some []) l
  end.

Definition present_all (l : list resp) : option (list string) :=
  foldr (λ x acc,
    match present x, acc with Some r, Some t => Some (element_text r :: t) | _, _ => None end)
    (Some []) l.

(** The bytes of [v] that are still unread when the reader has thrown. *)
Fixpoint unread (v : resp) : string :=
  match v with
  | RArray l =>
      (fix go l :=
         match l with
         | [] => ""
         | x :: l' => match present x with
                      | Some _ => go l'
                      | None => unread x +:+ encode_all l'
                      end
         end) l
  | _ => ""
  end.

Fixpoint unread_all (l : list resp) : string :=
  match l with
  | [] => ""
  | x :: l' => match present x with
               | Some _ => unread_all l'
               | None => unread x +:+ encode_all l'
               end
  end.

Fixpoint depth (v : resp) : nat :=
  match v with
  | RArray l => S (foldr (λ x acc, Nat.max (depth x) acc) 0%nat l)
  | _ => 1
  end.

(** ** Lines *)

Lemma has_crlf_app s rest : has_crlf (s +:+ crlf +:+ rest) = true.
Proof.
  induction s as [|c s IH]; [done|]. autorewrite with str.
  destruct (s +:+ crlf +:+ rest) as [|d t] eqn:E; [by destruct s|].
  change (has_crlf (String c (String d t))) with ((Ascii.eqb c CR && Ascii.eqb d LF) || has_crlf (String d t)).
  by rewrite IH, orb_true_r.
Qed.

Lemma getline_app s rest : no_char LF s = true → getline (s +:+ String LF rest) = (s, rest).
Proof.
  induction s as [|c s IH]; [done|]. intros [Hc Hs]%andb_true_iff. autorewrite with str. cbn [getline].
  rewrite IH by done. apply negb_true_iff in Hc. rewrite Ascii.eqb_sym in Hc. by rewrite Hc.
Qed.

Lemma trim_crlf_cr s : trim_crlf (s +:+ String CR "") = s.
Proof.
  induction s as [|c s IH]; [done|]. autorewrite with str. cbn [trim_crlf]. rewrite IH. by destruct s.
Qed.

Lemma read_line_app s rest : text_line s = true → read_line (s +:+ crlf +:+ rest) = Some (s, rest).
Proof.
  intros [_ Hl]%andb_true_iff. unfold read_line. rewrite has_crlf_app.
  change (crlf +:+ rest) with (String CR "" +:+ String LF rest). rewrite <- string_app_assoc.
  rewrite getline_app by (by rewrite no_char_app, Hl). by rewrite trim_crlf_cr.
Qed.

Lemma no_char_pretty_go c x s :
  digit c = None → no_char c s = true → no_char c (pretty_N_go x s) = true.
Proof.
  intros Hc. revert s. induction (N.lt_wf_0 x) as [x _ IH]; intros s Hs.
  destruct (decide (x = 0)%N) as [->|]; [by rewrite pretty_N_go_0|].
  rewrite pretty_N_go_step by lia. apply IH; [by apply N.div_lt; lia|]. cbn [no_char]. rewrite Hs, andb_true_r.
  apply negb_true_iff, Ascii.eqb_neq. intros ->. rewrite digit_pretty_char in Hc by (apply N.mod_lt; lia). done.
Qed.

Lemma no_char_pretty c (n : N) : digit c = None → no_char c (pretty n) = true.
Proof.
  intros Hc. unfold pretty, pretty_N. case_decide; [|by apply no_char_pretty_go].
  cbn. rewrite andb_true_r. apply negb_true_iff, Ascii.eqb_neq. by intros ->.
Qed.

Lemma text_line_to_str z : text_line (to_str z) = true.
Proof.
  unfold text_line. destruct z as [|p|p]; [done|..].
  - change (to_str (Z.pos p)) with (pretty (N.pos p)). by rewrite !no_char_pretty.
  - change (to_str (Z.neg p)) with (String "-" (pretty (N.pos p))). cbn [no_char].
    by rewrite !no_char_pretty.
Qed.

Lemma read_line_line prefix s rest :
  text_line (String prefix s) = true → read_line (line prefix s +:+ rest) = Some (String prefix s, rest).
Proof. intros H. unfold line. rewrite string_app_assoc. by apply read_line_app. Qed.

(** ** Reading back *)

Lemma read_bulk_app s rest :
  Z.of_nat (String.length s) ≤ int_max - 2 →
  read_bulk (Z.of_nat (String.length s)) (s +:+ crlf +:+ rest) = Got (BulkString s) rest.
Proof.
  unfold int_max. intros Hs. unfold read_bulk, to_int32, substr. rewrite !string_length_app.
  change (String.length crlf) with 2%nat. rewrite Z.mod_small, Nat2Z.id by lia.
  rewrite (proj2 (orb_false_iff _ _)); [|split; apply Z.ltb_ge; lia].
  replace (_ <? 0) with false by lia. rewrite substring_prefix. f_equal.
  rewrite <- string_app_assoc.
  replace (String.length s + 2)%nat with (String.length (s +:+ crlf)) by apply string_length_app.
  apply sdrop_app.
Qed.

(** The outcome on the encoding of [v] followed by [rest]. *)
Definition read_as (v : resp) (rest : string) : outcome RedisReply :=
  match present v with
  | Some r => Got r rest
  | None => Raised (unread v +:+ rest)
  end.

Lemma unread_array l : unread (RArray l) = unread_all l.
Proof. done. Qed.

Lemma present_array l : present (RArray l) = Array <$> present_all l.
Proof. done. Qed.

Lemma read_elements_encode parse l rest :
  Forall (λ x, ∀ rest, parse (encode x +:+ rest) = read_as x rest) l →
  read_elements parse (length l) (encode_all l +:+ rest) =
    match present_all l with
    | Some t => Got t rest
    | None => Raised (unread_all l +:+ rest)
    end.
Proof.
  induction 1 as [|x l Hx _ IH]; [done|]. cbn [foldr length read_elements]. rewrite string_app_assoc, Hx.
  unfold read_as. cbn [unread_all]. change (present_all (x :: l)) with
    (match present x, present_all l with Some r, Some t => Some (element_text r :: t) | _, _ => None end).
  destruct (present x); cbn [obind].
  - rewrite IH. by destruct (present_all l).
  - by rewrite string_app_assoc.
Qed.

Lemma parse_encode n v rest :
  wire_ok v = true → (depth v ≤ n)%nat → parse_reply_go n (encode v +:+ rest) = read_as v rest.
Proof.
  revert n rest. induction v as [s|s|i|s| | |l IH] using resp_nested_ind; intros n rest Hok Hn;
    (destruct n as [|n]; [by inversion Hn|]); cbn [encode parse_reply_go wire_ok] in *;
    rewrite ?string_app_assoc.
  - by rewrite read_line_line.
  - by rewrite read_line_line.
  - rewrite read_line_line by apply text_line_to_str. by rewrite stoll_to_str.
  - rewrite read_line_line by apply text_line_to_str. apply Z.leb_le in Hok.
    rewrite stoi_to_str by (unfold in_int, int_min, int_max in *; lia).
    replace (_ =? -1) with false by lia. by rewrite read_bulk_app.
  - by rewrite read_line_line.
  - by rewrite read_line_line.
  - apply andb_true_iff in Hok as [Hl Hok]. apply Z.leb_le in Hl.
    rewrite read_line_line by apply text_line_to_str.
    rewrite stoi_to_str by (unfold in_int, int_min, int_max in *; lia).
    replace (_ =? -1) with false by lia. replace (_ <? 0) with false by lia. rewrite Nat2Z.id.
    rewrite read_elements_encode.
    + unfold read_as. rewrite unread_array, present_array.
      by destruct (present_all l).
    + cbn [depth] in Hn. clear Hl rest. induction IH as [|x l Hx _ IHl]; [constructor|].
      cbn [forallb foldr] in Hok, Hn. apply andb_true_iff in Hok as [Hx' Hl'].
      constructor; [|apply IHl; [done|lia]]. intros rest. apply Hx; [done|lia].
Qed.

Lemma depth_encode v : (depth v ≤ String.length (encode v))%nat.
Proof.
  induction v as [s|s|i|s| | |l IH] using resp_nested_ind; cbn [depth encode]; unfold line;
    rewrite ?string_length_app; cbn [String.length]; try lia.
  enough (foldr (λ x acc, Nat.max (depth x) acc) 0 l ≤ String.length (encode_all l))%nat by lia.
  induction IH as [|x l Hx _ IHl]; cbn [foldr]; [lia|]. rewrite string_length_app. lia.
Qed.

Lemma parse_reply_encode v rest :
  wire_ok v = true → parse_reply (encode v +:+ rest) = read_as v rest.
Proof.
  intros Hok. apply parse_encode; [done|]. pose proof (depth_encode v). rewrite string_length_app. lia.
Qed.

(** ** The fuel is enough *)

Lemma getline_shorter s l rest : getline s = (l, rest) → s = "" ∨ (String.length rest < String.length s)%nat.
Proof.
  revert l. induction s as [|c s IH]; intros l H; [by left|]. right. cbn [getline String.length] in *.
  case_match; [simplify_eq; lia|]. destruct (getline s) as [l' rest'] eqn:E. simplify_eq.
  destruct (IH _ eq_refl) as [->|]; [|lia]. simpl in E. simplify_eq/=. lia.
Qed.

Lemma read_line_shorter buf l rest :
  read_line buf = Some (l, rest) → (String.length rest < String.length buf)%nat.
Proof.
  unfold read_line. intros H. destruct (has_crlf buf) eqn:Hb; [|done].
  destruct (getline buf) as [l' r'] eqn:E. simplify_eq. destruct (getline_shorter _ _ _ E) as [->|]; done.
Qed.

Lemma sdrop_shorter n s : (String.length (sdrop n s) ≤ String.length s)%nat.
Proof. revert s. induction n as [|n IH]; intros [|c s]; cbn; [done..|]. specialize (IH s). lia. Qed.

(** An outcome within the fuel, that leaves no more bytes than there were. *)
Definition settled {A} (n : nat) (o : outcome A) : Prop :=
  match o with
  | Got _ rest | Raised rest => (String.length rest ≤ n)%nat
  | Starved => True
  | OutOfFuel => False
  end.

Lemma settled_le {A} n m (o : outcome A) : (n ≤ m)%nat → settled n o → settled m o.
Proof. destruct o; simpl; lia. Qed.

Lemma settled_bind {A B} n (o : outcome A) (f : A → string → outcome B) :
  settled n o → (∀ x rest, (String.length rest ≤ n)%nat → settled n (f x rest)) → settled n (obind o f).
Proof. destruct o; simpl; auto. Qed.

Lemma read_elements_settled parse n k buf :
  (∀ b, (String.length b ≤ n)%nat → settled (String.length b) (parse b)) →
  (String.length buf ≤ n)%nat → settled (String.length buf) (read_elements parse k buf).
Proof.
  intros Hp. revert buf. induction k as [|k IH]; intros buf Hb; cbn [read_elements]; [by simpl|].
  apply settled_bind; [by apply Hp|]. intros x rest Hr.
  apply settled_bind; [|by simpl]. eapply settled_le; [|apply IH]; lia.
Qed.

Lemma read_bulk_settled z rest : settled (String.length rest) (read_bulk z rest).
Proof. unfold read_bulk. repeat case_match; simpl; try done. apply sdrop_shorter. Qed.

Lemma parse_reply_settled n buf :
  (String.length buf < n)%nat → settled (String.length buf) (parse_reply_go n buf).
Proof.
  revert buf. induction n as [|n IH]; intros buf Hn; [lia|]. cbn [parse_reply_go].
  destruct (read_line buf) as [[l rest]|] eqn:E; [|done]. apply read_line_shorter in E.
  eapply settled_le with (String.length rest); [lia|].
  destruct l as [|c p]; [by simpl|]. repeat case_match; try by simpl.
  - apply settled_bind; [|by simpl]. apply read_elements_settled with (String.length rest); [|done].
    intros buf' Hb. apply IH. lia.
  - apply read_bulk_settled.
Qed.

(** ** What the executor sees *)

Definition bulk_array (l : list string) : resp := RArray (RBulk <$> l).
Definition bulk_or_null (v : option string) : resp :=
  match v with Some s => RBulk s | None => RNull end.

(** The reply of each command, as Redis documents it. *)
Definition wire {X} (c : redis_cmd X) : X → resp :=
  match c in redis_cmd X return X → resp with
  | HGET _ _ => bulk_or_null
  | HSET _ _ => RInt
  | HGETALL _ => λ h, bulk_array (flatten_fields (map_to_list h))
  | HINCRBY _ _ _ => RInt
  | ZADD _ _ _ => RInt
  | ZADD_NX _ _ => RInt
  | ZREM _ _ => RInt
  | ZPOPMAX _ => λ r, bulk_array match r with Some (m, p) => [m; to_str p] | None => [] end
  | BZPOPMAX k => λ r,
      match r with Some (m, p) => bulk_array [k; m; to_str p] | None => RNullArray end
  | ZCARD _ => RInt
  | ZRANGEBYSCORE_FIRST _ _ => λ r, bulk_array match r with Some m => [m] | None => [] end
  | LRANGE_ALL _ => bulk_array
  | RPUSH _ _ => RInt
  | LPOP _ => bulk_or_null
  | LLEN _ => RInt
  | DEL _ => RInt
  | EXISTS _ => RInt
  | TYPE _ => RSimple
  | SET _ _ _ _ => λ ok, if ok then RSimple "OK" else RNull
  | GET _ => bulk_or_null
  | MGET _ => λ l, RArray (bulk_or_null <$> l)
  | INCR _ => RInt
  | DECR _ => RInt
  | EXPIRE _ _ => RInt
  | SADD _ _ => RInt
  | SREM _ _ => RInt
  | SCARD _ => RInt
  | SMEMBERS _ => λ ms, bulk_array (elements ms)
  | XADD _ _ => RBulk
  | XRANGE_FIRST _ => λ r, RArray
      match r with
      | Some (id, fields) => [RArray [RBulk id; bulk_array (flatten_fields fields)]]
      | None => []
      end
  | XDEL _ _ => RInt
  | XLEN _ => RInt
  | PUBLISH _ _ => λ _, RInt 0
  | TIME => λ t, bulk_array [to_str t.1; to_str t.2]
  end.

Lemma present_bulk_array l : present (bulk_array l) = Some (Array l).
Proof.
  unfold bulk_array. rewrite present_array. apply fmap_Some. exists l. split; [|done].
  induction l as [|s l IH]; [done|]. unfold present_all in *. cbn [fmap list_fmap foldr present].
  by rewrite IH.
Qed.

Lemma present_mget l : present (RArray (bulk_or_null <$> l)) = Some (Array (default "" <$> l)).
Proof.
  rewrite present_array. apply fmap_Some. eexists. split; [|done].
  induction l as [|s l IH]; [done|]. unfold present_all in *. cbn [fmap list_fmap foldr].
  rewrite IH. by destruct s.
Qed.

(** A stream entry, nested in the reply, is read and dropped. *)
Lemma present_entry id l :
  present (RArray [RArray [RBulk id; bulk_array l]]) = Some (Array [""]).
Proof.
  rewrite !present_array. unfold present_all. cbn [foldr]. rewrite present_array. unfold present_all.
  cbn [foldr]. by rewrite present_bulk_array.
Qed.

(** [reply_of] is what the reader makes of the documented reply. *)
Lemma present_wire {X} (c : redis_cmd X) (x : X) : present (wire c x) = Some (reply_of c x).
Proof.
  destruct c; cbn [wire reply_of]; try done.
  all: try apply present_bulk_array; try apply present_mget; destruct x as [[]|] || destruct x;
    apply present_bulk_array || apply present_entry || done.
Qed.

Lemma write_args_encode args : write_args args = encode_all (RBulk <$> args).
Proof.
  induction args as [|a args IH]; [done|]. cbn [write_args fmap list_fmap foldr encode]. unfold line.
  by rewrite IH, !string_app_assoc.
Qed.

(** A command is the encoding of the array of its words. *)
Lemma write_command_encode args : write_command args = encode (bulk_array args).
Proof.
  unfold write_command, bulk_array. cbn [encode]. unfold line.
  by rewrite write_args_encode, length_fmap, !string_app_assoc.
Qed.

(** Words and word counts that a command can have. *)
Definition command_ok (args : list string) : bool :=
  (Z.of_nat (length args) <=? int_max) &&
  forallb (λ a, Z.of_nat (String.length a) <=? int_max - 2) args.

Lemma wire_ok_bulk_array args : wire_ok (bulk_array args) = command_ok args.
Proof.
  unfold bulk_array, command_ok. cbn [wire_ok]. rewrite length_fmap. f_equal.
  induction args as [|a args IH]; [done|]. cbn [fmap list_fmap forallb wire_ok]. by rewrite IH.
Qed.

(** Reading a command back gives its words, whatever bytes they contain. *)
Lemma parse_write_command args rest :
  command_ok args = true → parse_reply (write_command args +:+ rest) = Got (Array args) rest.
Proof.
  intros Hok. rewrite write_command_encode, parse_reply_encode by (by rewrite wire_ok_bulk_array).
  unfold read_as. by rewrite present_bulk_array.
Qed.

Lemma parse_wire {X} (c : redis_cmd X) (x : X) rest :
  wire_ok (wire c x) = true → parse_reply (encode (wire c x) +:+ rest) = Got (reply_of c x) rest.
Proof. intros Hok. rewrite parse_reply_encode by done. unfold read_as. by rewrite present_wire. Qed.

(** ** Waiting for a message *)

Definition pubsub_push (kind channel payload : string) : resp := bulk_array [kind; channel; payload].

(** A push that is not a message on [channel]. *)
Definition other_push (channel : string) (v : resp) : bool :=
  wire_ok v && match present v with Some r => negb (is_message_on channel r) | None => false end.

Lemma encode_length v : (0 < String.length (encode v))%nat.
Proof. destruct v; cbn [encode]; unfold line; rewrite ?string_length_app; cbn [String.length]; lia. Qed.

Lemma wait_message_skips n channel others payload rest :
  Forall (λ v, other_push channel v = true) others →
  command_ok ["message"; channel; payload] = true →
  (String.length (encode_all others) < n)%nat →
  wait_message n channel (encode_all others +:+ encode (pubsub_push "message" channel payload) +:+ rest) = Got tt rest.
Proof.
  intros Ho Hm. revert n. induction Ho as [|v others Hv _ IH]; intros n Hn;
    (destruct n as [|n]; [lia|]); cbn [foldr wait_message].
  - rewrite string_app_nil, parse_reply_encode by (unfold pubsub_push; by rewrite wire_ok_bulk_array).
    unfold read_as, pubsub_push. rewrite present_bulk_array. cbn [obind is_message_on].
    by rewrite !String.eqb_refl.
  - apply andb_true_iff in Hv as [Hok Hv]. rewrite string_app_assoc, parse_reply_encode by done.
    unfold read_as. destruct (present v) as [r|]; [|done]. cbn [obind]. apply negb_true_iff in Hv.
    rewrite Hv. apply IH. cbn [foldr] in Hn. rewrite string_length_app in Hn.
    pose proof (encode_length v). lia.
Qed.

(** ** Connection strings *)

Lemma parse_connection_uri pw host port h0 p0 pw0 :
  no_char "@" pw = true → no_char ":" host = true →
  parse_connection_string ("redis://:" +:+ pw +:+ String "@" host +:+ String ":" port) h0 p0 pw0 =
    Some (host, port, pw).
Proof.
  intros Hpw Hhost. unfold parse_connection_string.
  set (s := pw +:+ _). change ("redis://:" +:+ s) with ("redis://" +:+ String ":" s).
  unfold starts_with. rewrite prefix_app. change 8%nat with (String.length "redis://"). rewrite sdrop_app.
  subst s. rewrite string_app_cons. change (String ":" (pw +:+ ?x)) with (String ":" pw +:+ x).
  assert (no_char "@" (String ":" pw) = true) as Hp by done.
  set (tl := host +:+ String ":" port).
  change (String ":" (pw +:+ String "@" tl)) with (String ":" pw +:+ String "@" tl).
  rewrite str_find_first by done. unfold substr.
  rewrite substring_prefix. replace (S (String.length (String ":" pw)))
    with (String.length (String ":" pw +:+ "@")) by (rewrite string_length_app; simpl; lia).
  replace (String ":" pw +:+ String "@" tl) with ((String ":" pw +:+ "@") +:+ tl)
    by (by rewrite string_app_assoc).
  rewrite sdrop_app. unfold tl. rewrite str_find_first, substring_prefix by done.
  replace (S (String.length host)) with (String.length (host +:+ ":")) by (rewrite string_length_app; simpl; lia).
  replace (host +:+ String ":" port) with ((host +:+ ":") +:+ port) by (by rewrite string_app_assoc).
  by rewrite sdrop_app.
Qed.
