(* ===== verification/RedisRuntime.v ===== *)
(** * The Redis runtime store

    The operations of [RedisDatabaseAsync] (src/redis_db_async_workflow.cpp,
    src/redis_db_async_jobs.cpp, src/redis_db_async_execution_queue.cpp,
    src/redis_db_async_retry.cpp, src/redis_db_async_completion.cpp,
    src/redis_db_async.cpp) as coroutines over [RedisExec].  An output parameter
    is part of the result; a pair of the result [true] with outputs is [Some],
    [false] is [None], where the outputs are not read after [false]. *)

From S2P Require Import Prelude.
From S2P Require Import Prog.
From S2P Require Import RedisServer.
From S2P Require Import Models.
From S2P Require Import RedisKeys.
From S2P Require Import Scripts.
From S2P Require Import RedisExec.


(** ** Workflow runtime: redis_db_async_workflow.cpp *)

Definition try_acquire_job_slot_async (w : WorkflowIdentity) : redis_prog (bool * string) :=
  let* values := execute_lua_script_async (try_acquire_job_slot_lua (workflow_key w)) in
  Ret match values with
      | Some [r; status] => (String.eqb r "1", status)
      | _ => (false, WorkflowStatus.to_string WorkflowStatus.UNKNOWN)
      end.

Definition workflow_runtime_fields (creation_time : string) (d : WorkflowRuntimeData) :
  list (string * string) :=
  [ ("status", wr_status d);
    ("total_jobs", to_str (wr_total_jobs d));
    ("max_concurrent_jobs", to_str (wr_max_concurrent_jobs d));
    ("reserved_execution_slots", to_str (wr_reserved_execution_slots d));
    ("pending_jobs", to_str (wr_pending_jobs d));
    ("completed_jobs", to_str 0);
    ("failed_jobs", to_str 0);
    ("max_run_time", to_str (wr_max_runtime_sec d));
    ("creation_time", creation_time);
    ("start_run_time", "");
    ("last_update_time", creation_time) ].

Definition set_workflow_runtime_async (w : WorkflowIdentity) (d : WorkflowRuntimeData) :
  redis_prog bool :=
  let* now := time_now in
  execute_hset_command_async (workflow_key w) (workflow_runtime_fields (to_str now) d).

Definition delete_workflow_runtime_async (w : WorkflowIdentity) : redis_prog bool :=
  let* value := execute_integer_command_async (Cmd (DEL (workflow_key w))) in
  Ret match value with Some n => 0 <? n | None => false end.

Definition update_workflow_runtime_async (w : WorkflowIdentity)
  (fields : list (string * string)) : redis_prog bool :=
  let* values := execute_lua_script_async
    (update_workflow_runtime_lua (workflow_key w) fields) in
  Ret match values with Some (r :: _) => String.eqb r "1" | _ => false end.

(** [Some workflow_completed]. *)
Definition increment_completed_jobs_and_complete_workflow_if_ready_async
  (w : WorkflowIdentity) (last_update_time : string) : redis_prog (option bool) :=
  let* values := execute_lua_script_async
    (increment_completed_jobs_lua (workflow_key w) last_update_time) in
  Ret match values with
      | Some (r :: _) => if String.eqb r "-1" then None else Some (String.eqb r "1")
      | _ => None
      end.

(** [(ready_job_ids, promoted_job_id, workflow_completed)]. *)
Definition complete_successful_job_runtime_async (w : WorkflowIdentity)
  (completed_job_id last_update_time : string) :
  redis_prog (option (list string * string * bool)) :=
  let* values := execute_lua_script_async
    (complete_successful_lua (workflow_key w) (workflow_waiting_jobs_key w) EXECUTION_QUEUE_KEY
       (job_key w completed_job_id) (successors_key w completed_job_id) last_update_time
       (job_key w "")) in
  Ret match values with
      | Some (r :: completed :: promoted_job_id :: count :: ready) =>
          if String.eqb r "-1" || negb (String.eqb r "1") then None
          else
            match stoul count with
            | None => None
            | Some ready_count =>
                if negb (Z.of_nat (length ready) =? ready_count) then None
                else
                  let ready_job_ids :=
                    if str_empty promoted_job_id then ready
                    else List.filter (λ id, negb (String.eqb id promoted_job_id)) ready in
                  Some (ready_job_ids, promoted_job_id, String.eqb completed "1")
            end
      | _ => None
      end.

(** [(canceled_job_ids, workflow_failed, workflow_completed)]. *)
Definition complete_failed_job_runtime_async (w : WorkflowIdentity) (failed_job_id : string)
  (updated_retry_count : Z) (workflow_job_ids : list string) :
  redis_prog (option (list string * bool * bool)) :=
  let* values := execute_lua_script_async
    (complete_failed_lua (workflow_key w) (workflow_waiting_jobs_key w) EXECUTION_QUEUE_KEY
       JOB_RETRY_STREAM_KEY (job_key w failed_job_id) (to_str updated_retry_count)
       ((λ id, (id, job_key w id)) <$> workflow_job_ids)) in
  Ret match values with
      | Some (r :: failed :: completed :: count :: canceled) =>
          if negb (String.eqb r "1") then None
          else
            match stoul count with
            | None => None
            | Some canceled_count =>
                if negb (Z.of_nat (length canceled) =? canceled_count) then None
                else Some (canceled, String.eqb failed "1", String.eqb completed "1")
            end
      | _ => None
      end.

Definition fetch_workflow_runtime_async (w : WorkflowIdentity) :
  redis_prog (option (gmap string string)) :=
  execute_hgetall_command_async (workflow_key w).

(** [members[job_key] = priority] for each job; the value is an [unsigned int], so
    a negative priority becomes a score of 2^31 or more. *)
Definition prioritized_members (w : WorkflowIdentity) (jobs : list PrioritizedJob) :
  gmap string Z :=
  foldl (λ m j, <[job_key w (pj_job_id j) := pj_priority j mod 2 ^ 32]> m) ∅ jobs.

Definition create_workflow_waiting_ready_jobs (w : WorkflowIdentity)
  (ready_jobs : list PrioritizedJob) : redis_prog bool :=
  execute_zset_enqueue_command_async (workflow_waiting_jobs_key w)
    (prioritized_members w ready_jobs).

Definition delete_workflow_waiting_ready_jobs (w : WorkflowIdentity) : redis_prog bool :=
  let* value := execute_integer_command_async (Cmd (DEL (workflow_waiting_jobs_key w))) in
  Ret (bool_decide (is_Some value)).

(** ** Jobs: redis_db_async_jobs.cpp *)

Definition job_runtime_fields (d : JobRuntimeData) : list (string * string) :=
  [ ("status", jr_status d);
    ("remaining_dependencies", to_str (jr_remaining_dependencies d));
    ("priority", to_str (jr_priority d));
    ("timeout_sec", to_str (jr_timeout_sec d));
    ("max_retries", to_str (jr_max_retries d));
    ("current_retry_count", to_str (jr_current_retry_count d));
    ("retry_delay_sec", to_str (jr_retry_delay_sec d));
    ("retry_backoff_policy", jr_retry_backoff_policy d);
    ("payload_size_bytes", to_str (jr_payload_size_bytes d));
    ("owned_by", "");
    ("start_run_time", "") ].

Definition set_job_runtime_async (w : WorkflowIdentity) (d : JobRuntimeData) : redis_prog bool :=
  let* ok := execute_hset_command_async (job_key w (jr_job_id d)) (job_runtime_fields d) in
  if negb ok then Ret false
  else
    match jr_successors d with
    | [] => Ret true
    | _ => execute_list_add_command_async (successors_key w (jr_job_id d)) (jr_successors d)
    end.

Definition update_job_runtime_async (w : WorkflowIdentity) (job_id : string)
  (fields : list (string * string)) : redis_prog bool :=
  match fields with
  | [] => Ret true
  | _ => execute_hset_command_async (job_key w job_id) fields
  end.

(** [stoi(fields.at(name))]: a missing field or a number that does not parse
    throws, which makes the whole fetch fail. *)
Definition at_int (h : gmap string string) (f : string) : option Z := h !! f ≫= stoi.

Definition parse_job_runtime (job_id : string) (h : gmap string string) :
  option JobRuntimeData :=
  status ← h !! "status";
  remaining_dependencies ← at_int h "remaining_dependencies";
  priority ← at_int h "priority";
  timeout_sec ← at_int h "timeout_sec";
  let start_run_time := default 0 (h !! "start_run_time" ≫= stoll) in
  max_retries ← at_int h "max_retries";
  current_retry_count ← at_int h "current_retry_count";
  retry_delay_sec ← at_int h "retry_delay_sec";
  retry_backoff_policy ← h !! "retry_backoff_policy";
  payload_size_bytes ← (match h !! "payload_size_bytes" with
                        | None => Some 0 | Some v => stoi v end);
  Some (mkJobRuntimeData 0 job_id "" status remaining_dependencies priority timeout_sec
          start_run_time max_retries current_retry_count retry_delay_sec payload_size_bytes
          retry_backoff_policy []).

Definition fetch_job_runtime_async (w : WorkflowIdentity) (job_id : string) :
  redis_prog (option JobRuntimeData) :=
  let* fields := execute_hgetall_command_async (job_key w job_id) in
  Ret match fields with
      | None => None
      | Some h => if decide (h = ∅) then None else parse_job_runtime job_id h
      end.

(** The [bool] is the coroutine's result. *)
Definition try_set_job_to_running_async (w : WorkflowIdentity) (job_id : string) :
  redis_prog (bool * StartJobResult.t) :=
  let* values := execute_lua_script_async
    (try_set_job_to_running_lua (workflow_key w) (job_key w job_id)) in
  Ret match values with
      | Some [r] =>
          if String.eqb r "FIRST_TO_START" then (true, StartJobResult.FIRST_TO_START)
          else if String.eqb r "STARTED" then (true, StartJobResult.STARTED)
          else
            (false,
             if String.eqb r "CANCELED_BY_WORKFLOW_STATE"
             then StartJobResult.CANCELED_BY_WORKFLOW_STATE
             else if String.eqb r "ALREADY_CANCELED" then StartJobResult.ALREADY_CANCELED
             else if String.eqb r "INVARIANT_VIOLATION_JOB_STATUS"
             then StartJobResult.INVARIANT_VIOLATION_JOB_STATUS
             else if String.eqb r "INVARIANT_VIOLATION_WORKFLOW_STATUS"
             then StartJobResult.INVARIANT_VIOLATION_WORKFLOW_STATUS
             else if String.eqb r "INVARIANT_VIOLATION_WORKFLOW_TIME"
             then StartJobResult.INVARIANT_VIOLATION_WORKFLOW_TIME
             else StartJobResult.INTERNAL_ERROR)
      | _ => (false, StartJobResult.INTERNAL_ERROR)
      end.

(** A payload is a byte string. *)
Definition set_job_payload_async (w : WorkflowIdentity) (job_id payload : string) :
  redis_prog bool :=
  execute_set_command_async (payload_key w job_id) payload 0 false.

Definition fetch_job_payload_async (w : WorkflowIdentity) (job_id : string) :
  redis_prog (option string) :=
  execute_bulk_string_command_async (Cmd (GET (payload_key w job_id))).

Definition delete_all_workflow_jobs_async (w : WorkflowIdentity) (jobs : list JobRuntimeData) :
  redis_prog bool :=
  pfold (λ _ d,
    execute_integer_command_async (Cmd (DEL (job_key w (jr_job_id d)))) ;;
    execute_zset_remove_command_async JOB_RETRY_STREAM_KEY [job_key w (jr_job_id d)] ;;
    execute_integer_command_async (Cmd (DEL (successors_key w (jr_job_id d)))) ;;
    Ret tt) jobs tt ;;
  Ret true.

Definition delete_job_payload_async (w : WorkflowIdentity) (job_id : string) : redis_prog bool :=
  execute_integer_command_async (Cmd (DEL (payload_key w job_id))) ;;
  Ret true.

Definition delete_all_jobs_payload_async (w : WorkflowIdentity) (job_ids : list string) :
  redis_prog bool :=
  pfold (λ _ job_id,
    execute_integer_command_async (Cmd (DEL (payload_key w job_id))) ;; Ret tt) job_ids tt ;;
  Ret true.

(** ** Creation and deletion of the whole runtime: redis_db_async_workflow.cpp *)

(** The loop over the jobs stops at the first one that cannot be stored. *)
Fixpoint set_all_jobs (w : WorkflowIdentity) (jobs : list JobRuntimeData) : redis_prog bool :=
  match jobs with
  | [] => Ret true
  | d :: jobs' =>
      let* ok := set_job_runtime_async w d in
      if ok then set_all_jobs w jobs' else Ret false
  end.

Definition create_workflow_runtime_data_async (info : WorkflowRuntimeInfo) : redis_prog bool :=
  let w := ri_identity info in
  let* ok := set_workflow_runtime_async w (ri_workflow info) in
  if negb ok then delete_workflow_runtime_async w ;; Ret false
  else
    let* ok := set_all_jobs w (ri_jobs info) in
    if negb ok then
      delete_all_workflow_jobs_async w (ri_jobs info) ;;
      delete_workflow_runtime_async w ;;
      Ret false
    else
      let* ok :=
        (match ri_ready_job_list info with
         | [] => Ret true
         | _ => create_workflow_waiting_ready_jobs w (ri_ready_job_list info)
         end) in
      if negb ok then
        delete_all_workflow_jobs_async w (ri_jobs info) ;;
        delete_workflow_runtime_async w ;;
        Ret false
      else Ret true.

Definition delete_workflow_runtime_data_async (info : WorkflowRuntimeInfo) : redis_prog bool :=
  let w := ri_identity info in
  let* jobs_deleted := delete_all_workflow_jobs_async w (ri_jobs info) in
  let* workflow_deleted := delete_workflow_runtime_async w in
  let* waiting_deleted := delete_workflow_waiting_ready_jobs w in
  Ret (jobs_deleted && workflow_deleted && waiting_deleted).

(** ** Execution queue: redis_db_async_execution_queue.cpp *)

Definition queue_workflow_jobs_for_execution_async (w : WorkflowIdentity)
  (queued_jobs : list PrioritizedJob) : redis_prog bool :=
  let members := prioritized_members w queued_jobs in
  if decide (members = ∅) then Ret true
  else execute_zset_enqueue_command_async EXECUTION_QUEUE_KEY members.

Definition remove_jobs_from_execution_queue_async (w : WorkflowIdentity)
  (queued_jobs : list PrioritizedJob) : redis_prog bool :=
  execute_zset_remove_command_async EXECUTION_QUEUE_KEY
    ((λ j, job_key w (pj_job_id j)) <$> queued_jobs).

(** The promoted key in a script reply [{1, key}], as a job id. *)
Definition promoted_id (w : WorkflowIdentity) (values : option (list string)) : option string :=
  match values with
  | Some (r :: rest) =>
      if negb (String.eqb r "1") then None
      else
        match rest with
        | k :: _ =>
            if str_empty k then Some ""
            else if negb (starts_with (job_key w "") k) then None
            else Some (sdrop (String.length (job_key w "")) k)
        | [] => Some ""
        end
  | _ => None
  end.

Definition release_execution_slot_and_promote_ready_job_async (w : WorkflowIdentity) :
  redis_prog (option string) :=
  let* values := execute_lua_script_async
    (release_execution_slot_lua (workflow_key w) (workflow_waiting_jobs_key w)
       EXECUTION_QUEUE_KEY) in
  Ret (promoted_id w values).

Definition enqueue_job_for_execution_async (w : WorkflowIdentity) (ready_job : PrioritizedJob) :
  redis_prog bool :=
  execute_zset_enqueue_command_async EXECUTION_QUEUE_KEY
    {[ job_key w (pj_job_id ready_job) := pj_priority ready_job mod 2 ^ 32 ]}.

Definition clear_execution_queue_async : redis_prog unit :=
  execute_integer_command_async (Cmd (DEL EXECUTION_QUEUE_KEY)) ;;
  Ret tt.

Definition get_execution_queue_size_async : redis_prog (bool * Z) :=
  let* queue_type := execute_bulk_string_command_async (Cmd (TYPE EXECUTION_QUEUE_KEY)) in
  match queue_type with
  | None => Ret (false, 0)
  | Some t =>
      if String.eqb t "none" then Ret (true, 0)
      else if negb (String.eqb t "zset") then Ret (false, 0)
      else
        let* size := execute_integer_command_async (Cmd (ZCARD EXECUTION_QUEUE_KEY)) in
        Ret match size with Some n => (true, n) | None => (false, 0) end
  end.

(** ** Retries: redis_db_async_retry.cpp *)

Definition schedule_job_retry_async (w : WorkflowIdentity) (job_id : string)
  (updated_retry_count retry_at_ms : Z) : redis_prog (option string) :=
  let* values := execute_lua_script_async
    (schedule_job_retry_lua (workflow_key w) (workflow_waiting_jobs_key w) EXECUTION_QUEUE_KEY
       (job_key w job_id) JOB_RETRY_STREAM_KEY (to_str updated_retry_count) retry_at_ms
       JOB_RETRY_READY_CHANNEL) in
  Ret (promoted_id w values).

(** [Some None]: nothing is due. *)
Definition dequeue_due_job_retry_async (now_ms : Z) : redis_prog (option (option JobRetryData)) :=
  let* values := execute_lua_script_async
    (dequeue_due_job_retry_lua JOB_RETRY_STREAM_KEY now_ms) in
  Ret match values with
      | None => None
      | Some [] => Some None
      | Some [k] => match parse_job_key k with Some d => Some (Some d) | None => None end
      | Some _ => None
      end.

Definition promote_retry_job_async (w : WorkflowIdentity) (job_id : string) :
  redis_prog (option string) :=
  let* values := execute_lua_script_async
    (promote_retry_job_lua (workflow_key w) (workflow_waiting_jobs_key w) EXECUTION_QUEUE_KEY
       (job_key w job_id)) in
  Ret (promoted_id w values).

(** ** Completion stream: redis_db_async_completion.cpp *)

Definition enqueue_job_completion_async (message : JobCompletionData) : redis_prog bool :=
  let* values := execute_lua_script_async
    (enqueue_job_completion_lua JOB_COMPLETION_STREAM_KEY
       (client_id (jc_identity message)) (workflow_id (jc_identity message)) (jc_job_id message)
       (JobStatus.to_string (jc_status message))
       (to_str (StatusCodes.to_int (jc_error_code message))) JOB_COMPLETION_READY_CHANNEL) in
  Ret match values with Some [id] => negb (str_empty id) | _ => false end.

Definition parse_completion (values : list string) : option JobCompletionData :=
  match values with
  | [] => Some default_completion
  | id :: rest =>
      if (length values <? 11)%nat then None
      else
        let fields := hset_fields (pair_up rest) ∅ in
        let get f := default "" (fields !! f) in
        let parsed := mkJobCompletionData id (mkIdentity (get "client_id") (get "workflow_id"))
          (get "job_id") (JobStatus.from_string (get "status"))
          (StatusCodes.from_string (get "error_code")) in
        if str_empty (client_id (jc_identity parsed)) || str_empty (workflow_id (jc_identity parsed))
           || str_empty (jc_job_id parsed)
           || bool_decide (jc_status parsed = JobStatus.UNKNOWN)
        then None else Some parsed
  end.

Definition dequeue_job_completion_async : redis_prog (option JobCompletionData) :=
  let* values := execute_lua_script_async (dequeue_job_completion_lua JOB_COMPLETION_STREAM_KEY) in
  Ret match values with Some l => parse_completion l | None => None end.

(** ** Scheduling: redis_db_async.cpp *)

(** One round of the loop of [blocking_dequeue_job_for_execution_async]:
    [None] ends the loop with [false], [Some None] is [continue]. *)
Definition dequeue_round (scheduler_id : string) : redis_prog (option (option JobRetryData)) :=
  let* key := execute_zset_blocking_dequeue_command_async EXECUTION_QUEUE_KEY in
  match key with
  | None => Ret None
  | Some ready_job_key =>
      if str_empty ready_job_key then Ret None
      else
        let* job_type := execute_bulk_string_command_async (Cmd (TYPE ready_job_key)) in
        match job_type with
        | None => Ret None
        | Some t =>
            if negb (String.eqb t "hash") then Ret (Some None)
            else
              match parse_job_key ready_job_key with
              | None => Ret (Some None)
              | Some job =>
                  let* claim_values := execute_lua_script_async
                    (claim_lua ready_job_key scheduler_id) in
                  match claim_values with
                  | Some [r] => if String.eqb r "1" then Ret (Some (Some job)) else Ret (Some None)
                  | _ => Ret None
                  end
              end
        end
  end.

(** The loop runs until the queue is empty, which the fuel bounds by the number
    of rounds; [None] when the fuel runs out. *)
Fixpoint blocking_dequeue_job_for_execution_async (fuel : nat) (scheduler_id : string) :
  redis_prog (option (option JobRetryData)) :=
  if str_empty scheduler_id then Ret (Some None)
  else
    match fuel with
    | O => Ret None
    | S fuel' =>
        let* round := dequeue_round scheduler_id in
        match round with
        | None => Ret (Some None)
        | Some None => blocking_dequeue_job_for_execution_async fuel' scheduler_id
        | Some (Some job) => Ret (Some (Some job))
        end
    end.
