(* ===== verification/Dequeue.v ===== *)
(** * Taking a job from the execution queue

    The loop of [blocking_dequeue_job_for_execution_async]
    (src/src/redis_db_async.cpp) on any server, over a network that may lose
    commands and replies: a round that goes on has taken an entry off the
    queue, so the loop ends after at most one round more than there are
    entries, and a job it returns has been claimed. *)

From S2P Require Import Prelude.
From S2P Require Import Prog.
From S2P Require Import RedisServer.
From S2P Require Import Models.
From S2P Require Import RedisKeys.
From S2P Require Import Scripts.
From S2P Require Import RedisExec.
From S2P Require Import RedisRuntime.

(** ** A parsed key is the key of what it parses to *)

Lemma str_find_some c s e :
  str_find c s 0 = Some e → s = substr s 0 e +:+ String c (sdrop (S e) s) ∧ String.length (substr s 0 e) = e.
Proof.
  unfold str_find, substr. revert e. induction s as [|d s IH]; intros e H; [done|].
  cbn [String.index] in H. destruct (String.prefix (String c "") (String d s)) eqn:Ep.
  - injection H as <-. simpl in Ep. destruct (Ascii.ascii_dec c d) as [->|]; done.
  - destruct (String.index 0 (String c "") s) as [e'|]; [|done]. injection H as <-.
    destruct (IH e' eq_refl) as [Hs Hl]. cbn [String.substring sdrop String.length]. autorewrite with str.
    split; [by f_equal|by rewrite Hl].
Qed.

Lemma parse_job_key_inv k d :
  parse_job_key k = Some d → k = job_key (rt_identity d) (rt_job_id d).
Proof.
  unfold parse_job_key. cbn zeta. destruct (starts_with "fp:job:" k) eqn:Ep; [|done].
  apply prefix_inv in Ep as [s ->]. cbn [negb]. rewrite str_find_skip.
  destruct (str_find ":" s 0) as [e1|] eqn:E1; [|done]. cbn [fmap option_fmap option_map].
  apply str_find_some in E1 as [Hs Hl1]. set (cid := substr s 0 e1) in *. set (s1 := sdrop (S e1) s) in *.
  assert ("fp:job:" +:+ s = ("fp:job:" +:+ cid +:+ ":") +:+ s1) as Ek
    by (rewrite Hs at 1; by rewrite !string_app_assoc).
  assert (S (String.length "fp:job:" + e1) = String.length ("fp:job:" +:+ cid +:+ ":")) as El1
    by (rewrite !string_length_app, Hl1; simpl; lia).
  rewrite El1, Ek, str_find_skip. destruct (str_find ":" s1 0) as [e2|] eqn:E2; [|done].
  cbn [fmap option_fmap option_map]. apply str_find_some in E2 as [Hs1 Hl2].
  set (wid := substr s1 0 e2) in *. set (s2 := sdrop (S e2) s1) in *.
  set (pre := "fp:job:" +:+ cid +:+ ":") in *.
  assert (pre +:+ s1 = (pre +:+ wid +:+ ":") +:+ s2) as Ek2
    by (rewrite Hs1 at 1; by rewrite !string_app_assoc).
  assert (substr (pre +:+ s1) (String.length "fp:job:") (String.length "fp:job:" + e1 - String.length "fp:job:") = cid)
    as ->.
  { replace (String.length "fp:job:" + e1 - String.length "fp:job:")%nat with (String.length cid) by lia.
    unfold pre. rewrite !string_app_assoc. unfold substr. by rewrite substring_app_r, substring_prefix. }
  assert (substr (pre +:+ s1) (String.length pre) (String.length pre + e2 - String.length pre) = wid) as ->.
  { replace (String.length pre + e2 - String.length pre)%nat with e2 by lia. unfold substr.
    by rewrite substring_app_r. }
  assert (sdrop (S (String.length pre + e2)) (pre +:+ s1) = s2) as ->.
  { replace (S (String.length pre + e2)) with (String.length (pre +:+ wid +:+ ":"))
      by (rewrite !string_length_app, Hl2; simpl; lia).
    by rewrite Ek2, sdrop_app. }
  destruct (_ && _); [|done]. intros [= <-]. cbn [rt_identity rt_job_id]. unfold job_key.
  cbn [client_id workflow_id]. rewrite Ek2. unfold pre. by rewrite !string_app_assoc.
Qed.

(** ** A round *)

(** The entries of the execution queue. *)
Definition entries (s : rstate) : nat :=
  match zset_at s EXECUTION_QUEUE_KEY with Some z => size z | None => 0 end.

Lemma entries_zpopmax s m p s' :
  zpopmax EXECUTION_QUEUE_KEY s = (Some (Some (m, p)), s') → entries s = S (entries s').
Proof.
  unfold zpopmax, entries. destruct (zset_at s EXECUTION_QUEUE_KEY) as [z|] eqn:Ez; [|done].
  destruct (zmax z) as [[m' p']|] eqn:Em; [|done]. intros [= <- <- <-].
  apply zmax_Some in Em. rewrite zset_at_put. rewrite map_size_delete_Some by done.
  assert (size z ≠ 0%nat); [|lia]. intros ->%map_size_empty_inv. by rewrite lookup_empty in Em.
Qed.

Lemma claim_frame k sid k' s x s' :
  k ≠ k' → run redis_doc (claim_lua k sid) s = (x, s') → look s' k' = look s k'.
Proof.
  intros Hk. unfold claim_lua. rewrite run_trigger_bind. cbn [redis_doc].
  destruct (hash_at s k) as [h|] eqn:Eh; [|by intros [= <- <-]].
  destruct (_ && _); [by intros [= <- <-]|]. rewrite run_trigger_bind. cbn [redis_doc]. rewrite Eh.
  intros [= <- <-]. by rewrite look_put_ne.
Qed.

(** What a successful claim leaves in the job's record. *)
Definition claimed (k sid : string) (s : rstate) : Prop :=
  ∃ h, hash_at s k = Some h ∧ h !! "owned_by" = Some sid ∧ h !! "status" = Some st_pending_execution.

Lemma claim_claims k sid s l s' :
  run redis_doc (claim_lua k sid) s = (Some l, s') → l = ["1"] → claimed k sid s'.
Proof.
  unfold claim_lua. rewrite run_trigger_bind. cbn [redis_doc].
  destruct (hash_at s k) as [h|] eqn:Eh; [|done].
  destruct (_ && _); [by intros [= <- <-]|]. rewrite run_trigger_bind. cbn [redis_doc]. rewrite Eh.
  intros [= <- <-] _. eexists. split; [by rewrite hash_at_put|]. unfold hset_fields. cbn [foldl fst snd].
  split; [rewrite lookup_insert_ne by done|]; by rewrite lookup_insert_eq.
Qed.

(** On a hash the claim answers. *)
Lemma claim_answers k sid s h x s' :
  hash_at s k = Some h → run redis_doc (claim_lua k sid) s = (x, s') → x = Some ["0"] ∨ x = Some ["1"].
Proof.
  intros Eh. unfold claim_lua. rewrite run_trigger_bind. cbn [redis_doc]. rewrite Eh.
  destruct (_ && _); [intros [= <- <-]; by left|]. rewrite run_trigger_bind. cbn [redis_doc]. rewrite Eh.
  intros [= <- <-]. by right.
Qed.

Section server.
Context {R : Type} `{RedisServer R}.
Implicit Types σ : world R.

Definition keys_of σ : rstate := redis_state (wd_redis σ).

(** A round trip: the reply of the server, or none if the network fails. *)
Lemma wp_execute_any c σ (Q : option RedisReply → world R → Prop) :
  (∀ reply σ',
     (reply = None ∧ wd_faults σ ≠ []) ∨ (reply, wd_redis σ') = serve c (wd_redis σ) →
     (wd_faults σ = [] → wd_faults σ' = []) → Q reply σ') →
  wp redis_io (execute c) Q σ.
Proof.
  intros HQ. unfold wp, execute. cbn [run trigger redis_io].
  destruct (wd_faults σ) as [|[] fs]; try destruct (serve c (wd_redis σ)) as [reply r'] eqn:E;
    apply HQ; cbn [wd_faults wd_redis tail]; first [by left|by right|done].
Qed.

(** A served command did what is documented. *)
Lemma serve_cmd {X} (c : redis_cmd X) σ reply r' :
  (reply, r') = serve (Cmd c) (wd_redis σ) →
  ∃ x, reply = reply_of c <$> x ∧ redis_doc X c (keys_of σ) = (x, redis_state r').
Proof.
  unfold keys_of. cbn [serve]. pose proof (redis_documented X c (wd_redis σ)) as D.
  destruct (redis_exec X c (wd_redis σ)) as [[x|] r1]; intros [= -> ->]; [exists (Some x)|exists None]; done.
Qed.

Lemma serve_eval p σ reply r' :
  (reply, r') = serve (Eval p) (wd_redis σ) →
  ∃ x, reply = Array <$> x ∧ run redis_doc p (keys_of σ) = (x, redis_state r').
Proof.
  unfold keys_of. cbn [serve]. pose proof (redis_eval_doc p (wd_redis σ)) as D.
  destruct (redis_eval p (wd_redis σ)) as [[l|] r1]; intros [= -> ->]; [exists (Some l)|exists None]; done.
Qed.

(** No fault is pending and the queue is a sorted set of keys. *)
Definition orderly σ : Prop :=
  wd_faults σ = [] ∧ ∃ z, zset_at (keys_of σ) EXECUTION_QUEUE_KEY = Some z ∧ z !! "" = None.

(** A round that goes on, or returns a job, took an entry off the queue; a job
    it returns is claimed.  An orderly round gives up only on an empty queue. *)
Definition round_done (sid : string) σ0 (r : option (option JobRetryData)) σ : Prop :=
  match r with
  | None => orderly σ0 → keys_of σ = keys_of σ0 ∧ entries (keys_of σ0) = 0%nat
  | Some None => (entries (keys_of σ) < entries (keys_of σ0))%nat ∧ (orderly σ0 → orderly σ)
  | Some (Some job) =>
      (entries (keys_of σ) < entries (keys_of σ0))%nat ∧
      claimed (job_key (rt_identity job) (rt_job_id job)) sid (keys_of σ)
  end.

(** The first command of a round. *)
Lemma pop_wp σ :
  wp redis_io (execute_zset_blocking_dequeue_command_async EXECUTION_QUEUE_KEY) (λ k σ',
    match k with
    | Some k => if str_empty k then orderly σ → keys_of σ' = keys_of σ ∧ entries (keys_of σ) = 0%nat
                else entries (keys_of σ) = S (entries (keys_of σ')) ∧ (orderly σ → orderly σ')
    | None => ¬ orderly σ
    end) σ.
Proof.
  unfold execute_zset_blocking_dequeue_command_async. apply wp_bind, wp_execute_any. intros reply σ1 Hr Hf.
  apply wp_ret. destruct Hr as [[-> Hn]|(x & -> & Hx)%serve_cmd]; [by intros [? _]|].
  cbn [redis_doc] in Hx. pose proof Hx as Hpop. unfold zpopmax in Hx. unfold orderly, entries.
  destruct (zset_at (keys_of σ) EXECUTION_QUEUE_KEY) as [z|] eqn:Ez.
  2:{ injection Hx as <- _. cbn. naive_solver. }
  destruct (zmax z) as [[m p]|] eqn:Em; injection Hx as <- Hs; cbn [fmap option_fmap option_map reply_of].
  - destruct (str_empty m) eqn:E.
    + destruct m; [|done]. apply zmax_Some in Em. naive_solver congruence.
    + change (redis_state (wd_redis σ1)) with (keys_of σ1) in Hs. rewrite <- Hs, zset_at_put. split.
      * apply entries_zpopmax in Hpop. unfold entries in Hpop. rewrite Ez in Hpop.
        change (redis_state (wd_redis σ1)) with (keys_of σ1) in Hpop. by rewrite <- Hs, zset_at_put in Hpop.
      * intros (? & z' & [= <-] & Hz). split; [auto|]. eexists. split; [done|].
        destruct (decide (m = "")) as [->|]; [by rewrite lookup_delete_eq|by rewrite lookup_delete_ne].
  - intros _. apply zmax_None in Em as ->. split; [done|by rewrite map_size_empty].
Qed.

(** The last commands of a round, once a key [k] was taken in [σ1]. *)
Lemma type_wp k σ1 (Q : option string → world R → Prop) :
  (∀ t σ2, keys_of σ2 = keys_of σ1 → (orderly σ1 → orderly σ2) →
     (t = "hash" → ∃ h, hash_at (keys_of σ1) k = Some h) → Q (Some t) σ2) →
  (∀ σ2, ¬ orderly σ1 → Q None σ2) →
  wp redis_io (execute_bulk_string_command_async (Cmd (TYPE k))) Q σ1.
Proof.
  intros HS HN. unfold execute_bulk_string_command_async. apply wp_bind, wp_execute_any. intros reply σ2 Hr Hf.
  apply wp_ret. destruct Hr as [[-> Hn]|(x & -> & Hx)%serve_cmd]; [apply HN; by intros [? _]|].
  cbn [redis_doc] in Hx. injection Hx as <- Hs. change (redis_state (wd_redis σ2)) with (keys_of σ2) in Hs.
  apply HS; [done| |].
  - unfold orderly. rewrite Hs. intros [? ?]. auto.
  - unfold hash_at. destruct (look (keys_of σ1) k) as [[]|]; try done; eauto.
Qed.

Lemma claim_wp k sid σ2 (Q : option (list string) → world R → Prop) :
  (∀ l σ3, (k ≠ EXECUTION_QUEUE_KEY → look (keys_of σ3) EXECUTION_QUEUE_KEY = look (keys_of σ2) EXECUTION_QUEUE_KEY) →
     (wd_faults σ2 = [] → wd_faults σ3 = []) →
     (∀ h, hash_at (keys_of σ2) k = Some h → l = ["0"] ∨ l = ["1"]) →
     (l = ["1"] → claimed k sid (keys_of σ3)) → Q (Some l) σ3) →
  (∀ h σ3, hash_at (keys_of σ2) k = Some h → ¬ orderly σ2 → Q None σ3) →
  (∃ h, hash_at (keys_of σ2) k = Some h) →
  wp redis_io (execute_lua_script_async (claim_lua k sid)) Q σ2.
Proof.
  intros HS HN [h Hh]. unfold execute_lua_script_async. apply wp_bind, wp_execute_any. intros reply σ3 Hr Hf.
  apply wp_ret. destruct Hr as [[-> Hn]|(x & -> & Hx)%serve_eval]; [apply (HN h); [done|by intros [? _]]|].
  change (redis_state (wd_redis σ3)) with (keys_of σ3) in Hx.
  pose proof (claim_answers _ _ _ _ _ _ Hh Hx) as Ha. destruct x as [l|]; [|naive_solver]. cbn.
  apply HS; [|done| |].
  - intros Hk. by eapply claim_frame.
  - naive_solver.
  - intros El. by eapply claim_claims.
Qed.

Lemma dequeue_round_wp sid σ : wp redis_io (dequeue_round sid) (round_done sid σ) σ.
Proof.
  unfold dequeue_round. apply wp_bind. eapply wp_mono; [|apply pop_wp]. intros [k|] σ1; cbn beta iota.
  2:{ intros Hn. apply wp_ret. cbn. tauto. }
  destruct (str_empty k) eqn:Ek; [intros He; by apply wp_ret|]. intros [He Ho]. apply wp_bind, type_wp.
  2:{ intros σ2 Hn. apply wp_ret. cbn. tauto. }
  intros t σ2 Hs Ho2 Ht. cbn beta iota. destruct (String.eqb_spec t "hash") as [->|]; cbn [negb].
  2:{ apply wp_ret. cbn. rewrite Hs. split; [lia|auto]. }
  destruct (parse_job_key k) as [job|] eqn:Ej.
  2:{ apply wp_ret. cbn. rewrite Hs. split; [lia|auto]. }
  assert (k ≠ EXECUTION_QUEUE_KEY) as Hk by (intros ->; by vm_compute in Ej).
  apply wp_bind, claim_wp.
  3:{ rewrite Hs. auto. }
  2:{ intros h σ3 _ Hn. apply wp_ret. cbn. tauto. }
  intros l σ3 Hl Hf Ha Hc. specialize (Hl Hk). destruct (Ht eq_refl) as [h Hh].
  assert (zset_at (keys_of σ3) EXECUTION_QUEUE_KEY = zset_at (keys_of σ2) EXECUTION_QUEUE_KEY) as Hz
    by by apply zset_at_look.
  assert (entries (keys_of σ3) < entries (keys_of σ))%nat as Hlt
    by (rewrite He; unfold entries; rewrite Hz, Hs; lia).
  rewrite Hs in Ha. destruct (Ha h Hh) as [-> | ->]; apply wp_ret; cbn [round_done].
  - split; [done|]. intros Hor. destruct (Ho2 (Ho Hor)) as [? ?]. split; [auto|by rewrite Hz].
  - split; [done|]. apply parse_job_key_inv in Ej as <-. auto.
Qed.

(** The loop returns within as many rounds as there are entries, and one. *)
Lemma blocking_dequeue_wp fuel sid σ :
  (entries (keys_of σ) < fuel)%nat →
  wp redis_io (blocking_dequeue_job_for_execution_async fuel sid) (λ r σ',
    match r with
    | None => False
    | Some None => sid ≠ "" → orderly σ → entries (keys_of σ') = 0%nat
    | Some (Some job) =>
        sid ≠ "" ∧ (entries (keys_of σ') < entries (keys_of σ))%nat ∧
        claimed (job_key (rt_identity job) (rt_job_id job)) sid (keys_of σ')
    end) σ.
Proof.
  revert σ. induction fuel as [|fuel IH]; intros σ Hf; [lia|]. cbn [blocking_dequeue_job_for_execution_async].
  destruct (str_empty sid) eqn:E; [apply wp_ret; by destruct sid|].
  apply wp_bind. eapply wp_mono; [|apply dequeue_round_wp]. intros [[job|]|] σ1; cbn [round_done]; cbn beta iota.
  - intros [? ?]. apply wp_ret. split_and!; [by intros ->|done|done].
  - intros [Hlt Ho]. eapply wp_mono; [|apply IH; lia]. intros [[job|]|] σ2; [|tauto|done].
    intros (? & ? & ?). split_and!; [done|lia|done].
  - intros He. apply wp_ret. intros _ Hor. by destruct (He Hor) as [-> ?].
Qed.
End server.
