(* ===== verification/Json.v ===== *)
(** * JSON values

    The operations of the JSON library the program applies to a parsed request.
    [None] is the exception the accessor throws on a value of the wrong type.
    Numbers are integers: the request schema declares no other numeric field
    that the program reads. *)

From S2P Require Import Prelude.

Inductive json :=
| JNull
| JBool (b : bool)
| JInt (z : Z)
| JStr (s : string)
| JArr (l : list json)
| JObj (fields : list (string * json)).

Fixpoint jlookup (k : string) (fields : list (string * json)) : option json :=
  match fields with
  | [] => None
  | (k', v) :: fields' => if String.eqb k k' then Some v else jlookup k fields'
  end.

(** [j.contains(k)] with the value found. *)
Definition jfield (k : string) (j : json) : option json :=
  match j with JObj fields => jlookup k fields | _ => None end.

(** [j[k].get<std::string>()]. *)
Definition jstr (j : json) : option string :=
  match j with JStr s => Some s | _ => None end.

(** [j.value(k, d)]: the default when the key is missing; an exception when [j]
    is no object. *)
Definition jvalue (k : string) (d : json) (j : json) : option json :=
  match j with JObj fields => Some (default d (jlookup k fields)) | _ => None end.

Definition jvalue_str (k d : string) (j : json) : option string :=
  v ← jvalue k (JStr d) j; jstr v.

(** [get<int>()]: a number is narrowed to 32 bits, a boolean is 0 or 1. *)
Definition jint (j : json) : option Z :=
  match j with
  | JInt z => Some (to_int32 z)
  | JBool b => Some (if b then 1 else 0)
  | _ => None
  end.
Definition jvalue_int (k : string) (d : Z) (j : json) : option Z :=
  v ← jvalue k (JInt d) j; jint v.

(** [for (const auto& x : j)] and [j.size()]. *)
Definition jitems (j : json) : list json :=
  match j with
  | JNull => []
  | JArr l => l
  | JObj fields => fields.*2
  | _ => [j]
  end.
Definition jsize (j : json) : Z := Z.of_nat (length (jitems j)).

(** [data["jobs"]] on the root object; a missing key is [null] for the
    non-constant access and excluded by the schema. *)
Definition jobs_of (data : json) : list json := jitems (default JNull (jfield "jobs" data)).

(** [get<std::vector<uint8_t>>()]: an array of numbers, each narrowed to a
    byte. *)
Fixpoint jbytes_list (l : list json) : option string :=
  match l with
  | [] => Some ""
  | x :: l' =>
      b ← jint x;
      rest ← jbytes_list l';
      Some (String (ascii_of_N (Z.to_N (b mod 256))) rest)
  end.
Definition jbytes (j : json) : option string :=
  match j with JArr l => jbytes_list l | _ => None end.
