(* ===== verification/Validation.v ===== *)
(** * Workflow validation

    src/workflow_admission_service.cpp: the policy checks, the semantic checks
    and the dependency check by Kahn's algorithm.

    The order in which an [std::unordered_map] or [std::unordered_set] is
    iterated is unspecified: it is a parameter, indexed by the site of the loop
    ([HashOrder]), about which only the documented fact is assumed that each
    element is visited once.  [job.dump().size()] is a parameter too.

    [Ok] is the result [true], [Rejected c] the result [false] with
    [rejection_reason = c], [Raised] an exception of the JSON library. *)

From S2P Require Import Prelude.
From S2P Require Import Models.
From S2P Require Import Json.

Class HashOrder := {
  order : string → gset string → list string;
  order_perm : ∀ site X, order site X ≡ₚ elements X
}.

(** The order of stdpp's finite sets is one such order. *)
#[global, program] Instance elements_order : HashOrder := {| order := λ _ X, elements X |}.
Next Obligation. done. Qed.

Inductive checked (A : Type) := Ok (a : A) | Rejected (c : StatusCodes.t) | Raised.
Arguments Ok {A} a.
Arguments Rejected {A} c.
Arguments Raised {A}.

Definition cbind {A B} (m : checked A) (f : A → checked B) : checked B :=
  match m with Ok a => f a | Rejected c => Rejected c | Raised => Raised end.

Definition get {A B} (o : option A) (f : A → checked B) : checked B :=
  match o with Some a => f a | None => Raised end.

(** ** Policy *)

Section policy.
Context (dump_size : json → Z).

(** The comparison is between unsigned 64-bit numbers: a negative limit admits
    every size. *)
Fixpoint check_job_sizes (jobs : list json) (max_job_size_bytes : Z) : checked unit :=
  match jobs with
  | [] => Ok tt
  | job :: jobs' =>
      if max_job_size_bytes mod 2 ^ 64 <? dump_size job then
        get (jfield "job_id" job ≫= jstr) (λ _, Rejected StatusCodes.JOB_SIZE_EXCEEDED)
      else check_job_sizes jobs' max_job_size_bytes
  end.

Definition validate_admission_client_workflow_policy (workflow_data : json) (p : PolicyPlan) :
  checked unit :=
  let job_count := to_int32 (Z.of_nat (length (jobs_of workflow_data))) in
  if pp_max_jobs_in_workflow p <? job_count then Rejected StatusCodes.JOB_COUNT_EXCEEDED
  else if job_count =? 0 then Rejected StatusCodes.JOB_COUNT_ZERO
  else check_job_sizes (jobs_of workflow_data) (pp_max_job_size_bytes p).
End policy.

(** A limit that is an [int] and not negative is what is compared with. *)
Lemma check_job_sizes_spec dump_size jobs limit :
  0 ≤ limit ≤ int_max → Forall (λ job, is_Some (jfield "job_id" job ≫= jstr)) jobs →
  match check_job_sizes dump_size jobs limit with
  | Ok _ => Forall (λ job, dump_size job ≤ limit) jobs
  | Rejected c => c = StatusCodes.JOB_SIZE_EXCEEDED ∧ Exists (λ job, limit < dump_size job) jobs
  | Raised => False
  end.
Proof.
  intros Hl. induction 1 as [|job jobs Hj Hf IH]; simpl; [constructor|].
  rewrite Z.mod_small by (unfold int_max in Hl; lia).
  destruct (Z.ltb_spec limit (dump_size job)).
  - destruct Hj as [id ->]. simpl. split; [done|by left].
  - destruct (check_job_sizes dump_size jobs limit) as [[]|c|]; [by constructor|split; [by apply IH|by right; apply IH]|done].
Qed.

(** ** Semantics: unique job ids, unique dependencies *)

Record DagData := mkDag {
  dag_dependencies : gset string; dag_incoming : gset string; dag_outgoing : gset string }.

Definition new_dag (deps : gset string) : DagData := mkDag deps ∅ ∅.

(** The dependency set of one job; a repeated name is rejected. *)
Fixpoint collect_dependencies (deps : list json) (acc : gset string) : checked (gset string) :=
  match deps with
  | [] => Ok acc
  | dep :: deps' =>
      get (jstr dep) (λ d,
        if decide (d ∈ acc) then Rejected StatusCodes.DUPLICATE_DEPENDENCY
        else collect_dependencies deps' ({[d]} ∪ acc))
  end.

Fixpoint semantic_loop (jobs : list json) (jobs_map : gmap string DagData) :
  checked (gmap string DagData) :=
  match jobs with
  | [] => Ok jobs_map
  | job :: jobs' =>
      get (jfield "job_id" job ≫= jstr) (λ job_id,
      get (jvalue "depends_on" (JArr []) job) (λ dependencies,
        cbind (collect_dependencies (jitems dependencies) ∅) (λ deps,
          match jobs_map !! job_id with
          | Some _ => Rejected StatusCodes.DUPLICATE_JOB_ID
          | None => semantic_loop jobs' (<[job_id := new_dag deps]> jobs_map)
          end)))
  end.

Definition validate_semantic (data : json) : checked (gmap string DagData) :=
  semantic_loop (jobs_of data) ∅.

(** ** Dependencies: Kahn's algorithm *)

Definition empty_job : JobRuntimeData :=
  mkJobRuntimeData 0 "" "" "" 0 0 0 0 0 0 0 0 "" [].

(** [jobs_runtime_info[dep].successors.push_back(job)]; [operator[]] creates a
    missing entry. *)
Definition push_successor (dep job : string) (info : gmap string JobRuntimeData) :
  gmap string JobRuntimeData :=
  let d := default empty_job (info !! dep) in
  <[dep := mkJobRuntimeData (jr_job_uuid d) (jr_job_id d) (jr_job_name d) (jr_status d)
             (jr_remaining_dependencies d) (jr_priority d) (jr_timeout_sec d)
             (jr_start_run_time d) (jr_max_retries d) (jr_current_retry_count d)
             (jr_retry_delay_sec d) (jr_payload_size_bytes d) (jr_retry_backoff_policy d)
             (jr_successors d ++ [job])%list]> info.

Definition add_incoming (dep : string) (d : DagData) : DagData :=
  mkDag (dag_dependencies d) ({[dep]} ∪ dag_incoming d) (dag_outgoing d).
Definition add_outgoing (job : string) (d : DagData) : DagData :=
  mkDag (dag_dependencies d) (dag_incoming d) ({[job]} ∪ dag_outgoing d).
Definition remove_incoming (dep : string) (d : DagData) : DagData :=
  mkDag (dag_dependencies d) (dag_incoming d ∖ {[dep]}) (dag_outgoing d).

Definition incoming (m : gmap string DagData) (j : string) : gset string :=
  default ∅ (dag_incoming <$> m !! j).
Definition outgoing (m : gmap string DagData) (j : string) : gset string :=
  default ∅ (dag_outgoing <$> m !! j).
Definition dependencies (m : gmap string DagData) (j : string) : gset string :=
  default ∅ (dag_dependencies <$> m !! j).

(** The loop over the dependencies of one job. *)
Fixpoint link_dependencies (job : string) (deps : list string) (m : gmap string DagData)
  (info : gmap string JobRuntimeData) :
  checked (gmap string DagData * gmap string JobRuntimeData) :=
  match deps with
  | [] => Ok (m, info)
  | dep :: deps' =>
      let m := alter (add_incoming dep) job m in
      match m !! dep with
      | None => Rejected StatusCodes.MISSING_DEPENDENCY
      | Some _ =>
          link_dependencies job deps' (alter (add_outgoing job) dep m)
            (push_successor dep job info)
      end
  end.

Section kahn.
Context `{HashOrder}.

(** The loop over the jobs; [queue] collects the jobs with no dependency. *)
Fixpoint link_jobs (jobs : list string) (m : gmap string DagData)
  (info : gmap string JobRuntimeData) (queue : list string) :
  checked (gmap string DagData * gmap string JobRuntimeData * list string) :=
  match jobs with
  | [] => Ok (m, info, queue)
  | job :: jobs' =>
      cbind (link_dependencies job (order ("deps:" +:+ job) (dependencies m job)) m info)
        (λ '(m, info),
           link_jobs jobs' m info
             (if decide (incoming m job = ∅) then (queue ++ [job])%list else queue))
  end.

(** The loop over the successors of a visited job. *)
Definition visit_edge (current : string) (st : gmap string DagData * list string)
  (dep_job : string) : gmap string DagData * list string :=
  let m := alter (remove_incoming current) dep_job st.1 in
  (m, if decide (incoming m dep_job = ∅) then (st.2 ++ [dep_job])%list else st.2).

(** The main loop; [None] when the fuel runs out with jobs left in the queue. *)
Fixpoint kahn (fuel : nat) (m : gmap string DagData) (queue : list string) (visited : nat) :
  option nat :=
  match queue with
  | [] => Some visited
  | current :: queue' =>
      match fuel with
      | O => None
      | S fuel' =>
          let '(m', queue'') :=
            foldl (visit_edge current) (m, queue') (order ("out:" +:+ current) (outgoing m current)) in
          kahn fuel' m' queue'' (S visited)
      end
  end.

(** [jobs_map.size()] rounds are enough ([kahn_terminates]). *)
Definition validate_dependencies (jobs_map : gmap string DagData)
  (jobs_runtime_info : gmap string JobRuntimeData) : checked (gmap string JobRuntimeData) :=
  cbind (link_jobs (order "jobs" (dom jobs_map)) jobs_map jobs_runtime_info [])
    (λ '(m, info, queue),
       match kahn (size jobs_map) m queue 0 with
       | Some visited =>
           if (visited =? size jobs_map)%nat then Ok info
           else Rejected StatusCodes.CIRCULAR_DEPENDENCY
       | None => Raised
       end).
End kahn.

Definition validate_workflow `{HashOrder} (dump_size : json → Z) (version : string)
  (workflow_data : json) (p : PolicyPlan) (info : gmap string JobRuntimeData)
  (request : RequestData) : checked (gmap string JobRuntimeData * WorkflowData) :=
  cbind (validate_admission_client_workflow_policy dump_size workflow_data p) (λ _,
  cbind (validate_semantic workflow_data) (λ jobs_map,
  cbind (validate_dependencies jobs_map info) (λ info,
  get (jvalue_str "workflow_type" "" workflow_data) (λ ty,
    Ok (info, mkWorkflowData request WorkflowStatus.ADMITTED ty version
                (to_int32 (Z.of_nat (length (jobs_of workflow_data)))) 0 0 0 0))))).

(** ** Linking the graph *)

Section linking.
Context `{HashOrder}.
Context (m0 : gmap string DagData).

Abbreviation edge d j := (d ∈ dependencies m0 j).

Lemma elem_of_order site X j : j ∈ order site X ↔ j ∈ X.
Proof. rewrite order_perm. apply elem_of_elements. Qed.
Lemma NoDup_order site X : NoDup (order site X).
Proof. rewrite order_perm. apply NoDup_elements. Qed.

Definition succ_list (info : gmap string JobRuntimeData) (d : string) : list string :=
  jr_successors (default empty_job (info !! d)).

(** [E]: the edges linked so far. *)
Record Linked (m : gmap string DagData) (info0 info : gmap string JobRuntimeData)
  (E : gset (string * string)) : Prop := {
  l_dom : dom m = dom m0;
  l_deps : ∀ j, dependencies m j = dependencies m0 j;
  l_in : ∀ d j, j ∈ dom m0 → d ∈ incoming m j ↔ (d, j) ∈ E;
  l_out : ∀ d j, d ∈ dom m0 → j ∈ outgoing m d ↔ (d, j) ∈ E;
  l_succ : ∀ d, ∃ l, succ_list info d = (succ_list info0 d ++ l)%list ∧ NoDup l ∧
             ∀ j, j ∈ l ↔ (d, j) ∈ E
}.

Lemma incoming_alter_in f k j m :
  incoming (alter f k m) j = if decide (k = j) then default ∅ ((λ d, dag_incoming (f d)) <$> m !! j)
                             else incoming m j.
Proof.
  unfold incoming. case_decide as E.
  - subst. rewrite lookup_alter_eq. by destruct (m !! j).
  - by rewrite lookup_alter_ne.
Qed.
Lemma outgoing_alter_in f k j m :
  outgoing (alter f k m) j = if decide (k = j) then default ∅ ((λ d, dag_outgoing (f d)) <$> m !! j)
                             else outgoing m j.
Proof.
  unfold outgoing. case_decide as E.
  - subst. rewrite lookup_alter_eq. by destruct (m !! j).
  - by rewrite lookup_alter_ne.
Qed.
Lemma dependencies_alter f k j m :
  (∀ d, dag_dependencies (f d) = dag_dependencies d) →
  dependencies (alter f k m) j = dependencies m j.
Proof.
  intros Hf. unfold dependencies. destruct (decide (k = j)) as [->|Hne].
  - rewrite lookup_alter_eq. destruct (m !! j); simpl; by rewrite ?Hf.
  - by rewrite lookup_alter_ne.
Qed.

Lemma succ_push d j d' info :
  succ_list (push_successor d j info) d' =
    if decide (d = d') then (succ_list info d ++ [j])%list else succ_list info d'.
Proof.
  unfold succ_list, push_successor. case_decide as E.
  - subst. by rewrite lookup_insert_eq.
  - by rewrite lookup_insert_ne.
Qed.

Lemma linked_edge m info0 info E d j :
  Linked m info0 info E → d ∈ dom m0 → j ∈ dom m0 → (d, j) ∉ E →
  Linked (alter (add_outgoing j) d (alter (add_incoming d) j m)) info0 (push_successor d j info)
    ({[(d, j)]} ∪ E).
Proof.
  intros [] Hd Hj Hn.
  assert (Hsome : ∀ x, x ∈ dom m0 → ∃ y, m !! x = Some y).
  { intros x Hx. rewrite <-l_dom0 in Hx. by apply elem_of_dom in Hx. }
  split.
  - by rewrite !dom_alter_L.
  - intros x. by rewrite !dependencies_alter.
  - intros d' j' Hj'. rewrite incoming_alter_in. specialize (l_in0 d' j' Hj').
    destruct (Hsome j' Hj') as [y Hy]. unfold incoming in *. rewrite Hy in l_in0. simpl in l_in0.
    destruct (decide (d = j')) as [->|Hne]; destruct (decide (j = j')) as [->|Hne'];
      rewrite ?lookup_alter_eq, ?lookup_alter_ne, Hy by done; simpl; set_solver.
  - intros d' j' Hd'. rewrite outgoing_alter_in. specialize (l_out0 d' j' Hd').
    destruct (Hsome d' Hd') as [y Hy]. unfold outgoing in *. rewrite Hy in l_out0. simpl in l_out0.
    destruct (decide (j = d')) as [->|Hne]; destruct (decide (d = d')) as [->|Hne'];
      rewrite ?lookup_alter_eq, ?lookup_alter_ne, Hy by done; simpl; set_solver.
  - intros d'. destruct (l_succ0 d') as (l & El & Hnd & Hl). rewrite succ_push.
    destruct (decide (d = d')) as [->|Hne].
    + exists (l ++ [j])%list. rewrite El, <-app_assoc. split_and!; [done| |].
      * apply NoDup_app. split_and!; [done| |apply NoDup_singleton].
        intros x Hx ->%list_elem_of_singleton. by apply Hn, Hl.
      * intros x. rewrite elem_of_app, Hl. set_solver.
    + exists l. split_and!; try done. intros x. rewrite Hl. set_solver.
Qed.

Lemma link_dependencies_ok job deps m info0 info E :
  Linked m info0 info E → job ∈ dom m0 → NoDup deps → (∀ d, d ∈ deps → (d, job) ∉ E) →
  match link_dependencies job deps m info with
  | Ok (m', info') =>
      (∀ d, d ∈ deps → d ∈ dom m0) ∧
      ∃ E', Linked m' info0 info' E' ∧
        ∀ d j, (d, j) ∈ E' ↔ (d, j) ∈ E ∨ j = job ∧ d ∈ deps
  | Rejected c => c = StatusCodes.MISSING_DEPENDENCY ∧ ∃ d, d ∈ deps ∧ d ∉ dom m0
  | Raised => False
  end.
Proof.
  revert m info E. induction deps as [|d deps IH]; intros m info E HL Hj Hnd Hn; simpl.
  { split; [set_solver|]. exists E. split; [done|]. set_solver. }
  apply NoDup_cons in Hnd as [Hd Hnd].
  destruct (alter (add_incoming d) job m !! d) as [y|] eqn:Hy.
  - assert (HdJ : d ∈ dom m0).
    { rewrite <-(l_dom _ _ _ _ HL), <-(dom_alter_L (add_incoming d) m job).
      by eapply elem_of_dom_2. }
    specialize (IH _ _ _ (linked_edge _ _ _ _ d job HL HdJ Hj (Hn d ltac:(set_solver))) Hj Hnd).
    destruct (link_dependencies job deps _ _) as [[m' info']|c|].
    + destruct IH as (Hdom & E' & HL' & HE'); [set_solver|]. split; [set_solver|].
      exists E'. split; [done|]. intros. rewrite HE'. set_solver.
    + destruct IH as (-> & d' & ? & ?); [set_solver|]. split; [done|]. set_solver.
    + apply IH. set_solver.
  - split; [done|]. exists d. split; [set_solver|].
    apply not_elem_of_dom in Hy. by rewrite dom_alter_L, (l_dom _ _ _ _ HL) in Hy.
Qed.

(** All edges of the jobs of [jobs]. *)
Lemma link_jobs_ok jobs m info0 info E queue :
  Linked m info0 info E → NoDup jobs → (∀ j, j ∈ jobs → j ∈ dom m0 ∧ ∀ d, (d, j) ∉ E) →
  match link_jobs jobs m info queue with
  | Ok (m', info', queue') =>
      (∀ j d, j ∈ jobs → edge d j → d ∈ dom m0) ∧
      (∃ E', Linked m' info0 info' E' ∧
        ∀ d j, (d, j) ∈ E' ↔ (d, j) ∈ E ∨ j ∈ jobs ∧ edge d j) ∧
      (∃ l, queue' = (queue ++ l)%list ∧ NoDup l ∧
        ∀ j, j ∈ l ↔ j ∈ jobs ∧ dependencies m0 j = ∅)
  | Rejected c => c = StatusCodes.MISSING_DEPENDENCY ∧
      ∃ j d, j ∈ jobs ∧ edge d j ∧ d ∉ dom m0
  | Raised => False
  end.
Proof.
  revert m info E queue. induction jobs as [|j jobs IH]; intros m info E queue HL Hnd Hj; simpl.
  { split_and!; [set_solver| |].
    - exists E. split; [done|]. set_solver.
    - exists []. rewrite app_nil_r. split_and!; [done|apply NoDup_nil_2|set_solver]. }
  apply NoDup_cons in Hnd as [Hnj Hnd]. destruct (Hj j ltac:(set_solver)) as [HjJ HjE].
  pose proof (link_dependencies_ok j (order ("deps:" +:+ j) (dependencies m j)) m info0 info E HL HjJ
    (NoDup_order _ _) (λ d _, HjE d)) as Hld.
  rewrite (l_deps _ _ _ _ HL) in Hld |- *.
  destruct (link_dependencies j _ m info) as [[m' info']|c|]; simpl; [| |done].
  2:{ destruct Hld as (-> & d & Hd & ?). split; [done|]. exists j, d. rewrite elem_of_order in Hd.
      set_solver. }
  destruct Hld as (Hdom & E' & HL' & HE').
  assert (Hin : ∀ d, d ∈ incoming m' j ↔ edge d j).
  { intros d. rewrite (l_in _ _ _ _ HL' d j HjJ), HE', elem_of_order. set_solver. }
  specialize (IH m' info' E'
    (if decide (incoming m' j = ∅) then (queue ++ [j])%list else queue) HL' Hnd).
  destruct (link_jobs jobs m' info' _) as [[[m'' info''] queue'']|c|].
  - destruct IH as (Hdom' & (E'' & HL'' & HE'') & (l & Hq & Hndl & Hl)).
    { intros j' Hj'. destruct (Hj j' ltac:(set_solver)) as [? Hn]. split; [done|].
      intros d. rewrite HE'. intros [?|[-> _]]; [by eapply Hn|done]. }
    split_and!.
    + intros j' d [->|Hj']%elem_of_cons Hd; [|by eapply Hdom']. apply Hdom. by rewrite elem_of_order.
    + exists E''. split; [done|]. intros d j'. rewrite HE'', HE', elem_of_order. set_solver.
    + case_decide as Hemp.
      * exists (j :: l). rewrite Hq, <-app_assoc. split_and!; [done| |].
        -- apply NoDup_cons. split; [|done]. rewrite Hl. by intros [? _].
        -- intros j'. rewrite elem_of_cons, Hl. set_solver.
      * exists l. split_and!; try done. intros j'. rewrite Hl, elem_of_cons. split; [naive_solver|].
        intros [[->|?] Hd]; [|done]. exfalso. apply Hemp. set_solver.
  - destruct IH as (-> & j' & d & ? & ? & ?); [|split; [done|]; set_solver].
    intros j' Hj'. destruct (Hj j' ltac:(set_solver)) as [? Hn]. split; [done|].
    intros d. rewrite HE'. intros [?|[-> _]]; [by eapply Hn|done].
  - apply IH. intros j' Hj'. destruct (Hj j' ltac:(set_solver)) as [? Hn]. split; [done|].
    intros d. rewrite HE'. intros [?|[-> _]]; [by eapply Hn|done].
Qed.
End linking.

(** ** The main loop *)

Section main_loop.
Context `{HashOrder}.
Context (m0 : gmap string DagData).

Abbreviation edge d j := (d ∈ dependencies m0 j).

Lemma visit_edges c es m q :
  NoDup es →
  let st := foldl (visit_edge c) (m, q) es in
  dom st.1 = dom m ∧
  (∀ j, outgoing st.1 j = outgoing m j) ∧
  (∀ j, incoming st.1 j = if decide (j ∈ es) then incoming m j ∖ {[c]} else incoming m j) ∧
  ∃ l, st.2 = (q ++ l)%list ∧ NoDup l ∧ ∀ j, j ∈ l ↔ j ∈ es ∧ incoming m j ∖ {[c]} = ∅.
Proof.
  revert m q. induction es as [|e es IH]; intros m q Hnd; cbn [foldl].
  { split_and!; try done. exists []. rewrite app_nil_r. split_and!; [done|apply NoDup_nil_2|set_solver]. }
  apply NoDup_cons in Hnd as [He Hnd].
  set (m1 := alter (remove_incoming c) e m).
  assert (Hin1 : ∀ j, incoming m1 j = if decide (e = j) then incoming m j ∖ {[c]} else incoming m j).
  { intros j. unfold m1. rewrite incoming_alter_in. case_decide; [|done]. unfold incoming.
    destruct (m !! j); simpl; [done|]. set_solver. }
  assert (Hout1 : ∀ j, outgoing m1 j = outgoing m j).
  { intros j. unfold m1. rewrite outgoing_alter_in. case_decide; [|done]. unfold outgoing.
    by destruct (m !! j). }
  unfold visit_edge at 2 4 6 8. simpl. fold m1.
  set (q1 := if decide (incoming m1 e = ∅) then (q ++ [e])%list else q).
  destruct (IH m1 q1 Hnd) as (Hd & Ho & Hi & l & Hq & Hndl & Hl).
  split_and!.
  - rewrite Hd. apply dom_alter_L.
  - intros j. by rewrite Ho.
  - intros j. rewrite Hi, Hin1. repeat case_decide; set_solver.
  - assert (He1 : incoming m1 e = incoming m e ∖ {[c]}).
    { rewrite Hin1. by rewrite decide_True. }
    assert (Hl' : ∀ j, j ∈ l ↔ j ∈ es ∧ incoming m j ∖ {[c]} = ∅).
    { intros j. rewrite Hl, Hin1. case_decide as Ej; [subst; set_solver|done]. }
    destruct (decide (incoming m e ∖ {[c]} = ∅)) as [Hemp|Hemp].
    + exists (e :: l). rewrite Hq. unfold q1. rewrite He1, decide_True, <-app_assoc by done.
      split_and!; [done| |].
      * apply NoDup_cons. split; [|done]. rewrite Hl'. tauto.
      * intros j. rewrite !elem_of_cons, Hl'. naive_solver.
    + exists l. rewrite Hq. unfold q1. rewrite He1, decide_False by done.
      split_and!; try done. intros j. rewrite Hl', elem_of_cons. naive_solver.
Qed.

(** [L]: the jobs visited so far, in order. *)
Record Kahn (m : gmap string DagData) (queue L : list string) : Prop := {
  k_dom : dom m = dom m0;
  k_out : ∀ d j, d ∈ dom m0 → j ∈ outgoing m d ↔ j ∈ dom m0 ∧ edge d j;
  k_in : ∀ d j, j ∈ dom m0 → d ∈ incoming m j ↔ edge d j ∧ d ∉ L;
  k_nodup : NoDup (L ++ queue)%list;
  k_known : ∀ j, j ∈ (L ++ queue)%list → j ∈ dom m0;
  k_ready : ∀ j, j ∈ dom m0 → j ∈ (L ++ queue)%list ↔ ∀ d, edge d j → d ∈ L;
  k_topo : ∀ L1 j L2, L = (L1 ++ j :: L2)%list → ∀ d, edge d j → d ∈ L1
}.

Lemma kahn_step m c queue L m' queue' :
  Kahn m (c :: queue) L →
  foldl (visit_edge c) (m, queue) (order ("out:" +:+ c) (outgoing m c)) = (m', queue') →
  Kahn m' queue' (L ++ [c])%list.
Proof.
  intros [] Hf. pose proof (visit_edges c _ m queue (NoDup_order ("out:" +:+ c) (outgoing m c))) as Hv.
  rewrite Hf in Hv. simpl in Hv. destruct Hv as (Hd & Ho & Hi & l & -> & Hndl & Hl).
  assert (HcD : c ∈ dom m0) by (apply k_known0, elem_of_app; right; left).
  assert (Hout : ∀ j, j ∈ order ("out:" +:+ c) (outgoing m c) ↔ j ∈ dom m0 ∧ edge c j).
  { intros j. rewrite elem_of_order. by apply k_out0. }
  assert (Hc : c ∉ L).
  { apply NoDup_app in k_nodup0 as (_ & Hdis & _). intros Hc. by eapply Hdis; [exact Hc|left]. }
  assert (Hl' : ∀ j, j ∈ l ↔ j ∈ dom m0 ∧ edge c j ∧ ∀ d, edge d j → d ∈ (L ++ [c])%list).
  { intros j. rewrite Hl, Hout. split.
    - intros [[Hj Hcj] Hemp]. split_and!; [done..|]. intros d Hdj.
      rewrite elem_of_app, list_elem_of_singleton. destruct (decide (d ∈ L)); [by left|right].
      destruct (decide (d = c)) as [|Hdc]; [done|exfalso]. apply (not_elem_of_empty (C := gset string) d).
      rewrite <-Hemp. apply elem_of_difference. split; [by apply k_in0|by rewrite elem_of_singleton].
    - intros (Hj & Hcj & Hall). split; [done|]. apply elem_of_equiv_empty_L. intros d Hd'.
      apply elem_of_difference in Hd' as [Hd1 Hd2]. apply k_in0 in Hd1 as [Hd1 Hd3]; [|done].
      specialize (Hall d Hd1). apply elem_of_app in Hall as [?|?%list_elem_of_singleton]; [done|].
      apply Hd2. by apply elem_of_singleton. }
  assert (Hlnew : ∀ j, j ∈ l → j ∉ (L ++ c :: queue)%list).
  { intros j (Hj & Hcj & _)%Hl' Hin. by apply Hc, (proj1 (k_ready0 j Hj) Hin). }
  split.
  - by rewrite Hd.
  - intros d j Hd'. rewrite Ho. by apply k_out0.
  - intros d j Hj. rewrite Hi. case_decide as Hjo.
    + rewrite elem_of_difference, k_in0, elem_of_app, list_elem_of_singleton, elem_of_singleton by done.
      tauto.
    + rewrite k_in0, elem_of_app, list_elem_of_singleton by done. split; [|tauto].
      intros [? ?]. split; [done|]. intros [?| ->]; [done|]. apply Hjo, Hout. done.
  - rewrite <-app_assoc. simpl. rewrite app_comm_cons, app_assoc. apply NoDup_app. split_and!; [done| |done].
    intros j Hj Hjl. by eapply Hlnew.
  - intros j. rewrite <-app_assoc. simpl. rewrite app_comm_cons, app_assoc, elem_of_app. intros [Hj|Hj]; [by apply k_known0|].
    by apply Hl' in Hj as [? _].
  - intros j Hj. rewrite <-app_assoc. simpl. rewrite app_comm_cons, app_assoc, elem_of_app, k_ready0, Hl' by done.
    split.
    + intros [Hall|(_ & _ & Hall)]; [|done]. intros d Hdj. apply elem_of_app. left. auto.
    + intros Hall. destruct (decide (edge c j)) as [Hcj|Hcj]; [right; done|left].
      intros d Hdj. specialize (Hall d Hdj). rewrite elem_of_app, list_elem_of_singleton in Hall.
      destruct Hall as [?| ->]; done.
  - intros L1 j L2 HL d Hdj. destruct L2 as [|x L2' _] using rev_ind.
    + apply app_inj_tail in HL as [-> <-]. apply (k_ready0 c); [done| |done].
      apply elem_of_app. right. left.
    + rewrite app_comm_cons, app_assoc in HL. apply app_inj_tail in HL as [-> _]. by eapply k_topo0.
Qed.

(** Each round visits a new job: the number of jobs bounds the rounds. *)
Lemma kahn_run fuel m queue L :
  Kahn m queue L → (size m0 ≤ fuel + length L)%nat →
  ∃ m' L', kahn fuel m queue (length L) = Some (length L') ∧ Kahn m' [] L'.
Proof.
  revert m queue L. induction fuel as [|fuel IH]; intros m queue L HK Hf;
    (destruct queue as [|c queue]; [exists m, L; split; [done|done]|]).
  - exfalso. pose proof (k_nodup _ _ _ HK) as Hnd. pose proof (k_known _ _ _ HK) as Hkn.
    assert (length (L ++ c :: queue) ≤ size m0)%nat as Hle.
    { rewrite <-size_dom, <-(size_list_to_set (C := gset string) _ Hnd).
      apply subseteq_size. intros j Hj%elem_of_list_to_set. by apply Hkn. }
    rewrite length_app in Hle. simpl in Hle. lia.
  - cbn [kahn]. destruct (foldl _ _ _) as [m' queue'] eqn:Hfold.
    pose proof (kahn_step _ _ _ _ _ _ HK Hfold) as HK'.
    destruct (IH _ _ _ HK') as (m'' & L' & Hk & HK''); [rewrite length_app; simpl; lia|].
    exists m'', L'. split; [|done]. rewrite <-Hk. f_equal. rewrite length_app. simpl. lia.
Qed.
End main_loop.

(** ** What acceptance means *)

Definition deps_defined (m : gmap string DagData) : Prop :=
  ∀ j d, d ∈ dependencies m j → d ∈ dom m.

(** The dependency graph is acyclic: jobs can be ranked so that every
    dependency comes before its dependant. *)
Definition acyclic (m : gmap string DagData) : Prop :=
  ∃ rank : string → nat, ∀ j d, j ∈ dom m → d ∈ dependencies m j → (rank d < rank j)%nat.

(** The maps [validate_semantic] builds. *)
Definition fresh_map (m : gmap string DagData) : Prop :=
  ∀ j d, m !! j = Some d → dag_incoming d = ∅ ∧ dag_outgoing d = ∅.

(** Position of the first occurrence. *)
Fixpoint index_in (j : string) (l : list string) : nat :=
  match l with [] => 0 | x :: l' => if decide (j = x) then 0 else S (index_in j l') end.

Lemma index_in_app j l1 l2 :
  index_in j (l1 ++ l2)%list = if decide (j ∈ l1) then index_in j l1 else (length l1 + index_in j l2)%nat.
Proof.
  induction l1 as [|x l1 IH]; [done|]. cbn [app index_in length]. rewrite IH.
  destruct (decide (j = x)) as [->|Hne].
  - by rewrite decide_True by left.
  - destruct (decide (j ∈ l1)) as [Hj|Hj].
    + by rewrite decide_True by (by right).
    + rewrite decide_False by set_solver. lia.
Qed.

Lemma index_in_lt j l : j ∈ l → (index_in j l < length l)%nat.
Proof.
  induction l as [|x l IH]; [set_solver|]. intros Hj. simpl. case_decide; [lia|].
  assert (j ∈ l) by set_solver. specialize (IH ltac:(done)). lia.
Qed.

Section correctness.
Context `{HashOrder}.

Lemma kahn_final m0 m L :
  Kahn m0 m [] L → deps_defined m0 → (length L = size m0 ↔ acyclic m0).
Proof.
  intros [? ? ? Hnd Hkn Hr Ht] Hdef. rewrite app_nil_r in Hnd, Hkn, Hr.
  assert (HLd : length L = size m0 ↔ ∀ j, j ∈ dom m0 → j ∈ L).
  { rewrite <-size_dom, <-(size_list_to_set (C := gset string) L Hnd). split.
    - intros Hs j Hj. destruct (decide (j ∈ L)) as [|Hn]; [done|exfalso].
      assert (list_to_set L ⊂ dom m0) as Hlt by set_solver.
      apply subset_size in Hlt. lia.
    - intros Hall. f_equal. set_solver. }
  rewrite HLd. split.
  - intros Hall. exists (λ j, index_in j L). intros j d Hj Hd.
    destruct (list_elem_of_split L j (Hall j Hj)) as (L1 & L2 & ->).
    pose proof (Ht L1 j L2 eq_refl d Hd) as Hd1. pose proof (index_in_lt d L1 Hd1).
    rewrite !index_in_app. rewrite (decide_True (P := d ∈ L1)) by done.
    rewrite decide_False; [lia|]. apply NoDup_app in Hnd as (_ & Hdis & _).
    intros Hj1. eapply Hdis; [exact Hj1|]. set_solver.
  - intros [rank Hrank] j. remember (rank j) as n eqn:Hn. revert j Hn.
    induction (lt_wf n) as [n _ IH]. intros j -> Hj. apply Hr; [done|].
    intros d Hd. eapply IH; [by apply Hrank|done|]. by eapply Hdef.
Qed.

Lemma linked_fresh m info : fresh_map m → Linked m m info info ∅.
Proof.
  intros Hf. split; try done.
  - intros d j _. unfold incoming. destruct (m !! j) as [x|] eqn:E; simpl; [|set_solver].
    destruct (Hf _ _ E) as [-> _]. set_solver.
  - intros d j _. unfold outgoing. destruct (m !! d) as [x|] eqn:E; simpl; [|set_solver].
    destruct (Hf _ _ E) as [_ ->]. set_solver.
  - intros d. exists []. rewrite app_nil_r. split_and!; [done|apply NoDup_nil_2|set_solver].
Qed.

(** The outcome of [validate_dependencies], and the successor lists it leaves. *)
Lemma validate_dependencies_spec m info :
  fresh_map m →
  match validate_dependencies m info with
  | Ok info' =>
      deps_defined m ∧ acyclic m ∧
      ∀ d, ∃ l, succ_list info' d = (succ_list info d ++ l)%list ∧ NoDup l ∧
             ∀ j, j ∈ l ↔ d ∈ dependencies m j
  | Rejected c =>
      c = StatusCodes.MISSING_DEPENDENCY ∧ ¬ deps_defined m ∨
      c = StatusCodes.CIRCULAR_DEPENDENCY ∧ deps_defined m ∧ ¬ acyclic m
  | Raised => False
  end.
Proof.
  intros Hf. unfold validate_dependencies.
  assert (Hdeps : ∀ j d, d ∈ dependencies m j → j ∈ dom m).
  { intros j d. unfold dependencies. destruct (m !! j) eqn:E; simpl; [|set_solver].
    intros _. by eapply elem_of_dom_2. }
  pose proof (link_jobs_ok m (order "jobs" (dom m)) m info info ∅ [] (linked_fresh m info Hf)
    (NoDup_order _ _)) as Hl.
  destruct (link_jobs (order "jobs" (dom m)) m info []) as [[[m' info'] queue]|c|]; simpl.
  - destruct Hl as (Hdom & (E & HL & HE) & l & -> & Hnd & Hq).
    { intros j Hj. rewrite elem_of_order in Hj. set_solver. }
    simpl. assert (Hdef : deps_defined m).
    { intros j d Hd. eapply Hdom; [|done]. rewrite elem_of_order. by eapply Hdeps. }
    assert (HE' : ∀ d j, (d, j) ∈ E ↔ d ∈ dependencies m j).
    { intros d j. rewrite HE, elem_of_order. set_solver. }
    assert (HK : Kahn m m' l []).
    { split; simpl; try done.
      - apply (l_dom _ _ _ _ _ HL).
      - intros d j Hd. rewrite (l_out _ _ _ _ _ HL d j Hd), HE'. set_solver.
      - intros d j Hj. rewrite (l_in _ _ _ _ _ HL d j Hj), HE'. set_solver.
      - intros j Hj%Hq. rewrite elem_of_order in Hj. tauto.
      - intros j Hj. rewrite Hq, elem_of_order. set_solver.
      - intros [|??] j L2 HL'; discriminate. }
    destruct (kahn_run m (size m) m' l [] HK) as (m'' & L & Hk & HK'); [simpl; lia|].
    simpl in Hk. rewrite Hk. pose proof (kahn_final m m'' L HK' Hdef) as Hfin.
    destruct (Nat.eqb_spec (length L) (size m)) as [El|El].
    + split_and!; [done|by apply Hfin|]. intros d. destruct (l_succ _ _ _ _ _ HL d) as (ls & ? & ? & Hls).
      exists ls. split_and!; try done. intros j. by rewrite Hls.
    + right. split_and!; try done. by rewrite <-Hfin.
  - destruct Hl as (-> & j & d & Hj & Hd & Hn).
    { intros j Hj. rewrite elem_of_order in Hj. set_solver. }
    left. split; [done|]. intros Hdef. by eapply Hn, Hdef.
  - apply Hl. intros j Hj. rewrite elem_of_order in Hj. set_solver.
Qed.
End correctness.

(** ** Semantic validation *)

Definition job_id_of_json (job : json) : option string := jfield "job_id" job ≫= jstr.
Definition depends_on_of_json (job : json) : option (list string) :=
  d ← jvalue "depends_on" (JArr []) job; mapM jstr (jitems d).

Lemma collect_ok deps acc :
  match collect_dependencies deps acc with
  | Ok X => ∃ l, mapM jstr deps = Some l ∧ NoDup l ∧ (∀ d, d ∈ l → d ∉ acc) ∧
              X = list_to_set l ∪ acc
  | Rejected c => c = StatusCodes.DUPLICATE_DEPENDENCY ∧
      (∀ l, mapM jstr deps = Some l → ¬ (NoDup l ∧ ∀ d, d ∈ l → d ∉ acc))
  | Raised => mapM jstr deps = None
  end.
Proof.
  revert acc. induction deps as [|dep deps IH]; intros acc; simpl.
  { exists []. split_and!; [done|apply NoDup_nil_2|set_solver|set_solver]. }
  destruct (jstr dep) as [d|] eqn:Ed; simpl; [|done].
  case_decide as Hd.
  - split; [done|]. intros l Hl. destruct (mapM jstr deps) as [l'|]; unfold mret, option_ret in Hl; simplify_eq/=.
    intros [_ Hn]. apply (Hn d); [left|done].
  - specialize (IH ({[d]} ∪ acc)). destruct (collect_dependencies deps ({[d]} ∪ acc)) as [X|c|].
    + destruct IH as (l & -> & Hnd & Hdis & ->). simpl. exists (d :: l). split_and!; [done| |set_solver|set_solver].
      apply NoDup_cons. split; [|done]. intros Hdl. apply (Hdis d Hdl). set_solver.
    + destruct IH as [-> Hn]. split; [done|]. intros l Hl.
      destruct (mapM jstr deps) as [l'|]; unfold mret, option_ret in Hl; simplify_eq/=. intros [Hnd Hdis].
      apply NoDup_cons in Hnd as [Hdl Hnd]. apply (Hn l' eq_refl). split; [done|].
      intros x Hx. specialize (Hdis x ltac:(set_solver)). set_solver.
    + by rewrite IH.
Qed.

(** A job of the request: its id and its dependency list. *)
Definition job_spec (job : json) : option (string * list string) :=
  id ← job_id_of_json job; deps ← depends_on_of_json job; Some (id, deps).

(** Unique ids, unique dependencies. *)
Definition well_formed_jobs (specs : list (string * list string)) : Prop :=
  NoDup specs.*1 ∧ Forall (λ s, NoDup s.2) specs.

Definition add_spec (m : gmap string DagData) (s : string * list string) : gmap string DagData :=
  <[s.1 := new_dag (list_to_set s.2)]> m.

Lemma semantic_loop_spec jobs m specs :
  mapM job_spec jobs = Some specs →
  match semantic_loop jobs m with
  | Ok m' => well_formed_jobs specs ∧ (∀ s, s ∈ specs → m !! s.1 = None) ∧ m' = foldl add_spec m specs
  | Rejected c =>
      (c = StatusCodes.DUPLICATE_DEPENDENCY ∨ c = StatusCodes.DUPLICATE_JOB_ID) ∧
      ¬ (well_formed_jobs specs ∧ ∀ s, s ∈ specs → m !! s.1 = None)
  | Raised => False
  end.
Proof.
  revert m specs. induction jobs as [|job jobs IH]; intros m specs; simpl.
  { intros [= <-]. split_and!; [split; [apply NoDup_nil_2|constructor]|set_solver|done]. }
  destruct (job_spec job) as [s|] eqn:Hs; simpl; [|done].
  unfold job_spec, job_id_of_json, depends_on_of_json in Hs.
  destruct (jfield "job_id" job ≫= jstr) as [id|]; simpl in *; [|done].
  destruct (jvalue "depends_on" (JArr []) job) as [d|]; simpl in *; [|done].
  pose proof (collect_ok (jitems d) ∅) as Hc.
  destruct (mapM jstr (jitems d)) as [deps|]; simpl in Hs; [|done]. injection Hs as <-.
  destruct (mapM job_spec jobs) as [specs'|] eqn:Hspecs; simpl; [|done]. intros [= <-].
  destruct (collect_dependencies (jitems d) ∅) as [X|c|]; simpl; [| |done].
  - destruct Hc as (l & [= <-] & Hnd & _ & ->). rewrite (right_id_L ∅ (∪)).
    destruct (m !! id) as [y|] eqn:Hid.
    { split; [by right|]. intros [_ Hn]. specialize (Hn (id, deps) ltac:(left)). simpl in Hn. congruence. }
    specialize (IH (<[id := new_dag (list_to_set deps)]> m) specs' eq_refl).
    destruct (semantic_loop jobs _) as [m'|c|]; [| |done].
    + destruct IH as ([Hid' Hds] & Hfree & ->). split; [|split; [|done]].
      * split; [|by constructor]. apply NoDup_cons. split; [|done].
        intros (s & E & Hs)%list_elem_of_fmap. simpl in E. subst id. specialize (Hfree s Hs).
        by rewrite lookup_insert_eq in Hfree.
      * intros s [->|Hs]%elem_of_cons; [done|]. specialize (Hfree s Hs).
        apply lookup_insert_None in Hfree. tauto.
    + destruct IH as [Hcode Hn]. split; [done|]. intros [[Hids Hds] Hfree]. apply Hn.
      apply NoDup_cons in Hids as [Hid' Hids]. apply Forall_cons in Hds as [_ Hds].
      split; [done|]. intros s Hs. apply lookup_insert_None. split; [apply Hfree; by right|].
      simpl in Hid'. intros ->. apply Hid'. apply list_elem_of_fmap. eauto.
  - destruct Hc as [-> Hn]. split; [by left|]. intros [[_ Hds] _].
    apply Forall_cons in Hds as [Hd _]. apply (Hn deps eq_refl). split; [done|set_solver].
Qed.

(** Acceptance means that every job has an id and a list of dependencies. *)
Lemma semantic_loop_specs jobs m m' :
  semantic_loop jobs m = Ok m' → ∃ specs, mapM job_spec jobs = Some specs.
Proof.
  revert m. induction jobs as [|job jobs IH]; intros m; simpl; [by exists []|]. intros Hl.
  assert (∃ s m1, job_spec job = Some s ∧ semantic_loop jobs m1 = Ok m') as (s & m1 & Hs & Hm1).
  { unfold job_spec, job_id_of_json, depends_on_of_json.
    destruct (jfield "job_id" job ≫= jstr) as [id|]; simpl in *; [|done].
    destruct (jvalue "depends_on" (JArr []) job) as [d|]; simpl in *; [|done].
    pose proof (collect_ok (jitems d) ∅) as Hc.
    destruct (collect_dependencies (jitems d) ∅) as [X|c|]; simpl in *; [|done..].
    destruct Hc as (l & -> & _). simpl. destruct (m !! id); [done|]. eauto. }
  destruct (IH m1 Hm1) as [specs Hspecs]. rewrite Hs, Hspecs. simpl. eauto.
Qed.

Lemma foldl_add_spec specs m j :
  NoDup specs.*1 →
  foldl add_spec m specs !! j =
    match (list_to_map specs : gmap string (list string)) !! j with
    | Some deps => Some (new_dag (list_to_set deps))
    | None => m !! j
    end.
Proof.
  revert m. induction specs as [|[id deps] specs IH]; intros m Hnd; [done|].
  apply NoDup_cons in Hnd as [Hid Hnd]. simpl in Hid. cbn [foldl list_to_map foldr fst snd].
  rewrite IH by done. unfold add_spec; simpl. rewrite !lookup_insert.
  destruct (decide (id = j)) as [->|]; [|done].
  rewrite (not_elem_of_list_to_map_1 specs j) by done. done.
Qed.

(** The dependency graph of a list of jobs. *)
Definition spec_deps (specs : list (string * list string)) (j : string) : list string :=
  default [] ((list_to_map specs : gmap string (list string)) !! j).

Definition spec_map (specs : list (string * list string)) : gmap string DagData :=
  foldl add_spec ∅ specs.

Lemma spec_map_fresh specs : NoDup specs.*1 → fresh_map (spec_map specs).
Proof.
  intros Hnd j d. unfold spec_map. rewrite foldl_add_spec, lookup_empty by done.
  case_match; intros; by simplify_eq.
Qed.

Lemma spec_map_dom specs j : NoDup specs.*1 → j ∈ dom (spec_map specs) ↔ j ∈ specs.*1.
Proof.
  intros Hnd. unfold spec_map. rewrite elem_of_dom, foldl_add_spec, lookup_empty by done. split.
  - intros [d Hd]. case_match eqn:E; [|done]. apply elem_of_list_to_map_2 in E.
    apply list_elem_of_fmap. by exists (j, l).
  - intros (s & -> & Hs)%list_elem_of_fmap. destruct s as [id deps].
    rewrite (elem_of_list_to_map_1 specs id deps) by done. eauto.
Qed.

Lemma spec_map_deps specs j d :
  NoDup specs.*1 → d ∈ dependencies (spec_map specs) j ↔ d ∈ spec_deps specs j.
Proof.
  intros Hnd. unfold dependencies, spec_deps, spec_map. rewrite foldl_add_spec, lookup_empty by done.
  case_match; simpl; set_solver.
Qed.
