(* ===== verification/Database.v ===== *)
(** * The asynchronous database interface, and the events of the services

    include/async_db_interface.h: the operations of [IAsyncDatabase] that the
    services call, as events answered by a database.  An operation that reports
    a [StatusCodes] through a reference answers with the code on failure.
    src/async_db.cpp only moves each call to a thread pool; [SqliteDb] gives
    the implementation behind it.

    The coroutines of the services (admission, scheduling, completion, retry)
    are programs over [app_ev]: Redis round trips, database calls, clocks. *)

From S2P Require Import Prelude.
From S2P Require Import Prog.
From S2P Require Import RedisServer.
From S2P Require Import Models.
From S2P Require Import RedisKeys.
From S2P Require Import Scripts.
From S2P Require Import RedisExec.

(** [inl x] is the result [true]; [inr c] is [false] with [error_status = c]. *)
Inductive db_ev : Type → Type :=
| AddRequestOnly (request_data : RequestData) : db_ev (unit + StatusCodes.t)
| AddRequest (request_data : RequestData) (workflow_payload : string)
    (client_config : ClientConfig) : db_ev (unit + StatusCodes.t)
| UpdateRequestStatus (request_data : RequestData) : db_ev bool
| GetAllRequestsForClient (client_id : string) : db_ev (option (list RequestData))
| AddWorkflow (workflow_data : WorkflowData) : db_ev (unit + StatusCodes.t)
| UpdateWorkflowStatus (client_id workflow_id : string) (status : WorkflowStatus.t) : db_ev bool
| GetAllActiveWorkflows : db_ev (option (list WorkflowData))
| GetAllWorkflowsForClient (client_id : string) : db_ev (option (list WorkflowData))
| GetAllJobsForWorkflow (client_id workflow_id : string) : db_ev (option (list WorkflowJob))
| FailWorkflow (client_id workflow_id : string) : db_ev bool
| AddWorkflowJobs (job_list : WorkflowJobList) : db_ev (unit + StatusCodes.t)
| UpdateReadyJobs (client_id workflow_id : string) (queued_job_ids ready_job_ids : list string) :
    db_ev bool
| UpdateJobStatus (client_id workflow_id job_id : string) (status : JobStatus.t) : db_ev bool.

Inductive app_ev : Type → Type :=
| Redis {X} (e : redis_ev X) : app_ev X
| Db {X} (e : db_ev X) : app_ev X
| NowMs : app_ev Z          (* std::chrono::system_clock, in milliseconds *)
| RetryJitterMs : app_ev Z. (* retry_jitter_ms *)

Abbreviation app_prog := (prog app_ev).

(** A coroutine of the Redis layer, called from a service. *)
Definition redis {A} (p : redis_prog A) : app_prog A := plift (λ X e, Redis e) p.
Definition db {X} (e : db_ev X) : app_prog X := trigger (Db e).

(** [std::time(nullptr)], as a number and as text. *)
Definition app_time : app_prog Z := trigger (Redis TimeNow).
Definition now_as_string : app_prog string := let* t := app_time in Ret (to_str t).

(** ** Databases

    A database is a state with a handler for the events. *)
Class Database (D : Type) : Type := { db_exec : handler db_ev D }.

Record app_world (R D : Type) := mkApp {
  aw_redis : world R; aw_db : D; aw_ms : Z; aw_jitter : Z }.
Arguments mkApp {R D} _ _ _ _.
Arguments aw_redis {R D} _.
Arguments aw_db {R D} _.
Arguments aw_ms {R D} _.
Arguments aw_jitter {R D} _.

Section app.
Context {R D : Type} `{RedisServer R} `{Database D}.

Definition app_io : handler app_ev (app_world R D) := λ X e σ,
  match e in app_ev X return option X * app_world R D with
  | Redis e =>
      let '(x, rw) := redis_io _ e (aw_redis σ) in
      (x, mkApp rw (aw_db σ) (aw_ms σ) (aw_jitter σ))
  | Db e =>
      let '(x, d) := db_exec _ e (aw_db σ) in
      (x, mkApp (aw_redis σ) d (aw_ms σ) (aw_jitter σ))
  | NowMs => (Some (aw_ms σ), σ)
  | RetryJitterMs => (Some (aw_jitter σ), σ)
  end.

(** A Redis coroutine inside a service acts on the Redis part of the world. *)
Lemma run_redis {A} (p : redis_prog A) (σ : app_world R D) :
  run app_io (redis p) σ =
    ((run redis_io p (aw_redis σ)).1,
     mkApp (run redis_io p (aw_redis σ)).2 (aw_db σ) (aw_ms σ) (aw_jitter σ)).
Proof.
  unfold redis. revert σ. induction p as [a| |X e k IH]; intros σ; simpl; [by destruct σ..|].
  destruct (redis_io X e (aw_redis σ)) as [[x|] rw]; simpl; [|done]. by rewrite IH.
Qed.

Lemma run_db {X} (e : db_ev X) (σ : app_world R D) :
  run app_io (db e) σ =
    ((db_exec X e (aw_db σ)).1,
     mkApp (aw_redis σ) (db_exec X e (aw_db σ)).2 (aw_ms σ) (aw_jitter σ)).
Proof. simpl. by destruct (db_exec X e (aw_db σ)) as [[x|] d]. Qed.

Lemma wp_redis {A} (p : redis_prog A) (Q : A → app_world R D → Prop) (σ : app_world R D) :
  wp redis_io p (λ a rw, Q a (mkApp rw (aw_db σ) (aw_ms σ) (aw_jitter σ))) (aw_redis σ) →
  wp app_io (redis p) Q σ.
Proof. unfold wp. rewrite run_redis. by destruct (run redis_io p (aw_redis σ)) as [[a|] rw]. Qed.

Lemma wp_db {X} (e : db_ev X) (Q : X → app_world R D → Prop) (σ : app_world R D) x :
  (db_exec X e (aw_db σ)).1 = Some x →
  Q x (mkApp (aw_redis σ) (db_exec X e (aw_db σ)).2 (aw_ms σ) (aw_jitter σ)) →
  wp app_io (db e) Q σ.
Proof. intros Hx HQ. unfold wp. rewrite run_db, Hx. exact HQ. Qed.
End app.
