(* ===== verification/Calls.v ===== *)
(** * Calls of the services without network faults

    Rules for the weakest precondition of a Redis round trip, a script or a clock
    inside a service, and the programs that raise no exception. *)

From S2P Require Import Prelude.
From S2P Require Import Prog.
From S2P Require Import RedisServer.
From S2P Require Import Models.
From S2P Require Import RedisKeys.
From S2P Require Import Scripts.
From S2P Require Import RedisExec.
From S2P Require Import Database.

(** ** Programs that raise no exception *)

Fixpoint throwless {E A} (p : prog E A) : Prop :=
  match p with Ret _ => True | Throw => False | Vis e k => ∀ x, throwless (k x) end.

Lemma throwless_bind {E A B} (p : prog E A) (f : A → prog E B) :
  throwless p → (∀ a, throwless (f a)) → throwless (pbind p f).
Proof.
  intros Hp Hf. induction p as [a| |X e k IH]; simpl in *; [apply Hf|done|]. intros x. by apply IH.
Qed.

Lemma throwless_fold {E A T} (f : T → A → prog E T) l t :
  (∀ t x, throwless (f t x)) → throwless (pfold f l t).
Proof.
  intros Hf. revert t. induction l as [|x l IH]; intros t; simpl; [done|]. by apply throwless_bind.
Qed.

Section io.
Context {R : Type} `{RedisServer R}.

(** With no fault pending, none appears. *)
Lemma wp_throwless {A} (p : redis_prog A) (σ : world R) :
  throwless p → wd_faults σ = [] → wp redis_io p (λ _ σ', wd_faults σ' = []) σ.
Proof.
  unfold wp. revert σ. induction p as [a| |X e k IH]; intros σ Hp Hf; simpl in *; [done..|].
  destruct e as [c|]; simpl; [|by apply IH].
  rewrite Hf. destruct (serve c (wd_redis σ)) as [reply r']. by apply IH.
Qed.

Lemma wp_script (p : lua (list string)) (σ : world R) (Q : option (list string) → world R → Prop) :
  wd_faults σ = [] →
  wp redis_doc p (λ a s', ∀ r', redis_state r' = s' → Q (Some a) (mkWorld r' [] (wd_clock σ)))
    (redis_state (wd_redis σ)) →
  wp redis_io (execute_lua_script_async p) Q σ.
Proof.
  intros Hf (a & Ha & HQ)%redis_eval_wp. unfold wp, execute_lua_script_async, execute.
  rewrite run_trigger_bind. simpl. rewrite Hf. unfold serve.
  destruct (redis_eval p (wd_redis σ)) as [x r'] eqn:E. simpl in *. subst x. simpl. by apply HQ.
Qed.
Lemma wp_command {X} (c : redis_cmd X) (σ : world R) (Q : option RedisReply → world R → Prop) :
  wd_faults σ = [] →
  wp redis_doc (trigger c) (λ x s', ∀ r', redis_state r' = s' →
    Q (Some (reply_of c x)) (mkWorld r' [] (wd_clock σ))) (redis_state (wd_redis σ)) →
  wp redis_io (execute (Cmd c)) Q σ.
Proof.
  intros Hf (x & s' & Hr & HQ)%wp_run. unfold wp, execute. simpl in *. rewrite Hf.
  pose proof (redis_documented X c (wd_redis σ)) as Hd.
  destruct (redis_doc X c (redis_state (wd_redis σ))) as [[x'|] s'']; [|done].
  injection Hr as -> ->. injection Hd as Hx Hs. unfold serve.
  destruct (redis_exec X c (wd_redis σ)) as [y r']; simpl in *. subst y. by apply HQ.
Qed.

(** A command whose reply does not matter, an error included. *)
Lemma wp_command_any {X} (c : redis_cmd X) (σ : world R) (Q : option RedisReply → world R → Prop) :
  wd_faults σ = [] →
  (∀ reply rw, wd_faults rw = [] →
     redis_state (wd_redis rw) = (redis_doc X c (redis_state (wd_redis σ))).2 → Q reply rw) →
  wp redis_io (execute (Cmd c)) Q σ.
Proof.
  intros Hf HQ. unfold wp, execute. simpl. rewrite Hf. unfold serve.
  rewrite redis_documented in HQ. simpl in HQ.
  by destruct (redis_exec X c (wd_redis σ)) as [[x|] r']; apply HQ.
Qed.
End io.

Ltac no_throw :=
  repeat first [ exact I | apply throwless_bind; [|intros ?] | apply throwless_fold; intros ? ?
               | progress (simpl; intros) | case_match ].

Section app.
Context {R D : Type} `{RedisServer R} `{Database D}.

Lemma wp_now (σ : app_world R D) (Q : string → app_world R D → Prop) :
  Q (to_str (wd_clock (aw_redis σ))) σ → wp app_io now_as_string Q σ.
Proof. intros HQ. unfold wp. simpl. by destruct σ. Qed.

Lemma wp_ms (σ : app_world R D) (Q : Z → app_world R D → Prop) : Q (aw_ms σ) σ → wp app_io (trigger NowMs) Q σ.
Proof. done. Qed.

Lemma wp_jitter (σ : app_world R D) (Q : Z → app_world R D → Prop) :
  Q (aw_jitter σ) σ → wp app_io (trigger RetryJitterMs) Q σ.
Proof. done. Qed.

(** A coroutine of the Redis layer that raises nothing, whatever it does. *)
Lemma wp_redis_any {A} (p : redis_prog A) (σ : app_world R D) (Q : A → app_world R D → Prop) :
  throwless p → wd_faults (aw_redis σ) = [] →
  (∀ a rw, wd_faults rw = [] → Q a (mkApp rw (aw_db σ) (aw_ms σ) (aw_jitter σ))) →
  wp app_io (redis p) Q σ.
Proof.
  intros Hp Hf HQ. apply wp_redis. eapply wp_mono; [|by apply wp_throwless]. intros a rw. apply HQ.
Qed.
End app.
