(* ===== verification/RuntimeGen.v ===== *)
(** * Building and storing the runtime of a workflow

    src/workflow_runtime_generator.cpp.  [build_jobs_runtime_info] turns the
    jobs of an admitted request into runtime records and collects the jobs with
    no dependency in a set ordered by priority; [initialize_runtime_data] queues
    as many of them as the client may run at once, stores everything in Redis
    and in the database, and undoes it when a step fails.

    The UUID generator is a parameter ([uuids i] is the [i]-th UUID it returns),
    of which only uniqueness is assumed.  The order of iteration of
    [jobs_runtime_info] is the parameter of [Validation.HashOrder]. *)

From S2P Require Import Prelude.
From S2P Require Import Prog.
From S2P Require Import RedisServer.
From S2P Require Import Models.
From S2P Require Import RedisKeys.
From S2P Require Import Scripts.
From S2P Require Import RedisExec.
From S2P Require Import RedisRuntime.
From S2P Require Import Json.
From S2P Require Import Validation.
From S2P Require Import Database.
From Stdlib Require Import Sorted.

(** ** Ready jobs: [std::set<PrioritizedJob, JobPriorityComparator>] *)

Definition JobPriorityComparator (lhs rhs : PrioritizedJob) : bool :=
  if negb (pj_priority lhs =? pj_priority rhs) then pj_priority rhs <? pj_priority lhs
  else pj_job_uuid lhs <? pj_job_uuid rhs.

(** [emplace]: nothing is inserted when an equivalent element is present. *)
Fixpoint emplace (x : PrioritizedJob) (l : list PrioritizedJob) : list PrioritizedJob :=
  match l with
  | [] => [x]
  | y :: l' =>
      if JobPriorityComparator x y then x :: l
      else if JobPriorityComparator y x then y :: emplace x l'
      else l
  end.

(** ** Runtime records *)

(** The default in the source is spelled so. *)
Definition default_backoff : string := "IMMEDIAT".

Definition job_runtime_info (uuid : Z) (job : json) (p : PolicyPlan) : option JobRuntimeData :=
  job_id ← jfield "job_id" job ≫= jstr;
  depends_on ← jvalue "depends_on" (JArr []) job;
  let remaining_dependencies := to_int32 (jsize depends_on) in
  priority ← jvalue_int "priority" (pp_max_job_priority p) job;
  timeout_sec ← jvalue_int "timeout_sec" (pp_max_job_runtime_sec p) job;
  max_retries ← jvalue_int "max_retries" (pp_max_job_retries p) job;
  retry_delay_sec ← jvalue_int "retry_delay_sec" 0 job;
  retry_backoff_policy ← jvalue_str "retry_backoff_policy" default_backoff job;
  payload_size_bytes ←
    (match jfield "payload" job with
     | None | Some JNull => Some 0
     | Some v => b ← jbytes v; Some (to_int32 (Z.of_nat (String.length b)))
     end);
  let status := if remaining_dependencies =? 0 then JobStatus.READY else JobStatus.PENDING in
  Some (mkJobRuntimeData uuid job_id "" (JobStatus.to_string status) remaining_dependencies
          priority timeout_sec 0 max_retries 0 retry_delay_sec payload_size_bytes
          retry_backoff_policy []).

Definition within_policy (d : JobRuntimeData) (p : PolicyPlan) : bool :=
  negb (jr_remaining_dependencies d <? 0) &&
  negb (pp_max_job_dependencies p <? jr_remaining_dependencies d) &&
  negb (pp_max_job_priority p <? jr_priority d) &&
  negb (pp_max_job_runtime_sec p <? jr_timeout_sec d) &&
  negb (pp_max_job_retries p <? jr_max_retries d) &&
  negb (pp_max_job_retry_delay_sec p <? jr_retry_delay_sec d).

(** The loop over the jobs.  The result [false] is [Rejected] with the code the
    caller reports for it. *)
Fixpoint build_jobs (uuids : nat → Z) (i : nat) (jobs : list json) (p : PolicyPlan)
  (info : gmap string JobRuntimeData) (ready : list PrioritizedJob) :
  checked (gmap string JobRuntimeData * list PrioritizedJob) :=
  match jobs with
  | [] => Ok (info, ready)
  | job :: jobs' =>
      get (job_runtime_info (uuids i) job p) (λ d,
        let ready :=
          if jr_remaining_dependencies d =? 0
          then emplace (mkPrioritizedJob (jr_job_id d) (jr_job_uuid d) (jr_priority d)) ready
          else ready in
        if within_policy d p
        then build_jobs uuids (S i) jobs' p (<[jr_job_id d := d]> info) ready
        else Rejected StatusCodes.JOB_POLICY_VIOLATION)
  end.

Definition build_jobs_runtime_info (uuids : nat → Z) (workflow_data : json) (p : PolicyPlan) :
  checked (gmap string JobRuntimeData * list PrioritizedJob) :=
  build_jobs uuids 0 (jobs_of workflow_data) p ∅ [].

(** ** Initial placement of the ready jobs *)

Definition set_jr_status (st : JobStatus.t) (d : JobRuntimeData) : JobRuntimeData :=
  mkJobRuntimeData (jr_job_uuid d) (jr_job_id d) (jr_job_name d) (JobStatus.to_string st)
    (jr_remaining_dependencies d) (jr_priority d) (jr_timeout_sec d) (jr_start_run_time d)
    (jr_max_retries d) (jr_current_retry_count d) (jr_retry_delay_sec d)
    (jr_payload_size_bytes d) (jr_retry_backoff_policy d) (jr_successors d).

(** [queued_job_list_size]: the limit is converted to [size_t]. *)
Definition queued_size (max_concurrent_jobs : Z) (ready_count : nat) : Z :=
  let limit := max_concurrent_jobs mod 2 ^ 64 in
  if Z.of_nat ready_count <=? limit then Z.of_nat ready_count else limit.

(** The loop over the ready jobs: the queued ones, the waiting ones, the updated
    records; [None] is the exception of [at]. *)
Fixpoint place_ready (queued_job_list_size index : Z) (ready : list PrioritizedJob)
  (info : gmap string JobRuntimeData) :
  option (list PrioritizedJob * list PrioritizedJob * gmap string JobRuntimeData) :=
  match ready with
  | [] => Some ([], [], info)
  | j :: ready' =>
      if index <? queued_job_list_size then
        d ← info !! pj_job_id j;
        '(q, r, info') ← place_ready queued_job_list_size (index + 1) ready'
                           (<[pj_job_id j := set_jr_status JobStatus.QUEUED d]> info);
        Some (j :: q, r, info')
      else
        '(q, r, info') ← place_ready queued_job_list_size index ready' info;
        Some (q, j :: r, info')
  end.

(** [for (const auto& [job_id, job_data] : jobs_runtime_info)]. *)
Definition job_list `{HashOrder} (info : gmap string JobRuntimeData) : list JobRuntimeData :=
  omap (λ j, info !! j) (order "runtime" (dom info)).

Definition runtime_of `{HashOrder} (p : PolicyPlan) (wd : WorkflowData)
  (ready : list PrioritizedJob) (info : gmap string JobRuntimeData) :
  option WorkflowRuntimeInfo :=
  let n := queued_size (pp_max_concurrent_jobs p) (length ready) in
  '(queued, waiting, info') ← place_ready n 0 ready info;
  let r := wd_info wd in
  Some (mkWorkflowRuntimeInfo (mkIdentity (rq_client_id r) (rq_workflow_id r))
          (mkWorkflowRuntimeData (rq_workflow_id r) (WorkflowStatus.to_string WorkflowStatus.READY)
             (pp_max_concurrent_jobs p) n (pp_max_workflow_runtime_sec p) (wd_total_jobs wd)
             (wd_total_jobs wd - Z.of_nat (length ready)) 0 0)
          (job_list info') waiting queued).

(** The loop that stores the payloads ends with the jobs whose payload was
    stored ([added_payload_jobs]), all of them or those before the failure. *)
Inductive payload_result := PayloadsAdded (added : list string) | PayloadFailed (added : list string).

Fixpoint add_payloads (w : WorkflowIdentity) (jobs : list json) (added : list string) :
  app_prog payload_result :=
  match jobs with
  | [] => Ret (PayloadsAdded added)
  | job :: jobs' =>
      match jfield "payload" job with
      | None | Some JNull => add_payloads w jobs' added
      | Some v =>
          match jfield "job_id" job ≫= jstr, jbytes v with
          | Some job_id, Some payload =>
              let* ok := redis (set_job_payload_async w job_id payload) in
              if ok then add_payloads w jobs' (added ++ [job_id])%list
              else Ret (PayloadFailed added)
          | _, _ => Throw
          end
      end
  end.

Definition initialize_runtime_data `{HashOrder} (workflow_data : json) (p : PolicyPlan)
  (wd : WorkflowData) (ready : list PrioritizedJob) (info : gmap string JobRuntimeData) :
  app_prog bool :=
  match runtime_of p wd ready info with
  | None => Throw
  | Some rt =>
      let w := ri_identity rt in
      let* ok := redis (create_workflow_runtime_data_async rt) in
      if negb ok then Ret false
      else
        let* payloads := add_payloads w (jobs_of workflow_data) [] in
        match payloads with
        | PayloadFailed added =>
            redis (delete_all_jobs_payload_async w added) ;;
            redis (delete_workflow_runtime_data_async rt) ;;
            Ret false
        | PayloadsAdded added =>
            let* ok := db (UpdateReadyJobs (client_id w) (workflow_id w)
                             (pj_job_id <$> ri_jobs_queued_for_execution rt)
                             (pj_job_id <$> ri_ready_job_list rt)) in
            if negb ok then
              redis (delete_all_jobs_payload_async w added) ;;
              redis (delete_workflow_runtime_data_async rt) ;;
              Ret false
            else
              let* ok := redis (queue_workflow_jobs_for_execution_async w
                                  (ri_jobs_queued_for_execution rt)) in
              if negb ok then
                redis (remove_jobs_from_execution_queue_async w
                         (ri_jobs_queued_for_execution rt)) ;;
                redis (delete_all_jobs_payload_async w added) ;;
                redis (delete_workflow_runtime_data_async rt) ;;
                Ret false
              else Ret true
        end
  end.

(** ** The set of ready jobs *)

Lemma comparator_total x y :
  JobPriorityComparator x y = false → JobPriorityComparator y x = false →
  pj_job_uuid x = pj_job_uuid y ∧ pj_priority x = pj_priority y.
Proof.
  unfold JobPriorityComparator. rewrite (Z.eqb_sym (pj_priority y)).
  destruct (Z.eqb_spec (pj_priority x) (pj_priority y)); simpl; lia.
Qed.

Lemma emplace_perm x l : pj_job_uuid x ∉ pj_job_uuid <$> l → emplace x l ≡ₚ x :: l.
Proof.
  induction l as [|y l IH]; intros Hx; [done|]. cbn [emplace].
  rewrite fmap_cons, elem_of_cons in Hx.
  destruct (JobPriorityComparator x y) eqn:E1; [done|].
  destruct (JobPriorityComparator y x) eqn:E2.
  - rewrite IH by tauto. constructor.
  - destruct (comparator_total x y E1 E2). tauto.
Qed.

(** The order of the set: by priority, highest first, then by UUID. *)
Lemma comparator_trans x y z :
  JobPriorityComparator x y = true → JobPriorityComparator y z = true →
  JobPriorityComparator x z = true.
Proof.
  unfold JobPriorityComparator.
  destruct (Z.eqb_spec (pj_priority x) (pj_priority y)), (Z.eqb_spec (pj_priority y) (pj_priority z)),
    (Z.eqb_spec (pj_priority x) (pj_priority z)); simpl; lia.
Qed.

Abbreviation before := (λ x y, JobPriorityComparator x y = true).

Lemma emplace_sorted x l : StronglySorted before l → StronglySorted before (emplace x l).
Proof.
  induction 1 as [|y l Hs IH Hf]; [by repeat constructor|]. cbn [emplace].
  destruct (JobPriorityComparator x y) eqn:E1.
  - constructor; [by constructor|]. constructor; [done|].
    eapply Forall_impl; [done|]. intros z. by apply comparator_trans.
  - destruct (JobPriorityComparator y x) eqn:E2; [|by constructor].
    constructor; [done|]. apply Forall_forall. intros z Hz.
    assert (z = x ∨ z ∈ l) as [-> |Hz'].
    { clear -Hz. induction l as [|a l IH]; simpl in Hz; [set_solver|].
      destruct (JobPriorityComparator x a); [set_solver|].
      destruct (JobPriorityComparator a x); set_solver. }
    + done.
    + rewrite Forall_forall in Hf. by apply Hf.
Qed.

(** ** What building the records establishes *)

Definition init_status (deps : list string) : JobStatus.t :=
  match deps with [] => JobStatus.READY | _ => JobStatus.PENDING end.

Section built.
Context (uuids : nat → Z) (p : PolicyPlan).

Record Built (done : list (string * list string)) (i : nat)
  (info : gmap string JobRuntimeData) (ready : list PrioritizedJob) : Prop := {
  b_job : ∀ j d, info !! j = Some d → ∃ deps, (j, deps) ∈ done ∧ jr_job_id d = j ∧
    jr_remaining_dependencies d = Z.of_nat (length deps) ∧
    jr_status d = JobStatus.to_string (init_status deps) ∧
    jr_current_retry_count d = 0 ∧ jr_successors d = [] ∧ within_policy d p = true;
  b_dom : ∀ j, j ∈ done.*1 → is_Some (info !! j);
  b_ready : ∀ r, r ∈ ready → ∃ d, info !! pj_job_id r = Some d ∧
    jr_remaining_dependencies d = 0 ∧ pj_priority r = jr_priority d ∧
    ∃ i', (i' < i)%nat ∧ pj_job_uuid r = uuids i';
  b_ready_dom : ∀ j d, info !! j = Some d → jr_remaining_dependencies d = 0 →
    j ∈ pj_job_id <$> ready;
  b_nodup : NoDup (pj_job_id <$> ready);
  b_sorted : StronglySorted before ready
}.

(** The record of a job agrees with its specification. *)
Lemma job_runtime_info_spec uuid job d id deps :
  job_runtime_info uuid job p = Some d → job_spec job = Some (id, deps) →
  Z.of_nat (length deps) ≤ int_max →
  jr_job_id d = id ∧ jr_job_uuid d = uuid ∧
  jr_remaining_dependencies d = Z.of_nat (length deps) ∧
  jr_status d = JobStatus.to_string (init_status deps) ∧
  jr_current_retry_count d = 0 ∧ jr_successors d = [].
Proof.
  unfold job_runtime_info, job_spec, job_id_of_json, depends_on_of_json.
  destruct (jfield "job_id" job ≫= jstr) as [id'|]; simpl; [|done].
  destruct (jvalue "depends_on" (JArr []) job) as [v|]; simpl; [|done].
  destruct (mapM jstr (jitems v)) as [deps'|] eqn:Hm; simpl; [|intros; simplify_eq].
  intros Hd [= <- <-] Hlen. apply length_mapM in Hm.
  assert (to_int32 (jsize v) = Z.of_nat (length deps')) as Hn.
  { unfold jsize. rewrite Hm. apply to_int32_id. unfold in_int, int_min. lia. }
  rewrite Hn in Hd. repeat (case_match || (simplify_option_eq; [])).
  all: simplify_option_eq; split_and!; try done; unfold init_status; destruct deps'; try done.
Qed.

Lemma built_step done i info ready job d id deps :
  Inj (=) (=) uuids → Built done i info ready → id ∉ done.*1 →
  job_runtime_info (uuids i) job p = Some d → job_spec job = Some (id, deps) →
  Z.of_nat (length deps) ≤ int_max → within_policy d p = true →
  Built (done ++ [(id, deps)])%list (S i) (<[jr_job_id d := d]> info)
    (if jr_remaining_dependencies d =? 0
     then emplace (mkPrioritizedJob (jr_job_id d) (jr_job_uuid d) (jr_priority d)) ready
     else ready).
Proof.
  intros Hinj [] Hid Hd Hspec Hlen Hpol.
  destruct (job_runtime_info_spec _ _ _ _ _ Hd Hspec Hlen) as (Eid & Eu & Er & Est & Ec & Es).
  rewrite Eid, Eu, Er.
  assert (Hfresh : info !! id = None).
  { destruct (info !! id) as [d'|] eqn:E; [|done]. exfalso. destruct (b_job0 _ _ E) as (l & Hl & _).
    apply Hid. apply list_elem_of_fmap. by exists (id, l). }
  assert (Hnr : id ∉ pj_job_id <$> ready).
  { intros (r & -> & Hr)%list_elem_of_fmap. destruct (b_ready0 r Hr) as (? & ? & _). congruence. }
  set (x := mkPrioritizedJob id (uuids i) (jr_priority d)).
  assert (Hperm : emplace x ready ≡ₚ x :: ready).
  { apply emplace_perm. intros (r & Eq & Hr)%list_elem_of_fmap. simpl in Eq.
    destruct (b_ready0 r Hr) as (_ & _ & _ & _ & i' & Hi & Eu'). rewrite Eu' in Eq.
    apply Hinj in Eq. lia. }
  assert (Hold : ∀ r, r ∈ ready → ∃ d0, <[id := d]> info !! pj_job_id r = Some d0 ∧
      jr_remaining_dependencies d0 = 0 ∧ pj_priority r = jr_priority d0 ∧
      ∃ i', (i' < S i)%nat ∧ pj_job_uuid r = uuids i').
  { intros r Hr. destruct (b_ready0 r Hr) as (d0 & Hd0 & ? & ? & i' & ? & ?). exists d0.
    rewrite lookup_insert_ne by (intros E; rewrite <-E in Hd0; congruence). split_and!; eauto with lia. }
  split.
  - intros j d' [[<- <-]|[Hne Hj]]%lookup_insert_Some.
    + exists deps. split_and!; try done. apply elem_of_app. right. by apply list_elem_of_singleton.
    + destruct (b_job0 _ _ Hj) as (l & Hl & ?). exists l. split; [|done]. apply elem_of_app. by left.
  - intros j. rewrite fmap_app, elem_of_app, lookup_insert. case_decide; [by eauto|].
    intros [?|?%list_elem_of_singleton]; [by auto|by subst].
  - destruct (Z.eqb_spec (Z.of_nat (length deps)) 0) as [E0|E0]; [|done].
    intros r. rewrite Hperm. intros [->|Hr]%elem_of_cons; [|by auto].
    exists d. simpl. rewrite lookup_insert_eq. split_and!; try done; [by rewrite Er|]. eauto with lia.
  - intros j d' [[<- <-]|[Hne Hj]]%lookup_insert_Some H0.
    + rewrite Er in H0. rewrite H0. simpl. rewrite Hperm. apply list_elem_of_here.
    + specialize (b_ready_dom0 _ _ Hj H0). case_match; [|done]. rewrite Hperm. simpl. by right.
  - case_match; [|done]. rewrite Hperm. simpl. by apply NoDup_cons.
  - case_match; [|done]. by apply emplace_sorted.
Qed.

Lemma build_jobs_ok jobs specs done i info ready info' ready' :
  Inj (=) (=) uuids → mapM job_spec jobs = Some specs → NoDup (done ++ specs)%list.*1 →
  Forall (λ s, Z.of_nat (length s.2) ≤ int_max) specs →
  Built done i info ready → build_jobs uuids i jobs p info ready = Ok (info', ready') →
  Built (done ++ specs)%list (i + length jobs) info' ready'.
Proof.
  intros Hinj. revert specs done i info ready.
  induction jobs as [|job jobs IH]; intros specs done i info ready Hm Hnd Hlen HB Hb; simpl in *.
  { injection Hm as <-. injection Hb as <- <-. by rewrite (app_nil_r done), Nat.add_0_r. }
  destruct (job_spec job) as [[id deps]|] eqn:Hs; simpl in Hm; [|done].
  destruct (mapM job_spec jobs) as [specs'|] eqn:Hm'; simpl in Hm; [|done]. injection Hm as <-.
  apply Forall_cons in Hlen as [Hl Hlen]. simpl in Hl.
  destruct (job_runtime_info (uuids i) job p) as [d|] eqn:Hd; simpl in Hb; [|done].
  destruct (within_policy d p) eqn:Hpol; [|done].
  replace (done ++ (id, deps) :: specs')%list with ((done ++ [(id, deps)]) ++ specs')%list in *
    by (by rewrite <-app_assoc).
  replace (i + S (length jobs))%nat with (S i + length jobs)%nat by lia.
  eapply IH; [done|done|done| |done]. eapply built_step; try done.
  rewrite fmap_app in Hnd. apply NoDup_app in Hnd as (Hnd & _ & _). rewrite fmap_app in Hnd.
  apply NoDup_app in Hnd as (_ & Hnd & _). intros Hin. apply (Hnd id Hin), list_elem_of_here.
Qed.
End built.

(** ** What validation adds: the successor lists *)

Definition strip (d : JobRuntimeData) : JobRuntimeData :=
  mkJobRuntimeData (jr_job_uuid d) (jr_job_id d) (jr_job_name d) (jr_status d)
    (jr_remaining_dependencies d) (jr_priority d) (jr_timeout_sec d) (jr_start_run_time d)
    (jr_max_retries d) (jr_current_retry_count d) (jr_retry_delay_sec d)
    (jr_payload_size_bytes d) (jr_retry_backoff_policy d) [].

Lemma push_strip dep job info :
  is_Some (info !! dep) → strip <$> push_successor dep job info = strip <$> info.
Proof.
  intros [d Hd]. unfold push_successor. rewrite Hd. simpl. rewrite fmap_insert.
  apply insert_id. rewrite lookup_fmap, Hd. done.
Qed.

Lemma strip_fields d0 d :
  strip d0 = strip d →
  jr_job_id d = jr_job_id d0 ∧ jr_status d = jr_status d0 ∧
  jr_remaining_dependencies d = jr_remaining_dependencies d0 ∧ jr_priority d = jr_priority d0 ∧
  jr_current_retry_count d = jr_current_retry_count d0 ∧
  ∀ p, within_policy d p = within_policy d0 p.
Proof. destruct d0, d. unfold strip. simpl. intros [=]. by subst. Qed.

Lemma dom_strip (info info' : gmap string JobRuntimeData) :
  strip <$> info' = strip <$> info → dom info' = dom info.
Proof. intros E. rewrite <-(dom_fmap_L strip info'), E. apply dom_fmap_L. Qed.

Lemma link_dependencies_strip job deps m info m' info' :
  dom m ⊆ dom info → link_dependencies job deps m info = Ok (m', info') →
  strip <$> info' = strip <$> info ∧ dom m' = dom m.
Proof.
  revert m info. induction deps as [|dep deps IH]; intros m info Hsub; simpl; [naive_solver|].
  destruct (alter (add_incoming dep) job m !! dep) as [x|] eqn:E; [|done].
  assert (Hdep : is_Some (info !! dep)).
  { apply elem_of_dom, Hsub. apply elem_of_dom_2 in E. by rewrite dom_alter_L in E. }
  pose proof (push_strip dep job info Hdep) as Hs.
  intros [E1 E2]%IH; [|by rewrite !dom_alter_L, (dom_strip _ _ Hs)].
  by rewrite E1, E2, Hs, !dom_alter_L.
Qed.

(** ** What the request asks for *)

(** An integer of the request, or its default. *)
Definition requested_int (k : string) (d : Z) (job : json) (z : Z) : Prop :=
  match jfield k job with Some v => jint v = Some z | None => z = to_int32 d end.

(** The record of a job has what the request says of it: a priority, a time and a
    number of retries that are not given are the most the policy allows, a delay
    that is not given is none; a payload counts with its bytes. *)
Record Requested (p : PolicyPlan) (job : json) (uuid : Z) (d : JobRuntimeData) : Prop := {
  req_id : jfield "job_id" job = Some (JStr (jr_job_id d));
  req_uuid : jr_job_uuid d = uuid;
  req_priority : requested_int "priority" (pp_max_job_priority p) job (jr_priority d);
  req_timeout : requested_int "timeout_sec" (pp_max_job_runtime_sec p) job (jr_timeout_sec d);
  req_retries : requested_int "max_retries" (pp_max_job_retries p) job (jr_max_retries d);
  req_delay : requested_int "retry_delay_sec" 0 job (jr_retry_delay_sec d);
  req_backoff : match jfield "retry_backoff_policy" job with
    | Some v => v = JStr (jr_retry_backoff_policy d)
    | None => jr_retry_backoff_policy d = "IMMEDIAT"
    end;
  req_payload : match jfield "payload" job with
    | None | Some JNull => jr_payload_size_bytes d = 0
    | Some v => ∃ b, jbytes v = Some b ∧
        jr_payload_size_bytes d = to_int32 (Z.of_nat (String.length b))
    end
}.

Lemma requested_strip p job uuid d0 d :
  strip d0 = strip d → Requested p job uuid d0 → Requested p job uuid d.
Proof. destruct d0, d. unfold strip. simpl. intros [=]. subst. by intros []. Qed.

Lemma jvalue_int_requested k d job z : jvalue_int k d job = Some z → requested_int k d job z.
Proof.
  unfold jvalue_int, jvalue, requested_int, jfield. destruct job; try done. simpl.
  destruct (jlookup k fields); simpl; [done|]. by intros [= <-].
Qed.

Lemma job_runtime_info_requested uuid job p d :
  job_runtime_info uuid job p = Some d → Requested p job uuid d.
Proof.
  unfold job_runtime_info. intros Hd.
  destruct (jfield "job_id" job ≫= jstr) as [id|] eqn:Eid; simpl in Hd; [|done].
  destruct (jvalue "depends_on" (JArr []) job) as [v|]; simpl in Hd; [|done].
  destruct (jvalue_int "priority" _ job) as [pr|] eqn:Ep; simpl in Hd; [|done].
  destruct (jvalue_int "timeout_sec" _ job) as [ti|] eqn:Et; simpl in Hd; [|done].
  destruct (jvalue_int "max_retries" _ job) as [mr|] eqn:Em; simpl in Hd; [|done].
  destruct (jvalue_int "retry_delay_sec" _ job) as [de|] eqn:Ed; simpl in Hd; [|done].
  destruct (jvalue_str "retry_backoff_policy" _ job) as [bo|] eqn:Eb; simpl in Hd; [|done].
  apply bind_Some in Hd as (size & Es & [= <-]). split; simpl; try done; try (by apply jvalue_int_requested).
  - destruct (jfield "job_id" job) as [[]|]; simplify_eq/=; done.
  - unfold jvalue_str, jvalue, jfield in *. destruct job; try done. simpl in *.
    destruct (jlookup "retry_backoff_policy" fields) as [[]|]; simplify_eq/=; done.
  - destruct (jfield "payload" job) as [x|]; [|by simplify_eq/=].
    destruct x; simplify_eq/=; try done; apply bind_Some in Es as (b & Hb & [= <-]); eauto.
Qed.

Lemma job_spec_id uuid job p d s :
  job_runtime_info uuid job p = Some d → job_spec job = Some s → jr_job_id d = s.1.
Proof.
  intros Hr%job_runtime_info_requested%req_id. unfold job_spec, job_id_of_json. rewrite Hr. simpl.
  destruct (depends_on_of_json job); simpl; [|done]. by intros [= <-].
Qed.

(** Each job of the request has its record, and no other overwrites it. *)
Lemma build_jobs_records uuids i jobs p info ready info' ready' specs :
  mapM job_spec jobs = Some specs → NoDup specs.*1 →
  build_jobs uuids i jobs p info ready = Ok (info', ready') →
  (∀ k job, jobs !! k = Some job →
     ∃ d, job_runtime_info (uuids (i + k)%nat) job p = Some d ∧ info' !! jr_job_id d = Some d) ∧
  (∀ j, j ∉ specs.*1 → info' !! j = info !! j).
Proof.
  revert i info ready specs. induction jobs as [|job jobs IH]; intros i info ready specs Hm Hnd Hb; simpl in *.
  { injection Hm as <-. injection Hb as <- <-. done. }
  destruct (job_spec job) as [s|] eqn:Hs; simpl in Hm; [|done].
  destruct (mapM job_spec jobs) as [specs'|] eqn:Hm'; simpl in Hm; [|done]. injection Hm as <-.
  apply NoDup_cons in Hnd as [Hid Hnd].
  destruct (job_runtime_info (uuids i) job p) as [d|] eqn:Hd; simpl in Hb; [|done].
  destruct (within_policy d p); [|done]. pose proof (job_spec_id _ _ _ _ _ Hd Hs) as Eid.
  destruct (IH _ _ _ _ eq_refl Hnd Hb) as [Hrec Hoth]. split.
  - intros [|k] job' Hk; simpl in Hk.
    + injection Hk as <-. exists d. rewrite Nat.add_0_r. split; [done|].
      rewrite Hoth by (by rewrite Eid). apply lookup_insert_eq.
    + destruct (Hrec k job' Hk) as (d' & ? & ?). exists d'. by rewrite <-plus_n_Sm.
  - intros j Hj. rewrite fmap_cons, not_elem_of_cons in Hj. destruct Hj as [Hne Hj].
    rewrite Hoth, lookup_insert_ne; [done|congruence|done].
Qed.

Section validated.
Context `{HashOrder}.

Lemma link_jobs_strip jobs m info queue m' info' queue' :
  dom m ⊆ dom info → link_jobs jobs m info queue = Ok (m', info', queue') →
  strip <$> info' = strip <$> info.
Proof.
  revert m info queue. induction jobs as [|job jobs IH]; intros m info queue Hsub; simpl; [naive_solver|].
  destruct (link_dependencies _ _ m info) as [[m1 info1]|c|] eqn:E; simpl; [|done..].
  apply link_dependencies_strip in E as [E1 E2]; [|done].
  intros Hl%IH; [by rewrite Hl|]. by rewrite E2, (dom_strip _ _ E1).
Qed.

Lemma validate_dependencies_strip m info info' :
  dom m ⊆ dom info → validate_dependencies m info = Ok info' → strip <$> info' = strip <$> info.
Proof.
  intros Hsub. unfold validate_dependencies.
  destruct (link_jobs _ m info []) as [[[m1 info1] q]|c|] eqn:E; simpl; [|done..].
  apply link_jobs_strip in E; [|done]. repeat case_match; intros; by simplify_eq.
Qed.

(** The limits of a policy on one job. *)
Record Limited (p : PolicyPlan) (d : JobRuntimeData) : Prop := {
  lim_dependencies : 0 ≤ jr_remaining_dependencies d ≤ pp_max_job_dependencies p;
  lim_priority : jr_priority d ≤ pp_max_job_priority p;
  lim_timeout : jr_timeout_sec d ≤ pp_max_job_runtime_sec p;
  lim_retries : jr_max_retries d ≤ pp_max_job_retries p;
  lim_delay : jr_retry_delay_sec d ≤ pp_max_job_retry_delay_sec p
}.

Lemma within_policy_limited d p : within_policy d p = true → Limited p d.
Proof.
  unfold within_policy. rewrite !andb_true_iff, !negb_true_iff, !Z.ltb_ge.
  intros (((((? & ?) & ?) & ?) & ?) & ?). by split.
Qed.

(** The order in which ready jobs are taken: the higher priority first, and of two
    with the same priority the one with the smaller UUID. *)
Definition ranked (x y : PrioritizedJob) : Prop :=
  pj_priority y < pj_priority x ∨ pj_priority x = pj_priority y ∧ pj_job_uuid x < pj_job_uuid y.

Lemma before_ranked x y : JobPriorityComparator x y = true → ranked x y.
Proof.
  unfold JobPriorityComparator, ranked.
  destruct (Z.eqb_spec (pj_priority x) (pj_priority y)); simpl; lia.
Qed.

Lemma sorted_ranked l : StronglySorted before l → StronglySorted ranked l.
Proof.
  induction 1 as [|x l _ IH Hf]; [constructor|]. constructor; [done|].
  eapply Forall_impl; [exact Hf|]. intros y. apply before_ranked.
Qed.

(** The plan a validated request yields. *)
Record Planned (p : PolicyPlan) (specs : list (string * list string))
  (info : gmap string JobRuntimeData) (ready : list PrioritizedJob) : Prop := {
  pl_job : ∀ j d, info !! j = Some d → jr_job_id d = j ∧
    jr_remaining_dependencies d = Z.of_nat (length (spec_deps specs j)) ∧
    jr_status d = JobStatus.to_string (init_status (spec_deps specs j)) ∧
    jr_current_retry_count d = 0 ∧ Limited p d;
  pl_dom : ∀ j, j ∈ specs.*1 ↔ is_Some (info !! j);
  pl_ready : ∀ r, r ∈ ready → ∃ d, info !! pj_job_id r = Some d ∧
    spec_deps specs (pj_job_id r) = [] ∧ pj_priority r = jr_priority d;
  pl_ready_dom : ∀ j, j ∈ specs.*1 → spec_deps specs j = [] → j ∈ pj_job_id <$> ready;
  pl_nodup : NoDup (pj_job_id <$> ready);
  pl_sorted : StronglySorted ranked ready;
  pl_ids : NoDup specs.*1;
  pl_succ : ∀ d, NoDup (succ_list info d) ∧ ∀ j, j ∈ succ_list info d ↔ d ∈ spec_deps specs j;
  pl_deps : ∀ j, NoDup (spec_deps specs j) ∧ ∀ d, d ∈ spec_deps specs j → d ∈ specs.*1;
  pl_acyclic : acyclic (spec_map specs)
}.

Lemma spec_deps_lookup specs j l : NoDup specs.*1 → (j, l) ∈ specs → spec_deps specs j = l.
Proof. intros Hnd Hin. unfold spec_deps. by rewrite (elem_of_list_to_map_1 specs j l). Qed.

Lemma spec_deps_elem specs j d :
  d ∈ spec_deps specs j → (j, spec_deps specs j) ∈ specs.
Proof.
  unfold spec_deps. destruct (_ !! j) as [l|] eqn:E; simpl; [|set_solver].
  intros _. by apply elem_of_list_to_map_2.
Qed.

Lemma planned uuids dump_size version data p request info ready info' wd :
  Inj (=) (=) uuids → Z.of_nat (length (jobs_of data)) ≤ int_max →
  build_jobs_runtime_info uuids data p = Ok (info, ready) →
  validate_workflow dump_size version data p info request = Ok (info', wd) →
  ∃ specs, mapM job_spec (jobs_of data) = Some specs ∧ Planned p specs info' ready ∧
    wd_info wd = request ∧ wd_total_jobs wd = Z.of_nat (length specs) ∧
    ∀ i job, jobs_of data !! i = Some job →
      ∃ d, info' !! jr_job_id d = Some d ∧ Requested p job (uuids i) d.
Proof.
  intros Hinj Hlen Hb. unfold validate_workflow.
  destruct (validate_admission_client_workflow_policy _ _ _) as [[]|?|]; simpl; [|done..].
  unfold validate_semantic. destruct (semantic_loop (jobs_of data) ∅) as [m|?|] eqn:Hsem; simpl; [|done..].
  destruct (semantic_loop_specs _ _ _ Hsem) as [specs Hspecs].
  pose proof (semantic_loop_spec _ ∅ _ Hspecs) as Hwf. rewrite Hsem in Hwf.
  destruct Hwf as ([Hnd Hds] & _ & Em). change (foldl add_spec ∅ specs) with (spec_map specs) in Em. subst m.
  pose proof (validate_dependencies_spec (spec_map specs) info (spec_map_fresh _ Hnd)) as Hdep.
  destruct (validate_dependencies (spec_map specs) info) as [info1|?|] eqn:Hval; simpl; [|done..].
  destruct Hdep as (Hdef & Hac & Hsucc).
  destruct (jvalue_str "workflow_type" "" data); simpl; [|done]. intros [= <- <-].
  exists specs. split; [done|].
  assert (Hnds : ∀ j, NoDup (spec_deps specs j)).
  { intros j. destruct (spec_deps specs j) as [|x l] eqn:E; [apply NoDup_nil_2|]. rewrite <-E.
    rewrite Forall_forall in Hds. apply (Hds (j, spec_deps specs j)).
    apply (spec_deps_elem _ _ x). rewrite E. left. }
  assert (Hsub : ∀ j d, d ∈ spec_deps specs j → d ∈ specs.*1).
  { intros j d Hd. rewrite <-spec_map_dom by done. eapply (Hdef j). by apply spec_map_deps. }
  assert (Hn : length (jobs_of data) = length specs) by (by eapply length_mapM).
  assert (Hdl : Forall (λ s, Z.of_nat (length s.2) ≤ int_max) specs).
  { apply Forall_forall. intros [j l] Hjl. simpl.
    rewrite <-(spec_deps_lookup specs j l) by done.
    assert (length (spec_deps specs j) ≤ length specs.*1)%nat as Hle; [|rewrite length_fmap in Hle; lia].
    apply submseteq_length, NoDup_submseteq; [done|]. intros d. apply Hsub. }
  pose proof (build_jobs_ok uuids p (jobs_of data) specs [] 0 ∅ [] info ready Hinj Hspecs Hnd Hdl) as HB.
  destruct HB as [Hj Hd Hr Hrd Hrn Hrs]; [|done|].
  { split; try (by intros ???%lookup_empty_Some); try set_solver;
      [apply NoDup_nil_2|constructor]. }
  simpl in Hj, Hd.
  assert (Hstrip : strip <$> info1 = strip <$> info).
  { eapply validate_dependencies_strip; [|done]. intros j Hjd. apply elem_of_dom, Hd.
    by apply spec_map_dom. }
  assert (Hback : ∀ j d, info1 !! j = Some d → ∃ d0, info !! j = Some d0 ∧ strip d0 = strip d).
  { intros j d Hjd. assert ((strip <$> info1) !! j = Some (strip d)) as E by (by rewrite lookup_fmap, Hjd).
    rewrite Hstrip, lookup_fmap in E. destruct (info !! j) as [d0|]; [|done].
    exists d0. split; [done|]. by apply (inj Some). }
  assert (Hfwd : ∀ j d0, info !! j = Some d0 → ∃ d, info1 !! j = Some d ∧ strip d0 = strip d).
  { intros j d0 Hjd. assert ((strip <$> info) !! j = Some (strip d0)) as E by (by rewrite lookup_fmap, Hjd).
    rewrite <-Hstrip, lookup_fmap in E. destruct (info1 !! j) as [d|]; [|done].
    exists d. split; [done|]. symmetry. by apply (inj Some). }
  split; [|split_and!; [done|rewrite Hn; simpl; apply to_int32_id; unfold in_int, int_min; lia|]].
  2:{ intros i job Hi. destruct (proj1 (build_jobs_records _ _ _ _ _ _ _ _ _ Hspecs Hnd Hb) i job Hi) as (d0 & Hd0 & Hl).
      destruct (Hfwd _ _ Hl) as (d & Hjd & Es). exists d.
      pose proof (requested_strip _ _ _ _ _ Es (job_runtime_info_requested _ _ _ _ Hd0)) as Hreq.
      by destruct (strip_fields _ _ Es) as (-> & _). }
  split; try done; try (by apply sorted_ranked).
  - intros j d Hjd. destruct (Hback _ _ Hjd) as (d0 & Hd0 & Es).
    destruct (Hj _ _ Hd0) as (deps & Hdeps & E1 & E2 & E3 & E4 & _ & Hpol).
    rewrite (spec_deps_lookup specs j deps) by done.
    destruct (strip_fields _ _ Es) as (-> & -> & -> & _ & -> & Ew).
    split_and!; [done..|]. apply within_policy_limited. by rewrite Ew.
  - intros j. split.
    + intros [d0 Hd0]%Hd. destruct (Hfwd _ _ Hd0) as (d & -> & _). eauto.
    + intros [d Hjd]. destruct (Hback _ _ Hjd) as (d0 & Hd0 & _).
      destruct (Hj _ _ Hd0) as (deps & Hdeps & _). apply list_elem_of_fmap. by exists (j, deps).
  - intros r Hin. destruct (Hr r Hin) as (d0 & Hd0 & E0 & Ep & _). destruct (Hfwd _ _ Hd0) as (d & Hjd & Es).
    exists d. split; [done|]. destruct (Hj _ _ Hd0) as (deps & Hdeps & _ & E2 & _).
    rewrite (spec_deps_lookup specs _ deps) by done. split; [destruct deps; [done|simpl in *; lia]|].
    rewrite Ep. by destruct (strip_fields _ _ Es) as (_ & _ & _ & -> & _).
  - intros j [d0 Hd0]%Hd E0. apply (Hrd j d0 Hd0). destruct (Hj _ _ Hd0) as (deps & Hdeps & _ & E2 & _).
    rewrite (spec_deps_lookup specs _ deps) in E0 by done. by rewrite E2, E0.
  - intros d. destruct (Hsucc d) as (l & El & Hl & Hin). assert (succ_list info d = []) as E0.
    { unfold succ_list. destruct (info !! d) as [d0|] eqn:E; [|done]. simpl. by destruct (Hj _ _ E) as (? & ? & ? & ? & ? & ? & ? & ?). }
    rewrite El, E0. simpl. split; [done|]. intros j. rewrite Hin. by apply spec_map_deps.
  - intros j. split; [done|]. apply Hsub.
Qed.
End validated.
