(* ===== verification/RuntimeInit.v ===== *)
(** * The runtime a validated workflow starts with

    From [RuntimeGen.Planned] (what building and validating the records
    establishes) to the invariant of [WorkflowInv]: the keyspace that
    [initialize_runtime_data] leaves represents a view that satisfies the
    invariant, so that everything proved of reachable states holds of every
    admitted workflow. *)

From S2P Require Import Prelude.
From S2P Require Import Prog.
From S2P Require Import RedisServer.
From S2P Require Import Models.
From S2P Require Import RedisKeys.
From S2P Require Import Scripts.
From S2P Require Import WorkflowView.
From S2P Require Import WorkflowSpec.
From S2P Require Import WorkflowInv.
From S2P Require Import Interleaving.
From S2P Require Import RedisExec.
From S2P Require Import RedisRuntime.
From S2P Require Import Json.
From S2P Require Import Validation.
From S2P Require Import Database.
From S2P Require Import RuntimeGen.

(** ** Placement *)

Lemma place_ready_ok n i ready info :
  NoDup (pj_job_id <$> ready) → (∀ r, r ∈ ready → is_Some (info !! pj_job_id r)) → i ≤ n →
  ∃ info', place_ready n i ready info =
      Some (take (Z.to_nat (n - i)) ready, drop (Z.to_nat (n - i)) ready, info') ∧
    ∀ j, info' !! j =
      if decide (j ∈ pj_job_id <$> take (Z.to_nat (n - i)) ready)
      then set_jr_status JobStatus.QUEUED <$> info !! j else info !! j.
Proof.
  revert i info. induction ready as [|r ready IH]; intros i info Hnd Hin Hi.
  { exists info. cbn [place_ready]. rewrite take_nil, drop_nil. split; [done|]. intros j.
    rewrite decide_False; [done|]. apply not_elem_of_nil. }
  rewrite fmap_cons in Hnd. apply NoDup_cons in Hnd as [Hr Hnd]. cbn [place_ready].
  destruct (Z.ltb_spec i n) as [Hlt|Hge].
  - destruct (Hin r ltac:(left)) as [d Hd]. rewrite Hd. cbn [mbind option_bind].
    destruct (IH (i + 1) (<[pj_job_id r := set_jr_status JobStatus.QUEUED d]> info)) as (info' & -> & Hi'); [done| |lia|].
    { intros r' Hr'. rewrite lookup_insert. case_decide; [eauto|]. apply Hin. by right. }
    cbn [mbind option_bind]. replace (Z.to_nat (n - i)) with (S (Z.to_nat (n - (i + 1)))) by lia.
    exists info'. split; [done|]. intros j. rewrite Hi', lookup_insert. cbn [take].
    destruct (decide (j = pj_job_id r)) as [->|Hne].
    + rewrite (decide_True (P := pj_job_id r ∈ pj_job_id <$> r :: _)) by (rewrite fmap_cons; left). rewrite Hd.
      rewrite decide_False; [by rewrite decide_True|]. intros Hx. apply Hr.
      apply list_elem_of_fmap in Hx as (y & -> & Hy). apply list_elem_of_fmap.
      exists y. split; [done|]. apply list_elem_of_lookup in Hy as [i' Hi2].
      apply lookup_take_Some in Hi2 as [Hi2 _]. by eapply list_elem_of_lookup_2.
    + rewrite (decide_False (P := pj_job_id r = j)) by congruence.
      destruct (decide (j ∈ pj_job_id <$> take _ ready)) as [Hj|Hj].
      * rewrite decide_True; [done|]. rewrite fmap_cons. by right.
      * rewrite decide_False; [done|]. rewrite fmap_cons, elem_of_cons. tauto.
  - replace (n - i) with 0 in * by lia. replace i with n in * by lia.
    destruct (IH n info Hnd) as (info' & -> & Hi'); [|lia|].
    { intros r' Hr'. apply Hin. by right. }
    cbn [mbind option_bind]. replace (n - n) with 0 by lia.
    exists info'. split; [done|]. intros j. rewrite Hi'. by replace (n - n) with 0 by lia.
Qed.

(** ** The initial view *)

Definition jobv_of (d : JobRuntimeData) : jobv :=
  mkJobv (JobStatus.from_string (jr_status d)) (jr_remaining_dependencies d) (jr_priority d)
    (jr_current_retry_count d).

Definition successors_of (info : gmap string JobRuntimeData) : gmap string (list string) :=
  omap (λ d, match jr_successors d with [] => None | l => Some l end) info.

Definition init_view (w : WorkflowIdentity) (d : WorkflowRuntimeData)
  (queued waiting : list PrioritizedJob) (info : gmap string JobRuntimeData) : wview :=
  mkView
    (mkWfv WorkflowStatus.READY (wr_reserved_execution_slots d) (wr_max_concurrent_jobs d)
       (wr_total_jobs d) 0 0 (wr_pending_jobs d) (wr_max_runtime_sec d) None)
    (kmap (job_key w) (jobv_of <$> info))
    (prioritized_members w waiting) (prioritized_members w queued) ∅ (successors_of info).

Lemma prioritized_members_lookup w l k :
  is_Some (prioritized_members w l !! k) ↔ ∃ r, r ∈ l ∧ k = job_key w (pj_job_id r).
Proof.
  unfold prioritized_members.
  assert (∀ m : gmap string Z, is_Some (foldl (λ m j, <[job_key w (pj_job_id j) := pj_priority j mod 2 ^ 32]> m) m l !! k)
    ↔ is_Some (m !! k) ∨ ∃ r, r ∈ l ∧ k = job_key w (pj_job_id r)) as H.
  { induction l as [|r l IH]; intros m; simpl.
    - split; [by left|]. intros [?|(r & Hr & _)]; [done|set_solver].
    - rewrite IH, lookup_insert. case_decide as E.
      + subst k. split; [|by left; eauto]. intros _. right. exists r. split; [left|done].
      + split.
        * intros [?|(r' & ? & ?)]; [by left|]. right. exists r'. split; [by right|done].
        * intros [?|(r' & [->|?]%elem_of_cons & ?)]; [by left|done|]. right; eauto. }
  rewrite H, lookup_empty. split; [|by right]. intros [[? ?]|?]; [done|done].
Qed.

Section initial.
Context (w : WorkflowIdentity) (p : PolicyPlan).
Context (specs : list (string * list string)).
Context (info : gmap string JobRuntimeData) (ready : list PrioritizedJob).
Context (HP : Planned p specs info ready).
Context (Hmaxc : 0 ≤ pp_max_concurrent_jobs p ≤ int_max).

Local Abbreviation n := (queued_size (pp_max_concurrent_jobs p) (length ready)).
Local Abbreviation queued := (take (Z.to_nat n) ready).
Local Abbreviation waiting := (drop (Z.to_nat n) ready).
Local Abbreviation total := (Z.of_nat (length specs)).

Definition init_runtime : WorkflowRuntimeData :=
  mkWorkflowRuntimeData (workflow_id w) (WorkflowStatus.to_string WorkflowStatus.READY)
    (pp_max_concurrent_jobs p) n (pp_max_workflow_runtime_sec p) total
    (total - Z.of_nat (length ready)) 0 0.

Lemma queued_size_bounds :
  n = Z.min (Z.of_nat (length ready)) (pp_max_concurrent_jobs p).
Proof using Hmaxc.
  unfold queued_size. rewrite Z.mod_small by (unfold int_max in *; lia).
  destruct (Z.leb_spec (Z.of_nat (length ready)) (pp_max_concurrent_jobs p)); lia.
Qed.

Context (info' : gmap string JobRuntimeData).
Context (Hinfo' : ∀ j, info' !! j =
  if decide (j ∈ pj_job_id <$> queued) then set_jr_status JobStatus.QUEUED <$> info !! j
  else info !! j).

Local Abbreviation v := (init_view w init_runtime queued waiting info').

(** The status a job starts with. *)
Definition start_status (j : string) : JobStatus.t :=
  if decide (j ∈ pj_job_id <$> queued) then JobStatus.QUEUED
  else if decide (j ∈ pj_job_id <$> waiting) then JobStatus.READY else JobStatus.PENDING.

Lemma ready_split j : j ∈ pj_job_id <$> ready ↔ j ∈ pj_job_id <$> queued ∨ j ∈ pj_job_id <$> waiting.
Proof. rewrite <-(take_drop (Z.to_nat n) ready) at 1. by rewrite fmap_app, elem_of_app. Qed.

Lemma not_both j : j ∈ pj_job_id <$> queued → j ∉ pj_job_id <$> waiting.
Proof using HP.
  pose proof (pl_nodup _ _ _ _ HP) as Hnd.
  rewrite <-(take_drop (Z.to_nat n) ready), fmap_app in Hnd.
  apply NoDup_app in Hnd as (_ & Hd & _). apply Hd.
Qed.

Lemma info'_spec j d :
  info' !! j = Some d →
  ∃ d0, info !! j = Some d0 ∧ jr_job_id d = j ∧ jr_status d = JobStatus.to_string (start_status j) ∧
    jr_remaining_dependencies d = Z.of_nat (length (spec_deps specs j)) ∧
    jr_priority d = jr_priority d0 ∧ jr_current_retry_count d = 0 ∧
    jr_successors d = jr_successors d0.
Proof using HP Hinfo'.
  rewrite Hinfo'. unfold start_status. intros Hd.
  assert (∃ d0, info !! j = Some d0) as [d0 Hd0].
  { case_decide; [|eauto]. destruct (info !! j); [eauto|done]. }
  destruct (pl_job _ _ _ _ HP _ _ Hd0) as (E1 & E2 & E3 & E4 & _).
  exists d0. split; [done|]. rewrite Hd0 in Hd. case_decide as Hq; injection Hd as <-; [by split_and!|].
  split_and!; try done. rewrite E3. f_equal. unfold init_status.
  destruct (spec_deps specs j) as [|x l] eqn:El.
  - rewrite decide_True; [done|]. assert (j ∈ pj_job_id <$> ready) as [?|?]%ready_split; [|done..].
    apply (pl_ready_dom _ _ _ _ HP); [apply (pl_dom _ _ _ _ HP); eauto|done].
  - rewrite decide_False; [done|]. intros Hw.
    assert (j ∈ pj_job_id <$> ready) as (r & -> & Hr)%list_elem_of_fmap by (apply ready_split; by right).
    destruct (pl_ready _ _ _ _ HP r Hr) as (? & ? & E0 & _). congruence.
Qed.

Lemma info'_dom j : is_Some (info' !! j) ↔ j ∈ specs.*1.
Proof using HP Hinfo'.
  rewrite (pl_dom _ _ _ _ HP), Hinfo'. case_decide; [|done]. rewrite fmap_is_Some. done.
Qed.

Lemma jobs_lookup k x :
  v_jobs v !! k = Some x →
  ∃ j, k = job_key w j ∧ j ∈ specs.*1 ∧ jv_status x = start_status j ∧
    jv_deps x = Z.of_nat (length (spec_deps specs j)) ∧ is_Some (info' !! j).
Proof using HP Hinfo'.
  simpl. intros (j & -> & Hj)%lookup_kmap_Some; [|apply _].
  rewrite lookup_fmap in Hj. destruct (info' !! j) as [d|] eqn:E; simplify_eq/=.
  destruct (info'_spec _ _ E) as (d0 & _ & _ & Est & Ed & _). exists j. split_and!; try done.
  - apply info'_dom. eauto.
  - unfold jobv_of; simpl. rewrite Est. apply JobStatus_string_roundtrip.
Qed.

Lemma jobs_key j : j ∈ specs.*1 → ∃ x, v_jobs v !! job_key w j = Some x ∧ jv_status x = start_status j.
Proof using HP Hinfo'.
  intros Hj. apply info'_dom in Hj as [d Hd].
  assert (v_jobs v !! job_key w j = Some (jobv_of d)) as Hx.
  { simpl. rewrite lookup_kmap by apply _. by rewrite lookup_fmap, Hd. }
  exists (jobv_of d). split; [done|]. destruct (jobs_lookup _ _ Hx) as (j' & E%(inj (job_key w)) & _ & Hst & _).
  by rewrite E.
Qed.

Lemma ready_in j : j ∈ pj_job_id <$> ready → j ∈ specs.*1 ∧ spec_deps specs j = [].
Proof using HP.
  intros (r & -> & Hr)%list_elem_of_fmap. destruct (pl_ready _ _ _ _ HP r Hr) as (d & Hd & E & _).
  split; [apply (pl_dom _ _ _ _ HP); eauto|done].
Qed.

(** Jobs with a given property of their starting status. *)
Lemma mcnt_start (q : jobv → bool) (f : JobStatus.t → bool) l :
  (∀ x, q x = f (jv_status x)) → NoDup l → (∀ j, j ∈ l ↔ j ∈ specs.*1 ∧ f (start_status j) = true) →
  mcnt q (v_jobs v) = Z.of_nat (length l).
Proof using HP Hinfo'.
  intros Hq Hnd Hl. rewrite (mcnt_keys q (v_jobs v) (job_key w <$> l)); [by rewrite length_fmap| |].
  - by apply NoDup_fmap; [apply _|].
  - intros k. rewrite list_elem_of_fmap. split.
    + intros (j & -> & [Hj Hf]%Hl). destruct (jobs_key j Hj) as (x & Hx & Est). exists x.
      by rewrite Hq, Est.
    + intros (x & Hx & Hqx). destruct (jobs_lookup _ _ Hx) as (j & -> & Hj & Est & _).
      exists j. split; [done|]. apply Hl. by rewrite <-Est, <-Hq.
Qed.

Lemma init_size : Z.of_nat (size (v_jobs v)) = total.
Proof using HP Hinfo'.
  rewrite <-(proj2 (mcnt_full (λ _, true) (v_jobs v)) ltac:(done)).
  rewrite (mcnt_start (λ _, true) (λ _, true) specs.*1); [by rewrite length_fmap|done| |].
  - apply (pl_ids _ _ _ _ HP).
  - intros j. split; [done|by intros [? _]].
Qed.

Lemma queued_nodup : NoDup (pj_job_id <$> queued).
Proof using HP.
  pose proof (pl_nodup _ _ _ _ HP) as Hnd.
  rewrite <-(take_drop (Z.to_nat n) ready), fmap_app in Hnd. by apply NoDup_app in Hnd as (? & _ & _).
Qed.

(** The status test [q], as a test of statuses. *)
Local Abbreviation on_status q := (λ st, q (mkJobv st 0 0 0)).

Lemma init_slots : mcnt slot (v_jobs v) = n.
Proof using HP Hinfo' Hmaxc.
  rewrite (mcnt_start slot (on_status slot) (pj_job_id <$> queued)); [|done|apply queued_nodup|].
  - rewrite length_fmap, length_take, queued_size_bounds. lia.
  - intros j. unfold start_status. split.
    + intros Hj. rewrite decide_True by done. split; [|done].
      apply ready_in, ready_split. by left.
    + intros [_ Hs]. repeat case_decide; done.
Qed.

Lemma init_pending : mcnt (job_is JobStatus.PENDING) (v_jobs v) = total - Z.of_nat (length ready).
Proof using HP Hinfo'.
  pose proof (mcnt_compl (job_is JobStatus.PENDING) (v_jobs v)) as Hc. rewrite init_size in Hc.
  rewrite (mcnt_start (λ x, negb (job_is JobStatus.PENDING x))
    (on_status (λ x, negb (job_is JobStatus.PENDING x))) (pj_job_id <$> ready)) in Hc; [|done| |].
  - rewrite length_fmap in Hc. lia.
  - apply (pl_nodup _ _ _ _ HP).
  - intros j. rewrite ready_split. unfold start_status. split.
    + intros Hj. split; [by apply ready_in, ready_split|].
      destruct Hj; [by rewrite decide_True|]. case_decide; [done|]. by rewrite decide_True.
    + intros [_ Hs]. repeat case_decide; auto. done.
Qed.

Lemma init_terminal : mcnt terminal (v_jobs v) = 0.
Proof using HP Hinfo'.
  apply mcnt_none. intros k x Hx. destruct (jobs_lookup _ _ Hx) as (j & _ & _ & Est & _).
  unfold terminal. rewrite Est. unfold start_status. by repeat case_decide.
Qed.

Lemma init_dropped : mcnt dropped (v_jobs v) = 0.
Proof using HP Hinfo'.
  apply mcnt_none. intros k x Hx. destruct (jobs_lookup _ _ Hx) as (j & _ & _ & Est & _).
  unfold dropped. rewrite Est. unfold start_status. by repeat case_decide.
Qed.

Lemma init_counts : Counts v 0 0.
Proof using HP Hinfo' Hmaxc.
  pose proof queued_size_bounds as Hn.
  split; try done; cbn [v_wf init_view w_status w_reserved w_maxc w_completed w_pending w_total w_start
    wr_max_concurrent_jobs wr_reserved_execution_slots wr_pending_jobs wr_total_jobs init_runtime].
  - by left.
  - rewrite init_slots. lia.
  - intros _. rewrite init_slots, init_dropped. lia.
  - intros _. by rewrite init_dropped.
  - intros _. by rewrite init_terminal.
  - intros _. by rewrite init_pending.
  - by rewrite init_size.
  - intros _. split; [done|]. intros k x Hx. destruct (jobs_lookup _ _ Hx) as (j & _ & _ & -> & _).
    unfold start_status. by repeat case_decide.
Qed.

Lemma member_status l j :
  is_Some (prioritized_members w l !! job_key w j) ↔ j ∈ pj_job_id <$> l.
Proof.
  rewrite prioritized_members_lookup, list_elem_of_fmap. split.
  - intros (r & Hr & E%(inj (job_key w))). by exists r.
  - intros (r & -> & Hr). by exists r.
Qed.

Lemma init_queues : Queues w v ∅ ∅.
Proof using HP Hinfo' Hmaxc.
  assert (Hk : ∀ k, k ∈ dom (v_jobs v) → ∃ j, k = job_key w j).
  { intros k [x Hx]%elem_of_dom. destruct (jobs_lookup _ _ Hx) as (j & -> & _). eauto. }
  assert (Hmem : ∀ l k, is_Some (prioritized_members w l !! k) →
    ∃ j, k = job_key w j ∧ j ∈ pj_job_id <$> l).
  { intros l k H. pose proof H as (r & _ & ->)%prioritized_members_lookup.
    exists (pj_job_id r). split; [done|]. by apply member_status. }
  split; try done; try set_solver.
  - intros k Hw%elem_of_dom. destruct (Hmem waiting k Hw) as (j & -> & Hj).
    assert (j ∈ pj_job_id <$> ready) as [Hs _]%ready_in by (apply ready_split; by right).
    apply elem_of_dom. destruct (jobs_key j Hs) as (x & -> & _). eauto.
  - intros _ k x Hx. destruct (jobs_lookup _ _ Hx) as (j & -> & _ & -> & _).
    change (v_waiting v) with (prioritized_members w waiting). rewrite member_status. unfold start_status. split.
    + intros Hj. rewrite decide_False; [by rewrite decide_True|]. intros Hq. by eapply not_both.
    + repeat case_decide; done.
  - intros k [He|He]; [|set_solver]. destruct (Hmem queued k He) as (j & -> & Hj).
    assert (j ∈ pj_job_id <$> ready) as [Hs _]%ready_in by (apply ready_split; by left).
    destruct (jobs_key j Hs) as (x & Hx & Est). exists x. split; [done|]. left. rewrite Est.
    unfold start_status. by rewrite decide_True.
  - intros _ k x Hx Hq. left. destruct (jobs_lookup _ _ Hx) as (j & -> & _ & Est & _).
    rewrite Est in Hq. unfold start_status in Hq.
    change (v_exec v) with (prioritized_members w queued). rewrite member_status.
    repeat case_decide; done.
  - intros k [[? He]|He]; [|set_solver].
    change (v_retry v) with (∅ : gmap string Z) in He. by rewrite lookup_empty in He.
  - intros _ k x Hx Hq. destruct (jobs_lookup _ _ Hx) as (j & -> & _ & Est & _).
    rewrite Est in Hq. unfold start_status in Hq. repeat case_decide; done.
Qed.

Lemma succ_lookup d l :
  successors_of info' !! d = Some l → l = succ_list info d ∧ l ≠ [] ∧ d ∈ specs.*1.
Proof using HP Hinfo' Hmaxc.
  unfold successors_of. rewrite lookup_omap_Some. intros (x & Hx & Hd).
  destruct (info'_spec _ _ Hd) as (d0 & Hd0 & _ & _ & _ & _ & _ & Es).
  unfold succ_list. rewrite Hd0. simpl. rewrite <-Es.
  split_and!; [| |apply info'_dom; eauto]; destruct (jr_successors x); simplify_eq/=; done.
Qed.

Lemma succ_lookup_rev d j : d ∈ spec_deps specs j → ∃ l, successors_of info' !! d = Some l ∧ j ∈ l.
Proof using HP Hinfo' Hmaxc.
  intros Hd. assert (d ∈ specs.*1) as [x Hx]%info'_dom by (by eapply (pl_deps _ _ _ _ HP)).
  destruct (info'_spec _ _ Hx) as (d0 & Hd0 & _ & _ & _ & _ & _ & Es).
  apply (pl_succ _ _ _ _ HP) in Hd. unfold succ_list in Hd. rewrite Hd0 in Hd. simpl in Hd.
  rewrite <-Es in Hd. exists (jr_successors x). split; [|done].
  unfold successors_of. rewrite lookup_omap, Hx. simpl. destruct (jr_successors x); [set_solver|done].
Qed.

Lemma init_indeg j : indeg (successors_of info') j = Z.of_nat (length (spec_deps specs j)).
Proof using HP Hinfo' Hmaxc.
  unfold indeg. rewrite (mcnt_msum _ (λ l, bool_decide (j ∈ l))).
  - apply mcnt_keys; [apply (pl_deps _ _ _ _ HP)|]. intros d. split.
    + intros (l & Hl & Hj)%succ_lookup_rev. exists l. split; [done|]. by apply bool_decide_eq_true.
    + intros (l & (-> & _ & _)%succ_lookup & Hj%bool_decide_eq_true). by apply (pl_succ _ _ _ _ HP).
  - intros d l (-> & _ & _)%succ_lookup. unfold occ. destruct (pl_succ _ _ _ _ HP d) as [Hnd _].
    case_bool_decide as Hj.
    + apply (cnt_nodup _ _ j); [done| |done]. intros x _. rewrite String.eqb_eq. naive_solver.
    + apply cnt_zero. intros x Hx. apply String.eqb_neq. by intros <-.
Qed.

Lemma init_deps : Deps w (successors_of info') v [].
Proof using HP Hinfo' Hmaxc.
  assert (Hin : ∀ j, j ∈ specs.*1 → job_key w j ∈ dom (v_jobs v)).
  { intros j Hj. apply elem_of_dom. destruct (jobs_key j Hj) as (x & -> & _). eauto. }
  split.
  - intros d l (-> & _ & Hd)%succ_lookup. split; [by apply Hin|]. apply Forall_forall.
    intros j Hj. apply Hin. apply (pl_succ _ _ _ _ HP) in Hj. apply spec_deps_elem in Hj.
    apply list_elem_of_fmap. by eexists (j, _).
  - intros _ j x Hx. destruct (jobs_lookup _ _ Hx) as (j' & E%(inj (job_key w)) & Hj & Est & Ed & _).
    subst j'. change (v_succ v) with (successors_of info'). rewrite init_indeg.
    change (occ j []) with 0. unfold job_is. rewrite Est, Ed.
    assert (start_status j = JobStatus.PENDING ↔ spec_deps specs j ≠ []) as Hst.
    { unfold start_status. split.
      - intros Hs E. assert (j ∈ pj_job_id <$> ready) as [?|?]%ready_split
          by (by apply (pl_ready_dom _ _ _ _ HP)); repeat case_decide; done.
      - intros Hne. rewrite decide_False; [rewrite decide_False; [done|]|];
          intros Hr; apply Hne, ready_in, ready_split; [by right|by left]. }
    split_and!.
    + case_bool_decide as Hb; [lia|]. destruct (spec_deps specs j) eqn:El; [done|].
      exfalso. apply Hb, Hst. done.
    + intros Hs. apply Hst in Hs. destruct (spec_deps specs j); [done|]. simpl. lia.
    + rewrite bool_decide_false; [done|]. unfold start_status. repeat case_decide; done.
Qed.

Lemma init_inv : Inv w (successors_of info') (mkSys v ∅ ∅ ∅).
Proof using HP Hinfo' Hmaxc.
  split; simpl.
  - apply init_counts.
  - apply init_queues.
  - intros k t Ht. by rewrite lookup_empty in Ht.
  - apply init_deps.
Qed.
End initial.

(** ** Storing it in Redis *)

(** With no fault pending, a round trip is the documented command. *)
Lemma wp_execute c reply s s' clk Q :
  serve c s = (Some reply, s') → Q (Some reply) (mkWorld s' [] clk) →
  wp redis_io (execute c) Q (mkWorld s [] clk).
Proof. intros E HQ. unfold wp, execute, trigger. simpl. by rewrite E. Qed.

Section store.
Context (w : WorkflowIdentity) (clk : Z).

Local Abbreviation W s := (mkWorld s [] clk).

Lemma wp_set_workflow_runtime d s (Q : bool → world rstate → Prop) :
  look s (workflow_key w) = None →
  (∀ s', hash_at s' (workflow_key w) = Some (hset_fields (workflow_runtime_fields (to_str clk) d) ∅) →
     (∀ k, k ≠ workflow_key w → look s' k = look s k) → r_clock s' = r_clock s → Q true (W s')) →
  wp redis_io (set_workflow_runtime_async w d) Q (W s).
Proof.
  intros Hnone HQ. unfold set_workflow_runtime_async. apply wp_bind. unfold time_now.
  eapply wp_event; [done|]. unfold execute_hset_command_async.
  unfold workflow_runtime_fields at 1. fold (workflow_runtime_fields (to_str clk) d).
  apply wp_bind. eapply wp_execute.
  { simpl. unfold hash_at. rewrite Hnone. done. }
  apply wp_ret. apply HQ; [apply hash_at_put| |done]. intros k Hk. by apply look_put_ne.
Qed.

Lemma wp_set_job_runtime d s (Q : bool → world rstate → Prop) :
  look s (job_key w (jr_job_id d)) = None → look s (successors_key w (jr_job_id d)) = None →
  (∀ s', hash_at s' (job_key w (jr_job_id d)) = Some (hset_fields (job_runtime_fields d) ∅) →
     list_at s' (successors_key w (jr_job_id d)) = Some (jr_successors d) →
     (∀ k, k ≠ job_key w (jr_job_id d) → k ≠ successors_key w (jr_job_id d) → look s' k = look s k) →
     r_clock s' = r_clock s → Q true (W s')) →
  wp redis_io (set_job_runtime_async w d) Q (W s).
Proof.
  intros Hj Hs HQ. unfold set_job_runtime_async. apply wp_bind.
  unfold execute_hset_command_async. unfold job_runtime_fields at 1. fold (job_runtime_fields d).
  apply wp_bind. eapply wp_execute.
  { simpl. unfold hash_at. rewrite Hj. done. }
  apply wp_ret. cbn [negb].
  set (s1 := put _ _ s).
  assert (Hs1 : look s1 (successors_key w (jr_job_id d)) = None) by (unfold s1; rewrite look_put_ne; [done|key_ne]).
  destruct (jr_successors d) as [|x l] eqn:El.
  - apply wp_ret, HQ; [apply hash_at_put|unfold list_at; by rewrite Hs1| |done].
    intros k Hk _. by apply look_put_ne.
  - unfold execute_list_add_command_async. apply wp_bind. eapply wp_execute.
    { simpl. unfold list_at. rewrite Hs1. done. }
    apply wp_ret, HQ; [|apply list_at_put| |done].
    + erewrite hash_at_look; [apply hash_at_put|]. apply look_put_ne. key_ne.
    + intros k Hk Hk'. rewrite look_put_ne by done. by apply look_put_ne.
Qed.

Definition job_stored (s : rstate) (d : JobRuntimeData) : Prop :=
  hash_at s (job_key w (jr_job_id d)) = Some (hset_fields (job_runtime_fields d) ∅) ∧
  list_at s (successors_key w (jr_job_id d)) = Some (jr_successors d).

Lemma wp_set_all_jobs jobs s (Q : bool → world rstate → Prop) :
  NoDup (jr_job_id <$> jobs) →
  (∀ d, d ∈ jobs → look s (job_key w (jr_job_id d)) = None ∧
                   look s (successors_key w (jr_job_id d)) = None) →
  (∀ s', Forall (job_stored s') jobs →
     (∀ k, (∀ d, d ∈ jobs → k ≠ job_key w (jr_job_id d) ∧ k ≠ successors_key w (jr_job_id d)) →
        look s' k = look s k) →
     r_clock s' = r_clock s → Q true (W s')) →
  wp redis_io (set_all_jobs w jobs) Q (W s).
Proof.
  revert s. induction jobs as [|d jobs IH]; intros s Hnd Hf HQ; simpl.
  { apply wp_ret, HQ; try done. }
  rewrite fmap_cons in Hnd. apply NoDup_cons in Hnd as [Hd Hnd].
  destruct (Hf d ltac:(left)) as [Hfj Hfs].
  apply wp_bind. apply wp_set_job_runtime; [done..|]. intros s1 Hh Hl Hlook Hclk.
  assert (Hne : ∀ d', d' ∈ jobs → jr_job_id d' ≠ jr_job_id d).
  { intros d' Hd' E. apply Hd. rewrite <-E. by apply list_elem_of_fmap_2. }
  apply IH; [done| |].
  - intros d' Hd'. specialize (Hne d' Hd'). destruct (Hf d' ltac:(by right)) as [? ?].
    rewrite !Hlook; try done; try key_ne; by intros E%(inj _).
  - intros s2 Hst Hl2 Hc2. apply HQ.
    + constructor; [|done]. split.
      * erewrite hash_at_look; [done|]. apply Hl2. intros d' Hd'. split; [|key_ne].
        intros E%(inj _). by eapply Hne.
      * erewrite list_at_look; [done|]. apply Hl2. intros d' Hd'. split; [key_ne|].
        intros E%(inj _). by eapply Hne.
    + intros k Hk. rewrite Hl2 by (intros d' Hd'; apply Hk; by right).
      destruct (Hk d ltac:(left)). by apply Hlook.
    + by rewrite Hc2.
Qed.

(** ZADD NX of the members of a map. *)
Lemma zadd_nx_lookup l (z : gmap string Z) k :
  zadd_nx l z !! k = 
    match z !! k with Some p => Some p | None => (list_to_map l : gmap string Z) !! k end.
Proof.
  revert z. induction l as [|[k' p'] l IH]; intros z.
  - simpl. by destruct (z !! k).
  - unfold zadd_nx in *. cbn [foldl fst snd list_to_map foldr]. rewrite IH, lookup_insert.
    destruct (z !! k') as [q|] eqn:E; [|rewrite lookup_insert].
    + destruct (z !! k) eqn:Ek; [done|]. rewrite decide_False; [done|congruence].
    + case_decide as Hk; [subst; by rewrite E|]. done.
Qed.

Lemma zadd_nx_map (m z : gmap string Z) k :
  zadd_nx (map_to_list m) z !! k = match z !! k with Some p => Some p | None => m !! k end.
Proof. by rewrite zadd_nx_lookup, list_to_map_to_list. Qed.

Lemma wp_zset_enqueue K m z s (Q : bool → world rstate → Prop) :
  zset_at s K = Some z →
  (∀ s' z', zset_at s' K = Some z' →
     (∀ k, z' !! k = match z !! k with Some p => Some p | None => m !! k end) →
     (∀ k, k ≠ K → look s' k = look s k) → r_clock s' = r_clock s → Q true (W s')) →
  wp redis_io (execute_zset_enqueue_command_async K m) Q (W s).
Proof.
  intros Hz HQ. unfold execute_zset_enqueue_command_async. case_decide as Hm.
  - apply wp_ret. apply (HQ s z); try done. intros k. rewrite Hm, lookup_empty. by case_match.
  - apply wp_bind. eapply wp_execute.
    { simpl. rewrite Hz. done. }
    apply wp_ret. eapply HQ; [apply zset_at_put|apply zadd_nx_map| |by apply clock_put_zset].
    intros k Hk. by apply look_put_zset_ne.
Qed.

Lemma wp_set_job_payload j v s (Q : bool → world rstate → Prop) :
  (∀ s', look s' (payload_key w j) = Some (RStr v) →
     (∀ k, k ≠ payload_key w j → look s' k = look s k) → r_clock s' = r_clock s → Q true (W s')) →
  wp redis_io (set_job_payload_async w j v) Q (W s).
Proof.
  intros HQ. unfold set_job_payload_async, execute_set_command_async. apply wp_bind.
  eapply wp_execute; [done|]. apply wp_ret. simpl. apply HQ; [| |done].
  - rewrite look_put_ttl by done. by rewrite decide_True.
  - intros k Hk. rewrite look_put_ttl by done. by rewrite decide_False.
Qed.
End store.

(** ** From the stored runtime to the view *)

(** None of the workflow's keys exists, and none of its jobs is queued. *)
Definition fresh_keys (w : WorkflowIdentity) (ids : list string) (s : rstate) : Prop :=
  look s (workflow_key w) = None ∧ look s (workflow_waiting_jobs_key w) = None ∧
  (∀ j, j ∈ ids → look s (job_key w j) = None ∧ look s (successors_key w j) = None) ∧
  ∀ K, K = EXECUTION_QUEUE_KEY ∨ K = JOB_RETRY_STREAM_KEY →
    ∃ z, zset_at s K = Some z ∧ ∀ j, j ∈ ids → z !! job_key w j = None.

Definition own_key (w : WorkflowIdentity) (ids : list string) (k : string) : Prop :=
  k = workflow_key w ∨ k = workflow_waiting_jobs_key w ∨ k = EXECUTION_QUEUE_KEY ∨
  (∃ j, j ∈ ids ∧ (k = job_key w j ∨ k = successors_key w j)).

(** The keyspace holds the runtime of the workflow. *)
Record stored (w : WorkflowIdentity) (clk : Z) (d : WorkflowRuntimeData)
  (jobs : list JobRuntimeData) (waiting : gmap string Z) (s : rstate) : Prop := {
  st_wf : hash_at s (workflow_key w) =
            Some (hset_fields (workflow_runtime_fields (to_str clk) d) ∅);
  st_jobs : Forall (job_stored w s) jobs;
  st_waiting : zset_at s (workflow_waiting_jobs_key w) = Some waiting }.

Section represent.
Context (w : WorkflowIdentity) (clk : Z).
Local Abbreviation W s := (mkWorld s [] clk).

Lemma zset_eq (z z' m : gmap string Z) :
  z = ∅ → (∀ k, z' !! k = match z !! k with Some p => Some p | None => m !! k end) → z' = m.
Proof. intros -> H. apply map_eq. intros k. by rewrite H, lookup_empty. Qed.

Lemma wp_create rt s (Q : bool → world rstate → Prop) :
  ri_identity rt = w → NoDup (jr_job_id <$> ri_jobs rt) →
  fresh_keys w (jr_job_id <$> ri_jobs rt) s →
  (∀ s', stored w clk (ri_workflow rt) (ri_jobs rt)
           (prioritized_members w (ri_ready_job_list rt)) s' →
     (∀ k, k ≠ workflow_key w → k ≠ workflow_waiting_jobs_key w →
        (∀ d, d ∈ ri_jobs rt → k ≠ job_key w (jr_job_id d) ∧ k ≠ successors_key w (jr_job_id d)) →
        look s' k = look s k) →
     r_clock s' = r_clock s → Q true (W s')) →
  wp redis_io (create_workflow_runtime_data_async rt) Q (W s).
Proof.
  intros Ew Hnd (Hf1 & Hf2 & Hf3 & _) HQ. unfold create_workflow_runtime_data_async. rewrite Ew.
  apply wp_bind, wp_set_workflow_runtime; [done|]. intros s1 Hh1 Hl1 Hc1. cbn [negb].
  apply wp_bind, wp_set_all_jobs; [done| |].
  { intros d Hd. destruct (Hf3 (jr_job_id d)) as [? ?]; [by apply list_elem_of_fmap_2|].
    rewrite !Hl1 by key_ne. done. }
  intros s2 Hst2 Hl2 Hc2. cbn [negb].
  assert (Hw2 : zset_at s2 (workflow_waiting_jobs_key w) = Some ∅).
  { unfold zset_at. rewrite Hl2 by (intros; split; key_ne). rewrite Hl1 by key_ne. by rewrite Hf2. }
  assert (Hfin : wp redis_io
    (match ri_ready_job_list rt with
     | [] => Ret true
     | _ => create_workflow_waiting_ready_jobs w (ri_ready_job_list rt)
     end) (λ ok σ, ok = true ∧ ∃ s3, σ = W s3 ∧
        zset_at s3 (workflow_waiting_jobs_key w) = Some (prioritized_members w (ri_ready_job_list rt)) ∧
        (∀ k, k ≠ workflow_waiting_jobs_key w → look s3 k = look s2 k) ∧ r_clock s3 = r_clock s2) (W s2)).
  { destruct (ri_ready_job_list rt) as [|r l]; [apply wp_ret; split; [done|]; by exists s2|].
    unfold create_workflow_waiting_ready_jobs. eapply wp_zset_enqueue; [done|].
    intros s3 z3 Hz3 Hm3 Hl3 Hc3. split; [done|]. exists s3. split_and!; try done.
    rewrite Hz3. f_equal. by eapply zset_eq. }
  apply wp_bind. eapply wp_mono; [|exact Hfin]. intros ok σ (-> & s3 & -> & Hz3 & Hl3 & Hc3).
  cbn [negb]. apply wp_ret, HQ; [split| |congruence].
  - erewrite hash_at_look; [exact Hh1|]. rewrite Hl3 by key_ne. apply Hl2. intros; split; key_ne.
  - eapply Forall_impl; [exact Hst2|]. intros d [Hj Hs].
    split; [erewrite hash_at_look|erewrite list_at_look]; try done; apply Hl3; key_ne.
  - done.
  - intros k Hk1 Hk2 Hk3. rewrite Hl3, Hl2, Hl1; done.
Qed.

(** Payloads are kept under keys of their own. *)
Lemma wp_add_payloads jobs added s {D} `{Database D} (d : D) ms jit (Q : payload_result → app_world rstate D → Prop) :
  Forall (λ job, is_Some (jfield "job_id" job ≫= jstr) ∧
                 (jfield "payload" job = None ∨ jfield "payload" job = Some JNull ∨
                  is_Some (jfield "payload" job ≫= jbytes))) jobs →
  (∀ s' added', (∀ k, (∀ j, k ≠ payload_key w j) → look s' k = look s k) → r_clock s' = r_clock s →
     Q (PayloadsAdded added') (mkApp (W s') d ms jit)) →
  wp app_io (add_payloads w jobs added) Q (mkApp (W s) d ms jit).
Proof.
  revert added s. induction jobs as [|job jobs IH]; intros added s Hf HQ; simpl.
  { apply wp_ret, HQ; done. }
  apply Forall_cons in Hf as [[Hid Hpl] Hf]. destruct Hid as [id Hid].
  destruct (jfield "payload" job) as [v|]; [|by apply IH].
  assert (Hgo : ∀ b, wp app_io
    (let* ok := redis (set_job_payload_async w id b) in
     if ok then add_payloads w jobs (added ++ [id])%list else Ret (PayloadFailed added)) Q
    (mkApp (W s) d ms jit)).
  { intros b. apply wp_bind, wp_redis, wp_set_job_payload. intros s1 _ Hl1 Hc1. apply IH; [done|].
    intros s' added' Hl' Hc'. apply HQ; [|congruence]. intros k Hk. rewrite Hl' by done. by apply Hl1. }
  rewrite Hid. destruct Hpl as [?|[[= ->]|[b Hb]]]; [done|by apply IH|]. simpl in Hb. rewrite Hb.
  destruct v; try apply Hgo. by apply IH.
Qed.

Lemma wp_queue_jobs jobs s z :
  zset_at s EXECUTION_QUEUE_KEY = Some z →
  wp redis_io (queue_workflow_jobs_for_execution_async w jobs)
    (λ ok σ, ok = true ∧ ∃ s' z', σ = W s' ∧ zset_at s' EXECUTION_QUEUE_KEY = Some z' ∧
       (∀ k, z' !! k = match z !! k with Some q => Some q | None => prioritized_members w jobs !! k end) ∧
       (∀ k, k ≠ EXECUTION_QUEUE_KEY → look s' k = look s k)) (W s).
Proof.
  intros Hz. unfold queue_workflow_jobs_for_execution_async. case_decide as Hm.
  - apply wp_ret. split; [done|]. exists s, z. split_and!; try done. intros k.
    rewrite Hm, lookup_empty. by case_match.
  - eapply wp_zset_enqueue; [done|]. intros s3 z3 H1 H2 H3 _. split; [done|]. by exists s3, z3.
Qed.

Lemma stored_frame d jobs waiting s s' :
  stored w clk d jobs waiting s → (∀ k, (∀ j, k ≠ payload_key w j) → look s' k = look s k) →
  stored w clk d jobs waiting s'.
Proof.
  intros [Hwf Hjobs Hwait] Hl. split.
  - erewrite hash_at_look; [done|]. apply Hl. intros; key_ne.
  - eapply Forall_impl; [exact Hjobs|]. intros x [Hx1 Hx2].
    split; [erewrite hash_at_look|erewrite list_at_look]; try done; apply Hl; intros; key_ne.
  - erewrite zset_at_look; [done|]. apply Hl. intros; key_ne.
Qed.

(** The fields written for the workflow and for a job. *)
Lemma init_wf_fields d :
  wr_status d = WorkflowStatus.to_string WorkflowStatus.READY →
  wf_fields (hset_fields (workflow_runtime_fields (to_str clk) d) ∅)
    (mkWfv WorkflowStatus.READY (wr_reserved_execution_slots d) (wr_max_concurrent_jobs d)
       (wr_total_jobs d) 0 0 (wr_pending_jobs d) (wr_max_runtime_sec d) None).
Proof.
  intros Est. unfold wf_fields, hset_fields, workflow_runtime_fields. simpl. rewrite Est.
  split_and!; by simplify_map_eq.
Qed.

Lemma init_job_fields d st :
  jr_status d = JobStatus.to_string st →
  job_fields (hset_fields (job_runtime_fields d) ∅) (jobv_of d).
Proof.
  intros Est. unfold job_fields, hset_fields, job_runtime_fields, jobv_of. simpl. rewrite Est.
  rewrite JobStatus_string_roundtrip. split_and!; by simplify_map_eq.
Qed.
End represent.

(** ** The whole initialization *)

Section initialize.
Context `{HashOrder} {D : Type} `{Database D}.

Lemma job_list_ids info :
  (∀ j d, info !! j = Some d → jr_job_id d = j) →
  jr_job_id <$> job_list info = order "runtime" (dom info).
Proof.
  intros Hid. unfold job_list.
  assert (∀ l : list string, (∀ j, j ∈ l → is_Some (info !! j)) →
    jr_job_id <$> omap (λ j, info !! j) l = l) as Hgo.
  { induction l as [|j l IH]; intros Hl; [done|]. simpl.
    destruct (Hl j ltac:(left)) as [d Hd]. rewrite Hd. rewrite fmap_cons, (Hid j d Hd). f_equal.
    apply IH. intros j' Hj'. apply Hl. by right. }
  apply Hgo. intros j Hj. apply elem_of_dom. by rewrite elem_of_order in Hj.
Qed.

Lemma job_list_elem info d : d ∈ job_list info ↔ ∃ j, info !! j = Some d.
Proof.
  unfold job_list. rewrite list_elem_of_omap. split.
  - intros (j & _ & Hj). eauto.
  - intros [j Hj]. exists j. split; [|done]. rewrite elem_of_order. by eapply elem_of_dom_2.
Qed.

(** A record that could be built has an id and a payload that can be stored. *)
Lemma build_jobs_parsed uuids i jobs p info ready res :
  build_jobs uuids i jobs p info ready = Ok res →
  Forall (λ job, is_Some (jfield "job_id" job ≫= jstr) ∧
                 (jfield "payload" job = None ∨ jfield "payload" job = Some JNull ∨
                  is_Some (jfield "payload" job ≫= jbytes))) jobs.
Proof.
  revert i info ready. induction jobs as [|job jobs IH]; intros i info ready; cbn [build_jobs]; [constructor|].
  destruct (job_runtime_info (uuids i) job p) as [d|] eqn:Hd; simpl; [|done].
  destruct (within_policy d p); [|done]. intros Hb. constructor; [|by eapply IH]. clear Hb.
  unfold job_runtime_info in Hd.
  destruct (jfield "job_id" job ≫= jstr) as [id|]; [|done]. split; [by eauto|].
  destruct (jfield "payload" job) as [v|]; [|by left]. right.
  destruct v; [by left|right; simpl in *; simplify_option_eq; by eauto..].
Qed.

Context (w : WorkflowIdentity) (p : PolicyPlan) (specs : list (string * list string)).
Context (info info' : gmap string JobRuntimeData) (ready : list PrioritizedJob).
Context (HP : Planned p specs info ready).
Context (Hmaxc : 0 ≤ pp_max_concurrent_jobs p ≤ int_max).
Local Abbreviation n := (queued_size (pp_max_concurrent_jobs p) (length ready)).
Context (Hinfo' : ∀ j, info' !! j =
  if decide (j ∈ pj_job_id <$> take (Z.to_nat n) ready)
  then set_jr_status JobStatus.QUEUED <$> info !! j else info !! j).

Local Abbreviation rtd := (init_runtime w p specs ready).
Local Abbreviation v := (init_view w rtd (take (Z.to_nat n) ready) (drop (Z.to_nat n) ready) info').
Definition init_jobs : gset string := dom (v_jobs v).

Lemma init_jobs_elem k : k ∈ init_jobs ↔ ∃ j, j ∈ specs.*1 ∧ k = job_key w j.
Proof using HP Hinfo' Hmaxc.
  unfold init_jobs. rewrite elem_of_dom. split.
  - intros [x Hx]. eapply jobs_lookup in Hx as (j & -> & Hj & _); [|done..]. eauto.
  - intros (j & Hj & ->). eapply (jobs_key w p specs) in Hj as (x & Hx & _); [|done..]. eauto.
Qed.

(** The keyspace after the jobs have been queued represents the initial view. *)
Lemma init_rep clk s0 s s' z :
  fresh_keys w specs.*1 s0 →
  stored w clk rtd (job_list info') (prioritized_members w (drop (Z.to_nat n) ready)) s →
  (∀ k, k ∉ init_jobs → (∀ j, j ∈ specs.*1 → k ≠ successors_key w j) → k ≠ workflow_key w →
     k ≠ workflow_waiting_jobs_key w → (∀ j, k ≠ payload_key w j) → look s k = look s0 k) →
  zset_at s' EXECUTION_QUEUE_KEY = Some z →
  (∀ k, z !! k = match default ∅ (zset_at s EXECUTION_QUEUE_KEY) !! k with
                 | Some q => Some q
                 | None => prioritized_members w (take (Z.to_nat n) ready) !! k end) →
  (∀ k, k ≠ EXECUTION_QUEUE_KEY → look s' k = look s k) →
  Rep w init_jobs s' s' v.
Proof using HP Hinfo' Hmaxc.
  intros (Hf1 & Hf2 & Hf3 & Hf4) [Hwf Hjobs Hwait] Hold Hz' Hz Hl'.
  assert (Hsame : ∀ K, K = EXECUTION_QUEUE_KEY ∨ K = JOB_RETRY_STREAM_KEY → look s K = look s0 K).
  { intros K HK. apply Hold; [|by destruct HK as [-> | ->]; intros; key_ne..].
    intros (j & _ & E)%init_jobs_elem. revert E. destruct HK as [-> | ->]; key_ne. }
  assert (Hjob : ∀ j d, info' !! j = Some d → jr_job_id d = j ∧ job_stored w s d).
  { intros j d Hd. split; [by edestruct (info'_spec p specs) as (? & ? & ? & _)|].
    rewrite Forall_forall in Hjobs. apply Hjobs, job_list_elem. eauto. }
  split; try done.
  - intros k (j & _ & ->)%init_jobs_elem. eauto.
  - eexists. split; [|by apply init_wf_fields]. erewrite hash_at_look; [done|]. apply Hl'. key_ne.
  - intros k x Hx. simpl in Hx. apply lookup_kmap_Some in Hx as (j & -> & Hj); [|apply _].
    rewrite lookup_fmap in Hj. destruct (info' !! j) as [d|] eqn:Ed; simplify_eq/=.
    destruct (Hjob _ _ Ed) as [Ej [Hh _]].
    eexists. split; [|eapply init_job_fields; by edestruct (info'_spec p specs) as (? & ? & ? & ? & _)].
    erewrite hash_at_look; [by rewrite <-Ej|]. apply Hl'. key_ne.
  - erewrite zset_at_look; [done|]. apply Hl'. key_ne.
  - split.
    { intros k Hk%elem_of_dom. simpl in Hk. apply prioritized_members_lookup in Hk as (r & Hr & ->).
      apply init_jobs_elem. exists (pj_job_id r). split; [|done]. eapply ready_in; [done|].
      rewrite <-(take_drop (Z.to_nat n) ready), fmap_app, elem_of_app. left. by apply list_elem_of_fmap_2. }
    exists z, z. split_and!; try done. intros k (j & Hj & ->)%init_jobs_elem. rewrite Hz.
    destruct (Hf4 EXECUTION_QUEUE_KEY) as (z0 & Hz0 & Hnone); [by left|].
    rewrite (zset_at_look s0 s) by (apply Hsame; by left). rewrite Hz0. simpl. by rewrite Hnone.
  - split; [done|]. destruct (Hf4 JOB_RETRY_STREAM_KEY) as (z0 & Hz0 & Hnone); [by right|].
    assert (zset_at s' JOB_RETRY_STREAM_KEY = Some z0) as Hz1.
    { erewrite zset_at_look; [done|]. rewrite Hl' by key_ne. apply Hsame. by right. }
    exists z0, z0. split_and!; try done. intros k (j & Hj & ->)%init_jobs_elem.
    rewrite Hnone by done. done.
  - intros j (j' & Hj & E%(inj (job_key w)))%init_jobs_elem. subst j'.
    apply (info'_dom p specs info ready HP info' Hinfo') in Hj as [d Hd].
    destruct (Hjob _ _ Hd) as [Ej [_ Hs]].
    erewrite list_at_look; [|apply Hl'; key_ne]. rewrite <-Ej at 1. rewrite Hs. f_equal.
    unfold succ_of. change (v_succ v) with (successors_of info'). unfold successors_of.
    rewrite lookup_omap, Hd. simpl. by destruct (jr_successors d).
Qed.
End initialize.

Section admitted.
Context `{HashOrder} {D : Type} `{Database D}.

(** The identity of a request's workflow. *)
Definition identity_of (r : RequestData) : WorkflowIdentity :=
  mkIdentity (rq_client_id r) (rq_workflow_id r).

Lemma successors_of_eq info info' :
  (∀ j, succ_list info' j = succ_list info j) → successors_of info' = successors_of info.
Proof.
  intros Hs. apply map_eq. intros j. specialize (Hs j). unfold succ_list, successors_of in *.
  rewrite !lookup_omap. destruct (info' !! j), (info !! j); simpl in *; by rewrite ?Hs, <-?Hs.
Qed.

(** Initialization of a planned workflow on fresh keys, when the database records
    the ready jobs: it succeeds, and the keyspace satisfies the invariant. *)
Lemma initialize_good data p wd specs info ready s clk (d : D) ms jit :
  Planned p specs info ready → 0 ≤ pp_max_concurrent_jobs p ≤ int_max →
  wd_total_jobs wd = Z.of_nat (length specs) →
  Forall (λ job, is_Some (jfield "job_id" job ≫= jstr) ∧
                 (jfield "payload" job = None ∨ jfield "payload" job = Some JNull ∨
                  is_Some (jfield "payload" job ≫= jbytes))) (jobs_of data) →
  fresh_keys (identity_of (wd_info wd)) specs.*1 s →
  (∀ q r, (db_exec _ (UpdateReadyJobs (rq_client_id (wd_info wd)) (rq_workflow_id (wd_info wd)) q r) d).1
            = Some true) →
  wp app_io (initialize_runtime_data data p wd ready info)
    (λ ok σ, ok = true ∧ ∃ s', aw_redis σ = mkWorld s' [] clk ∧
       Good (identity_of (wd_info wd))
         (set_map (job_key (identity_of (wd_info wd))) (list_to_set specs.*1 : gset string))
         (successors_of info) (mkC s' ∅ ∅ ∅))
    (mkApp (mkWorld s [] clk) d ms jit).
Proof.
  intros HP Hmaxc Htot Hpl Hfresh Hdb. set (w := identity_of (wd_info wd)) in *.
  unfold initialize_runtime_data, runtime_of.
  set (n := queued_size (pp_max_concurrent_jobs p) (length ready)).
  destruct (place_ready_ok n 0 ready info) as (info' & -> & Hinfo').
  { apply (pl_nodup _ _ _ _ HP). }
  { intros r Hr. destruct (pl_ready _ _ _ _ HP r Hr) as (x & -> & _). eauto. }
  { unfold n. rewrite (queued_size_bounds p ready Hmaxc). lia. }
  rewrite Z.sub_0_r in *. cbn [mbind option_bind].
  rewrite Htot. change (mkIdentity _ _) with w.
  change (mkWorkflowRuntimeData _ _ _ _ _ _ _ _ _) with (init_runtime w p specs ready).
  cbn [ri_identity ri_jobs_queued_for_execution ri_ready_job_list].
  assert (Hids : ∀ j x, info' !! j = Some x → jr_job_id x = j).
  { intros j x Hx. by edestruct (info'_spec p specs) as (? & ? & ? & _). }
  assert (Hel : ∀ x, x ∈ job_list info' → jr_job_id x ∈ specs.*1).
  { intros x [j Hj]%job_list_elem. rewrite (Hids _ _ Hj).
    apply (info'_dom p specs info ready HP info' Hinfo'). eauto. }
  assert (HJ : init_jobs w p specs info' ready = set_map (job_key w) (list_to_set specs.*1 : gset string)).
  { apply set_eq. intros k. rewrite (init_jobs_elem w p specs info info' ready HP Hmaxc Hinfo').
    set_solver. }
  apply wp_bind, wp_redis. eapply wp_create; [done| | |].
  { cbn [ri_jobs]. rewrite job_list_ids by done. apply NoDup_order. }
  { cbn [ri_jobs]. destruct Hfresh as (? & ? & Hj & Hz).
    assert (∀ j, j ∈ jr_job_id <$> job_list info' → j ∈ specs.*1) as Hsub.
    { intros j (x & -> & Hx)%list_elem_of_fmap. by apply Hel. }
    split_and!; [done..|by auto|]. intros K HK. destruct (Hz K HK) as (z & ? & ?). exists z. auto. }
  cbn [ri_jobs ri_ready_job_list ri_workflow]. intros s1 Hst1 Hl1 Hc1. cbn [negb aw_db aw_ms aw_jitter].
  apply wp_bind. apply wp_add_payloads; [done|]. intros s2 added Hl2 Hc2.
  apply wp_bind. eapply wp_db; [apply Hdb|]. cbn [negb aw_db aw_ms aw_jitter aw_redis].
  assert (Hex : look s2 EXECUTION_QUEUE_KEY = look s EXECUTION_QUEUE_KEY).
  { rewrite Hl2 by (intros; key_ne). apply Hl1; [key_ne..|intros; split; key_ne]. }
  destruct (Hfresh) as (_ & _ & _ & Hz). destruct (Hz EXECUTION_QUEUE_KEY ltac:(by left)) as (z0 & Hz0 & _).
  assert (Hz2 : zset_at s2 EXECUTION_QUEUE_KEY = Some z0) by (by rewrite (zset_at_look s s2)).
  apply wp_bind, wp_redis. cbn [aw_redis aw_db aw_ms aw_jitter].
  eapply wp_mono; [|by eapply wp_queue_jobs]. intros ok σ (-> & s3 & z3 & -> & Hz3 & Hm3 & Hl3).
  cbn [negb]. apply wp_ret. split; [done|]. exists s3. cbn [aw_redis]. split; [done|].
  rewrite <-HJ, <-(successors_of_eq info info').
  2: { intros j. unfold succ_list. rewrite Hinfo'. case_decide; [|done]. by destruct (info !! j). }
  exists (init_view w (init_runtime w p specs ready) (take (Z.to_nat n) ready)
    (drop (Z.to_nat n) ready) info'). split; [|by eapply init_inv].
  eapply (init_rep w p specs info info' ready HP Hmaxc Hinfo' clk s s2 s3 z3); try done.
  - by eapply stored_frame.
  - intros k HkJ Hks Hkw Hkr Hkp. rewrite Hl2 by done. apply Hl1; try done. intros x Hx.
    specialize (Hel x Hx). split; [|by apply Hks]. intros ->. apply HkJ.
    apply (init_jobs_elem w p specs info info' ready HP Hmaxc Hinfo'). eauto.
  - intros k. rewrite Hz2. apply Hm3.
Qed.
End admitted.
