(* ===== verification/RedisAdmission.v ===== *)
(** * Request admission in Redis

    src/redis_db_async_admission.cpp: the request key that detects duplicate
    requests, the per-second rate buckets of a client, the set of its active
    workflows, and the script that checks all three atomically. *)

From S2P Require Import Prelude.
From S2P Require Import Prog.
From S2P Require Import RedisServer.
From S2P Require Import Models.
From S2P Require Import RedisKeys.
From S2P Require Import Scripts.
From S2P Require Import RedisExec.

(** ** Keys *)

Definition request_key (client_id request_id : string) : string :=
  "fp:req:" +:+ client_id +:+ ":" +:+ request_id.
Definition active_workflows_key (client_id : string) : string :=
  "fp:active:" +:+ client_id +:+ ":workflows".
Definition rate_key (client_id : string) (epoch : Z) : string :=
  "fp:rate:" +:+ client_id +:+ ":" +:+ to_str epoch.

(** ** The admission script *)

(** [reject(reason)]. *)
Definition reject_lua (request_key rejected_status reason : string) : lua (list string) :=
  call (SET request_key rejected_status SetXX KeepTtl) ;;
  Ret ["0"; reason].

(** One round of the loop over the window: an unreadable bucket raises. *)
Definition add_bucket (client_id : string) (server_epoch : Z) (total i : Z) : lua Z :=
  let* v := call (GET (rate_key client_id (server_epoch - i))) in
  match tonumber (default "0" v) with
  | Some value => Ret (total + value)
  | None => Throw
  end.

Definition admit_request_lua (request_key active_workflows_key : string)
  (max_active_workflows max_requests window : Z)
  (workflow_id client_id received_status rejected_status : string) (key_ttl : Z) :
  lua (list string) :=
  let* request_set := call (SET request_key received_status SetNX (ExSec key_ttl)) in
  if negb request_set then Ret ["0"; "duplicate"]
  else
    let* server_epoch := time_sec in
    let rate_key_server_time := rate_key client_id server_epoch in
    let* current_rate := call (INCR rate_key_server_time) in
    (if current_rate =? 1
     then call (EXPIRE rate_key_server_time (window + 1)) ;; Ret tt else Ret tt) ;;
    let* total := pfold (add_bucket client_id server_epoch) (seqZ 1 (window - 1)) current_rate in
    if max_requests <? total then
      call (DECR rate_key_server_time) ;;
      reject_lua request_key rejected_status "rate_limit"
    else
      let* added := call (SADD active_workflows_key workflow_id) in
      if added =? 1 then
        let* final_active_count := call (SCARD active_workflows_key) in
        if max_active_workflows <? final_active_count then
          call (SREM active_workflows_key workflow_id) ;;
          call (DECR rate_key_server_time) ;;
          reject_lua request_key rejected_status "active_limit"
        else Ret ["1"; "ok"]
      else
        call (DECR rate_key_server_time) ;;
        reject_lua request_key rejected_status "duplicate_workflow".

(** ** Operations *)

Definition request_exists_async (client_id request_id : string) : redis_prog bool :=
  let* v := execute_integer_command_async (Cmd (EXISTS (request_key client_id request_id))) in
  Ret match v with Some n => 0 <? n | None => false end.

Definition reserve_request_id_async (client_id request_id : string) : redis_prog bool :=
  execute_set_command_async (request_key client_id request_id) "VALIDATING" 900 true.

Definition release_request_id_async (client_id request_id : string) : redis_prog bool :=
  let* v := execute_integer_command_async (Cmd (DEL (request_key client_id request_id))) in
  Ret (bool_decide (is_Some v)).

(** [false] comes with the reason. *)
Definition can_accept_request_async (client_id : string)
  (max_active_workflows max_requests window_seconds : Z) : redis_prog (bool * string) :=
  let* active := execute_integer_command_async (Cmd (SCARD (active_workflows_key client_id))) in
  let active_count_value := default 0 active in
  if max_active_workflows <=? active_count_value
  then Ret (false, "Client exceeded the maximum allowed concurrent workflows.")
  else
    let* epoch := time_now in
    let keys := (λ i, rate_key client_id (epoch - i)) <$> seqZ 0 window_seconds in
    let* counts := execute_mget_command_async keys in
    let total_requests :=
      foldl (λ total value, if str_empty value then total else total + default 0 (stoll value))
        0 (default [] counts) in
    if max_requests <=? total_requests
    then Ret (false, "Rate limit exceeded: too many workflow requests in the recent time window.")
    else Ret (true, "").

Definition admit_request_async (key_retention_ttl : Z) (client_id request_id workflow_id : string)
  (max_active_workflows max_requests window_seconds : Z) : redis_prog (bool * StatusCodes.t) :=
  let* lua_values := execute_lua_script_async
    (admit_request_lua (request_key client_id request_id) (active_workflows_key client_id)
       max_active_workflows max_requests window_seconds workflow_id client_id
       (RequestStatus.to_string RequestStatus.RECEIVED)
       (RequestStatus.to_string RequestStatus.REJECTED) key_retention_ttl) in
  Ret match lua_values with
      | Some (status :: detail :: _) =>
          if str_empty status then (false, StatusCodes.INTERNAL_DB_FAILURE)
          else if String.eqb status "1" then (true, StatusCodes.REQUEST_ADMITTED)
          else
            (false,
             if String.eqb detail "duplicate" then StatusCodes.DUPLICATE_REQUEST
             else if String.eqb detail "rate_limit" then StatusCodes.RATE_LIMIT_EXCEEDED
             else if String.eqb detail "active_limit"
             then StatusCodes.CONCURRENT_WORKFLOW_LIMIT_EXCEEDED
             else if String.eqb detail "duplicate_workflow" then StatusCodes.WORKFLOW_ID_EXISTS
             else StatusCodes.INTERNAL_DB_FAILURE)
      | _ => (false, StatusCodes.INTERNAL_DB_FAILURE)
      end.

(** [RedisDatabaseAsync::update_request_status_async]. *)
Definition update_request_status_async (client_id request_id status : string) :
  redis_prog bool :=
  execute_set_command_async (request_key client_id request_id) status 900 false.

Definition fetch_request_status_async (client_id request_id : string) :
  redis_prog (option string) :=
  execute_bulk_string_command_async (Cmd (GET (request_key client_id request_id))).

Definition remove_active_workflow_async (client_id workflow_id : string) : redis_prog bool :=
  let* v := execute_integer_command_async
    (Cmd (SREM (active_workflows_key client_id) workflow_id)) in
  Ret match v with Some n => 0 <? n | None => false end.

(** ** What the script promises *)

Inductive admission := Duplicate | RateLimited | DuplicateWorkflow | ActiveLimited | Accepted.

(** [total]: the requests counted in the window before this one. *)
Definition decide_admission (present : bool) (total : Z) (active : gset string)
  (workflow_id : string) (max_active_workflows max_requests : Z) : admission :=
  if present then Duplicate
  else if max_requests <? total + 1 then RateLimited
  else if decide (workflow_id ∈ active) then DuplicateWorkflow
  else if max_active_workflows <? Z.of_nat (size active) + 1 then ActiveLimited
  else Accepted.

Definition admission_reply (a : admission) : list string :=
  match a with
  | Duplicate => ["0"; "duplicate"] | RateLimited => ["0"; "rate_limit"]
  | DuplicateWorkflow => ["0"; "duplicate_workflow"] | ActiveLimited => ["0"; "active_limit"]
  | Accepted => ["1"; "ok"]
  end.

Definition admission_code (a : admission) : bool * StatusCodes.t :=
  match a with
  | Duplicate => (false, StatusCodes.DUPLICATE_REQUEST)
  | RateLimited => (false, StatusCodes.RATE_LIMIT_EXCEEDED)
  | DuplicateWorkflow => (false, StatusCodes.WORKFLOW_ID_EXISTS)
  | ActiveLimited => (false, StatusCodes.CONCURRENT_WORKFLOW_LIMIT_EXCEEDED)
  | Accepted => (true, StatusCodes.REQUEST_ADMITTED)
  end.

(** The number of requests in a bucket: a missing bucket is empty. *)
Definition bucket (s : rstate) (k : string) : option Z :=
  o ← str_at s k; redis_int (default "0" o).

(** The rate state of a client: [f i] requests were counted [i] seconds ago. *)
Definition buckets (s : rstate) (client_id : string) (epoch window : Z) (f : Z → Z) : Prop :=
  ∀ i, 0 ≤ i → i < Z.max 1 window →
    bucket s (rate_key client_id (epoch - i)) = Some (f i) ∧ - 2 ^ 52 ≤ f i ≤ 2 ^ 52.

Definition window_total (window : Z) (f : Z → Z) : Z :=
  f 0 + foldl (λ total i, total + f i) 0 (seqZ 1 (window - 1)).

(** ** Proof of the promise *)

Section admission_script.
Context (cid rid wid : string) (s0 : rstate).

Local Abbreviation rk := (request_key cid rid).
Local Abbreviation ak := (active_workflows_key cid).
Local Abbreviation epoch := (r_clock s0 `div` 1000000).
Local Abbreviation tk := (rate_key cid epoch).

Ltac akey_ne :=
  let H := fresh in intros H; unfold request_key, active_workflows_key, rate_key in H;
  autorewrite with str in H; discriminate H.

(** A state the script can be in: the request key holds [rv], the current
    bucket counts [n], the active set is [A], all else is as in [s0]. *)
Record Adm (s : rstate) (rv : option rvalue) (n : Z) (A : gset string) : Prop := {
  a_req : look s rk = rv;
  a_rate : bucket s tk = Some n;
  a_active : set_at s ak = Some A;
  a_clock : r_clock s = r_clock s0;
  a_frame : ∀ k, k ≠ rk → k ≠ tk → k ≠ ak → look s k = look s0 k }.

Lemma bucket_look s s' k : look s' k = look s k → bucket s' k = bucket s k.
Proof. unfold bucket, str_at. by intros ->. Qed.

Lemma wp_set_req s rv n A v c t Q :
  Adm s rv n A → (if t is ExSec m then 0 < m else True) →
  (if c is SetXX then is_Some rv else True) → (if c is SetNX then rv = None else True) →
  (∀ s', Adm s' (Some (RStr v)) n A → Q true s') →
  wp redis_doc (call (SET rk v c t)) Q s.
Proof.
  intros [Hr Hb Ha Hc Hf] Ht Hx Hn HQ. unfold wp; simpl. rewrite Hr.
  replace (if t is ExSec n0 then n0 <=? 0 else false) with false by (destruct t; [done|lia|done]).
  replace (match c with SetAlways => _ | SetNX => _ | SetXX => _ end) with true
    by (destruct c; [done|by rewrite Hn|by destruct Hx as [? ->]]).
  assert (Hl : ∀ k', look (put_ttl rk (RStr v) (expiry s t rk) s) k' =
    if decide (rk = k') then Some (RStr v) else look s k').
  { intros k'. apply look_put_ttl. unfold expiry. destruct t; [done|lia|].
    unfold ttl_at. destruct (r_keys s !! rk) as [[v0 [t0|]]|]; try done. unfold live; simpl.
    destruct (r_clock s <? t0) eqn:E; [done|done]. }
  apply HQ. split.
  - rewrite Hl. by rewrite decide_True.
  - rewrite (bucket_look s); [done|]. rewrite Hl. rewrite decide_False; [done|akey_ne].
  - erewrite set_at_look; [done|]. rewrite Hl, decide_False; [done|akey_ne].
  - done.
  - intros k Hk ? ?. rewrite Hl, decide_False by congruence. by apply Hf.
Qed.

Lemma adm_put_rate s rv n A m v :
  Adm s rv n A → redis_int v = Some m → Adm (put tk (RStr v) s) rv m A.
Proof.
  intros [Hr Hb Ha Hc Hf] Hv. split; try done.
  - rewrite look_put_ne; [done|akey_ne].
  - unfold bucket, str_at. rewrite look_put_eq. simpl. done.
  - erewrite set_at_look; [done|]. apply look_put_ne. akey_ne.
  - intros k ? ? ?. rewrite look_put_ne by congruence. by apply Hf.
Qed.

Lemma wp_incr_rate s rv n A m c Q :
  Adm s rv n A → - 2 ^ 53 ≤ n ≤ 2 ^ 53 → - 2 ^ 53 ≤ m ≤ 2 ^ 53 →
  (c = INCR tk ∧ m = 1 ∨ c = DECR tk ∧ m = -1) →
  (∀ s', Adm s' rv (n + m) A → Q (n + m) s') → wp redis_doc (call c) Q s.
Proof.
  intros HA Hn Hm Hc HQ. pose proof (a_rate _ _ _ _ HA) as Hb. unfold bucket in Hb.
  assert (in_int64 (n + m) = true) as Hin by (unfold in_int64, int64_min, int64_max; lia).
  assert (incr_by tk m s = (Some (n + m), put tk (RStr (to_str (n + m))) s)) as E.
  { unfold incr_by. destruct (str_at s tk) as [o|]; simpl in Hb; [|done]. rewrite Hb. by rewrite Hin. }
  destruct Hc as [[-> ->]|[-> ->]]; unfold wp; simpl; rewrite E; apply HQ;
    (eapply adm_put_rate; [done|by apply redis_int_to_str]).
Qed.

Lemma wp_expire_rate s rv n A w Q :
  Adm s rv n A → 0 < w → (∀ r s', Adm s' rv n A → Q r s') →
  wp redis_doc (call (EXPIRE tk w)) Q s.
Proof.
  intros HA Hw HQ. pose proof HA as [Hr Hb Ha Hc Hf]. unfold wp; simpl.
  destruct (look s tk) as [v|] eqn:El; [|by apply HQ].
  replace (w <=? 0) with false by lia. apply HQ.
  assert (Hl : ∀ k', look (put_ttl tk v (Some (r_clock s + w * 1000000)) s) k' =
    if decide (tk = k') then Some v else look s k') by (intros; apply look_put_ttl; lia).
  split; try done.
  - rewrite Hl, decide_False; [done|akey_ne].
  - rewrite (bucket_look s); [done|]. rewrite Hl, decide_True; done.
  - erewrite set_at_look; [done|]. rewrite Hl, decide_False; [done|akey_ne].
  - intros k ? ? ?. rewrite Hl, decide_False by congruence. by apply Hf.
Qed.

Lemma adm_put_active s rv n A B : Adm s rv n A → Adm (put_set ak B s) rv n B.
Proof.
  intros [Hr Hb Ha Hc Hf]. split.
  - rewrite look_put_set_ne; [done|akey_ne].
  - rewrite (bucket_look s); [done|]. apply look_put_set_ne. akey_ne.
  - apply set_at_put.
  - by rewrite clock_put_set.
  - intros k ? ? ?. rewrite look_put_set_ne by congruence. by apply Hf.
Qed.

Lemma window_loop s rv n A w f acc :
  Adm s rv n A → buckets s0 cid epoch w f →
  wp redis_doc (pfold (add_bucket cid epoch) (seqZ 1 (w - 1)) acc)
    (λ total s', s' = s ∧ total = foldl (λ t i, t + f i) acc (seqZ 1 (w - 1))) s.
Proof.
  intros HA Hb. assert (Hi : ∀ i, i ∈ seqZ 1 (w - 1) → 0 < i < Z.max 1 w) by (intros i ?%elem_of_seqZ; lia).
  revert acc Hi. induction (seqZ 1 (w - 1)) as [|i l IH]; intros acc Hi; [done|].
  simpl. apply wp_bind. unfold add_bucket at 1. apply wp_bind.
  assert (0 < i < Z.max 1 w) as Hii by (apply Hi; left).
  destruct (Hb i) as [Hbi _]; [lia..|].
  rewrite <-(bucket_look s0 s) in Hbi.
  2: { apply (a_frame _ _ _ _ HA); [akey_ne| |akey_ne]. unfold rate_key. intros E.
       do 3 apply string_app_inv_l in E. apply (inj to_str) in E. lia. }
  unfold bucket in Hbi. destruct (str_at s (rate_key cid (epoch - i))) as [o|] eqn:Eo; simpl in Hbi; [|done].
  eapply wp_event; [simpl; by rewrite Eo|].
  apply redis_int_Some in Hbi as [Hbi _]. rewrite Hbi, tonumber_to_str. apply wp_ret.
  apply IH. intros j Hj. apply Hi. by right.
Qed.

Lemma foldl_add_acc (f : Z → Z) l a : foldl (λ t i, t + f i) a l = a + foldl (λ t i, t + f i) 0 l.
Proof.
  revert a. induction l as [|i l IH]; intros a; simpl; [lia|]. rewrite IH, (IH (0 + f i)). lia.
Qed.

Context (max_active max_req w ttl : Z) (f : Z → Z) (A : gset string).
Local Abbreviation outcome :=
  (decide_admission (bool_decide (is_Some (look s0 rk))) (window_total w f) A wid max_active max_req).
Local Abbreviation received := (RequestStatus.to_string RequestStatus.RECEIVED).
Local Abbreviation rejected := (RequestStatus.to_string RequestStatus.REJECTED).

(** The state after the script. *)
Definition admitted_state (a : admission) (s' : rstate) : Prop :=
  match a with
  | Duplicate => s' = s0
  | Accepted => Adm s' (Some (RStr received)) (f 0 + 1) ({[wid]} ∪ A)
  | _ => Adm s' (Some (RStr rejected)) (f 0) A
  end.

Lemma wp_reject s v n B reason Q :
  Adm s (Some v) n B →
  (∀ s', Adm s' (Some (RStr rejected)) n B → Q ["0"; reason] s') →
  wp redis_doc (reject_lua rk rejected reason) Q s.
Proof.
  intros HA HQ. unfold reject_lua. apply wp_bind. eapply wp_set_req; [done..|]. intros s' HA'.
  by apply wp_ret, HQ.
Qed.

Lemma admit_request_spec :
  0 ≤ w → 0 < ttl → buckets s0 cid epoch w f → set_at s0 ak = Some A →
  wp redis_doc
    (admit_request_lua rk ak max_active max_req w wid cid received rejected ttl)
    (λ r s', r = admission_reply outcome ∧ admitted_state outcome s') s0.
Proof.
  intros Hw Httl Hb HA0. unfold admit_request_lua.
  destruct (Hb 0) as [Hb0 Hf0]; [lia..|]. rewrite Z.sub_0_r in Hb0.
  assert (HA : Adm s0 (look s0 rk) (f 0) A) by (split; done).
  unfold decide_admission. destruct (look s0 rk) as [v|] eqn:Hreq.
  { apply wp_bind. eapply wp_event.
    { simpl. rewrite Hreq. replace (ttl <=? 0) with false by lia. done. }
    simpl. by apply wp_ret. }
  rewrite bool_decide_false by (intros [? ?]; done).
  apply wp_bind. eapply wp_set_req; [done..|]. intros s1 H1. cbn [negb].
  apply wp_bind. unfold time_sec. apply wp_bind. eapply wp_event; [done|]. apply wp_ret.
  rewrite (a_clock _ _ _ _ H1). cbn [fst]. cbn zeta.
  apply wp_bind. eapply wp_incr_rate; [done|lia|shelve|left; done|]. Unshelve. 2: lia.
  clear s1 H1. intros s1 H1.
  apply wp_bind. eapply (wp_mono _ _ (λ _ s', Adm s' (Some (RStr received)) (f 0 + 1) A)).
  2: { destruct (_ =? 1); [|by apply wp_ret]. apply wp_bind. eapply wp_expire_rate; [done|lia|].
       intros _ s2 H2. by apply wp_ret. }
  clear s1 H1. intros _ s2 H2.
  apply wp_bind. eapply wp_mono; [|by eapply window_loop]. intros total s' [-> ->].
  rewrite foldl_add_acc. replace (f 0 + 1 + _) with (window_total w f + 1) by (unfold window_total; lia).
  destruct (max_req <? window_total w f + 1).
  { apply wp_bind. eapply (wp_incr_rate _ _ _ _ (-1)); [done|lia|lia|by right|]. intros s3 H3.
    eapply wp_reject; [done|]. intros s4 H4. split; [done|]. simpl.
    by replace (f 0) with (f 0 + 1 + -1) by lia. }
  apply wp_bind. eapply wp_event; [simpl; by rewrite (a_active _ _ _ _ H2)|].
  destruct (decide (wid ∈ A)) as [Hin|Hin]; cbn [Z.eqb].
  { apply wp_bind. replace ({[wid]} ∪ A) with A by set_solver.
    eapply (wp_incr_rate _ _ _ _ (-1)); [by eapply adm_put_active|lia|lia|by right|]. intros s3 H3.
    eapply wp_reject; [done|]. intros s4 H4. split; [done|]. simpl.
    by replace (f 0) with (f 0 + 1 + -1) by lia. }
  pose proof (adm_put_active _ _ _ _ ({[wid]} ∪ A) H2) as H3.
  apply wp_bind. eapply wp_event; [simpl; by rewrite set_at_put|].
  assert (Z.of_nat (size ({[wid]} ∪ A)) = Z.of_nat (size A) + 1) as ->.
  { rewrite size_union, size_singleton by set_solver. lia. }
  destruct (max_active <? _); [|by apply wp_ret].
  apply wp_bind. eapply wp_event; [simpl; by rewrite set_at_put|].
  replace (({[wid]} ∪ A) ∖ {[wid]}) with A by set_solver.
  apply wp_bind. eapply (wp_incr_rate _ _ _ _ (-1)); [by eapply adm_put_active|lia|lia|by right|].
  intros s5 H5. eapply wp_reject; [done|]. intros s6 H6. split; [done|]. simpl.
  by replace (f 0) with (f 0 + 1 + -1) by lia.
Qed.
End admission_script.

(** The coroutine, when the round trip is not lost: the code it reports. *)
Lemma admit_request_async_spec cid rid wid max_active max_req w ttl f A s clk :
  0 ≤ w → 0 < ttl → buckets s cid (r_clock s `div` 1000000) w f →
  set_at s (active_workflows_key cid) = Some A →
  ∃ s', run redis_io (admit_request_async ttl cid rid wid max_active max_req w) (mkWorld s [] clk) =
      (Some (admission_code
         (decide_admission (bool_decide (is_Some (look s (request_key cid rid)))) (window_total w f)
            A wid max_active max_req)), mkWorld s' [] clk) ∧
    admitted_state cid rid wid s f A
      (decide_admission (bool_decide (is_Some (look s (request_key cid rid)))) (window_total w f)
            A wid max_active max_req) s'.
Proof.
  intros Hw Httl Hb HA.
  pose proof (admit_request_spec cid rid wid s max_active max_req w ttl f A Hw Httl Hb HA) as Hwp.
  apply wp_run in Hwp as (r & s' & Hrun & -> & Hst). exists s'. split; [|done].
  unfold admit_request_async. rewrite run_bind, (run_lua_script _ _ clk _ _ Hrun).
  by destruct (decide_admission _ _ _ _ _ _).
Qed.
