(* ===== verification/Streams.v ===== *)
(** * The stored data, read back

    The completion stream is a queue of completion messages, and a job record
    read back is the record stored.  Lemmas on the encodings
    ([flatten_fields], [pair_up], stream identifiers) and on the operations of
    [RedisRuntime] that write and read them. *)

From S2P Require Import Prelude.
From S2P Require Import Prog.
From S2P Require Import RedisServer.
From S2P Require Import Models.
From S2P Require Import RedisKeys.
From S2P Require Import Scripts.
From S2P Require Import RedisExec.
From S2P Require Import RedisRuntime.
From S2P Require Import RuntimeInit.

(** ** Field lists *)

Lemma pair_up_flatten l : pair_up (flatten_fields l) = l.
Proof.
  induction l as [|[f v] l IH]; [done|].
  change (pair_up (f :: v :: flatten_fields l) = (f, v) :: l). simpl. by rewrite IH.
Qed.

Lemma hset_fields_union (l : list (string * string)) h :
  NoDup l.*1 → hset_fields l h = list_to_map l ∪ h.
Proof.
  unfold hset_fields. revert h. induction l as [|[k x] l IH]; intros h Hnd; simpl.
  - by rewrite (left_id_L ∅ (∪)).
  - apply NoDup_cons in Hnd as [Hk Hnd]. rewrite IH by done.
    rewrite <-insert_union_r, <-insert_union_l; [done|]. by apply not_elem_of_list_to_map_1.
Qed.

Lemma hset_fields_map_to_list (h : gmap string string) : hset_fields (map_to_list h) ∅ = h.
Proof.
  rewrite hset_fields_union by apply NoDup_fst_map_to_list.
  by rewrite (right_id_L ∅ (∪)), list_to_map_to_list.
Qed.

(** ** Stream identifiers *)

Definition id_lt (a b : Z * Z) : Prop := a.1 < b.1 ∨ a.1 = b.1 ∧ a.2 < b.2.

Lemma digit_no_dash c : is_Some (digit c) → Ascii.eqb "-" c = false.
Proof. intros Hc. apply Ascii.eqb_neq. intros <-. by destruct Hc. Qed.

Lemma no_dash_pretty_go x s : no_char "-" s = true → no_char "-" (pretty_N_go x s) = true.
Proof.
  revert s. induction (N.lt_wf_0 x) as [x _ IH]; intros s Hs.
  destruct (decide (x = 0)%N) as [->|]; [by rewrite pretty_N_go_0|].
  rewrite pretty_N_go_step by lia. apply IH; [by apply N.div_lt; lia|].
  cbn [no_char]. rewrite Hs, digit_no_dash; [done|].
  rewrite digit_pretty_char by (apply N.mod_lt; lia). eauto.
Qed.

Lemma no_dash_to_str z : 0 ≤ z → no_char "-" (to_str z) = true.
Proof.
  intros Hz. destruct z as [|p|p]; [done| |lia].
  change (to_str (Z.pos p)) with (pretty (N.pos p)). unfold pretty, pretty_N.
  case_decide; [done|]. by apply no_dash_pretty_go.
Qed.

Lemma stream_id_inj a b : 0 ≤ a.1 → 0 ≤ b.1 → stream_id a = stream_id b → a = b.
Proof.
  intros Ha Hb E. unfold stream_id in E.
  apply no_char_split in E as [E1 E2]; [|by apply no_dash_to_str..].
  apply (inj to_str) in E1, E2. by destruct a, b; simplify_eq/=.
Qed.

Lemma stream_id_nonempty a : str_empty (stream_id a) = false.
Proof. unfold stream_id. by destruct (to_str a.1). Qed.

(** ** The completion stream as a queue *)

Definition message_fields (m : JobCompletionData) : list (string * string) :=
  [("client_id", client_id (jc_identity m)); ("workflow_id", workflow_id (jc_identity m));
   ("job_id", jc_job_id m); ("status", JobStatus.to_string (jc_status m));
   ("error_code", to_str (StatusCodes.to_int (jc_error_code m)))].

(** The keyspace holds the messages [ms] in the stream, oldest first, each with
    its identifier. *)
Definition stream_holds (s : rstate) (ms : list JobCompletionData) : Prop :=
  ∃ l last, stream_at s JOB_COMPLETION_STREAM_KEY = Some (l, last) ∧ 0 ≤ last.1 ∧
    (∀ i e, l !! i = Some e → 0 ≤ e.1.1 ∧ ¬ id_lt last e.1) ∧
    (∀ i j e e', l !! i = Some e → l !! j = Some e' → (i < j)%nat → id_lt e.1 e'.1) ∧
    Forall2 (λ e m, e.2 = message_fields m ∧ jc_stream_id m = stream_id e.1) l ms.

(** A message that can be stored. *)
Definition well_formed_message (m : JobCompletionData) : bool :=
  negb (str_empty (client_id (jc_identity m))) && negb (str_empty (workflow_id (jc_identity m))) &&
  negb (str_empty (jc_job_id m)) && negb (bool_decide (jc_status m = JobStatus.UNKNOWN)).

Lemma parse_message m :
  well_formed_message m = true →
  parse_completion (jc_stream_id m :: flatten_fields (message_fields m)) = Some m.
Proof.
  unfold well_formed_message. rewrite !andb_true_iff, !negb_true_iff. intros [[[Hc Hw] Hj] Hs].
  destruct m as [sid [c w] j st code]. simpl in *.
  unfold parse_completion. cbn [length flatten_fields fmap list_fmap concat app Nat.ltb Nat.leb message_fields
    jc_stream_id jc_identity jc_job_id jc_status jc_error_code client_id workflow_id fst snd].
  change (pair_up _) with (message_fields (mkJobCompletionData sid (mkIdentity c w) j st code)).
  unfold hset_fields, message_fields. cbn [foldl fst snd client_id workflow_id jc_identity jc_job_id jc_status jc_error_code].
  simplify_map_eq. rewrite JobStatus_string_roundtrip, StatusCodes_string_roundtrip.
  by rewrite Hc, Hw, Hj, Hs.
Qed.

Lemma filter_first (l : list ((Z * Z) * list (string * string))) e :
  (∀ i e', l !! i = Some e' → stream_id e'.1 ≠ stream_id e.1) →
  List.filter (λ e', negb (String.eqb (stream_id e'.1) (stream_id e.1))) (e :: l) = l.
Proof.
  intros Hne. simpl. rewrite String.eqb_refl. simpl.
  induction l as [|e' l IH]; [done|]. simpl.
  rewrite (proj2 (String.eqb_neq _ _) (Hne 0%nat e' eq_refl)). simpl. f_equal. apply IH.
  intros i x Hi. by apply (Hne (S i)).
Qed.

Lemma next_stream_id_gt clock last : id_lt last (next_stream_id clock last).
Proof. unfold next_stream_id, id_lt. destruct (Z.ltb_spec last.1 (clock `div` 1000)); simpl; lia. Qed.

Lemma put_stream_holds s l last ms :
  0 ≤ last.1 →
  (∀ i e, l !! i = Some e → 0 ≤ e.1.1 ∧ ¬ id_lt last e.1) →
  (∀ i j e e', l !! i = Some e → l !! j = Some e' → (i < j)%nat → id_lt e.1 e'.1) →
  Forall2 (λ e m, e.2 = message_fields m ∧ jc_stream_id m = stream_id e.1) l ms →
  stream_holds (put JOB_COMPLETION_STREAM_KEY (RStream l last) s) ms.
Proof.
  intros ? ? ? ?. exists l, last. split_and!; try done. unfold stream_at. by rewrite look_put_eq.
Qed.

Definition with_id (id : string) (m : JobCompletionData) : JobCompletionData :=
  mkJobCompletionData id (jc_identity m) (jc_job_id m) (jc_status m) (jc_error_code m).

Lemma enqueue_lua s ms m :
  stream_holds s ms → 0 ≤ r_clock s →
  ∃ id x,
    run redis_doc (enqueue_job_completion_lua JOB_COMPLETION_STREAM_KEY
       (client_id (jc_identity m)) (workflow_id (jc_identity m)) (jc_job_id m)
       (JobStatus.to_string (jc_status m)) (to_str (StatusCodes.to_int (jc_error_code m)))
       JOB_COMPLETION_READY_CHANNEL) s = (Some [stream_id id], put JOB_COMPLETION_STREAM_KEY x s) ∧
    stream_holds (put JOB_COMPLETION_STREAM_KEY x s) (ms ++ [with_id (stream_id id) m])%list.
Proof.
  intros (l & last & Hst & Hl0 & Hpos & Hinc & Hms) Hclk.
  set (id := next_stream_id (r_clock s) last).
  pose proof (next_stream_id_gt (r_clock s) last) as Hgt. fold id in Hgt.
  assert (0 ≤ id.1).
  { unfold id, next_stream_id. pose proof (Z.div_pos (r_clock s) 1000). case_match; simpl; lia. }
  exists id, (RStream (l ++ [(id, message_fields m)])%list id). split.
  - unfold enqueue_job_completion_lua. rewrite run_trigger_bind. cbn [redis_doc]. rewrite Hst.
    fold id. rewrite run_trigger_bind. reflexivity.
  - apply put_stream_holds; [done| | |].
    + intros i e. rewrite lookup_app_Some. intros [He|[_ He]].
      * destruct (Hpos _ _ He) as [? Hn]. split; [done|]. unfold id_lt in *. lia.
      * destruct (i - length l)%nat; [|done]. simplify_eq/=. split; [done|]. unfold id_lt. lia.
    + intros i j e e' Hi Hj Hij. apply lookup_app_Some in Hj as [Hj|[Hge Hj]].
      * rewrite lookup_app_l in Hi by (apply lookup_lt_Some in Hj; lia). by eapply Hinc.
      * destruct (j - length l)%nat eqn:E; [|done]. simplify_eq/=.
        rewrite lookup_app_l in Hi by lia. destruct (Hpos _ _ Hi) as [_ Hn]. unfold id_lt in *. lia.
    + apply Forall2_app; [done|]. by repeat constructor.
Qed.

Lemma enqueue_completion s ms m clk :
  stream_holds s ms → 0 ≤ r_clock s →
  ∃ s' id, run redis_io (enqueue_job_completion_async m) (mkWorld s [] clk)
      = (Some true, mkWorld s' [] clk) ∧
    stream_holds s' (ms ++ [with_id id m])%list ∧ r_clock s' = r_clock s.
Proof.
  intros Hms Hclk. destruct (enqueue_lua s ms m Hms Hclk) as (id & x & Hrun & Hs').
  eexists _, (stream_id id). split_and!; [|exact Hs'|done].
  unfold enqueue_job_completion_async. rewrite run_bind. erewrite run_lua_script by exact Hrun.
  cbn [run]. by rewrite stream_id_nonempty.
Qed.

Lemma stream_holds_look s s' ms :
  look s' JOB_COMPLETION_STREAM_KEY = look s JOB_COMPLETION_STREAM_KEY →
  stream_holds s ms → stream_holds s' ms.
Proof.
  intros E (l & last & Hst & Hrest). exists l, last. split; [|exact Hrest].
  unfold stream_at in *. by rewrite E.
Qed.

Lemma dequeue_completion s m ms clk :
  stream_holds s (m :: ms) → well_formed_message m = true →
  ∃ s', run redis_io dequeue_job_completion_async (mkWorld s [] clk)
      = (Some (Some m), mkWorld s' [] clk) ∧ stream_holds s' ms ∧ r_clock s' = r_clock s.
Proof.
  intros (l & last & Hst & Hl0 & Hpos & Hinc & Hms) Hwf.
  destruct l as [|e l]; [by inversion Hms|].
  apply Forall2_cons in Hms as [[He Hid] Hms].
  exists (put JOB_COMPLETION_STREAM_KEY (RStream l last) s). split_and!; [| |done].
  - unfold dequeue_job_completion_async. rewrite run_bind. erewrite run_lua_script.
    2: { unfold dequeue_job_completion_lua. rewrite run_trigger_bind. cbn [redis_doc].
         rewrite Hst. cbn [head fmap option_fmap option_map]. rewrite run_trigger_bind. cbn [redis_doc].
         rewrite Hst. rewrite filter_first.
         2: { intros i e' Hi E. apply stream_id_inj in E.
              - pose proof (Hinc 0%nat (S i) e e' eq_refl Hi ltac:(lia)) as Hlt. rewrite E in Hlt.
                unfold id_lt in Hlt. lia.
              - by apply (Hpos (S i)).
              - by apply (Hpos 0%nat). }
         unfold stream_at in Hst. destruct (look s JOB_COMPLETION_STREAM_KEY) as [[]|]; try done. }
    cbn [run]. rewrite He, <-Hid, parse_message by done. done.
  - apply put_stream_holds; [done| | |done].
    + intros i x Hi. by apply (Hpos (S i)).
    + intros i j x x' Hi Hj Hij. apply (Hinc (S i) (S j)); [done..|lia].
Qed.

Lemma dequeue_empty s clk :
  stream_holds s [] →
  run redis_io dequeue_job_completion_async (mkWorld s [] clk)
    = (Some (Some default_completion), mkWorld s [] clk).
Proof.
  intros (l & last & Hst & _ & _ & _ & Hms). inversion Hms. subst l.
  unfold dequeue_job_completion_async. rewrite run_bind. rewrite (run_lua_script _ s clk [] s); [done|].
  unfold dequeue_job_completion_lua. rewrite run_trigger_bind. cbn [redis_doc]. by rewrite Hst.
Qed.

(** ** Job records *)

(** What [fetch_job_runtime_async] does not read is left at its default. *)
Definition fetched (d : JobRuntimeData) : JobRuntimeData :=
  mkJobRuntimeData 0 (jr_job_id d) "" (jr_status d) (jr_remaining_dependencies d) (jr_priority d)
    (jr_timeout_sec d) 0 (jr_max_retries d) (jr_current_retry_count d) (jr_retry_delay_sec d)
    (jr_payload_size_bytes d) (jr_retry_backoff_policy d) [].

Definition in_range (d : JobRuntimeData) : bool :=
  in_int (jr_remaining_dependencies d) && in_int (jr_priority d) && in_int (jr_timeout_sec d) &&
  in_int (jr_max_retries d) && in_int (jr_current_retry_count d) && in_int (jr_retry_delay_sec d) &&
  in_int (jr_payload_size_bytes d).

Lemma parse_job_fields d :
  in_range d = true →
  parse_job_runtime (jr_job_id d) (hset_fields (job_runtime_fields d) ∅) = Some (fetched d).
Proof.
  unfold in_range. rewrite !andb_true_iff. intros [[[[[[H1 H2] H3] H4] H5] H6] H7].
  unfold parse_job_runtime, at_int, hset_fields, job_runtime_fields. cbn [foldl fst snd].
  simplify_map_eq. cbn [mbind option_bind]. simplify_map_eq. cbn [mbind option_bind].
  rewrite !stoi_to_str by done. cbn [mbind option_bind]. done.
Qed.

Lemma run_hgetall s k h clk :
  hash_at s k = Some h →
  run redis_io (execute_hgetall_command_async k) (mkWorld s [] clk) =
    (Some (Some h), mkWorld s [] clk).
Proof.
  intros Hh. unfold execute_hgetall_command_async, execute. rewrite run_trigger_bind.
  unfold redis_io at 1, serve. cbn [wd_faults wd_redis redis_exec doc_server redis_doc]. rewrite Hh.
  cbn [reply_of run]. by rewrite pair_up_flatten, hset_fields_map_to_list.
Qed.

Lemma set_fetch_job_runtime w d s clk :
  in_range d = true →
  look s (job_key w (jr_job_id d)) = None → look s (successors_key w (jr_job_id d)) = None →
  wp redis_io
    (let* ok := set_job_runtime_async w d in
     let* r := fetch_job_runtime_async w (jr_job_id d) in Ret (ok, r))
    (λ res _, res = (true, Some (fetched d))) (mkWorld s [] clk).
Proof.
  intros Hr Hj Hs. apply wp_bind, wp_set_job_runtime; [done..|]. intros s' Hh _ _ _.
  apply wp_bind. unfold fetch_job_runtime_async. unfold wp at 1. rewrite run_bind, (run_hgetall _ _ _ _ Hh).
  cbn [run]. rewrite decide_False; [rewrite parse_job_fields by done; by apply wp_ret|].
  intros E. apply (f_equal (λ h : gmap string string, h !! "status")) in E.
  unfold hset_fields, job_runtime_fields in E. cbn [foldl fst snd] in E. simplify_map_eq.
Qed.

(** ** Payloads *)

Lemma set_fetch_payload w j v s clk :
  wp redis_io
    (let* ok := set_job_payload_async w j v in
     let* r := fetch_job_payload_async w j in Ret (ok, r))
    (λ res _, res = (true, Some v)) (mkWorld s [] clk).
Proof.
  apply wp_bind, wp_set_job_payload. intros s' Hl _ _. apply wp_bind.
  unfold fetch_job_payload_async, execute_bulk_string_command_async. apply wp_bind.
  eapply wp_execute; [simpl; unfold str_at; by rewrite Hl|]. apply wp_ret. by apply wp_ret.
Qed.
