(* ===== verification/Sqlite.v ===== *)
(** * The SQLite engine

    The tables of src/src/sqlite_db.cpp and the statements it prepares, with the
    documented behaviour of SQLite on them: primary keys and UNIQUE constraints,
    the count of changed rows, transactions on one connection.  Foreign keys are
    declared in the schema but not enforced, since the program never turns them
    on.  Every call may fail with an error code and no effect; a query may fail
    after some rows.

    SQLite is not part of the repository: [SqlEngine] is what the program relies
    on, [sql_doc] the documented behaviour, and the order in which a query
    without ORDER BY returns its rows a parameter ([RowOrder]). *)

From S2P Require Import Prelude.
From S2P Require Import Prog.
From S2P Require Import Models.

(** ** Rows

    A column that may be NULL is an [option]. *)

Record request_row := mkRequestRow {
  rr_client_id : string; rr_request_id : string; rr_workflow_id : string;
  rr_payload_size : Z; rr_operation_type : string; rr_status : Z;
  rr_reject_reason : string; rr_received_at : option Z }.

Record workflow_row := mkWorkflowRow {
  wr_client : string; wr_workflow : string; wr_type : string; wr_version : string;
  wr_st : Z; wr_total : Z; wr_received_at : Z; wr_started_at : option Z;
  wr_ready_at : option Z; wr_completed_at : option Z }.

Record payload_row := mkPayloadRow {
  pr_client_id : string; pr_request_id : string; pr_workflow_id : string; pr_payload : string }.

Record job_row := mkJobRow {
  jb_uuid : string; jb_client : string; jb_workflow : string; jb_job : string;
  jb_status : Z; jb_retry_count : Z; jb_submitted_at : option Z; jb_ready_at : option Z;
  jb_queued_at : option Z; jb_started_at : option Z; jb_completed_at : option Z }.

Record rate_row := mkRateRow {
  rt_plan_name : string; rt_max_concurrent_workflows : Z; rt_max_requests : Z;
  rt_window_sec : Z; rt_update_time : Z }.

Record policy_row := mkPolicyRow {
  po_plan_name : string; po_max_workflow_size_kb : Z; po_max_jobs_in_workflow : Z;
  po_max_job_size_bytes : Z; po_max_workflow_runtime_sec : Z;
  po_max_workflow_total_retries : Z; po_max_job_runtime_sec : Z; po_max_job_retries : Z;
  po_max_concurrent_jobs : Z; po_max_pending_jobs : Z; po_workflow_retention_days : Z;
  po_request_retention_days : Z; po_payload_retention_days : Z; po_update_time : Z }.

(** The [status] of a client is declared INTEGER; a text that is no number is
    stored as text. *)
Record client_row := mkClientRow {
  cl_client_id : string; cl_rate_limit_plan_name : string; cl_policy_plan_name : string;
  cl_status : string; cl_update_time : Z }.

Record tables := mkTables {
  t_requests : list request_row; t_workflows : list workflow_row;
  t_payloads : list payload_row; t_jobs : list job_row;
  t_rates : list rate_row; t_policies : list policy_row; t_clients : list client_row }.

Definition set_requests l t :=
  mkTables l (t_workflows t) (t_payloads t) (t_jobs t) (t_rates t) (t_policies t) (t_clients t).
Definition set_workflows l t :=
  mkTables (t_requests t) l (t_payloads t) (t_jobs t) (t_rates t) (t_policies t) (t_clients t).
Definition set_payloads l t :=
  mkTables (t_requests t) (t_workflows t) l (t_jobs t) (t_rates t) (t_policies t) (t_clients t).
Definition set_jobs l t :=
  mkTables (t_requests t) (t_workflows t) (t_payloads t) l (t_rates t) (t_policies t) (t_clients t).
Definition set_rates l t :=
  mkTables (t_requests t) (t_workflows t) (t_payloads t) (t_jobs t) l (t_policies t) (t_clients t).
Definition set_policies l t :=
  mkTables (t_requests t) (t_workflows t) (t_payloads t) (t_jobs t) (t_rates t) l (t_clients t).
Definition set_clients l t :=
  mkTables (t_requests t) (t_workflows t) (t_payloads t) (t_jobs t) (t_rates t) (t_policies t) l.

(** ** Statements

    [COALESCE(c, v)] keeps a time that is already set. *)
Definition coalesce (c v : option Z) : option Z := match c with Some _ => c | None => v end.

Inductive workflow_time := WStarted | WReady | WCompleted.
Inductive job_time := JReady | JQueued | JStarted | JCompleted.

Inductive stmt :=
| INSERT_REQUEST (r : request_row)
| UPDATE_REQUEST (status : Z) (reject_reason client_id request_id : string)
| INSERT_WORKFLOW (w : workflow_row)
| UPDATE_WORKFLOW (status : Z) (column : workflow_time) (now : Z) (client_id workflow_id : string)
| INSERT_JOB (j : job_row)
| UPDATE_READY (status : Z) (ready_at queued_at : option Z) (client_id workflow_id job_id : string)
| UPDATE_JOB (status : Z) (column : option job_time) (now : Z)
    (client_id workflow_id job_id : string)
| UPDATE_WAITING (status : Z) (client_id workflow_id : string) (statuses : list Z)
| INSERT_PAYLOAD (p : payload_row)
| REPLACE_RATE_LIMIT_PLAN (r : rate_row)
| REPLACE_POLICY_PLAN (p : policy_row)
| REPLACE_CLIENT (c : client_row).

Inductive query : Type → Type :=
| SELECT_REQUESTS (client_id : string) : query request_row
| SELECT_WORKFLOWS_IN (statuses : list Z) : query workflow_row
| SELECT_WORKFLOWS (client_id : string) : query workflow_row
| COUNT_WORKFLOWS (client_id : string) (statuses : list Z) : query Z
| SELECT_JOBS (client_id workflow_id : string) : query job_row
| SELECT_JOB (client_id workflow_id job_id : string) : query job_row
| SELECT_RATE_LIMIT_PLANS : query rate_row
| SELECT_RATE_LIMIT_PLAN (plan_name : string) : query rate_row
| SELECT_POLICY_PLANS : query policy_row
| SELECT_POLICY_PLAN (plan_name : string) : query policy_row
| SELECT_CLIENTS : query client_row
| SELECT_CLIENT (client_id : string) : query client_row.

(** Rows that an UPDATE selects and changes, with their number. *)
Definition update_rows {A} (p : A → bool) (f : A → A) (l : list A) : list A * Z :=
  ((λ x, if p x then f x else x) <$> l, cnt p l).

(** An INSERT that violates no key. *)
Definition insert_row {A} (same_key : A → A → bool) (x : A) (l : list A) : option (list A) :=
  if existsb (same_key x) l then None else Some (l ++ [x])%list.

(** INSERT OR REPLACE. *)
Definition replace_row {A} (same_key : A → A → bool) (x : A) (l : list A) : list A :=
  (List.filter (λ y, negb (same_key x y)) l ++ [x])%list.

Definition same_request (r r' : request_row) : bool :=
  String.eqb (rr_client_id r) (rr_client_id r') && String.eqb (rr_request_id r) (rr_request_id r').
Definition is_workflow (client_id workflow_id : string) (w : workflow_row) : bool :=
  String.eqb client_id (wr_client w) && String.eqb workflow_id (wr_workflow w).
Definition is_job (client_id workflow_id job_id : string) (j : job_row) : bool :=
  String.eqb client_id (jb_client j) && String.eqb workflow_id (jb_workflow j)
  && String.eqb job_id (jb_job j).
Definition same_job (j j' : job_row) : bool :=
  String.eqb (jb_uuid j) (jb_uuid j') || is_job (jb_client j) (jb_workflow j) (jb_job j) j'.
Definition same_payload (p p' : payload_row) : bool :=
  String.eqb (pr_client_id p) (pr_client_id p') && String.eqb (pr_request_id p) (pr_request_id p').

Definition set_request_status (status : Z) (reason : string) (r : request_row) : request_row :=
  mkRequestRow (rr_client_id r) (rr_request_id r) (rr_workflow_id r) (rr_payload_size r)
    (rr_operation_type r) status reason (rr_received_at r).

Definition set_workflow_status (status : Z) (column : workflow_time) (now : Z) (w : workflow_row) :
  workflow_row :=
  mkWorkflowRow (wr_client w) (wr_workflow w) (wr_type w) (wr_version w) status (wr_total w)
    (wr_received_at w)
    (match column with WStarted => Some now | _ => wr_started_at w end)
    (match column with WReady => Some now | _ => wr_ready_at w end)
    (match column with WCompleted => Some now | _ => wr_completed_at w end).

Definition set_job_row (status : Z) (ready queued started completed : option Z) (j : job_row) :
  job_row :=
  mkJobRow (jb_uuid j) (jb_client j) (jb_workflow j) (jb_job j) status (jb_retry_count j)
    (jb_submitted_at j) ready queued started completed.

(** [ready_at], [queued_at] and [started_at] are set once, [completed_at]
    each time. *)
Definition set_job_status (status : Z) (column : option job_time) (now : Z) (j : job_row) : job_row :=
  set_job_row status
    (match column with Some JReady => coalesce (jb_ready_at j) (Some now) | _ => jb_ready_at j end)
    (match column with Some JQueued => coalesce (jb_queued_at j) (Some now) | _ => jb_queued_at j end)
    (match column with Some JStarted => coalesce (jb_started_at j) (Some now) | _ => jb_started_at j end)
    (match column with Some JCompleted => Some now | _ => jb_completed_at j end) j.

Definition set_job_ready (status : Z) (ready queued : option Z) (j : job_row) : job_row :=
  set_job_row status (coalesce (jb_ready_at j) ready) (coalesce (jb_queued_at j) queued)
    (jb_started_at j) (jb_completed_at j) j.

Definition in_list (z : Z) (l : list Z) : bool := existsb (Z.eqb z) l.

(** One write: the new tables and the number of changed rows; [None] is
    SQLITE_CONSTRAINT. *)
Definition exec_stmt (s : stmt) (t : tables) : option (tables * Z) :=
  match s with
  | INSERT_REQUEST r => (λ l, (set_requests l t, 1)) <$> insert_row same_request r (t_requests t)
  | UPDATE_REQUEST st reason cid rid =>
      let '(l, n) := update_rows (λ r, String.eqb cid (rr_client_id r) && String.eqb rid (rr_request_id r))
                       (set_request_status st reason) (t_requests t) in
      Some (set_requests l t, n)
  | INSERT_WORKFLOW w =>
      (λ l, (set_workflows l t, 1)) <$>
        insert_row (λ x y, is_workflow (wr_client x) (wr_workflow x) y) w (t_workflows t)
  | UPDATE_WORKFLOW st column now cid wid =>
      let '(l, n) := update_rows (is_workflow cid wid) (set_workflow_status st column now)
                       (t_workflows t) in
      Some (set_workflows l t, n)
  | INSERT_JOB j => (λ l, (set_jobs l t, 1)) <$> insert_row same_job j (t_jobs t)
  | UPDATE_READY st ready queued cid wid jid =>
      let '(l, n) := update_rows (is_job cid wid jid) (set_job_ready st ready queued) (t_jobs t) in
      Some (set_jobs l t, n)
  | UPDATE_JOB st column now cid wid jid =>
      let '(l, n) := update_rows (is_job cid wid jid) (set_job_status st column now) (t_jobs t) in
      Some (set_jobs l t, n)
  | UPDATE_WAITING st cid wid sts =>
      let '(l, n) := update_rows
        (λ j, String.eqb cid (jb_client j) && String.eqb wid (jb_workflow j) && in_list (jb_status j) sts)
        (set_job_status st None 0) (t_jobs t) in
      Some (set_jobs l t, n)
  | INSERT_PAYLOAD p => (λ l, (set_payloads l t, 1)) <$> insert_row same_payload p (t_payloads t)
  | REPLACE_RATE_LIMIT_PLAN r =>
      Some (set_rates (replace_row (λ x y, String.eqb (rt_plan_name x) (rt_plan_name y)) r (t_rates t)) t, 1)
  | REPLACE_POLICY_PLAN p =>
      Some (set_policies (replace_row (λ x y, String.eqb (po_plan_name x) (po_plan_name y)) p (t_policies t)) t, 1)
  | REPLACE_CLIENT c =>
      Some (set_clients (replace_row (λ x y, String.eqb (cl_client_id x) (cl_client_id y)) c (t_clients t)) t, 1)
  end.

Definition eval_query {A} (q : query A) (t : tables) : list A :=
  match q in query A return list A with
  | SELECT_REQUESTS cid => List.filter (λ r, String.eqb cid (rr_client_id r)) (t_requests t)
  | SELECT_WORKFLOWS_IN sts => List.filter (λ w, in_list (wr_st w) sts) (t_workflows t)
  | SELECT_WORKFLOWS cid => List.filter (λ w, String.eqb cid (wr_client w)) (t_workflows t)
  | COUNT_WORKFLOWS cid sts =>
      [cnt (λ w, String.eqb cid (wr_client w) && in_list (wr_st w) sts) (t_workflows t)]
  | SELECT_JOBS cid wid =>
      List.filter (λ j, String.eqb cid (jb_client j) && String.eqb wid (jb_workflow j)) (t_jobs t)
  | SELECT_JOB cid wid jid => List.filter (is_job cid wid jid) (t_jobs t)
  | SELECT_RATE_LIMIT_PLANS => t_rates t
  | SELECT_RATE_LIMIT_PLAN name => List.filter (λ r, String.eqb name (rt_plan_name r)) (t_rates t)
  | SELECT_POLICY_PLANS => t_policies t
  | SELECT_POLICY_PLAN name => List.filter (λ r, String.eqb name (po_plan_name r)) (t_policies t)
  | SELECT_CLIENTS => t_clients t
  | SELECT_CLIENT cid => List.filter (λ r, String.eqb cid (cl_client_id r)) (t_clients t)
  end.

(** ** Calls

    [Step] and [Select] are [sqlite3_step] on a prepared and bound statement: a
    write, or the rows read before the first step that returns no row. *)

Inductive tx_cmd := BEGIN | COMMIT | ROLLBACK.
Inductive step_rc := DONE | CONSTRAINT | SQL_ERROR.

Inductive sql_ev : Type → Type :=
| Prepare : sql_ev bool
| Step (s : stmt) : sql_ev step_rc
| Select {A} (q : query A) : sql_ev (list A)
| Changes : sql_ev Z
| Exec (c : tx_cmd) : sql_ev bool
| SqlTime : sql_ev Z.

Abbreviation sql_prog := (prog sql_ev).
Abbreviation sql := (@trigger sql_ev _).

Class RowOrder := {
  rows : ∀ {A}, list A → list A;
  rows_perm : ∀ A (l : list A), rows l ≡ₚ l
}.
#[global, program] Instance table_order : RowOrder := {| rows := λ A l, l |}.
Next Obligation. done. Qed.

(** A failing call, after [n] rows for a query. *)
Inductive sql_fault := SqlFine | SqlFail (n : nat).

(** [cn_saved]: the tables a transaction in progress started from. *)
Record conn := mkConn {
  cn_tables : tables; cn_saved : option tables; cn_changes : Z;
  cn_faults : list sql_fault; cn_clock : Z }.

(** What another connection, or a restart, sees. *)
Definition durable (c : conn) : tables := default (cn_tables c) (cn_saved c).

Section engine.
Context `{RowOrder}.

Definition next_fault (c : conn) : sql_fault := default SqlFine (head (cn_faults c)).
Definition past_fault (c : conn) : conn :=
  mkConn (cn_tables c) (cn_saved c) (cn_changes c) (tail (cn_faults c)) (cn_clock c).

Definition exec_tx (cmd : tx_cmd) (c : conn) : bool * conn :=
  match cmd, cn_saved c with
  | BEGIN, None => (true, mkConn (cn_tables c) (Some (cn_tables c)) (cn_changes c) (cn_faults c) (cn_clock c))
  | COMMIT, Some _ => (true, mkConn (cn_tables c) None (cn_changes c) (cn_faults c) (cn_clock c))
  | ROLLBACK, Some t => (true, mkConn t None (cn_changes c) (cn_faults c) (cn_clock c))
  | _, _ => (false, c)
  end.

Definition sql_doc : handler sql_ev conn := λ X e c,
  match e in sql_ev X return option X * conn with
  | Prepare =>
      (Some match next_fault c with SqlFine => true | SqlFail _ => false end, past_fault c)
  | Step s =>
      match next_fault c with
      | SqlFail _ => (Some SQL_ERROR, past_fault c)
      | SqlFine =>
          let c := past_fault c in
          match exec_stmt s (cn_tables c) with
          | Some (t, n) => (Some DONE, mkConn t (cn_saved c) n (cn_faults c) (cn_clock c))
          | None => (Some CONSTRAINT, c)
          end
      end
  | Select q =>
      let l := rows (eval_query q (cn_tables c)) in
      (Some match next_fault c with SqlFine => l | SqlFail n => take n l end, past_fault c)
  | Changes => (Some (cn_changes c), c)
  | Exec cmd =>
      match next_fault c with
      | SqlFail _ => (Some false, past_fault c)
      | SqlFine => let '(ok, c') := exec_tx cmd (past_fault c) in (Some ok, c')
      end
  | SqlTime => (Some (cn_clock c), c)
  end.

Class SqlEngine (S : Type) : Type := {
  sql_exec : handler sql_ev S;
  sql_conn : S → conn;
  sql_documented : ∀ X (e : sql_ev X) (s : S),
    sql_doc X e (sql_conn s) = ((sql_exec X e s).1, sql_conn (sql_exec X e s).2)
}.

Lemma sql_run `{SqlEngine D} {A} (p : sql_prog A) (s : D) :
  run sql_doc p (sql_conn s) = ((run sql_exec p s).1, sql_conn (run sql_exec p s).2).
Proof. apply run_simulates. apply sql_documented. Qed.

(** A program without exceptions always returns: no call of the engine raises. *)
Lemma sql_doc_total X (e : sql_ev X) c : is_Some (sql_doc X e c).1.
Proof.
  destruct e; simpl; try by eauto.
  - destruct (next_fault c); [|by eauto]. destruct (exec_stmt _ _) as [[? ?]|]; eauto.
  - destruct (next_fault c); [|by eauto]. destruct (exec_tx _ _); eauto.
Qed.
End engine.

#[global, program] Instance doc_engine `{RowOrder} : SqlEngine conn := {|
  sql_exec := sql_doc; sql_conn := λ c, c
|}.
Next Obligation. intros ? X e s. by destruct (sql_doc X e s). Qed.
