(* ===== verification/SqliteDb.v ===== *)
(** * The SQLite database

    src/src/sqlite_db.cpp: each operation of [SQLiteDatabase] as a program over
    the calls of [Sqlite], and the operations behind [IAsyncDatabase] as a
    [Database].  The result [false] with an error status is [inr].

    Text is bound as a C string ([c_str()] with length -1) and read back as one:
    it ends at the first NUL.  An integer column is read as a 32-bit integer. *)

From S2P Require Import Prelude.
From S2P Require Import Prog.
From S2P Require Import Models.
From S2P Require Import RedisServer.
From S2P Require Import RedisKeys.
From S2P Require Import Scripts.
From S2P Require Import RedisExec.
From S2P Require Import Database.
From S2P Require Import Sqlite.

Fixpoint c_str (s : string) : string :=
  match s with
  | EmptyString => ""
  | String a s' => if Ascii.eqb a Ascii.zero then "" else String a (c_str s')
  end.

Lemma c_str_idem s : c_str (c_str s) = c_str s.
Proof.
  induction s as [|a s IH]; simpl; [done|]. destruct (Ascii.eqb a Ascii.zero) eqn:E; [done|].
  simpl. by rewrite E, IH.
Qed.

(** [nullable_time_from_sqlite]. *)
Definition nullable_time_from_sqlite (v : option Z) : Z := default 0 v.

(** ** Plans and clients *)

Definition rate_of_row (r : rate_row) : RateLimitConfig :=
  mkRateLimitConfig (c_str (rt_plan_name r)) (to_int32 (rt_max_concurrent_workflows r))
    (to_int32 (rt_max_requests r)) (to_int32 (rt_window_sec r)).

(** [emplace] keeps the entry that is present. *)
Definition emplace_all {A} (entries : list (string * A)) (m : gmap string A) : gmap string A :=
  foldl (λ m kv, match m !! kv.1 with Some _ => m | None => <[kv.1 := kv.2]> m end) m entries.

Definition get_rate_limit_plans (rate_limit_plans : gmap string RateLimitConfig) :
  sql_prog (option (gmap string RateLimitConfig)) :=
  let* ok := sql Prepare in
  if negb ok then Ret None
  else
    let* rows := sql (Select SELECT_RATE_LIMIT_PLANS) in
    Ret (Some (emplace_all ((λ r, (c_str (rt_plan_name r), rate_of_row r)) <$> rows) rate_limit_plans)).

Definition get_rate_limit_plan (rate_limit_plan : RateLimitConfig) :
  sql_prog (option RateLimitConfig) :=
  let* ok := sql Prepare in
  if negb ok then Ret None
  else
    let* rows := sql (Select (SELECT_RATE_LIMIT_PLAN (c_str (rl_plan_name rate_limit_plan)))) in
    Ret match rows with
        | r :: _ =>
            Some (mkRateLimitConfig (rl_plan_name rate_limit_plan)
                    (to_int32 (rt_max_concurrent_workflows r)) (to_int32 (rt_max_requests r))
                    (to_int32 (rt_window_sec r)))
        | [] => None
        end.

(** One prepared write: the return code, or [None] when it cannot be prepared. *)
Definition write (s : Z → stmt) : sql_prog (option step_rc) :=
  let* ok := sql Prepare in
  if negb ok then Ret None
  else
    let* now := sql SqlTime in
    let* rc := sql (Step (s now)) in
    Ret (Some rc).

Definition is_done (rc : option step_rc) : bool :=
  match rc with Some DONE => true | _ => false end.

Definition upsert_rate_limit_plan (r : RateLimitConfig) : sql_prog bool :=
  let* rc := write (λ now, REPLACE_RATE_LIMIT_PLAN
    (mkRateRow (c_str (rl_plan_name r)) (rl_max_concurrent_workflows r) (rl_max_requests r)
       (rl_window_sec r) now)) in
  Ret (is_done rc).

(** The columns that are read; the other fields keep the values of [p]. *)
Definition policy_of_row (name : string) (r : policy_row) (p : PolicyPlan) : PolicyPlan :=
  mkPolicyPlan name (to_int32 (po_max_workflow_size_kb r)) (to_int32 (po_max_jobs_in_workflow r))
    (to_int32 (po_max_job_size_bytes r)) (to_int32 (po_max_workflow_runtime_sec r))
    (to_int32 (po_max_workflow_total_retries r)) (to_int32 (po_max_job_runtime_sec r))
    (to_int32 (po_max_job_retries r)) (to_int32 (po_max_concurrent_jobs r))
    (to_int32 (po_max_pending_jobs r))
    (pp_max_job_dependencies p) (pp_max_job_retry_delay_sec p)
    (pp_default_retry_backoff_policy p) (pp_max_job_priority p)
    (to_int32 (po_workflow_retention_days r)) (to_int32 (po_request_retention_days r))
    (to_int32 (po_payload_retention_days r)).

(** [indeterminate] is the value of [PolicyPlan p;], whose members have no
    initializer. *)
Definition get_policy_plans (indeterminate : PolicyPlan) (policy_plans : gmap string PolicyPlan) :
  sql_prog (option (gmap string PolicyPlan)) :=
  let* ok := sql Prepare in
  if negb ok then Ret None
  else
    let* rows := sql (Select SELECT_POLICY_PLANS) in
    Ret (Some (emplace_all
      ((λ r, (c_str (po_plan_name r), policy_of_row (c_str (po_plan_name r)) r indeterminate)) <$> rows)
      policy_plans)).

Definition get_policy_plan (plan_policy : PolicyPlan) : sql_prog (option PolicyPlan) :=
  let* ok := sql Prepare in
  if negb ok then Ret None
  else
    let* rows := sql (Select (SELECT_POLICY_PLAN (c_str (pp_plan_name plan_policy)))) in
    Ret match rows with
        | r :: _ => Some (policy_of_row (pp_plan_name plan_policy) r plan_policy)
        | [] => None
        end.

Definition upsert_policy_plan (p : PolicyPlan) : sql_prog bool :=
  let* rc := write (λ now, REPLACE_POLICY_PLAN
    (mkPolicyRow (c_str (pp_plan_name p)) (pp_max_workflow_size_kb p) (pp_max_jobs_in_workflow p)
       (pp_max_job_size_bytes p) (pp_max_workflow_runtime_sec p) (pp_max_workflow_total_retries p)
       (pp_max_job_runtime_sec p) (pp_max_job_retries p) (pp_max_concurrent_jobs p)
       (pp_max_pending_jobs p) (pp_workflow_retention_days p) (pp_request_retention_days p)
       (pp_payload_retention_days p) now)) in
  Ret (is_done rc).

Definition get_all_users : sql_prog (option (gmap string ClientData)) :=
  let* ok := sql Prepare in
  if negb ok then Ret None
  else
    let* rows := sql (Select SELECT_CLIENTS) in
    Ret (Some (emplace_all
      ((λ r, (c_str (cl_client_id r),
              mkClientData (c_str (cl_client_id r)) (c_str (cl_rate_limit_plan_name r))
                (c_str (cl_policy_plan_name r)))) <$> rows) ∅)).

Definition get_user_config (user_data : ClientData) : sql_prog (option ClientData) :=
  let* ok := sql Prepare in
  if negb ok then Ret None
  else
    let* rows := sql (Select (SELECT_CLIENT (c_str (cd_client_id user_data)))) in
    Ret match rows with
        | r :: _ => Some (mkClientData (cd_client_id user_data) (c_str (cl_rate_limit_plan_name r))
                            (c_str (cl_policy_plan_name r)))
        | [] => None
        end.

Definition upsert_user_config (user_id rate_limit_plan_name policy_plan_name : string) :
  sql_prog bool :=
  let* rc := write (λ now, REPLACE_CLIENT
    (mkClientRow (c_str user_id) (c_str rate_limit_plan_name) (c_str policy_plan_name) "ACTIVE" now)) in
  Ret (is_done rc).

(** ** Requests *)

(** [add_request(request_data, error_status)]: the time is read first. *)
Definition add_request_only (r : RequestData) : sql_prog (unit + StatusCodes.t) :=
  let* now := sql SqlTime in
  let* ok := sql Prepare in
  if negb ok then Ret (inr StatusCodes.INTERNAL_DB_FAILURE)
  else
    let* rc := sql (Step (INSERT_REQUEST
      (mkRequestRow (c_str (rq_client_id r)) (c_str (rq_request_id r)) (c_str (rq_workflow_id r))
         (rq_workflow_payload_size_bytes r) (c_str (rq_operation r))
         (RequestStatus.to_int (rq_status r)) (c_str (rq_reject_reason r)) (Some now)))) in
    Ret match rc with
        | DONE => inl tt
        | CONSTRAINT => inr StatusCodes.DUPLICATE_REQUEST
        | SQL_ERROR => inr StatusCodes.INTERNAL_DB_FAILURE
        end.

Definition active_statuses : list Z :=
  [WorkflowStatus.to_int WorkflowStatus.ADMITTED; WorkflowStatus.to_int WorkflowStatus.READY;
   WorkflowStatus.to_int WorkflowStatus.RUNNING].

Definition get_client_active_workflows_count (cid : string) : sql_prog (option Z) :=
  let* ok := sql Prepare in
  if negb ok then Ret None
  else
    let* rows := sql (Select (COUNT_WORKFLOWS (c_str cid) active_statuses)) in
    Ret match rows with n :: _ => Some (to_int32 n) | [] => None end.

Definition add_request_payload (r : RequestData) (workflow_payload : string) : sql_prog bool :=
  let* ok := sql Prepare in
  if negb ok then Ret false
  else
    let* rc := sql (Step (INSERT_PAYLOAD
      (mkPayloadRow (c_str (rq_client_id r)) (c_str (rq_request_id r)) (c_str (rq_workflow_id r))
         (c_str workflow_payload)))) in
    Ret (is_done (Some rc)).

(** [max_workflow_size_kb * 1024] is computed on [int]. *)
Definition add_request (r : RequestData) (workflow_payload : string) (cfg : ClientConfig) :
  sql_prog (unit + StatusCodes.t) :=
  let* added := add_request_only r in
  match added with
  | inr c => Ret (inr c)
  | inl _ =>
      let* count := get_client_active_workflows_count (rq_client_id r) in
      match count with
      | None => Ret (inr StatusCodes.INTERNAL_DB_FAILURE)
      | Some concurrent_workflows =>
          if rl_max_concurrent_workflows (cc_rate_limit_config cfg) <=? concurrent_workflows
          then Ret (inr StatusCodes.RATE_LIMIT_EXCEEDED)
          else if to_int32 (pp_max_workflow_size_kb (cc_policy_config cfg) * 1024)
                    <? rq_workflow_payload_size_bytes r
          then Ret (inr StatusCodes.WORKFLOW_SIZE_EXCEEDED)
          else add_request_payload r workflow_payload ;; Ret (inl tt)
      end
  end.

Definition update_request_status (r : RequestData) : sql_prog bool :=
  let* ok := sql Prepare in
  if negb ok then Ret false
  else
    let* rc := sql (Step (UPDATE_REQUEST (RequestStatus.to_int (rq_status r))
      (c_str (rq_reject_reason r)) (c_str (rq_client_id r)) (c_str (rq_request_id r)))) in
    Ret (is_done (Some rc)).

(** [std::stoi] on the text of the size throws when it is no [int]. *)
Fixpoint requests_of_rows (rows : list request_row) : option (list RequestData) :=
  match rows with
  | [] => Some []
  | r :: rows' =>
      size ← stoi (to_str (rr_payload_size r));
      rest ← requests_of_rows rows';
      Some (mkRequestData (c_str (rr_client_id r)) (c_str (rr_request_id r)) (c_str (rr_workflow_id r))
              size (c_str (rr_operation_type r))
              (RequestStatus.from_int (to_int32 (rr_status r))) (c_str (rr_reject_reason r)) :: rest)
  end.

Definition get_all_requests_for_client (cid : string) : sql_prog (option (list RequestData)) :=
  let* ok := sql Prepare in
  if negb ok then Ret None
  else
    let* rows := sql (Select (SELECT_REQUESTS (c_str cid))) in
    match requests_of_rows rows with
    | Some l => Ret (Some l)
    | None => Throw
    end.

(** ** Workflows *)

Definition add_workflow (w : WorkflowData) : sql_prog (unit + StatusCodes.t) :=
  let* now := sql SqlTime in
  let* ok := sql Prepare in
  if negb ok then Ret (inr StatusCodes.INTERNAL_DB_FAILURE)
  else
    let* rc := sql (Step (INSERT_WORKFLOW
      (mkWorkflowRow (c_str (rq_client_id (wd_info w))) (c_str (rq_workflow_id (wd_info w)))
         (c_str (wd_workflow_type w)) (c_str (wd_workflow_version w))
         (WorkflowStatus.to_int (wd_status w)) (wd_total_jobs w) now None None None))) in
    Ret match rc with
        | DONE => inl tt
        | CONSTRAINT => inr StatusCodes.WORKFLOW_ID_EXISTS
        | SQL_ERROR => inr StatusCodes.INTERNAL_DB_FAILURE
        end.

(** The column of the transition time; [None] is a status that is refused. *)
Definition workflow_column (st : WorkflowStatus.t) : option workflow_time :=
  match st with
  | WorkflowStatus.COMPLETED | WorkflowStatus.FAILED | WorkflowStatus.CANCELED => Some WCompleted
  | WorkflowStatus.RUNNING => Some WStarted
  | WorkflowStatus.READY => Some WReady
  | _ => None
  end.

Definition update_workflow_status (cid wid : string) (st : WorkflowStatus.t) : sql_prog bool :=
  match workflow_column st with
  | None => Ret false
  | Some column =>
      let* rc := write (λ now, UPDATE_WORKFLOW (WorkflowStatus.to_int st) column now
                                 (c_str cid) (c_str wid)) in
      if negb (is_done rc) then Ret false
      else
        let* changes := sql Changes in
        Ret (negb (changes =? 0))
  end.

(** The request fields a workflow row does not hold are those of a
    default-initialized [WorkflowData], the [status] of the request being
    indeterminate. *)
Definition workflow_of_row (indeterminate : RequestStatus.t) (w : workflow_row) : WorkflowData :=
  mkWorkflowData
    (mkRequestData (c_str (wr_client w)) "" (c_str (wr_workflow w)) 0 "" indeterminate "")
    (WorkflowStatus.from_int (to_int32 (wr_st w))) (c_str (wr_type w)) (c_str (wr_version w))
    (to_int32 (wr_total w)) (wr_received_at w) (nullable_time_from_sqlite (wr_ready_at w))
    (nullable_time_from_sqlite (wr_started_at w)) (nullable_time_from_sqlite (wr_completed_at w)).

Definition get_all_active_workflows (indeterminate : RequestStatus.t) :
  sql_prog (option (list WorkflowData)) :=
  let* ok := sql Prepare in
  if negb ok then Ret None
  else
    let* rows := sql (Select (SELECT_WORKFLOWS_IN active_statuses)) in
    Ret (Some (workflow_of_row indeterminate <$> rows)).

Definition get_all_workflows_for_client (indeterminate : RequestStatus.t) (cid : string) :
  sql_prog (option (list WorkflowData)) :=
  let* ok := sql Prepare in
  if negb ok then Ret None
  else
    let* rows := sql (Select (SELECT_WORKFLOWS (c_str cid))) in
    Ret (Some (workflow_of_row indeterminate <$> rows)).

Definition fail_all_jobs_waiting_to_run (cid wid : string) : sql_prog bool :=
  let* ok := sql Prepare in
  if negb ok then Ret false
  else
    let* rc := sql (Step (UPDATE_WAITING (JobStatus.to_int JobStatus.ABORTED) (c_str cid) (c_str wid)
      [JobStatus.to_int JobStatus.PENDING; JobStatus.to_int JobStatus.READY;
       JobStatus.to_int JobStatus.QUEUED])) in
    Ret (is_done (Some rc)).

Definition fail_workflow (cid wid : string) : sql_prog bool :=
  let* ret_val1 := fail_all_jobs_waiting_to_run cid wid in
  let* ret_val2 := update_workflow_status cid wid WorkflowStatus.FAILED in
  Ret (ret_val1 && ret_val2).

(** ** Jobs *)

Definition job_of_row (j : job_row) : WorkflowJob :=
  mkWorkflowJob (c_str (jb_uuid j)) (c_str (jb_client j)) (c_str (jb_workflow j)) (c_str (jb_job j))
    (JobStatus.from_int (to_int32 (jb_status j))) (to_int32 (jb_retry_count j))
    (nullable_time_from_sqlite (jb_submitted_at j)) (nullable_time_from_sqlite (jb_ready_at j))
    (nullable_time_from_sqlite (jb_queued_at j)) (nullable_time_from_sqlite (jb_started_at j))
    (nullable_time_from_sqlite (jb_completed_at j)).

Definition get_all_jobs_for_workflow (cid wid : string) : sql_prog (option (list WorkflowJob)) :=
  let* ok := sql Prepare in
  if negb ok then Ret None
  else
    let* rows := sql (Select (SELECT_JOBS (c_str cid) (c_str wid))) in
    Ret (Some (job_of_row <$> rows)).

(** [job_data] is left as it was when there is no such job. *)
Definition get_job_data (cid wid jid : string) (job_data : WorkflowJob) :
  sql_prog (option WorkflowJob) :=
  let* ok := sql Prepare in
  if negb ok then Ret None
  else
    let* rows := sql (Select (SELECT_JOB (c_str cid) (c_str wid) (c_str jid))) in
    Ret (Some match rows with j :: _ => job_of_row j | [] => job_data end).

(** The loop of [add_workflow_jobs] stops at the first insertion that fails. *)
Fixpoint insert_jobs (cid wid : string) (now : Z) (jobs : list JobData) : sql_prog bool :=
  match jobs with
  | [] => Ret true
  | job :: jobs' =>
      let* rc := sql (Step (INSERT_JOB
        (mkJobRow (c_str (jd_job_uuid job)) (c_str cid) (c_str wid) (c_str (jd_job_id job))
           (JobStatus.to_int (jd_status job)) 0 (Some now) None None None None))) in
      if negb (is_done (Some rc)) then Ret false else insert_jobs cid wid now jobs'
  end.

(** The test after BEGIN TRANSACTION reads the return code of the preparation,
    which is SQLITE_OK there: the outcome of BEGIN is not examined. *)
Definition add_workflow_jobs (job_list : WorkflowJobList) : sql_prog (unit + StatusCodes.t) :=
  let* ok := sql Prepare in
  if negb ok then Ret (inr StatusCodes.INTERNAL_DB_FAILURE)
  else
    sql (Exec BEGIN) ;;
    let* now := sql SqlTime in
    let* inserted := insert_jobs (wl_client_id job_list) (wl_workflow_id job_list) now
                       (wl_jobs job_list) in
    if negb inserted then sql (Exec ROLLBACK) ;; Ret (inr StatusCodes.INTERNAL_DB_FAILURE)
    else
      let* committed := sql (Exec COMMIT) in
      if committed then Ret (inl tt)
      else sql (Exec ROLLBACK) ;; Ret (inr StatusCodes.INTERNAL_DB_FAILURE).

(** One of the two loops of [update_ready_jobs]: a row must be found for each
    job. *)
Fixpoint update_each (st : JobStatus.t) (ready queued : option Z) (cid wid : string)
  (job_ids : list string) : sql_prog bool :=
  match job_ids with
  | [] => Ret true
  | jid :: job_ids' =>
      let* rc := sql (Step (UPDATE_READY (JobStatus.to_int st) ready queued
                              (c_str cid) (c_str wid) (c_str jid))) in
      if negb (is_done (Some rc)) then Ret false
      else
        let* changes := sql Changes in
        if changes =? 0 then Ret false else update_each st ready queued cid wid job_ids'
  end.

Definition update_ready_jobs (cid wid : string) (queued_job_ids ready_job_ids : list string) :
  sql_prog bool :=
  let* ok := sql Prepare in
  if negb ok then Ret false
  else
    let* begun := sql (Exec BEGIN) in
    if negb begun then Ret false
    else
      let* now := sql SqlTime in
      let* ready := update_each JobStatus.READY (Some now) None cid wid ready_job_ids in
      let* updated := (if ready
                       then update_each JobStatus.QUEUED (Some now) (Some now) cid wid queued_job_ids
                       else Ret false) in
      if negb updated then sql (Exec ROLLBACK) ;; Ret false
      else
        let* committed := sql (Exec COMMIT) in
        if committed then Ret true else sql (Exec ROLLBACK) ;; Ret false.

(** The column of the transition time: [None] is a status that is refused,
    [Some None] a transition without a time. *)
Definition job_column (st : JobStatus.t) : option (option job_time) :=
  match st with
  | JobStatus.PENDING | JobStatus.RETRY_DELAY => Some None
  | JobStatus.COMPLETED | JobStatus.FAILED | JobStatus.ABORTED => Some (Some JCompleted)
  | JobStatus.RUNNING => Some (Some JStarted)
  | JobStatus.READY => Some (Some JReady)
  | JobStatus.QUEUED => Some (Some JQueued)
  | _ => None
  end.

Definition update_job_status (cid wid jid : string) (st : JobStatus.t) : sql_prog bool :=
  match job_column st with
  | None => Ret false
  | Some column =>
      let* rc := write (λ now, UPDATE_JOB (JobStatus.to_int st) column now
                                 (c_str cid) (c_str wid) (c_str jid)) in
      if negb (is_done rc) then Ret false
      else
        let* changes := sql Changes in
        Ret (negb (changes =? 0))
  end.

(** ** The database behind [IAsyncDatabase] *)

Section db.
Context `{RowOrder} {D : Type} `{!SqlEngine D} (indeterminate : RequestStatus.t).

Definition sqlite_prog {X} (e : db_ev X) : sql_prog X :=
  match e in db_ev X return sql_prog X with
  | AddRequestOnly r => add_request_only r
  | AddRequest r payload cfg => add_request r payload cfg
  | UpdateRequestStatus r => update_request_status r
  | GetAllRequestsForClient cid => get_all_requests_for_client cid
  | AddWorkflow w => add_workflow w
  | UpdateWorkflowStatus cid wid st => update_workflow_status cid wid st
  | GetAllActiveWorkflows => get_all_active_workflows indeterminate
  | GetAllWorkflowsForClient cid => get_all_workflows_for_client indeterminate cid
  | GetAllJobsForWorkflow cid wid => get_all_jobs_for_workflow cid wid
  | FailWorkflow cid wid => fail_workflow cid wid
  | AddWorkflowJobs l => add_workflow_jobs l
  | UpdateReadyJobs cid wid queued ready => update_ready_jobs cid wid queued ready
  | UpdateJobStatus cid wid jid st => update_job_status cid wid jid st
  end.

Definition sqlite_exec : handler db_ev D := λ X e d, run sql_exec (sqlite_prog e) d.
End db.
