(* ===== verification/SqliteFacts.v ===== *)
(** * What the SQLite operations do

    The operations of [SqliteDb] on the documented engine: the invariant of the
    tables, the atomicity of the operations that use a transaction, and what a
    query reads back.  A connection may fail at any call ([cn_faults]). *)

From S2P Require Import Prelude.
From S2P Require Import Prog.
From S2P Require Import Models.
From S2P Require Import Database.
From S2P Require Import Calls.
From S2P Require Import Sqlite.
From S2P Require Import SqliteDb.

Lemma wp_and {E S A} (h : handler E S) (p : prog E A) (Q1 Q2 : A → S → Prop) s :
  wp h p Q1 s → wp h p Q2 s → wp h p (λ a s', Q1 a s' ∧ Q2 a s') s.
Proof. unfold wp. by destruct (run h p s) as [[a|] s']. Qed.

(** ** The calls, one at a time *)
Section calls.
Context `{RowOrder}.
Local Abbreviation wps := (wp sql_doc).

Lemma wp_prepare c (Q : bool → conn → Prop) :
  (next_fault c = SqlFine → Q true (past_fault c)) →
  (next_fault c ≠ SqlFine → Q false (past_fault c)) → wps (sql Prepare) Q c.
Proof. intros Ht Hf. unfold wp. simpl. destruct (next_fault c); auto. Qed.

Lemma wp_sql_time c (Q : Z → conn → Prop) : Q (cn_clock c) c → wps (sql SqlTime) Q c.
Proof. done. Qed.

Lemma wp_changes c (Q : Z → conn → Prop) : Q (cn_changes c) c → wps (sql Changes) Q c.
Proof. done. Qed.

(** A statement that was executed. *)
Definition stepped (t : tables) (n : Z) (c : conn) : conn :=
  mkConn t (cn_saved c) n (cn_faults c) (cn_clock c).

Lemma wp_step s c (Q : step_rc → conn → Prop) :
  (∀ t n, exec_stmt s (cn_tables c) = Some (t, n) → Q DONE (stepped t n (past_fault c))) →
  Q CONSTRAINT (past_fault c) → Q SQL_ERROR (past_fault c) → wps (sql (Step s)) Q c.
Proof.
  intros Hd Hc He. unfold wp. simpl. destruct (next_fault c); [|done].
  destruct (exec_stmt s (cn_tables c)) as [[t n]|] eqn:E; [|done]. by apply Hd.
Qed.

Lemma wp_begin c (Q : bool → conn → Prop) :
  (cn_saved c = None → next_fault c = SqlFine →
   Q true (mkConn (cn_tables c) (Some (cn_tables c)) (cn_changes c) (tail (cn_faults c)) (cn_clock c))) →
  (next_fault c ≠ SqlFine ∨ cn_saved c ≠ None → Q false (past_fault c)) →
  wps (sql (Exec BEGIN)) Q c.
Proof.
  intros Ht Hf. unfold wp. simpl. destruct (next_fault c) eqn:En; [|by apply Hf; left].
  unfold exec_tx, past_fault in *. simpl. destruct (cn_saved c) eqn:Es; [apply Hf; by right|by apply Ht].
Qed.

Lemma wp_commit c (Q : bool → conn → Prop) :
  (∀ t, cn_saved c = Some t →
   Q true (mkConn (cn_tables c) None (cn_changes c) (tail (cn_faults c)) (cn_clock c))) →
  Q false (past_fault c) → wps (sql (Exec COMMIT)) Q c.
Proof.
  intros Ht Hf. unfold wp. simpl. destruct (next_fault c); [|done].
  unfold exec_tx, past_fault in *. simpl. destruct (cn_saved c) eqn:Es; [by eapply Ht|done].
Qed.

(** Whatever happens to a ROLLBACK, the durable tables are those the
    transaction started from. *)
Lemma wp_rollback c (Q : bool → conn → Prop) :
  (∀ b c', durable c' = durable c → Q b c') → wps (sql (Exec ROLLBACK)) Q c.
Proof.
  intros HQ. unfold wp. simpl. destruct (next_fault c); [|by apply HQ].
  unfold exec_tx, past_fault, durable in *. simpl. destruct (cn_saved c) eqn:Es; apply HQ; simpl; by rewrite ?Es.
Qed.
End calls.

(** ** Updates of ready jobs *)

(** What [update_ready_jobs] makes of one row: a queued job is QUEUED, a ready
    one READY, and a time is recorded once. *)
Definition mark_ready (now : Z) (cid wid : string) (queued ready : list string) (j : job_row) : job_row :=
  let is_one ids := existsb (λ jid, is_job (c_str cid) (c_str wid) (c_str jid) j) ids in
  if is_one queued then set_job_ready (JobStatus.to_int JobStatus.QUEUED) (Some now) (Some now) j
  else if is_one ready then set_job_ready (JobStatus.to_int JobStatus.READY) (Some now) None j
  else j.

Definition mark_each (st : Z) (ready queued : option Z) (cid wid : string) (ids : list string)
  (j : job_row) : job_row :=
  if existsb (λ jid, is_job (c_str cid) (c_str wid) (c_str jid) j) ids
  then set_job_ready st ready queued j else j.

(** Every job of the list has a row. *)
Definition all_present (cid wid : string) (ids : list string) (l : list job_row) : bool :=
  forallb (λ jid, existsb (is_job (c_str cid) (c_str wid) (c_str jid)) l) ids.

Lemma is_job_ready cid wid jid st r q j :
  is_job cid wid jid (set_job_ready st r q j) = is_job cid wid jid j.
Proof. done. Qed.

Lemma coalesce_idem a b : coalesce (coalesce a b) b = coalesce a b.
Proof. by destruct a, b. Qed.
Lemma coalesce_none a : coalesce a None = a.
Proof. by destruct a. Qed.

Lemma set_job_ready_idem st r q j : set_job_ready st r q (set_job_ready st r q j) = set_job_ready st r q j.
Proof. unfold set_job_ready, set_job_row. simpl. by rewrite !coalesce_idem. Qed.

Lemma mark_each_cons st r q cid wid jid ids j :
  mark_each st r q cid wid ids
    (if is_job (c_str cid) (c_str wid) (c_str jid) j then set_job_ready st r q j else j)
  = mark_each st r q cid wid (jid :: ids) j.
Proof.
  unfold mark_each. simpl. destruct (is_job _ _ _ j) eqn:E; simpl; [|done].
  rewrite set_job_ready_idem. by destruct (existsb _ ids).
Qed.

Lemma mark_ready_both now cid wid queued ready j :
  mark_each (JobStatus.to_int JobStatus.QUEUED) (Some now) (Some now) cid wid queued
    (mark_each (JobStatus.to_int JobStatus.READY) (Some now) None cid wid ready j)
  = mark_ready now cid wid queued ready j.
Proof.
  unfold mark_each, mark_ready. destruct (existsb _ ready); [|done].
  assert (∀ l, existsb (λ jid, is_job (c_str cid) (c_str wid) (c_str jid)
            (set_job_ready (JobStatus.to_int JobStatus.READY) (Some now) None j)) l
          = existsb (λ jid, is_job (c_str cid) (c_str wid) (c_str jid) j) l) as -> by done.
  destruct (existsb _ queued); [|done].
  unfold set_job_ready, set_job_row. simpl. by rewrite coalesce_idem, coalesce_none.
Qed.

Lemma cnt_existsb {A} (p : A → bool) l : cnt p l = 0 ↔ existsb p l = false.
Proof.
  rewrite cnt_zero. split.
  - intros Hz. destruct (existsb p l) eqn:E; [|done].
    apply existsb_exists in E as (x & Hx & Hp). rewrite Hz in Hp; [done|by apply list_elem_of_In].
  - intros He x Hx. destruct (p x) eqn:E; [|done].
    assert (existsb p l = true) by (apply existsb_exists; exists x; split; [by apply list_elem_of_In|done]).
    congruence.
Qed.

Lemma all_present_map cid wid ids l (f : job_row → job_row) :
  (∀ jid j, is_job (c_str cid) (c_str wid) jid (f j) = is_job (c_str cid) (c_str wid) jid j) →
  all_present cid wid ids (f <$> l) = all_present cid wid ids l.
Proof.
  intros Hf. unfold all_present. induction ids as [|jid ids IH]; simpl; [done|]. f_equal; [|done].
  clear IH. induction l as [|j l IH]; simpl; [done|]. rewrite Hf. by f_equal.
Qed.

Section transactions.
Context `{RowOrder}.
Local Abbreviation wps := (wp sql_doc).

Lemma update_each_wp st r q cid wid ids c :
  wps (update_each st r q cid wid ids) (λ b c',
    cn_saved c' = cn_saved c ∧ cn_clock c' = cn_clock c ∧
    (b = true →
     all_present cid wid ids (t_jobs (cn_tables c)) = true ∧
     cn_tables c' = set_jobs (mark_each (JobStatus.to_int st) r q cid wid ids <$> t_jobs (cn_tables c))
                      (cn_tables c))) c.
Proof.
  revert c. induction ids as [|jid ids IH]; intros c; simpl.
  - apply wp_ret. split_and!; [done..|]. intros _. split; [done|].
    destruct (cn_tables c). unfold set_jobs. simpl. f_equal. symmetry. by apply list_fmap_id.
  - apply wp_bind, wp_step; [|by apply wp_ret..]. intros t n Ht. simpl in Ht. injection Ht as <- <-.
    apply wp_bind, wp_changes. simpl.
    destruct (cnt _ _ =? 0) eqn:E; [by apply wp_ret|]. apply Z.eqb_neq in E.
    rewrite cnt_existsb, not_false_iff_true in E.
    eapply wp_mono; [|apply IH]. intros b c' (Hs & Hk & Ht). split_and!; [done..|].
    intros Hb. destruct (Ht Hb) as [Hp ->]. simpl in *. split.
    + rewrite E. simpl. rewrite <-Hp. symmetry. apply all_present_map. intros jid' j. by destruct (is_job _ _ _ j).
    + unfold set_jobs. simpl. f_equal. rewrite <-list_fmap_compose. apply list_fmap_ext.
      intros i j _. apply mark_each_cons.
Qed.

(** [update_ready_jobs] is all or nothing, whatever call fails. *)
Lemma update_ready_jobs_wp cid wid queued ready c :
  cn_saved c = None →
  wps (update_ready_jobs cid wid queued ready) (λ b c',
    if b then
      cn_saved c' = None ∧
      all_present cid wid (ready ++ queued)%list (t_jobs (cn_tables c)) = true ∧
      cn_tables c' = set_jobs (mark_ready (cn_clock c) cid wid queued ready <$> t_jobs (cn_tables c))
                       (cn_tables c)
    else durable c' = durable c) c.
Proof.
  intros Hs. unfold update_ready_jobs.
  assert (∀ c0, durable (past_fault c0) = durable c0) as Hpf by done.
  apply wp_bind, wp_prepare; intros _; [|by apply wp_ret].
  apply wp_bind, wp_begin; [|by intros _; apply wp_ret]. intros _ _. simpl.
  apply wp_bind, wp_sql_time, wp_bind. simpl.
  eapply wp_mono; [|apply update_each_wp]. simpl. intros b1 c1 (Hs1 & Hk1 & Ht1).
  assert (durable c1 = durable c) as Hd1 by (unfold durable; by rewrite Hs1, Hs).
  apply wp_bind. destruct b1.
  2:{ apply wp_ret. simpl. apply wp_bind, wp_rollback. intros _ c' Hd. apply wp_ret. congruence. }
  destruct (Ht1 eq_refl) as [Hp1 Et1].
  eapply wp_mono; [|apply update_each_wp]. intros b2 c2 (Hs2 & Hk2 & Ht2).
  assert (durable c2 = durable c) as Hd2 by (unfold durable; by rewrite Hs2, Hs1, Hs).
  destruct b2; simpl.
  2:{ apply wp_bind, wp_rollback. intros _ c' Hd. apply wp_ret. congruence. }
  destruct (Ht2 eq_refl) as [Hp2 Et2].
  apply wp_bind, wp_commit.
  - intros t0 _. apply wp_ret. split_and!; [done| |].
    + unfold all_present in *. rewrite forallb_app, Hp1. simpl. rewrite Et1 in Hp2. simpl in Hp2.
      rewrite <-Hp2. symmetry. apply all_present_map. intros jid j.
      unfold mark_each. by destruct (existsb _ _).
    + simpl. rewrite Et2, Et1. unfold set_jobs. simpl. f_equal. rewrite <-list_fmap_compose.
      apply list_fmap_ext. intros i j _. apply mark_ready_both.
  - simpl. apply wp_bind, wp_rollback. intros _ c' Hd. apply wp_ret. by rewrite Hd, Hpf.
Qed.

(** ** Insertion of the jobs of a workflow *)

Definition job_row_of (cid wid : string) (now : Z) (job : JobData) : job_row :=
  mkJobRow (c_str (jd_job_uuid job)) (c_str cid) (c_str wid) (c_str (jd_job_id job))
    (JobStatus.to_int (jd_status job)) 0 (Some now) None None None None.

Lemma insert_jobs_wp cid wid now jobs c :
  wps (insert_jobs cid wid now jobs) (λ b c',
    cn_saved c' = cn_saved c ∧
    (b = true → cn_tables c' = set_jobs (t_jobs (cn_tables c) ++ (job_row_of cid wid now <$> jobs))%list
                                (cn_tables c))) c.
Proof.
  revert c. induction jobs as [|job jobs IH]; intros c; simpl.
  - apply wp_ret. split; [done|]. intros _. rewrite app_nil_r. by destruct (cn_tables c).
  - apply wp_bind, wp_step; [|by apply wp_ret..]. intros t n Ht. simpl.
    eapply wp_mono; [|apply IH]. intros b c' [Hs Ht']. split; [done|]. intros Hb. rewrite (Ht' Hb).
    simpl in Ht. unfold insert_row in Ht. destruct (existsb _ _); [done|]. simpl in Ht.
    injection Ht as <- <-. unfold set_jobs. simpl. f_equal. by rewrite <-app_assoc.
Qed.

(** [add_workflow_jobs] is all or nothing when BEGIN TRANSACTION succeeds. *)
Lemma add_workflow_jobs_wp l c :
  cn_saved c = None → next_fault (past_fault c) = SqlFine →
  wps (add_workflow_jobs l) (λ r c',
    match r with
    | inl _ =>
        cn_saved c' = None ∧
        cn_tables c' = set_jobs (t_jobs (cn_tables c) ++
                         (job_row_of (wl_client_id l) (wl_workflow_id l) (cn_clock c) <$> wl_jobs l))%list
                         (cn_tables c)
    | inr code => code = StatusCodes.INTERNAL_DB_FAILURE ∧ durable c' = durable c
    end) c.
Proof.
  intros Hs Hf. unfold add_workflow_jobs. apply wp_bind, wp_prepare; intros _; [|by apply wp_ret].
  simpl. apply wp_bind, wp_begin; [|intros [?|?]; [done|]; by destruct (cn_saved (past_fault c)) eqn:E; simpl in E; congruence].
  intros _ _. simpl. apply wp_bind, wp_sql_time, wp_bind. simpl.
  eapply wp_mono; [|apply insert_jobs_wp]. simpl. intros b c1 [Hs1 Ht1].
  assert (durable c1 = durable c) as Hd1 by (unfold durable; by rewrite Hs1, Hs).
  destruct b; simpl.
  2:{ apply wp_bind, wp_rollback. intros _ c' Hd. apply wp_ret. split; [done|congruence]. }
  apply wp_bind, wp_commit.
  - intros t0 _. apply wp_ret. split; [done|]. simpl. by rewrite (Ht1 eq_refl).
  - simpl. apply wp_bind, wp_rollback. intros _ c' Hd. apply wp_ret. split; [done|]. by rewrite Hd.
Qed.
End transactions.

(** ** The invariant of the tables

    Primary keys and UNIQUE constraints hold, every stored status is the number
    of a status, and the identifiers are C strings. *)
Definition request_row_key (r : request_row) := (rr_client_id r, rr_request_id r).
Definition workflow_row_key (w : workflow_row) := (wr_client w, wr_workflow w).
Definition payload_row_key (p : payload_row) := (pr_client_id p, pr_request_id p).
Definition job_row_key (j : job_row) := (jb_client j, jb_workflow j, jb_job j).

(** Text that was bound as a C string has no NUL. *)
Definition nul_free (s : string) : bool := String.eqb (c_str s) s.
Definition job_texts_ok (j : job_row) : Prop :=
  nul_free (jb_client j) && nul_free (jb_workflow j) && nul_free (jb_job j) = true.
Definition workflow_texts_ok (w : workflow_row) : Prop :=
  nul_free (wr_client w) && nul_free (wr_workflow w) = true.

Lemma nul_free_c_str s : nul_free (c_str s) = true.
Proof. unfold nul_free. by rewrite c_str_idem, String.eqb_refl. Qed.

Record tables_ok (t : tables) : Prop := {
  ok_requests : NoDup (request_row_key <$> t_requests t);
  ok_workflows : NoDup (workflow_row_key <$> t_workflows t);
  ok_payloads : NoDup (payload_row_key <$> t_payloads t);
  ok_jobs : NoDup (job_row_key <$> t_jobs t);
  ok_uuids : NoDup (jb_uuid <$> t_jobs t);
  ok_rates : NoDup (rt_plan_name <$> t_rates t);
  ok_policies : NoDup (po_plan_name <$> t_policies t);
  ok_clients : NoDup (cl_client_id <$> t_clients t);
  ok_request_status : Forall (λ r, ∃ st, rr_status r = RequestStatus.to_int st) (t_requests t);
  ok_workflow_status : Forall (λ w, ∃ st, wr_st w = WorkflowStatus.to_int st) (t_workflows t);
  ok_job_status : Forall (λ j, ∃ st, jb_status j = JobStatus.to_int st) (t_jobs t);
  ok_job_texts : Forall job_texts_ok (t_jobs t);
  ok_workflow_texts : Forall workflow_texts_ok (t_workflows t)
}.

(** The statuses and identifiers a statement writes; a new row has only the
    times that are bound. *)
Definition stmt_ok (s : stmt) : Prop :=
  match s with
  | INSERT_REQUEST r => ∃ st, rr_status r = RequestStatus.to_int st
  | UPDATE_REQUEST n _ _ _ => ∃ st, n = RequestStatus.to_int st
  | INSERT_WORKFLOW w => (∃ st, wr_st w = WorkflowStatus.to_int st) ∧ workflow_texts_ok w ∧
      wr_started_at w = None ∧ wr_ready_at w = None ∧ wr_completed_at w = None
  | UPDATE_WORKFLOW n _ _ _ _ => ∃ st, n = WorkflowStatus.to_int st
  | INSERT_JOB j => (∃ st, jb_status j = JobStatus.to_int st) ∧ job_texts_ok j ∧
      jb_ready_at j = None ∧ jb_queued_at j = None ∧ jb_started_at j = None ∧ jb_completed_at j = None
  | UPDATE_READY n _ _ _ _ _ | UPDATE_JOB n _ _ _ _ _ | UPDATE_WAITING n _ _ _ =>
      ∃ st, n = JobStatus.to_int st
  | REPLACE_CLIENT c => cl_status c = "ACTIVE"
  | _ => True
  end.

Section rows.
Context {A K : Type} (key : A → K).

Lemma insert_row_key same (x : A) l l' :
  (∀ y, key y = key x → same x y = true) → insert_row same x l = Some l' →
  NoDup (key <$> l) → NoDup (key <$> l').
Proof.
  intros Hsame. unfold insert_row. destruct (existsb (same x) l) eqn:E; [done|]. intros [= <-] Hn.
  rewrite fmap_app. apply NoDup_app. split_and!; [done| |apply NoDup_singleton].
  intros k Hk Hx. apply list_elem_of_singleton in Hx. subst k.
  apply list_elem_of_fmap in Hk as (y & Hy & Hel).
  assert (existsb (same x) l = true); [|congruence].
  apply existsb_exists. exists y. split; [by apply list_elem_of_In|]. by apply Hsame.
Qed.

Lemma filter_key (p : A → bool) l : NoDup (key <$> l) → NoDup (key <$> List.filter p l).
Proof.
  intros Hn. induction l as [|y l IH]; simpl; [done|].
  apply NoDup_cons in Hn as [Hy Hn]. destruct (p y); simpl; [|by apply IH].
  apply NoDup_cons. split; [|by apply IH]. contradict Hy.
  apply list_elem_of_fmap in Hy as (z & Ez & Hz). rewrite Ez. apply list_elem_of_fmap. exists z.
  split; [done|]. apply list_elem_of_In, filter_In in Hz as [Hz _]. by apply list_elem_of_In.
Qed.

Lemma replace_row_key same (x : A) l :
  (∀ y, key y = key x → same x y = true) →
  NoDup (key <$> l) → NoDup (key <$> replace_row same x l).
Proof.
  intros Hsame Hn. unfold replace_row. rewrite fmap_app. apply NoDup_app.
  split_and!; [|intros k Hk Hx|apply NoDup_singleton].
  - by apply filter_key.
  - apply list_elem_of_singleton in Hx. subst k.
    apply list_elem_of_fmap in Hk as (y & Hy & Hel).
    apply list_elem_of_In, filter_In in Hel as [_ Hne]. by rewrite Hsame in Hne.
Qed.

Lemma update_rows_key (p : A → bool) (f : A → A) l :
  (∀ x, key (f x) = key x) → NoDup (key <$> l) →
  NoDup (key <$> ((λ x, if p x then f x else x) <$> l)).
Proof.
  intros Hf Hn. rewrite <-list_fmap_compose.
  rewrite (list_fmap_ext _ key l); [done|]. intros i x _. simpl. by destruct (p x).
Qed.

Lemma update_rows_Forall (P : A → Prop) (p : A → bool) f l :
  (∀ x, P x → P (f x)) → Forall P l → Forall P ((λ x, if p x then f x else x) <$> l).
Proof.
  intros Hf Hl. apply Forall_fmap. eapply Forall_impl; [done|].
  intros x Hx. simpl. destruct (p x); auto.
Qed.

Lemma insert_row_Forall (P : A → Prop) same x l l' :
  insert_row same x l = Some l' → P x → Forall P l → Forall P l'.
Proof.
  unfold insert_row. destruct (existsb _ _); [done|]. intros [= <-] Hx Hl.
  apply Forall_app. by split; [|apply Forall_singleton].
Qed.
End rows.

Lemma string_pair_eqb (a b c d : string) :
  (a, b) = (c, d) → String.eqb c a && String.eqb d b = true.
Proof. intros [= -> ->]. by rewrite !String.eqb_refl. Qed.

Lemma exec_stmt_ok s t t' n : stmt_ok s → exec_stmt s t = Some (t', n) → tables_ok t → tables_ok t'.
Proof.
  intros Hs He Ht. destruct Ht. destruct s; simpl in *;
    try (destruct (insert_row _ _ _) as [l|] eqn:Hi; [|done]; simpl in He);
    injection He as <- <-; split; simpl; try done.
  all: try (eapply insert_row_key; [|exact Hi|done]; simpl; intros y Hy;
            by apply string_pair_eqb).
  all: try (eapply insert_row_Forall; [exact Hi|naive_solver|done]).
  all: try (eapply replace_row_key; [|done]; simpl; intros y ->; apply String.eqb_refl).
  all: try (by apply update_rows_key).
  all: try (apply update_rows_Forall; [|done]; simpl; intros; naive_solver).
  - eapply insert_row_key; [|exact Hi|done]. intros y Hy. unfold same_job, is_job.
    injection Hy as -> -> ->. rewrite !String.eqb_refl. apply orb_true_r.
  - eapply insert_row_key; [|exact Hi|done]. intros y Hy. unfold same_job. by rewrite Hy, String.eqb_refl.
Qed.

(** The statements a program may execute. *)
Definition event_ok {X} (e : sql_ev X) : Prop := match e with Step s => stmt_ok s | _ => True end.

Fixpoint emits_ok {A} (p : sql_prog A) : Prop :=
  match p with
  | Ret _ | Throw => True
  | Vis e k => event_ok e ∧ ∀ x, emits_ok (k x)
  end.

Lemma emits_bind {A B} (p : sql_prog A) (f : A → sql_prog B) :
  emits_ok p → (∀ a, emits_ok (f a)) → emits_ok (pbind p f).
Proof.
  intros Hp Hf. induction p as [a| |X e k IH]; simpl in *; [apply Hf|done|].
  destruct Hp as [He Hk]. split; [done|]. intros x. by apply IH.
Qed.

(** Both the tables of the connection and the durable ones are well formed. *)
Definition conn_ok (c : conn) : Prop := tables_ok (cn_tables c) ∧ tables_ok (durable c).

Section invariant.
Context `{RowOrder}.

Lemma sql_doc_ok X (e : sql_ev X) c : event_ok e → conn_ok c → conn_ok (sql_doc X e c).2.
Proof.
  unfold conn_ok, durable. intros He [Ht Hd]. destruct e as [|s|A q| |cmd|]; simpl in *; try done.
  - destruct (next_fault c); [|done]. simpl. destruct (exec_stmt s (cn_tables c)) as [[t n]|] eqn:E; [|done].
    simpl. pose proof (exec_stmt_ok _ _ _ _ He E Ht). by destruct (cn_saved c).
  - destruct (next_fault c); [|done].
    unfold exec_tx, past_fault. simpl. destruct cmd, (cn_saved c); done.
Qed.

Lemma emits_run {A} (p : sql_prog A) c : emits_ok p → conn_ok c → conn_ok (run sql_doc p c).2.
Proof.
  revert c. induction p as [a| |X e k IH]; intros c Hp Hc; simpl in *; [done..|].
  destruct Hp as [He Hk]. pose proof (sql_doc_ok X e c He Hc) as Hc'.
  destruct (sql_doc X e c) as [[x|] c']; simpl in *; [|done]. by apply IH.
Qed.
End invariant.

(** Sequences, branches and statements of the operations. *)
Create HintDb emits.
Ltac emits :=
  repeat first
    [ exact I
    | solve [eauto with emits nocore]
    | apply emits_bind; [|intros ?]
    | match goal with
      | |- emits_ok (if ?b then _ else _) => destruct b
      | |- emits_ok (match ?x with _ => _ end) => destruct x
      end
    | progress (cbn [emits_ok trigger event_ok stmt_ok]; split_and?; intros) ];
  unfold job_texts_ok, workflow_texts_ok; simpl; rewrite ?nul_free_c_str; eauto.

Lemma insert_jobs_emits cid wid now jobs : emits_ok (insert_jobs cid wid now jobs).
Proof. induction jobs as [|job jobs IH]; cbn [insert_jobs]; emits. Qed.

Lemma update_each_emits st r q cid wid ids : emits_ok (update_each st r q cid wid ids).
Proof. induction ids as [|jid ids IH]; cbn [update_each]; emits. Qed.
#[export] Hint Resolve insert_jobs_emits update_each_emits : emits.

Lemma sqlite_emits indeterminate X (e : db_ev X) : emits_ok (sqlite_prog indeterminate e).
Proof.
  destruct e; cbn [sqlite_prog];
    unfold add_request, add_request_only, get_client_active_workflows_count, add_request_payload,
      update_request_status, get_all_requests_for_client, add_workflow, fail_workflow,
      fail_all_jobs_waiting_to_run, update_workflow_status, get_all_active_workflows,
      get_all_workflows_for_client, get_all_jobs_for_workflow, add_workflow_jobs, update_ready_jobs,
      update_job_status, write; emits.
  all: first [by exists JobStatus.ABORTED|by exists WorkflowStatus.FAILED].
Qed.

Lemma upserts_emit :
  (∀ r, emits_ok (upsert_rate_limit_plan r)) ∧ (∀ p, emits_ok (upsert_policy_plan p)) ∧
  (∀ u r p, emits_ok (upsert_user_config u r p)).
Proof.
  unfold upsert_rate_limit_plan, upsert_policy_plan, upsert_user_config, write. split_and!; intros; emits.
Qed.

(** ** An empty database *)
Definition no_tables : tables := mkTables [] [] [] [] [] [] [].

Lemma no_tables_ok : tables_ok no_tables.
Proof. split; constructor. Qed.

Section engine.
Context `{RowOrder} {D : Type} `{!SqlEngine D}.

Lemma engine_run_ok {A} (p : sql_prog A) d :
  emits_ok p → conn_ok (sql_conn d) → conn_ok (sql_conn (run sql_exec p d).2).
Proof.
  intros Hp Hd. pose proof (sql_run p d) as Hr. apply (f_equal snd) in Hr. simpl in Hr.
  rewrite <-Hr. by apply emits_run.
Qed.

(** What holds of the documented engine holds of every engine. *)
Lemma engine_wp {A} (p : sql_prog A) d (Q : A → conn → Prop) :
  wp sql_doc p Q (sql_conn d) → ∃ a d', run sql_exec p d = (Some a, d') ∧ Q a (sql_conn d').
Proof.
  intros (a & c' & Hr & HQ)%wp_run. rewrite sql_run in Hr. injection Hr as Ha <-.
  exists a, (run sql_exec p d).2. split; [|exact HQ]. by destruct (run sql_exec p d); simpl in *; subst.
Qed.
End engine.

(** ** Programs without exceptions return *)
Lemma sqlite_returns `{RowOrder} {D : Type} `{!SqlEngine D} {A} (p : sql_prog A) (d : D) :
  throwless p → is_Some (run sql_exec p d).1.
Proof.
  intros Hp. assert (is_Some (run sql_doc p (sql_conn d)).1) as Hr; [|by rewrite sql_run in Hr].
  generalize (sql_conn d). induction p as [a| |X e k IH]; intros c; simpl in *; [by eexists|done|].
  destruct (sql_doc_total X e c) as [x Hx]. destruct (sql_doc X e c) as [o c']. simpl in *. subst o. by apply IH.
Qed.

(** ** Calls that do not fail *)
Section fine.
Context `{RowOrder}.
Local Abbreviation wps := (wp sql_doc).

Lemma past_fault_nil c : cn_faults c = [] → past_fault c = c.
Proof. destruct c. simpl. by intros ->. Qed.

Lemma next_fault_nil c : cn_faults c = [] → next_fault c = SqlFine.
Proof. unfold next_fault. by intros ->. Qed.

Lemma wp_prepare_fine c (Q : bool → conn → Prop) :
  cn_faults c = [] → Q true c → wps (sql Prepare) Q c.
Proof. intros Hf HQ. unfold wp. simpl. by rewrite next_fault_nil, past_fault_nil. Qed.

Lemma wp_step_fine s c t n (Q : step_rc → conn → Prop) :
  cn_faults c = [] → exec_stmt s (cn_tables c) = Some (t, n) → Q DONE (stepped t n c) →
  wps (sql (Step s)) Q c.
Proof.
  intros Hf Hs HQ. unfold wp, stepped in *. simpl. rewrite next_fault_nil by done. rewrite Hs, Hf.
  by rewrite Hf in HQ.
Qed.

Lemma wp_select_fine {A} (q : query A) c (Q : list A → conn → Prop) :
  cn_faults c = [] → Q (rows (eval_query q (cn_tables c))) c → wps (sql (Select q)) Q c.
Proof. intros Hf HQ. unfold wp. simpl. by rewrite next_fault_nil, past_fault_nil. Qed.

Lemma wp_begin_fine c (Q : bool → conn → Prop) :
  cn_faults c = [] → cn_saved c = None →
  Q true (mkConn (cn_tables c) (Some (cn_tables c)) (cn_changes c) [] (cn_clock c)) →
  wps (sql (Exec BEGIN)) Q c.
Proof.
  intros Hf Hs HQ. unfold wp. simpl. rewrite next_fault_nil, past_fault_nil by done.
  unfold exec_tx. by rewrite Hs, Hf.
Qed.

Lemma wp_commit_fine c t (Q : bool → conn → Prop) :
  cn_faults c = [] → cn_saved c = Some t →
  Q true (mkConn (cn_tables c) None (cn_changes c) [] (cn_clock c)) → wps (sql (Exec COMMIT)) Q c.
Proof.
  intros Hf Hs HQ. unfold wp. simpl. rewrite next_fault_nil, past_fault_nil by done.
  unfold exec_tx. by rewrite Hs, Hf.
Qed.

(** ** One write, whatever fails *)

(** A prepared write took place exactly when its return code says DONE; without
    failing calls it is DONE or violates a constraint. *)
Lemma write_wp s c :
  wps (write s) (λ rc c', cn_saved c' = cn_saved c ∧
    (if is_done rc then exec_stmt (s (cn_clock c)) (cn_tables c) = Some (cn_tables c', cn_changes c')
     else cn_tables c' = cn_tables c) ∧
    (cn_faults c = [] → exec_stmt (s (cn_clock c)) (cn_tables c) ≠ None → is_done rc = true)) c.
Proof.
  unfold wp, write. rewrite run_trigger_bind. cbn [sql_doc].
  destruct (next_fault c) eqn:E1; cbn [negb].
  2:{ split_and!; [done|done|]. intros Hf. by rewrite next_fault_nil in E1. }
  rewrite run_trigger_bind. cbn [sql_doc]. rewrite run_trigger_bind. cbn [sql_doc].
  destruct (next_fault (past_fault c)) eqn:E2; cbn.
  2:{ split_and!; [done|done|]. intros Hf. rewrite past_fault_nil, next_fault_nil in E2; done. }
  destruct (exec_stmt _ _) as [[t n]|] eqn:E3; cbn; split_and!; done.
Qed.

(** An UPDATE of the rows [p] that then asks whether a row changed. *)
Lemma checked_update_wp {A} (s : Z → stmt) (p : A → bool) (f : A → A) (get : tables → list A)
  (set : list A → tables → tables) c :
  (∀ t, set (get t) t = t) →
  exec_stmt (s (cn_clock c)) (cn_tables c) =
    Some (set ((λ x, if p x then f x else x) <$> get (cn_tables c)) (cn_tables c),
          cnt p (get (cn_tables c))) →
  wps (let* rc := write s in
       if negb (is_done rc) then Ret false
       else let* changes := sql Changes in Ret (negb (changes =? 0)))
    (λ b c', cn_saved c' = cn_saved c ∧
       cn_tables c' = (if b then set ((λ x, if p x then f x else x) <$> get (cn_tables c)) (cn_tables c)
                       else cn_tables c) ∧
       (b = true → existsb p (get (cn_tables c)) = true) ∧
       (cn_faults c = [] → existsb p (get (cn_tables c)) = true → b = true)) c.
Proof.
  intros Hid He. apply wp_bind. eapply wp_mono; [|apply write_wp]. intros rc c' (Hs & Hd & Hf).
  rewrite He in Hd, Hf. destruct (is_done rc) eqn:E; cbn [negb].
  - apply wp_bind, wp_changes. injection Hd as Ht <-. apply wp_ret.
    destruct (Z.eqb_spec (cnt p (get (cn_tables c))) 0) as [E0|E0]; cbn [negb].
    + apply cnt_existsb in E0. split_and!; [done| |done|congruence]. rewrite <-Ht.
      rewrite <-(Hid (cn_tables c)) at 3. f_equal. rewrite <-(list_fmap_id (get (cn_tables c))) at 2.
      apply list_fmap_ext. intros i x Hx. cbn. destruct (p x) eqn:Ep; [|done].
      assert (existsb p (get (cn_tables c)) = true) as Hex; [|congruence].
      apply existsb_exists. exists x. split; [|done]. by eapply list_elem_of_In, list_elem_of_lookup_2.
    + split_and!; [done|done| |done]. intros _. rewrite cnt_existsb in E0. by destruct (existsb _ _).
  - apply wp_ret. split_and!; [done|done|done|]. intros Hn _. by discriminate Hf.
Qed.

Lemma update_job_status_wp cid wid jid st column c :
  job_column st = Some column →
  wps (update_job_status cid wid jid st) (λ b c', cn_saved c' = cn_saved c ∧
    cn_tables c' = (if b then set_jobs ((λ j, if is_job (c_str cid) (c_str wid) (c_str jid) j
        then set_job_status (JobStatus.to_int st) column (cn_clock c) j else j) <$> t_jobs (cn_tables c))
        (cn_tables c) else cn_tables c) ∧
    (b = true → existsb (is_job (c_str cid) (c_str wid) (c_str jid)) (t_jobs (cn_tables c)) = true) ∧
    (cn_faults c = [] →
     existsb (is_job (c_str cid) (c_str wid) (c_str jid)) (t_jobs (cn_tables c)) = true → b = true)) c.
Proof.
  intros Hc. unfold update_job_status. rewrite Hc.
  apply (checked_update_wp _ _ _ t_jobs set_jobs c); [by intros []|done].
Qed.

Lemma update_workflow_status_wp cid wid st column c :
  workflow_column st = Some column →
  wps (update_workflow_status cid wid st) (λ b c', cn_saved c' = cn_saved c ∧
    cn_tables c' = (if b then set_workflows ((λ x, if is_workflow (c_str cid) (c_str wid) x
        then set_workflow_status (WorkflowStatus.to_int st) column (cn_clock c) x else x)
          <$> t_workflows (cn_tables c)) (cn_tables c) else cn_tables c) ∧
    (b = true → existsb (is_workflow (c_str cid) (c_str wid)) (t_workflows (cn_tables c)) = true) ∧
    (cn_faults c = [] →
     existsb (is_workflow (c_str cid) (c_str wid)) (t_workflows (cn_tables c)) = true → b = true)) c.
Proof.
  intros Hc. unfold update_workflow_status. rewrite Hc.
  apply (checked_update_wp _ _ _ t_workflows set_workflows c); [by intros []|done].
Qed.

Lemma update_request_status_wp r c :
  wps (update_request_status r) (λ b c', cn_saved c' = cn_saved c ∧
    cn_tables c' = (if b then set_requests ((λ x,
        if String.eqb (c_str (rq_client_id r)) (rr_client_id x) &&
           String.eqb (c_str (rq_request_id r)) (rr_request_id x)
        then set_request_status (RequestStatus.to_int (rq_status r)) (c_str (rq_reject_reason r)) x
        else x) <$> t_requests (cn_tables c)) (cn_tables c) else cn_tables c)) c.
Proof.
  unfold update_request_status. apply wp_bind, wp_prepare; intros _; [|by apply wp_ret].
  cbn [negb]. apply wp_bind, wp_step; [|by apply wp_ret..].
  intros t n [= <- <-]. by apply wp_ret.
Qed.

(** A connection at rest whose calls do not fail. *)
Definition quiet (c : conn) : Prop := cn_faults c = [] ∧ cn_saved c = None.

Lemma update_job_fine cid wid jid st column c :
  quiet c → job_column st = Some column →
  existsb (is_job (c_str cid) (c_str wid) (c_str jid)) (t_jobs (cn_tables c)) = true →
  wps (update_job_status cid wid jid st) (λ b c', b = true ∧ quiet c' ∧
    cn_tables c' = set_jobs ((λ j, if is_job (c_str cid) (c_str wid) (c_str jid) j
                                   then set_job_status (JobStatus.to_int st) column (cn_clock c) j
                                   else j) <$> t_jobs (cn_tables c)) (cn_tables c)) c.
Proof.
  intros [Hf Hs] Hc He. unfold update_job_status. rewrite Hc. unfold write.
  apply wp_bind, wp_bind, wp_prepare_fine; [done|]. simpl negb. cbn iota.
  apply wp_bind, wp_sql_time, wp_bind. eapply wp_step_fine; [done|done|].
  apply wp_ret. simpl. apply wp_bind, wp_changes. apply wp_ret. simpl. split_and!; [|done|done].
  destruct (cnt _ _ =? 0) eqn:E; [|done]. apply Z.eqb_eq, cnt_existsb in E. congruence.
Qed.

Lemma update_workflow_fine cid wid st column c :
  quiet c → workflow_column st = Some column →
  existsb (is_workflow (c_str cid) (c_str wid)) (t_workflows (cn_tables c)) = true →
  wps (update_workflow_status cid wid st) (λ b c', b = true ∧ quiet c' ∧
    cn_tables c' = set_workflows ((λ x, if is_workflow (c_str cid) (c_str wid) x
                                   then set_workflow_status (WorkflowStatus.to_int st) column (cn_clock c) x
                                   else x) <$> t_workflows (cn_tables c)) (cn_tables c)) c.
Proof.
  intros [Hf Hs] Hc He. unfold update_workflow_status. rewrite Hc. unfold write.
  apply wp_bind, wp_bind, wp_prepare_fine; [done|]. simpl negb. cbn iota.
  apply wp_bind, wp_sql_time, wp_bind. eapply wp_step_fine; [done|done|].
  apply wp_ret. simpl. apply wp_bind, wp_changes. apply wp_ret. simpl. split_and!; [|done|done].
  destruct (cnt _ _ =? 0) eqn:E; [|done]. apply Z.eqb_eq, cnt_existsb in E. congruence.
Qed.

Lemma update_each_fine st r q cid wid ids c :
  cn_faults c = [] → all_present cid wid ids (t_jobs (cn_tables c)) = true →
  wps (update_each st r q cid wid ids) (λ b c', b = true ∧ cn_faults c' = []) c.
Proof.
  revert c. induction ids as [|jid ids IH]; intros c Hf Hp; simpl; [by apply wp_ret|].
  simpl in Hp. apply andb_true_iff in Hp as [He Hp].
  apply wp_bind. eapply wp_step_fine; [done|done|]. simpl. apply wp_bind, wp_changes. simpl.
  destruct (cnt _ _ =? 0) eqn:E; [apply Z.eqb_eq, cnt_existsb in E; congruence|].
  apply IH; [done|]. simpl. rewrite <-Hp. apply all_present_map. intros jid' j. by destruct (is_job _ _ _ j).
Qed.

Lemma update_ready_fine cid wid queued ready c :
  quiet c → all_present cid wid (ready ++ queued)%list (t_jobs (cn_tables c)) = true →
  wps (update_ready_jobs cid wid queued ready) (λ b c', b = true ∧ cn_faults c' = []) c.
Proof.
  intros [Hf Hs] Hp. unfold all_present in Hp. rewrite forallb_app in Hp. apply andb_true_iff in Hp as [Hr Hq].
  unfold update_ready_jobs. apply wp_bind, wp_prepare_fine; [done|]. simpl negb. cbn iota.
  apply wp_bind, wp_begin_fine; [done..|]. simpl negb. cbn iota. apply wp_bind, wp_sql_time, wp_bind.
  eapply wp_mono; [|apply wp_and; [apply update_each_fine; [done|exact Hr]|apply update_each_wp]].
  intros b1 c1 [[-> Hf1] (Hs1 & _ & Ht1)]. destruct (Ht1 eq_refl) as [_ Et1]. simpl in Hs1, Et1.
  assert (all_present cid wid queued (t_jobs (cn_tables c1)) = true) as Hq1.
  { rewrite Et1. simpl. rewrite <-Hq. apply all_present_map. intros jid j. unfold mark_each. by destruct (existsb _ _). }
  apply wp_bind. eapply wp_mono; [|apply wp_and; [by apply update_each_fine|apply update_each_wp]].
  intros b2 c2 [[-> Hf2] (Hs2 & _)]. simpl negb. cbn iota.
  apply wp_bind. eapply wp_commit_fine; [done|by rewrite Hs2, Hs1|]. by apply wp_ret.
Qed.

Lemma get_all_workflows_fine indeterminate cid c :
  cn_faults c = [] →
  wps (get_all_workflows_for_client indeterminate cid) (λ l c', c' = c ∧
    l = Some (workflow_of_row indeterminate <$>
          rows (eval_query (SELECT_WORKFLOWS (c_str cid)) (cn_tables c)))) c.
Proof.
  intros Hf. unfold get_all_workflows_for_client. apply wp_bind, wp_prepare_fine; [done|]. simpl negb. cbn iota.
  apply wp_bind, wp_select_fine; [done|]. by apply wp_ret.
Qed.

Lemma get_all_jobs_fine cid wid c :
  cn_faults c = [] →
  wps (get_all_jobs_for_workflow cid wid) (λ l c', c' = c ∧
    l = Some (job_of_row <$> rows (eval_query (SELECT_JOBS (c_str cid) (c_str wid)) (cn_tables c)))) c.
Proof.
  intros Hf. unfold get_all_jobs_for_workflow. apply wp_bind, wp_prepare_fine; [done|]. simpl negb. cbn iota.
  apply wp_bind, wp_select_fine; [done|]. by apply wp_ret.
Qed.
End fine.
