(* ===== verification/Pool.v ===== *)
(** * Concurrent operations on the database

    src/src/async_db.cpp posts every operation to a thread pool, and
    src/src/sqlite_db.cpp opens one connection, in serialized mode, that all the
    threads share.  So the calls of different operations interleave on that
    connection, one call at a time: a step of [pstep] is a call of the engine by
    one of the operations under way (the rows of a query are read in one step).

    The invariant of the tables holds under every interleaving.  Isolation does
    not: a transaction belongs to the connection, so the writes of an operation
    that runs while another has a transaction open share the fate of that
    transaction ([acknowledged_write_lost]). *)

From S2P Require Import Prelude.
From S2P Require Import Prog.
From S2P Require Import Models.
From S2P Require Import Database.
From S2P Require Import Sqlite.
From S2P Require Import SqliteDb.
From S2P Require Import SqliteFacts.

(** An operation under way: what it has still to do. *)
Record operation := mkOp { op_result : Type; op_prog : sql_prog op_result }.

Section pool.
Context `{RowOrder} {D : Type} `{!SqlEngine D} (indeterminate : RequestStatus.t).

Record pool := mkPool { pl_db : D; pl_ops : list operation }.

(** One call of operation [i]; [None] when it has returned or thrown. *)
Definition call_of (i : nat) (σ : pool) : option pool :=
  match pl_ops σ !! i with
  | Some (mkOp A (Vis e k)) =>
      match sql_exec _ e (pl_db σ) with
      | (Some x, d') => Some (mkPool d' (<[i := mkOp A (k x)]> (pl_ops σ)))
      | (None, _) => None
      end
  | _ => None
  end.

(** The operations that are posted: those of [AsyncDatabase], and the writes of
    the client configuration manager. *)
Inductive posted : operation → Prop :=
| posted_db X (e : db_ev X) : posted (mkOp X (sqlite_prog indeterminate e))
| posted_rate r : posted (mkOp _ (upsert_rate_limit_plan r))
| posted_policy p : posted (mkOp _ (upsert_policy_plan p))
| posted_user u r p : posted (mkOp _ (upsert_user_config u r p)).

(** An operation is posted, one makes a call, or time passes and failures come. *)
Inductive pstep (σ : pool) : pool → Prop :=
| p_post o : posted o → pstep σ (mkPool (pl_db σ) (pl_ops σ ++ [o])%list)
| p_call i σ' : call_of i σ = Some σ' → pstep σ σ'
| p_env d' :
    cn_tables (sql_conn d') = cn_tables (sql_conn (pl_db σ)) →
    cn_saved (sql_conn d') = cn_saved (sql_conn (pl_db σ)) → pstep σ (mkPool d' (pl_ops σ)).

(** The operations only write what is well formed. *)
Definition pool_ok (σ : pool) : Prop :=
  conn_ok (sql_conn (pl_db σ)) ∧ Forall (λ o, emits_ok (op_prog o)) (pl_ops σ).

Lemma posted_ok o : posted o → emits_ok (op_prog o).
Proof.
  destruct upserts_emit as (Hr & Hp & Hu). intros []; cbn [op_prog]; [apply sqlite_emits|apply Hr|apply Hp|apply Hu].
Qed.

Lemma call_of_ok i σ σ' : call_of i σ = Some σ' → pool_ok σ → pool_ok σ'.
Proof.
  unfold call_of. intros Hc [Hd Ho]. destruct (pl_ops σ !! i) as [[A [a| |X e k]]|] eqn:Ei; try done.
  pose proof (Forall_lookup_1 _ _ _ _ Ho Ei) as [He Hk].
  pose proof (sql_documented X e (pl_db σ)) as Hx. pose proof (sql_doc_ok X e _ He Hd) as Hok.
  rewrite Hx in Hok. destruct (sql_exec X e (pl_db σ)) as [[x|] d']; [|done]. injection Hc as <-.
  split; [done|]. apply Forall_insert; [done|apply Hk].
Qed.

Lemma psteps_ok σ σ' : rtc pstep σ σ' → pool_ok σ → pool_ok σ'.
Proof.
  induction 1 as [|σ1 σ2 σ3 Hs _ IH]; [done|]. intros Hok. apply IH. destruct Hs as [o Ho|i σ2 Hc|d' Ht Hs].
  - destruct Hok. split; [done|]. apply Forall_app. split; [done|]. apply Forall_singleton. by apply posted_ok.
  - by eapply call_of_ok.
  - destruct Hok as [Hd Ho]. split; [|done]. revert Hd. unfold conn_ok, durable. cbn. by rewrite Ht, Hs.
Qed.

(** A schedule: which operation makes each call. *)
Fixpoint schedule (calls : list nat) (σ : pool) : option pool :=
  match calls with [] => Some σ | i :: calls' => σ' ← call_of i σ; schedule calls' σ' end.

Lemma schedule_steps calls σ σ' : schedule calls σ = Some σ' → rtc pstep σ σ'.
Proof.
  revert σ. induction calls as [|i calls IH]; intros σ; cbn.
  - intros [= <-]. apply rtc_refl.
  - intros (σ1 & Hc & Hs)%bind_Some. eapply rtc_l; [by eapply p_call|]. by apply IH.
Qed.

(** An operation that runs without others calls what [run] calls. *)
Fixpoint calls_of {A} (p : sql_prog A) (d : D) : nat :=
  match p with
  | Vis e k => match sql_exec _ e d with (Some x, d') => S (calls_of (k x) d') | (None, _) => 0 end
  | _ => 0
  end.

Lemma schedule_alone {A} (p : sql_prog A) d a d' :
  run sql_exec p d = (Some a, d') →
  schedule (replicate (calls_of p d) 0%nat) (mkPool d [mkOp A p]) = Some (mkPool d' [mkOp A (Ret a)]).
Proof.
  revert d. induction p as [b| |X e k IH]; intros d; cbn.
  - by intros [= -> ->].
  - done.
  - destruct (sql_exec X e d) as [[x|] d1] eqn:E; [|done]. intros Hr. cbn [replicate schedule].
    unfold call_of at 1. cbn. rewrite E. cbn. by apply IH.
Qed.
End pool.
Arguments pool D : clear implicits.
Arguments mkPool {D} _ _.
Arguments pl_db {D} _.
Arguments pl_ops {D} _.
