(* ===== verification/Schema.v ===== *)
(** * The schema of the database and the SQL of the statements

    The opening of the database and the schema it creates (the end of
    src/src/sqlite_db.cpp), and the SQL text of every statement that the program
    prepares, over a documented fragment of SQL: typed columns, NOT NULL,
    PRIMARY KEY and UNIQUE, INSERT [OR REPLACE], UPDATE, SELECT with
    conjunctions of equalities and IN.  A statement is given by its table, its
    columns and the values bound to its parameters.

    [Sqlite] describes each statement by what it does to records; [SchemaFacts]
    shows that this is what the SQL says under the schema. *)

From S2P Require Import Prelude.
From S2P Require Import Prog.
From S2P Require Import Models.
From S2P Require Import Sqlite.

(** ** Tables *)

Inductive col_type := TEXT | INTEGER.

(** [c_auto]: INTEGER PRIMARY KEY AUTOINCREMENT, filled by SQLite. *)
Record column := mkColumn { c_name : string; c_type : col_type; c_not_null : bool; c_auto : bool }.

(** Not enforced: the program leaves PRAGMA foreign_keys off. *)
Record foreign_key := mkForeignKey {
  fk_columns : list string; fk_table : string; fk_references : list string }.

(** [td_keys]: the PRIMARY KEY and the UNIQUE constraints. *)
Record table_def := mkTable {
  td_name : string; td_columns : list column; td_keys : list (list string);
  td_foreign : list foreign_key }.

Definition text_key (n : string) : column := mkColumn n TEXT false false.
Definition text (n : string) : column := mkColumn n TEXT true false.
Definition integer (n : string) : column := mkColumn n INTEGER true false.
Definition integer_null (n : string) : column := mkColumn n INTEGER false false.

Definition rate_limit_plans : table_def :=
  mkTable "rate_limit_plans"
    [text_key "plan_name"; integer "max_concurrent_workflows"; integer "max_requests";
     integer "window_sec"; integer "update_time"]
    [["plan_name"]] [].

Definition policy_plans : table_def :=
  mkTable "policy_plans"
    [text_key "plan_name"; integer "max_workflow_size_kb"; integer "max_jobs_in_workflow";
     integer "max_job_size_bytes"; integer "max_workflow_runtime_sec";
     integer "max_workflow_total_retries"; integer "max_job_runtime_sec"; integer "max_job_retries";
     integer "max_concurrent_jobs"; integer "max_pending_jobs"; integer "workflow_retention_days";
     integer "request_retention_days"; integer "payload_retention_days"; integer "update_time"]
    [["plan_name"]] [].

Definition clients : table_def :=
  mkTable "clients"
    [text_key "client_id"; text "rate_limit_plan_name"; text "policy_plan_name"; integer "status";
     integer "update_time"]
    [["client_id"]]
    [mkForeignKey ["rate_limit_plan_name"] "rate_limit_plans" ["plan_name"];
     mkForeignKey ["policy_plan_name"] "policy_plans" ["plan_name"]].

Definition workflow_requests : table_def :=
  mkTable "workflow_requests"
    [text "client_id"; text "request_id"; text "workflow_id"; integer "payload_size";
     text "operation_type"; integer "status"; text "reject_reason"; integer_null "received_at"]
    [["client_id"; "request_id"]] [].

Definition workflows : table_def :=
  mkTable "workflows"
    [text "client_id"; text "workflow_id"; text "workflow_type"; text "version"; integer "status";
     integer "total_jobs"; integer "received_at"; integer_null "started_at"; integer_null "ready_at";
     integer_null "completed_at"]
    [["client_id"; "workflow_id"]] [mkForeignKey ["client_id"] "clients" ["client_id"]].

Definition workflow_payloads : table_def :=
  mkTable "workflow_payloads"
    [mkColumn "payload_sequence" INTEGER false true; text "client_id"; text "request_id";
     text "workflow_id"; text "payload"]
    [["payload_sequence"]; ["client_id"; "request_id"]] [].

Definition jobs : table_def :=
  mkTable "jobs"
    [text_key "job_uuid"; text "client_id"; text "workflow_id"; text "job_id"; integer "status";
     integer "retry_count"; integer_null "submitted_at"; integer_null "ready_at";
     integer_null "queued_at"; integer_null "started_at"; integer_null "completed_at"]
    [["job_uuid"]; ["client_id"; "workflow_id"; "job_id"]]
    [mkForeignKey ["client_id"; "workflow_id"] "workflows" ["client_id"; "workflow_id"]].

(** ** Creating the schema *)

(** Both IF NOT EXISTS. *)
Inductive ddl :=
| CREATE_TABLE (t : table_def)
| CREATE_INDEX (name table : string) (columns : list string).

Record db_file := mkFile { f_tables : list table_def; f_indexes : list string }.

Definition find_table (name : string) (l : list table_def) : option table_def :=
  List.find (λ t, String.eqb name (td_name t)) l.
Definition has_column (t : table_def) (c : string) : bool :=
  existsb (λ x, String.eqb c (c_name x)) (td_columns t).

(** A table or an index that exists is left as it is, whatever its columns. *)
Definition exec_ddl (d : ddl) (f : db_file) : option db_file :=
  match d with
  | CREATE_TABLE t =>
      match find_table (td_name t) (f_tables f) with
      | Some _ => Some f
      | None => Some (mkFile (f_tables f ++ [t])%list (f_indexes f))
      end
  | CREATE_INDEX name table columns =>
      if existsb (String.eqb name) (f_indexes f) then Some f
      else
        match find_table table (f_tables f) with
        | Some t => if forallb (has_column t) columns
                    then Some (mkFile (f_tables f) (f_indexes f ++ [name])%list) else None
        | None => None
        end
  end.

Inductive file_ev : Type → Type :=
| CreateDirectories (path : string) : file_ev bool   (* false: it throws *)
| OpenV2 (path : string) : file_ev bool
| ExecDdl (d : ddl) : file_ev bool.

Abbreviation file_prog := (prog file_ev).
Abbreviation file := (@trigger file_ev _).

Definition execute_ddl_cmd (d : ddl) : file_prog unit :=
  let* ok := file (ExecDdl d) in
  if ok then Ret tt else Throw.

Definition create_rate_limit_plans_table : file_prog unit := execute_ddl_cmd (CREATE_TABLE rate_limit_plans).
Definition create_policy_plans_table : file_prog unit := execute_ddl_cmd (CREATE_TABLE policy_plans).
Definition create_clients_table : file_prog unit := execute_ddl_cmd (CREATE_TABLE clients).
Definition create_workflow_requests_table : file_prog unit :=
  execute_ddl_cmd (CREATE_TABLE workflow_requests).
Definition create_workflows_table : file_prog unit := execute_ddl_cmd (CREATE_TABLE workflows).
Definition create_workflow_payload_table : file_prog unit :=
  execute_ddl_cmd (CREATE_TABLE workflow_payloads) ;;
  execute_ddl_cmd (CREATE_INDEX "idx_payload_workflow" "workflow_payloads" ["client_id"; "workflow_id"]).
Definition create_jobs_table : file_prog unit := execute_ddl_cmd (CREATE_TABLE jobs).

Definition create_schema : file_prog bool :=
  create_rate_limit_plans_table ;; create_policy_plans_table ;; create_clients_table ;;
  create_workflow_requests_table ;; create_workflows_table ;; create_workflow_payload_table ;;
  create_jobs_table ;; Ret true.

(** [parent_path] is that of the path library. *)
Definition init_db (parent_path : string → string) (db_path : string) : file_prog unit :=
  let* ok := (if negb (str_empty (parent_path db_path))
              then file (CreateDirectories (parent_path db_path)) else Ret true) in
  if negb ok then Throw
  else
    let* ok := file (OpenV2 db_path) in
    if ok then Ret tt else Throw.

(** The constructor. *)
Definition new_database (parent_path : string → string) (db_path : string) : file_prog unit :=
  init_db parent_path db_path ;; create_schema ;; Ret tt.

(** The file under the calls; [true] in the list is a call that fails. *)
Definition file_doc : handler file_ev (db_file * list bool) := λ X e '(f, faults),
  match e in file_ev X return option X * (db_file * list bool) with
  | CreateDirectories _ | OpenV2 _ => (Some (negb (default false (head faults))), (f, tail faults))
  | ExecDdl d =>
      if default false (head faults) then (Some false, (f, tail faults))
      else match exec_ddl d f with
           | Some f' => (Some true, (f', tail faults))
           | None => (Some false, (f, tail faults))
           end
  end.

Definition all_tables : list table_def :=
  [rate_limit_plans; policy_plans; clients; workflow_requests; workflows; workflow_payloads; jobs].

(** ** SQL *)

Inductive sval := VNull | VInt (z : Z) | VText (s : string).

Inductive sexpr := Bind (v : sval) | Coalesce (c : string) (v : sval).
Inductive cond := Eq (c : string) (v : sval) | In (c : string) (vs : list sval).

Inductive sql_stmt :=
| SQL_INSERT (or_replace : bool) (table : string) (values : list (string * sval))
| SQL_UPDATE (table : string) (set : list (string * sexpr)) (where_ : list cond).

(** [None] selects COUNT( * ). *)
Record sql_query := mkQuery {
  sq_table : string; sq_columns : option (list string); sq_where : list cond }.

Section rows.
Context (t : table_def).

(** The columns that the program reads and writes; a row is the values of
    these, in order. *)
Definition stored_columns : list string := c_name <$> List.filter (λ c, negb (c_auto c)) (td_columns t).

Fixpoint assoc {A} (c : string) (l : list (string * A)) : option A :=
  match l with [] => None | (c', x) :: l' => if String.eqb c c' then Some x else assoc c l' end.

Definition cell (r : list sval) (c : string) : sval := default VNull (assoc c (zip stored_columns r)).

(** NULL equals nothing. *)
Definition veq (v w : sval) : bool :=
  match v, w with VInt a, VInt b => a =? b | VText a, VText b => String.eqb a b | _, _ => false end.

Definition holds (r : list sval) (c : cond) : bool :=
  match c with Eq c v => veq v (cell r c) | In c vs => existsb (λ v, veq (cell r c) v) vs end.

Definition is_null (v : sval) : bool := match v with VNull => true | _ => false end.

Definition not_null_ok (r : list sval) : bool :=
  forallb (λ c, c_auto c || negb (c_not_null c) || negb (is_null (cell r (c_name c)))) (td_columns t).

Definition same_key (r r' : list sval) : bool :=
  existsb (forallb (λ c, veq (cell r c) (cell r' c))) (td_keys t).

Definition eval_expr (r : list sval) (e : sexpr) : sval :=
  match e with Bind v => v | Coalesce c v => if is_null (cell r c) then v else cell r c end.

Definition set_columns (set : list (string * sexpr)) (r : list sval) : list sval :=
  (λ c, match assoc c set with Some e => eval_expr r e | None => cell r c end) <$> stored_columns.

Fixpoint keys_distinct (l : list (list sval)) : bool :=
  match l with [] => true | r :: l' => negb (existsb (same_key r) l') && keys_distinct l' end.

(** The rows after a statement and the number it changed; [None] is
    SQLITE_CONSTRAINT. *)
Definition run_sql (s : sql_stmt) (rows : list (list sval)) : option (list (list sval) * Z) :=
  match s with
  | SQL_INSERT or_replace _ values =>
      let r := (λ c, default VNull (assoc c values)) <$> stored_columns in
      if negb (not_null_ok r) then None
      else if or_replace then Some (List.filter (λ r', negb (same_key r r')) rows ++ [r], 1)%list
      else if existsb (same_key r) rows then None else Some (rows ++ [r], 1)%list
  | SQL_UPDATE _ set where_ =>
      let selected r := forallb (holds r) where_ in
      let rows' := (λ r, if selected r then set_columns set r else r) <$> rows in
      let touched := existsb (λ '(c, _), existsb (existsb (String.eqb c)) (td_keys t)) set in
      if negb (forallb not_null_ok rows') then None
      else if touched && negb (keys_distinct rows') then None
      else Some (rows', Z.of_nat (length (List.filter selected rows)))
  end.

Definition run_query (q : sql_query) (rows : list (list sval)) : list (list sval) :=
  let l := List.filter (λ r, forallb (holds r) (sq_where q)) rows in
  match sq_columns q with
  | Some cs => (λ r, cell r <$> cs) <$> l
  | None => [[VInt (Z.of_nat (length l))]]
  end.

(** *** Preparing a statement, and its types *)

Definition expr_columns (e : string * sexpr) : list string :=
  e.1 :: match e.2 with Coalesce c _ => [c] | Bind _ => [] end.
Definition cond_column (c : cond) : string := match c with Eq c _ | In c _ => c end.

Definition stmt_columns (s : sql_stmt) : list string :=
  match s with
  | SQL_INSERT _ _ values => fst <$> values
  | SQL_UPDATE _ set where_ => concat (expr_columns <$> set) ++ (cond_column <$> where_)
  end.

(** A value of the column's type; NULL where it is allowed. *)
Definition typed_value (c : string) (v : sval) : bool :=
  match List.find (λ x, String.eqb c (c_name x)) (td_columns t) with
  | Some x => match v, c_type x with
              | VNull, _ => negb (c_not_null x)
              | VInt _, INTEGER | VText _, TEXT => true
              | _, _ => false
              end
  | None => false
  end.

Definition typed_cond (c : cond) : bool :=
  match c with Eq c v => typed_value c v | In c vs => forallb (typed_value c) vs end.

Definition typed_stmt (s : sql_stmt) : bool :=
  match s with
  | SQL_INSERT _ _ values =>
      forallb (λ '(c, v), typed_value c v) values &&
      forallb (λ c, c_auto c || negb (c_not_null c) || existsb (λ '(c', _), String.eqb (c_name c) c') values)
        (td_columns t)
  | SQL_UPDATE _ set where_ =>
      forallb (λ '(c, e), typed_value c match e with Bind v | Coalesce _ v => v end) set &&
      forallb typed_cond where_
  end.
End rows.

(** ** The statements of the program *)

Definition opt_int (v : option Z) : sval := match v with Some z => VInt z | None => VNull end.

Definition workflow_time_column (c : workflow_time) : string :=
  match c with WStarted => "started_at" | WReady => "ready_at" | WCompleted => "completed_at" end.

(** [started_at], [ready_at] and [queued_at] by COALESCE. *)
Definition job_time_set (c : option job_time) (now : Z) : list (string * sexpr) :=
  match c with
  | Some JReady => [("ready_at", Coalesce "ready_at" (VInt now))]
  | Some JQueued => [("queued_at", Coalesce "queued_at" (VInt now))]
  | Some JStarted => [("started_at", Coalesce "started_at" (VInt now))]
  | Some JCompleted => [("completed_at", Bind (VInt now))]
  | None => []
  end.

Definition job_conds (cid wid jid : string) : list cond :=
  [Eq "client_id" (VText cid); Eq "workflow_id" (VText wid); Eq "job_id" (VText jid)].

Definition sql_of (s : stmt) : sql_stmt :=
  match s with
  | INSERT_REQUEST r =>
      SQL_INSERT false "workflow_requests"
        [("client_id", VText (rr_client_id r)); ("request_id", VText (rr_request_id r));
         ("workflow_id", VText (rr_workflow_id r)); ("payload_size", VInt (rr_payload_size r));
         ("operation_type", VText (rr_operation_type r)); ("status", VInt (rr_status r));
         ("reject_reason", VText (rr_reject_reason r)); ("received_at", opt_int (rr_received_at r))]
  | UPDATE_REQUEST st reason cid rid =>
      SQL_UPDATE "workflow_requests" [("status", Bind (VInt st)); ("reject_reason", Bind (VText reason))]
        [Eq "client_id" (VText cid); Eq "request_id" (VText rid)]
  | INSERT_WORKFLOW w =>
      SQL_INSERT false "workflows"
        [("client_id", VText (wr_client w)); ("workflow_id", VText (wr_workflow w));
         ("workflow_type", VText (wr_type w)); ("version", VText (wr_version w));
         ("status", VInt (wr_st w)); ("total_jobs", VInt (wr_total w));
         ("received_at", VInt (wr_received_at w))]
  | UPDATE_WORKFLOW st column now cid wid =>
      SQL_UPDATE "workflows"
        [("status", Bind (VInt st)); (workflow_time_column column, Bind (VInt now))]
        [Eq "client_id" (VText cid); Eq "workflow_id" (VText wid)]
  | INSERT_JOB j =>
      SQL_INSERT false "jobs"
        [("job_uuid", VText (jb_uuid j)); ("client_id", VText (jb_client j));
         ("workflow_id", VText (jb_workflow j)); ("job_id", VText (jb_job j));
         ("status", VInt (jb_status j)); ("retry_count", VInt (jb_retry_count j));
         ("submitted_at", opt_int (jb_submitted_at j))]
  | UPDATE_READY st ready queued cid wid jid =>
      SQL_UPDATE "jobs"
        [("status", Bind (VInt st)); ("ready_at", Coalesce "ready_at" (opt_int ready));
         ("queued_at", Coalesce "queued_at" (opt_int queued))]
        (job_conds cid wid jid)
  | UPDATE_JOB st column now cid wid jid =>
      SQL_UPDATE "jobs" (("status", Bind (VInt st)) :: job_time_set column now) (job_conds cid wid jid)
  | UPDATE_WAITING st cid wid sts =>
      SQL_UPDATE "jobs" [("status", Bind (VInt st))]
        [Eq "client_id" (VText cid); Eq "workflow_id" (VText wid); In "status" (VInt <$> sts)]
  | INSERT_PAYLOAD p =>
      SQL_INSERT false "workflow_payloads"
        [("client_id", VText (pr_client_id p)); ("request_id", VText (pr_request_id p));
         ("workflow_id", VText (pr_workflow_id p)); ("payload", VText (pr_payload p))]
  | REPLACE_RATE_LIMIT_PLAN r =>
      SQL_INSERT true "rate_limit_plans"
        [("plan_name", VText (rt_plan_name r));
         ("max_concurrent_workflows", VInt (rt_max_concurrent_workflows r));
         ("max_requests", VInt (rt_max_requests r)); ("window_sec", VInt (rt_window_sec r));
         ("update_time", VInt (rt_update_time r))]
  | REPLACE_POLICY_PLAN p =>
      SQL_INSERT true "policy_plans"
        [("plan_name", VText (po_plan_name p)); ("max_workflow_size_kb", VInt (po_max_workflow_size_kb p));
         ("max_jobs_in_workflow", VInt (po_max_jobs_in_workflow p));
         ("max_job_size_bytes", VInt (po_max_job_size_bytes p));
         ("max_workflow_runtime_sec", VInt (po_max_workflow_runtime_sec p));
         ("max_workflow_total_retries", VInt (po_max_workflow_total_retries p));
         ("max_job_runtime_sec", VInt (po_max_job_runtime_sec p));
         ("max_job_retries", VInt (po_max_job_retries p));
         ("max_concurrent_jobs", VInt (po_max_concurrent_jobs p));
         ("max_pending_jobs", VInt (po_max_pending_jobs p));
         ("workflow_retention_days", VInt (po_workflow_retention_days p));
         ("request_retention_days", VInt (po_request_retention_days p));
         ("payload_retention_days", VInt (po_payload_retention_days p));
         ("update_time", VInt (po_update_time p))]
  | REPLACE_CLIENT c =>
      SQL_INSERT true "clients"
        [("client_id", VText (cl_client_id c)); ("rate_limit_plan_name", VText (cl_rate_limit_plan_name c));
         ("policy_plan_name", VText (cl_policy_plan_name c)); ("status", VText (cl_status c));
         ("update_time", VInt (cl_update_time c))]
  end.

Definition workflow_columns : list string :=
  ["client_id"; "workflow_id"; "workflow_type"; "version"; "status"; "total_jobs"; "received_at";
   "started_at"; "ready_at"; "completed_at"].
Definition job_columns : list string :=
  ["job_uuid"; "client_id"; "workflow_id"; "job_id"; "status"; "retry_count"; "submitted_at"; "ready_at";
   "queued_at"; "started_at"; "completed_at"].
Definition policy_columns : list string :=
  ["plan_name"; "max_workflow_size_kb"; "max_jobs_in_workflow"; "max_job_size_bytes";
   "max_workflow_runtime_sec"; "max_workflow_total_retries"; "max_job_runtime_sec"; "max_job_retries";
   "max_concurrent_jobs"; "max_pending_jobs"; "workflow_retention_days"; "request_retention_days";
   "payload_retention_days"].

(** LIMIT 1 is left out: the code steps such a query once. *)
Definition query_of {A} (q : query A) : sql_query :=
  match q with
  | SELECT_REQUESTS cid =>
      mkQuery "workflow_requests"
        (Some ["client_id"; "request_id"; "workflow_id"; "payload_size"; "operation_type"; "status";
               "reject_reason"]) [Eq "client_id" (VText cid)]
  | SELECT_WORKFLOWS_IN sts => mkQuery "workflows" (Some workflow_columns) [In "status" (VInt <$> sts)]
  | SELECT_WORKFLOWS cid => mkQuery "workflows" (Some workflow_columns) [Eq "client_id" (VText cid)]
  | COUNT_WORKFLOWS cid sts =>
      mkQuery "workflows" None [Eq "client_id" (VText cid); In "status" (VInt <$> sts)]
  | SELECT_JOBS cid wid =>
      mkQuery "jobs" (Some job_columns) [Eq "client_id" (VText cid); Eq "workflow_id" (VText wid)]
  | SELECT_JOB cid wid jid => mkQuery "jobs" (Some job_columns) (job_conds cid wid jid)
  | SELECT_RATE_LIMIT_PLANS =>
      mkQuery "rate_limit_plans"
        (Some ["plan_name"; "max_concurrent_workflows"; "max_requests"; "window_sec"]) []
  | SELECT_RATE_LIMIT_PLAN name =>
      mkQuery "rate_limit_plans" (Some ["max_concurrent_workflows"; "max_requests"; "window_sec"])
        [Eq "plan_name" (VText name)]
  | SELECT_POLICY_PLANS => mkQuery "policy_plans" (Some policy_columns) []
  | SELECT_POLICY_PLAN name => mkQuery "policy_plans" (Some policy_columns) [Eq "plan_name" (VText name)]
  | SELECT_CLIENTS =>
      mkQuery "clients" (Some ["client_id"; "rate_limit_plan_name"; "policy_plan_name"]) []
  | SELECT_CLIENT cid =>
      mkQuery "clients" (Some ["rate_limit_plan_name"; "policy_plan_name"]) [Eq "client_id" (VText cid)]
  end.

(** ** Records as rows *)

Definition request_values (r : request_row) : list sval :=
  [VText (rr_client_id r); VText (rr_request_id r); VText (rr_workflow_id r); VInt (rr_payload_size r);
   VText (rr_operation_type r); VInt (rr_status r); VText (rr_reject_reason r); opt_int (rr_received_at r)].
Definition workflow_values (w : workflow_row) : list sval :=
  [VText (wr_client w); VText (wr_workflow w); VText (wr_type w); VText (wr_version w); VInt (wr_st w);
   VInt (wr_total w); VInt (wr_received_at w); opt_int (wr_started_at w); opt_int (wr_ready_at w);
   opt_int (wr_completed_at w)].
Definition payload_values (p : payload_row) : list sval :=
  [VText (pr_client_id p); VText (pr_request_id p); VText (pr_workflow_id p); VText (pr_payload p)].
Definition job_values (j : job_row) : list sval :=
  [VText (jb_uuid j); VText (jb_client j); VText (jb_workflow j); VText (jb_job j); VInt (jb_status j);
   VInt (jb_retry_count j); opt_int (jb_submitted_at j); opt_int (jb_ready_at j); opt_int (jb_queued_at j);
   opt_int (jb_started_at j); opt_int (jb_completed_at j)].
Definition rate_values (r : rate_row) : list sval :=
  [VText (rt_plan_name r); VInt (rt_max_concurrent_workflows r); VInt (rt_max_requests r);
   VInt (rt_window_sec r); VInt (rt_update_time r)].
Definition policy_values (p : policy_row) : list sval :=
  [VText (po_plan_name p); VInt (po_max_workflow_size_kb p); VInt (po_max_jobs_in_workflow p);
   VInt (po_max_job_size_bytes p); VInt (po_max_workflow_runtime_sec p);
   VInt (po_max_workflow_total_retries p); VInt (po_max_job_runtime_sec p); VInt (po_max_job_retries p);
   VInt (po_max_concurrent_jobs p); VInt (po_max_pending_jobs p); VInt (po_workflow_retention_days p);
   VInt (po_request_retention_days p); VInt (po_payload_retention_days p); VInt (po_update_time p)].
Definition client_values (c : client_row) : list sval :=
  [VText (cl_client_id c); VText (cl_rate_limit_plan_name c); VText (cl_policy_plan_name c);
   VText (cl_status c); VInt (cl_update_time c)].

Definition table_rows (name : string) (t : tables) : list (list sval) :=
  if String.eqb name "workflow_requests" then request_values <$> t_requests t
  else if String.eqb name "workflows" then workflow_values <$> t_workflows t
  else if String.eqb name "workflow_payloads" then payload_values <$> t_payloads t
  else if String.eqb name "jobs" then job_values <$> t_jobs t
  else if String.eqb name "rate_limit_plans" then rate_values <$> t_rates t
  else if String.eqb name "policy_plans" then policy_values <$> t_policies t
  else if String.eqb name "clients" then client_values <$> t_clients t
  else [].

(** What a query gives of a row; the leading columns of the record. *)
Definition query_values {A} (q : query A) : A → list sval :=
  match q in query A return A → list sval with
  | SELECT_REQUESTS _ => λ r, take 7 (request_values r)
  | SELECT_WORKFLOWS_IN _ | SELECT_WORKFLOWS _ => workflow_values
  | COUNT_WORKFLOWS _ _ => λ n, [VInt n]
  | SELECT_JOBS _ _ | SELECT_JOB _ _ _ => job_values
  | SELECT_RATE_LIMIT_PLANS => λ r, take 4 (rate_values r)
  | SELECT_RATE_LIMIT_PLAN _ => λ r, tail (take 4 (rate_values r))
  | SELECT_POLICY_PLANS | SELECT_POLICY_PLAN _ => λ p, take 13 (policy_values p)
  | SELECT_CLIENTS => λ c, take 3 (client_values c)
  | SELECT_CLIENT _ => λ c, tail (take 3 (client_values c))
  end.

Definition stmt_table (s : sql_stmt) : string := match s with SQL_INSERT _ n _ | SQL_UPDATE n _ _ => n end.

(** A statement on a database with the tables [l]; [None] outside is an error of
    the preparation, inside SQLITE_CONSTRAINT. *)
Definition execute_sql (l : list table_def) (s : sql_stmt) (rows : string → list (list sval)) :
  option (option (list (list sval) * Z)) :=
  t ← find_table (stmt_table s) l;
  if forallb (has_column t) (stmt_columns s) then Some (run_sql t s (rows (stmt_table s))) else None.

Definition execute_query (l : list table_def) (q : sql_query) (rows : string → list (list sval)) :
  option (list (list sval)) :=
  t ← find_table (sq_table q) l;
  if forallb (has_column t) (default [] (sq_columns q) ++ (cond_column <$> sq_where q))
  then Some (run_query t q (rows (sq_table q))) else None.
