(* ===== verification/SchemaFacts.v ===== *)
(** * The statements are their SQL

    Under the schema of [Schema]: what [Sqlite] says of each statement and query
    is what its SQL says ([exec_stmt_is_sql], [eval_query_is_sql]); statements
    are typed by the schema ([stmt_typed]); what creating the schema does to a
    new and to an existing file. *)

From S2P Require Import Prelude.
From S2P Require Import Prog.
From S2P Require Import Models.
From S2P Require Import Sqlite.
From S2P Require Import SqliteDb.
From S2P Require Import SqliteFacts.
From S2P Require Import Schema.

(** ** The statements are their SQL *)

Lemma existsb_fmap {A B} (f : A → B) p l : existsb p (f <$> l) = existsb (λ x, p (f x)) l.
Proof. induction l as [|x l IH]; [done|]. cbn. by f_equal. Qed.

Lemma existsb_ext {A} (p q : A → bool) l : (∀ x, p x = q x) → existsb p l = existsb q l.
Proof. intros E. induction l as [|x l IH]; [done|]. cbn. by rewrite E, IH. Qed.

Lemma filter_fmap {A B} (f : A → B) p l : List.filter p (f <$> l) = f <$> List.filter (λ x, p (f x)) l.
Proof. induction l as [|x l IH]; [done|]. cbn. destruct (p (f x)); cbn; by rewrite IH. Qed.

Lemma filter_cnt {A} p (l : list A) : Z.of_nat (length (List.filter p l)) = cnt p l.
Proof. induction l as [|x l IH]; [done|]. cbn [List.filter cnt]. destruct (p x); cbn [length]; lia. Qed.

Lemma forallb_fmap_true {A B} (f : A → B) p l : (∀ x, p (f x) = true) → forallb p (f <$> l) = true.
Proof. intros E. induction l as [|x l IH]; [done|]. cbn. by rewrite E. Qed.

Section statement.
Context {A : Type} (t : table_def) (values : A → list sval).
Hypothesis values_not_null : ∀ x, not_null_ok t (values x) = true.

Lemma insert_is_sql same n vs x (l : list A) :
  ((λ c, default VNull (assoc c vs)) <$> stored_columns t) = values x →
  (∀ y, same_key t (values x) (values y) = same x y) →
  run_sql t (SQL_INSERT false n vs) (values <$> l) = (λ l' : list A, (values <$> l', 1)) <$> insert_row same x l.
Proof.
  intros Ex Hk. cbn [run_sql]. rewrite Ex, values_not_null. cbn [negb]. unfold insert_row.
  rewrite existsb_fmap, (existsb_ext _ (same x)) by done. destruct (existsb (same x) l); [done|].
  cbn. by rewrite fmap_app.
Qed.

Lemma replace_is_sql same n vs x (l : list A) :
  ((λ c, default VNull (assoc c vs)) <$> stored_columns t) = values x →
  (∀ y, same_key t (values x) (values y) = same x y) →
  run_sql t (SQL_INSERT true n vs) (values <$> l) = Some (values <$> replace_row same x l, 1).
Proof.
  intros Ex Hk. cbn [run_sql]. rewrite Ex, values_not_null. cbn [negb]. unfold replace_row.
  rewrite filter_fmap, fmap_app. cbn. do 4 f_equal. induction l as [|y l IH]; [done|]. cbn. rewrite Hk. by rewrite IH.
Qed.

Lemma update_is_sql p g n set where_ (l : list A) :
  existsb (λ '(c, _), existsb (existsb (String.eqb c)) (td_keys t)) set = false →
  (∀ x, forallb (holds t (values x)) where_ = p x) → (∀ x, set_columns t set (values x) = values (g x)) →
  run_sql t (SQL_UPDATE n set where_) (values <$> l) =
    Some (values <$> (update_rows p g l).1, (update_rows p g l).2).
Proof.
  intros Ht Hp Hg. cbn [run_sql]. rewrite Ht. cbn [andb].
  assert ((λ r, if forallb (holds t r) where_ then set_columns t set r else r) <$> (values <$> l) =
          values <$> ((λ x, if p x then g x else x) <$> l)) as ->.
  { induction l as [|x l IH]; [done|]. cbn. rewrite Hp, Hg. f_equal; [by destruct (p x)|done]. }
  rewrite forallb_fmap_true by done. cbn [negb]. unfold update_rows. cbn [fst snd]. do 2 f_equal.
  rewrite filter_fmap, length_fmap, <- (filter_cnt p). do 2 f_equal.
  induction l as [|x l IH]; [done|]. cbn. rewrite Hp. by rewrite IH.
Qed.
End statement.

(** Every record is a row that satisfies NOT NULL. *)
Lemma request_not_null r : not_null_ok workflow_requests (request_values r) = true.
Proof. done. Qed.
Lemma workflow_not_null w : not_null_ok workflows (workflow_values w) = true.
Proof. done. Qed.
Lemma payload_not_null p : not_null_ok workflow_payloads (payload_values p) = true.
Proof. done. Qed.
Lemma job_not_null j : not_null_ok jobs (job_values j) = true.
Proof. done. Qed.
Lemma rate_not_null r : not_null_ok rate_limit_plans (rate_values r) = true.
Proof. done. Qed.
Lemma policy_not_null p : not_null_ok policy_plans (policy_values p) = true.
Proof. done. Qed.
Lemma client_not_null c : not_null_ok clients (client_values c) = true.
Proof. done. Qed.

Lemma in_values z sts : existsb (λ v, veq (VInt z) v) (VInt <$> sts) = in_list z sts.
Proof. unfold in_list. by rewrite existsb_fmap. Qed.

Lemma opt_int_coalesce a b :
  (if is_null (opt_int a) then opt_int b else opt_int a) = opt_int (coalesce a b).
Proof. by destruct a. Qed.

(** The tables of the schema that the constructor creates. *)
Definition is_sql (s : stmt) (t : tables) : Prop :=
  let n := stmt_table (sql_of s) in
  match exec_stmt s t with
  | Some (t', changes) =>
      execute_sql all_tables (sql_of s) (λ m, table_rows m t) = Some (Some (table_rows n t', changes)) ∧
      ∀ m, m ≠ n → table_rows m t' = table_rows m t
  | None => execute_sql all_tables (sql_of s) (λ m, table_rows m t) = Some None
  end.

Lemma execute_found s rows t :
  find_table (stmt_table s) all_tables = Some t → forallb (has_column t) (stmt_columns s) = true →
  execute_sql all_tables s rows = Some (run_sql t s (rows (stmt_table s))).
Proof. unfold execute_sql. intros -> Hc. cbn. by rewrite Hc. Qed.

(** The other tables are not touched. *)
Ltac other_tables :=
  let m := fresh "m" in let Hm := fresh "Hm" in
  intros m Hm; apply String.eqb_neq in Hm; unfold table_rows; rewrite Hm; reflexivity.

(** The keys of the schema are those of the records. *)
Ltac same_keys :=
  intros; unfold same_request, same_payload, same_job, is_job, is_workflow; cbn;
  rewrite ?andb_true_r, ?orb_false_r, ?andb_assoc; reflexivity.

(** The row that an INSERT builds: what is not bound is NULL. *)
Ltac same_row :=
  unfold workflow_values, job_values;
  repeat match goal with H : _ = None |- _ => rewrite H; clear H end; reflexivity.

Ltac sql_insert td values nn same x :=
  rewrite (execute_found _ _ td) by reflexivity; cbn [stmt_table];
  let n := eval cbv in (td_name td) in
  match goal with t : tables |- context [insert_row _ _ ?l] =>
    change (table_rows n t) with (values <$> l);
    rewrite (insert_is_sql td values nn same _ _ x); [|same_row|same_keys];
    destruct (insert_row same x l); cbn; [split; [reflexivity|other_tables]|reflexivity]
  end.

Ltac sql_update td values nn :=
  rewrite (execute_found _ _ td) by reflexivity; cbn [stmt_table];
  let n := eval cbv in (td_name td) in
  match goal with t : tables |- context [update_rows ?p ?g ?l] =>
    change (table_rows n t) with (values <$> l);
    rewrite (update_is_sql td values nn p g);
      [cbn; split; [reflexivity|other_tables]|reflexivity|intros ?; cbn|intros ?]
  end.

Ltac sql_replace td values nn :=
  rewrite (execute_found _ _ td) by reflexivity; cbn [stmt_table];
  let n := eval cbv in (td_name td) in
  match goal with t : tables |- context [replace_row ?same ?x ?l] =>
    change (table_rows n t) with (values <$> l);
    rewrite (replace_is_sql td values nn same _ _ x); [split; [reflexivity|other_tables]|reflexivity|same_keys]
  end.

Lemma exec_stmt_is_sql s t : stmt_ok s → is_sql s t.
Proof.
  unfold is_sql. intros Hs. destruct s; cbn [exec_stmt sql_of stmt_table].
  - sql_insert workflow_requests request_values request_not_null same_request r.
  - sql_update workflow_requests request_values request_not_null; [by rewrite andb_true_r|done].
  - destruct Hs as (_ & _ & H1 & H2 & H3).
    sql_insert workflows workflow_values workflow_not_null
      (λ x y, is_workflow (wr_client x) (wr_workflow x) y) w.
  - match goal with c : workflow_time |- _ => destruct c end;
      (sql_update workflows workflow_values workflow_not_null; [by unfold is_workflow; rewrite andb_true_r|done]).
  - destruct Hs as (_ & _ & H1 & H2 & H3 & H4). sql_insert jobs job_values job_not_null same_job j.
  - sql_update jobs job_values job_not_null; [by unfold is_job; rewrite andb_true_r, andb_assoc|].
    unfold set_columns, set_job_ready, set_job_row, job_values. cbn. by rewrite !opt_int_coalesce.
  - match goal with c : option job_time |- _ => destruct c as [[]|] end;
      (sql_update jobs job_values job_not_null; [by unfold is_job; rewrite andb_true_r, andb_assoc|]);
      unfold set_columns, set_job_status, set_job_row, job_values; cbn; try done;
      by rewrite (opt_int_coalesce _ (Some now)).
  - sql_update jobs job_values job_not_null; [by rewrite andb_true_r, <- in_values, andb_assoc|done].
  - sql_insert workflow_payloads payload_values payload_not_null same_payload p.
  - sql_replace rate_limit_plans rate_values rate_not_null.
  - sql_replace policy_plans policy_values policy_not_null.
  - sql_replace clients client_values client_not_null.
Qed.

Lemma query_is_sql {A} (t : table_def) (values proj : A → list sval) p n cs where_ (l : list A) :
  (∀ x, forallb (holds t (values x)) where_ = p x) → (∀ x, cell t (values x) <$> cs = proj x) →
  run_query t (mkQuery n (Some cs) where_) (values <$> l) = proj <$> List.filter p l.
Proof.
  intros Hp Hc. cbn. rewrite filter_fmap. induction l as [|x l IH]; [done|]. cbn. rewrite Hp.
  destruct (p x); cbn; [|done]. by rewrite Hc, IH.
Qed.

Lemma found_query q rows t :
  find_table (sq_table q) all_tables = Some t →
  forallb (has_column t) (default [] (sq_columns q) ++ (cond_column <$> sq_where q)) = true →
  execute_query all_tables q rows = Some (run_query t q (rows (sq_table q))).
Proof. unfold execute_query. intros -> Hc. cbn [mbind option_bind]. by rewrite Hc. Qed.

Lemma filter_all {A} (l : list A) : List.filter (λ _, true) l = l.
Proof. induction l as [|x l IH]; [done|]. cbn. by rewrite IH. Qed.

(** A query gives the columns of the records that [Sqlite] selects. *)
Lemma eval_query_is_sql {A} (q : query A) t :
  execute_query all_tables (query_of q) (λ m, table_rows m t) = Some (query_values q <$> eval_query q t).
Proof.
  destruct q; cbn [query_of].
  - rewrite (found_query _ _ workflow_requests) by reflexivity. f_equal.
    apply (query_is_sql _ request_values); [intros x; cbn; by rewrite andb_true_r|done].
  - rewrite (found_query _ _ workflows) by reflexivity. f_equal.
    apply (query_is_sql _ workflow_values); [intros x; cbn; by rewrite andb_true_r, <- in_values|done].
  - rewrite (found_query _ _ workflows) by reflexivity. f_equal.
    apply (query_is_sql _ workflow_values); [intros x; cbn; by rewrite andb_true_r|done].
  - rewrite (found_query _ _ workflows) by reflexivity. f_equal. cbn. do 3 f_equal.
    rewrite filter_fmap, length_fmap, <- filter_cnt. do 2 f_equal. apply List.filter_ext. intros x. cbn.
    by rewrite andb_true_r, <- in_values.
  - rewrite (found_query _ _ jobs) by reflexivity. f_equal.
    apply (query_is_sql _ job_values); [intros x; cbn; by rewrite andb_true_r|done].
  - rewrite (found_query _ _ jobs) by reflexivity. f_equal.
    apply (query_is_sql _ job_values); [intros x; cbn; unfold is_job; by rewrite andb_true_r, andb_assoc|done].
  - rewrite (found_query _ _ rate_limit_plans) by reflexivity. f_equal. cbn [eval_query].
    rewrite <- (filter_all (t_rates t)). by apply (query_is_sql _ rate_values).
  - rewrite (found_query _ _ rate_limit_plans) by reflexivity. f_equal.
    apply (query_is_sql _ rate_values); [intros x; cbn; by rewrite andb_true_r|done].
  - rewrite (found_query _ _ policy_plans) by reflexivity. f_equal. cbn [eval_query].
    rewrite <- (filter_all (t_policies t)). by apply (query_is_sql _ policy_values).
  - rewrite (found_query _ _ policy_plans) by reflexivity. f_equal.
    apply (query_is_sql _ policy_values); [intros x; cbn; by rewrite andb_true_r|done].
  - rewrite (found_query _ _ clients) by reflexivity. f_equal. cbn [eval_query].
    rewrite <- (filter_all (t_clients t)). by apply (query_is_sql _ client_values).
  - rewrite (found_query _ _ clients) by reflexivity. f_equal.
    apply (query_is_sql _ client_values); [intros x; cbn; by rewrite andb_true_r|done].
Qed.

(** ** Types *)

(** The one statement that is not typed: it binds the text of the status to an
    INTEGER column. *)
Definition is_replace_client (s : stmt) : bool := match s with REPLACE_CLIENT _ => true | _ => false end.

Lemma typed_in t c sts : typed_value t c (VInt 0) = true → forallb (typed_value t c) (VInt <$> sts) = true.
Proof. intros H. by apply forallb_fmap_true. Qed.

Lemma stmt_typed s :
  ∃ t, find_table (stmt_table (sql_of s)) all_tables = Some t ∧
       forallb (has_column t) (stmt_columns (sql_of s)) = true ∧
       typed_stmt t (sql_of s) = negb (is_replace_client s).
Proof.
  destruct s; (eexists; split; [reflexivity|]; cbn [sql_of is_replace_client negb]).
  - destruct r as [? ? ? ? ? ? ? []]; done.
  - done.
  - done.
  - match goal with c : workflow_time |- _ => destruct c end; done.
  - destruct j as [? ? ? ? ? ? [] ? ? ? ?]; done.
  - repeat match goal with o : option Z |- _ => destruct o end; done.
  - match goal with c : option job_time |- _ => destruct c as [[]|] end; done.
  - split; [done|]. cbn [typed_stmt forallb typed_cond]. by rewrite (typed_in jobs "status") by reflexivity.
  - done.
  - done.
  - done.
  - done.
Qed.

(** ** The schema on a new and on an existing file *)

Lemma run_ddl d f faults :
  run file_doc (execute_ddl_cmd d) (f, faults) = (None, (f, tail faults)) ∨
  ∃ f', exec_ddl d f = Some f' ∧ run file_doc (execute_ddl_cmd d) (f, faults) = (Some tt, (f', tail faults)).
Proof.
  unfold execute_ddl_cmd. rewrite run_trigger_bind. cbn [file_doc].
  destruct (default false (head faults)); [by left|].
  destruct (exec_ddl d f) as [f'|]; [|by left]. right. by exists f'.
Qed.

Lemma find_table_app n l t td : find_table n l = Some td → find_table n (l ++ [t])%list = Some td.
Proof. unfold find_table. induction l as [|x l IH]; cbn; [done|]. destruct (String.eqb n (td_name x)); auto. Qed.

(** [f'] has the tables of [f], as they were. *)
Definition extends (f f' : db_file) : Prop :=
  ∀ n td, find_table n (f_tables f) = Some td → find_table n (f_tables f') = Some td.

Lemma exec_ddl_extends d f f' : exec_ddl d f = Some f' → extends f f'.
Proof.
  unfold extends. destruct d as [t|n tb cs]; cbn.
  - destruct (find_table (td_name t) (f_tables f)); intros [= <-]; [done|]. intros n td. by apply find_table_app.
  - destruct (existsb _ _); [by intros [= <-]|]. destruct (find_table tb _); [|done].
    destruct (forallb _ _); [by intros [= <-]|done].
Qed.

Lemma exec_ddl_creates t f f' : exec_ddl (CREATE_TABLE t) f = Some f' → is_Some (find_table (td_name t) (f_tables f')).
Proof.
  cbn. destruct (find_table (td_name t) (f_tables f)) eqn:E; intros [= <-]; [by eexists|]. cbn.
  revert E. unfold find_table. induction (f_tables f) as [|x l IH]; cbn; [rewrite String.eqb_refl; by eexists|].
  destruct (String.eqb (td_name t) (td_name x)); [done|apply IH].
Qed.

Lemma extends_some f f' n : extends f f' → is_Some (find_table n (f_tables f)) → is_Some (find_table n (f_tables f')).
Proof. intros He [td Ht]. exists td. by apply He. Qed.

(** A run of DDL commands. *)
Fixpoint run_all (ds : list ddl) : file_prog unit :=
  match ds with [] => Ret tt | d :: ds' => execute_ddl_cmd d ;; run_all ds' end.

Definition schema_ddl : list ddl :=
  [CREATE_TABLE rate_limit_plans; CREATE_TABLE policy_plans; CREATE_TABLE clients;
   CREATE_TABLE workflow_requests; CREATE_TABLE workflows; CREATE_TABLE workflow_payloads;
   CREATE_INDEX "idx_payload_workflow" "workflow_payloads" ["client_id"; "workflow_id"]; CREATE_TABLE jobs].

Lemma run_all_spec ds f faults r w :
  run file_doc (run_all ds) (f, faults) = (r, w) →
  extends f w.1 ∧
  (r = None ∨ r = Some tt ∧ ∀ t, CREATE_TABLE t ∈ ds → is_Some (find_table (td_name t) (f_tables w.1))).
Proof.
  revert f faults. induction ds as [|d ds IH]; intros f faults; cbn [run_all].
  - intros [= <- <-]. split; [by intros ? ?|]. right. split; [done|]. intros t Ht. by apply elem_of_nil in Ht.
  - rewrite run_bind. destruct (run_ddl d f faults) as [->|(f1 & Hd & ->)].
    + intros [= <- <-]. split; [by intros ? ?|by left].
    + pose proof (exec_ddl_extends _ _ _ Hd) as He. intros [Hx Hr]%IH. split; [intros n td Hn; by apply Hx, He|].
      destruct Hr as [->|[-> Hc]]; [by left|]. right. split; [done|].
      intros t [<-|Ht]%elem_of_cons; [|by apply Hc]. eapply extends_some; [exact Hx|]. by eapply exec_ddl_creates.
Qed.

Lemma create_schema_run s :
  run file_doc create_schema s =
    match run file_doc (run_all schema_ddl) s with (Some _, s') => (Some true, s') | (None, s') => (None, s') end.
Proof.
  unfold create_schema, create_rate_limit_plans_table, create_policy_plans_table, create_clients_table,
    create_workflow_requests_table, create_workflows_table, create_workflow_payload_table, create_jobs_table,
    schema_ddl, run_all.
  repeat (rewrite ?run_bind; match goal with |- context [run file_doc (execute_ddl_cmd ?d) ?s] =>
            destruct (run file_doc (execute_ddl_cmd d) s) as [[[]|] ?]; [|reflexivity] end).
  reflexivity.
Qed.

(** Creating the schema leaves the tables that exist as they are; when it does
    not throw every table exists. *)
Lemma create_schema_spec f faults r w :
  run file_doc create_schema (f, faults) = (r, w) →
  extends f w.1 ∧
  (r = None ∨ r = Some true ∧ ∀ t, t ∈ all_tables → is_Some (find_table (td_name t) (f_tables w.1))).
Proof.
  rewrite create_schema_run. destruct (run file_doc (run_all schema_ddl) (f, faults)) as [o w'] eqn:E.
  apply run_all_spec in E as [Hx Ho]. intros Hr.
  assert (w = w') as -> by (destruct o; by injection Hr as _ <-).
  split; [done|]. destruct Ho as [->|[-> Hc]]; injection Hr as <-; [by left|]. right. split; [done|].
  intros t Ht. apply Hc. unfold all_tables, schema_ddl in *. rewrite !elem_of_cons in Ht. rewrite !elem_of_cons.
  repeat (destruct Ht as [->|Ht]; [tauto|]). by apply elem_of_nil in Ht.
Qed.

(** A new file gets the tables of the program. *)
Lemma create_schema_new ix faults w :
  run file_doc create_schema (mkFile [] ix, faults) = (Some true, w) → f_tables w.1 = all_tables.
Proof.
  rewrite create_schema_run. unfold schema_ddl. cbn [run_all].
  repeat match goal with
  | |- context [run file_doc (pbind (execute_ddl_cmd ?d) _) (?f, ?fl)] =>
      rewrite run_bind; destruct (run_ddl d f fl) as [->|(? & Hd & ->)]; [done|];
      cbn in Hd; first [injection Hd as <-|destruct (existsb _ ix); injection Hd as <-]
  end; intros [= <-]; reflexivity.
Qed.
