(* ===== verification/StatusStore.v ===== *)
(** * The statuses a database records

    What the services promise to keep in the database is the status of each job
    and workflow.  [StatusStore] is what they rely on: an update of a row that
    exists succeeds on a healthy database and changes the status of that row
    only.  SQLite implements it ([sqlite_store]). *)

From S2P Require Import Prelude.
From S2P Require Import Prog.
From S2P Require Import Models.
From S2P Require Import Database.
From S2P Require Import Sqlite.
From S2P Require Import SqliteDb.
From S2P Require Import SqliteFacts.

(** Statuses that can be recorded. *)
Definition recordable (st : JobStatus.t) : bool :=
  match st with
  | JobStatus.PENDING_EXECUTION | JobStatus.CANCELED | JobStatus.UNKNOWN => false
  | _ => true
  end.
Definition workflow_recordable (st : WorkflowStatus.t) : bool :=
  match st with WorkflowStatus.ADMITTED | WorkflowStatus.UNKNOWN => false | _ => true end.

Class StatusStore (D : Type) `{Database D} := {
  healthy : D → Prop;
  job_status : D → string → string → string → option JobStatus.t;
  workflow_status : D → string → string → option WorkflowStatus.t;
  update_job_law : ∀ d cid wid jid st,
    healthy d → recordable st = true → is_Some (job_status d cid wid jid) →
    ∃ d', db_exec _ (UpdateJobStatus cid wid jid st) d = (Some true, d') ∧ healthy d' ∧
      (∀ c w j, job_status d' c w j =
         if decide ((c, w, j) = (cid, wid, jid)) then Some st else job_status d c w j) ∧
      (∀ c w, workflow_status d' c w = workflow_status d c w);
  update_workflow_law : ∀ d cid wid st,
    healthy d → workflow_recordable st = true → is_Some (workflow_status d cid wid) →
    ∃ d', db_exec _ (UpdateWorkflowStatus cid wid st) d = (Some true, d') ∧ healthy d' ∧
      (∀ c w j, job_status d' c w j = job_status d c w j) ∧
      (∀ c w, workflow_status d' c w =
         if decide ((c, w) = (cid, wid)) then Some st else workflow_status d c w);
  update_ready_law : ∀ d cid wid queued ready,
    healthy d → Forall (λ j, is_Some (job_status d cid wid j)) (ready ++ queued)%list →
    ∃ d', db_exec _ (UpdateReadyJobs cid wid queued ready) d = (Some true, d') ∧ healthy d' ∧
      (∀ c w j, job_status d' c w j =
         if decide ((c, w) = (cid, wid) ∧ j ∈ queued) then Some JobStatus.QUEUED
         else if decide ((c, w) = (cid, wid) ∧ j ∈ ready) then Some JobStatus.READY
         else job_status d c w j) ∧
      (∀ c w, workflow_status d' c w = workflow_status d c w);
  get_jobs_law : ∀ d cid wid,
    healthy d →
    ∃ d' l, db_exec _ (GetAllJobsForWorkflow cid wid) d = (Some (Some l), d') ∧ healthy d' ∧
      (∀ c w j, job_status d' c w j = job_status d c w j) ∧
      (∀ c w, workflow_status d' c w = workflow_status d c w) ∧
      NoDup (wj_job_id <$> l) ∧
      (is_Some (workflow_status d cid wid) →
       ∀ j st, job_status d cid wid j = Some st ↔
         ∃ x, x ∈ l ∧ wj_job_id x = j ∧ wj_status x = st);
  get_workflows_law : ∀ d cid,
    healthy d → nul_free cid = true →
    ∃ d' l, db_exec _ (GetAllWorkflowsForClient cid) d = (Some (Some l), d') ∧ healthy d' ∧
      (∀ c w j, job_status d' c w j = job_status d c w j) ∧
      (∀ c w, workflow_status d' c w = workflow_status d c w) ∧
      Forall (λ x, rq_client_id (wd_info x) = cid) l ∧
      (∀ w st, workflow_status d cid w = Some st ↔
         ∃ x, x ∈ l ∧ rq_workflow_id (wd_info x) = w ∧ wd_status x = st)
}.

(** ** SQLite *)
Section sqlite.
Context `{RowOrder} {D : Type} `{!SqlEngine D} (indeterminate : RequestStatus.t).

#[local] Instance sqlite_database : Database D := {| db_exec := sqlite_exec indeterminate |}.

Definition stored_job (t : tables) (cid wid jid : string) : option JobStatus.t :=
  if nul_free cid && nul_free wid && nul_free jid
  then (λ j, JobStatus.from_int (jb_status j)) <$> List.find (is_job cid wid jid) (t_jobs t)
  else None.

Definition stored_workflow (t : tables) (cid wid : string) : option WorkflowStatus.t :=
  if nul_free cid && nul_free wid
  then (λ x, WorkflowStatus.from_int (wr_st x)) <$> List.find (is_workflow cid wid) (t_workflows t)
  else None.

Definition sqlite_healthy (d : D) : Prop := quiet (sql_conn d) ∧ tables_ok (cn_tables (sql_conn d)).

Lemma nul_free_eq s : nul_free s = true → c_str s = s.
Proof. apply String.eqb_eq. Qed.

Lemma find_existsb {A} (p : A → bool) l : is_Some (List.find p l) → existsb p l = true.
Proof. induction l as [|x l IH]; simpl; [by intros [? ?]|]. by destruct (p x). Qed.

Lemma find_existsb_some {A} (p : A → bool) l : existsb p l = true → is_Some (List.find p l).
Proof. induction l as [|x l IH]; simpl; [done|]. destruct (p x); eauto. Qed.

Lemma find_map {A} (p q : A → bool) (f : A → A) l :
  (∀ x, p (f x) = p x) →
  List.find p ((λ x, if q x then f x else x) <$> l) =
    (λ x, if q x then f x else x) <$> List.find p l.
Proof.
  intros Hf. induction l as [|x l IH]; [done|]. rewrite fmap_cons. cbn [List.find]. rewrite IH.
  destruct (q x) eqn:E; rewrite ?Hf; destruct (p x) eqn:Ep; simpl; by rewrite ?E.
Qed.

Lemma find_sat {A} (p : A → bool) l x : List.find p l = Some x → p x = true.
Proof. apply find_some. Qed.

Lemma is_job_spec cid wid jid j :
  is_job cid wid jid j = true ↔ jb_client j = cid ∧ jb_workflow j = wid ∧ jb_job j = jid.
Proof. unfold is_job. rewrite !andb_true_iff, !String.eqb_eq. naive_solver. Qed.

Lemma is_workflow_spec cid wid x :
  is_workflow cid wid x = true ↔ wr_client x = cid ∧ wr_workflow x = wid.
Proof. unfold is_workflow. rewrite !andb_true_iff, !String.eqb_eq. naive_solver. Qed.

(** The stored status of a job after a change of the rows of one workflow. *)
Lemma stored_job_map t (q : job_row → bool) f c w j :
  (∀ x, is_job c w j (f x) = is_job c w j x) →
  stored_job (set_jobs ((λ x, if q x then f x else x) <$> t_jobs t) t) c w j =
    if nul_free c && nul_free w && nul_free j
    then (λ x, JobStatus.from_int (jb_status (if q x then f x else x))) <$>
           List.find (is_job c w j) (t_jobs t)
    else None.
Proof.
  intros Hf. unfold stored_job. simpl. destruct (_ && _); [|done]. rewrite find_map by done.
  by destruct (List.find _ _).
Qed.

Lemma exec_doc X (e : db_ev X) d x (Q : conn → Prop) :
  wp sql_doc (sqlite_prog indeterminate e) (λ a c', a = x ∧ Q c') (sql_conn d) →
  ∃ d', db_exec X e d = (Some x, d') ∧ Q (sql_conn d').
Proof.
  intros (a & d' & Hr & -> & HQ)%engine_wp. by exists d'.
Qed.

Lemma healthy_after X (e : db_ev X) d x (Q : conn → Prop) :
  sqlite_healthy d →
  wp sql_doc (sqlite_prog indeterminate e) (λ a c', a = x ∧ quiet c' ∧ Q c') (sql_conn d) →
  ∃ d', db_exec X e d = (Some x, d') ∧ sqlite_healthy d' ∧ Q (sql_conn d').
Proof.
  intros [[Hf Hs] Hok] Hwp. apply exec_doc in Hwp as (d' & Hd & Hq & HQ). exists d'.
  split_and!; [done|split; [done|]|done].
  assert (conn_ok (sql_conn d)) as Hc by (split; [done|]; unfold durable; by rewrite Hs).
  apply (engine_run_ok (sqlite_prog indeterminate e) d (sqlite_emits _ _ _)) in Hc as [Hc _].
  simpl in Hd. unfold sqlite_exec in Hd. by rewrite Hd in Hc.
Qed.

Lemma recordable_column st : recordable st = true → ∃ column, job_column st = Some column.
Proof. destruct st; try done; by eexists. Qed.
Lemma workflow_recordable_column st :
  workflow_recordable st = true → ∃ column, workflow_column st = Some column.
Proof. destruct st; try done; by eexists. Qed.

Lemma stored_job_present t cid wid jid :
  is_Some (stored_job t cid wid jid) →
  nul_free cid = true ∧ nul_free wid = true ∧ nul_free jid = true ∧
  existsb (is_job (c_str cid) (c_str wid) (c_str jid)) (t_jobs t) = true.
Proof.
  unfold stored_job. destruct (nul_free cid) eqn:Ec, (nul_free wid) eqn:Ew, (nul_free jid) eqn:Ej;
    simpl; try by intros [? ?].
  intros Hs. split_and!; [done..|]. rewrite !nul_free_eq by done. apply find_existsb.
  by apply fmap_is_Some in Hs.
Qed.

Lemma stored_workflow_present t cid wid :
  is_Some (stored_workflow t cid wid) →
  nul_free cid = true ∧ nul_free wid = true ∧
  existsb (is_workflow (c_str cid) (c_str wid)) (t_workflows t) = true.
Proof.
  unfold stored_workflow. destruct (nul_free cid) eqn:Ec, (nul_free wid) eqn:Ew; simpl; try by intros [? ?].
  intros Hs. split_and!; [done..|]. rewrite !nul_free_eq by done. apply find_existsb.
  by apply fmap_is_Some in Hs.
Qed.

Lemma sqlite_update_job d cid wid jid st :
  sqlite_healthy d → recordable st = true →
  is_Some (stored_job (cn_tables (sql_conn d)) cid wid jid) →
  ∃ d', db_exec _ (UpdateJobStatus cid wid jid st) d = (Some true, d') ∧ sqlite_healthy d' ∧
    (∀ c w j, stored_job (cn_tables (sql_conn d')) c w j =
       if decide ((c, w, j) = (cid, wid, jid)) then Some st
       else stored_job (cn_tables (sql_conn d)) c w j) ∧
    (∀ c w, stored_workflow (cn_tables (sql_conn d')) c w = stored_workflow (cn_tables (sql_conn d)) c w).
Proof.
  intros Hh [column Hc]%recordable_column Hp. pose proof Hp as (Hn1 & Hn2 & Hn3 & He)%stored_job_present.
  destruct (healthy_after _ (UpdateJobStatus cid wid jid st) d true _ Hh
    (update_job_fine cid wid jid st column _ (proj1 Hh) Hc He)) as (d' & Hd & Hh' & Ht).
  exists d'. split_and!; [exact Hd|done| |by rewrite Ht]. intros c w j. rewrite Ht, stored_job_map by done.
  rewrite !nul_free_eq by done. case_decide as Hk.
  - injection Hk as -> -> ->. rewrite Hn1, Hn2, Hn3. simpl. apply find_existsb_some in He as [x Hx].
    rewrite !nul_free_eq in Hx by done. rewrite Hx. simpl. rewrite (find_sat _ _ _ Hx). simpl.
    by rewrite JobStatus_from_to.
  - unfold stored_job. destruct (_ && _); [|done]. destruct (List.find _ _) as [x|] eqn:Hx; [|done]. simpl.
    destruct (is_job cid wid jid x) eqn:Ex; [|done].
    apply find_sat in Hx. apply is_job_spec in Ex as (<- & <- & <-), Hx as (<- & <- & <-). done.
Qed.

Lemma stored_workflow_map t (q : workflow_row → bool) f c w :
  (∀ x, is_workflow c w (f x) = is_workflow c w x) →
  stored_workflow (set_workflows ((λ x, if q x then f x else x) <$> t_workflows t) t) c w =
    if nul_free c && nul_free w
    then (λ x, WorkflowStatus.from_int (wr_st (if q x then f x else x))) <$>
           List.find (is_workflow c w) (t_workflows t)
    else None.
Proof.
  intros Hf. unfold stored_workflow. simpl. destruct (_ && _); [|done]. rewrite find_map by done.
  by destruct (List.find _ _).
Qed.

Lemma sqlite_update_workflow d cid wid st :
  sqlite_healthy d → workflow_recordable st = true →
  is_Some (stored_workflow (cn_tables (sql_conn d)) cid wid) →
  ∃ d', db_exec _ (UpdateWorkflowStatus cid wid st) d = (Some true, d') ∧ sqlite_healthy d' ∧
    (∀ c w j, stored_job (cn_tables (sql_conn d')) c w j = stored_job (cn_tables (sql_conn d)) c w j) ∧
    (∀ c w, stored_workflow (cn_tables (sql_conn d')) c w =
       if decide ((c, w) = (cid, wid)) then Some st
       else stored_workflow (cn_tables (sql_conn d)) c w).
Proof.
  intros Hh [column Hc]%workflow_recordable_column Hp. pose proof Hp as (Hn1 & Hn2 & He)%stored_workflow_present.
  destruct (healthy_after _ (UpdateWorkflowStatus cid wid st) d true _ Hh
    (update_workflow_fine cid wid st column _ (proj1 Hh) Hc He)) as (d' & Hd & Hh' & Ht).
  exists d'. split_and!; [exact Hd|done|by rewrite Ht|]. intros c w. rewrite Ht, stored_workflow_map by done.
  rewrite !nul_free_eq by done. case_decide as Hk.
  - injection Hk as -> ->. rewrite Hn1, Hn2. simpl. apply find_existsb_some in He as [x Hx].
    rewrite !nul_free_eq in Hx by done. rewrite Hx. simpl. rewrite (find_sat _ _ _ Hx). simpl.
    by rewrite WorkflowStatus_from_to.
  - unfold stored_workflow. destruct (_ && _); [|done]. destruct (List.find _ _) as [x|] eqn:Hx; [|done]. simpl.
    destruct (is_workflow cid wid x) eqn:Ex; [|done].
    apply find_sat in Hx. apply is_workflow_spec in Ex as (<- & <-), Hx as (<- & <-). done.
Qed.

(** A row of the workflow [cid], [wid] is one of [ids]. *)
Lemma one_of_spec t cid wid ids x :
  Forall (λ j, is_Some (stored_job t cid wid j)) ids →
  existsb (λ jid, is_job (c_str cid) (c_str wid) (c_str jid) x) ids = true ↔
    (jb_client x, jb_workflow x) = (cid, wid) ∧ jb_job x ∈ ids.
Proof.
  intros Hids. rewrite Forall_forall in Hids. rewrite existsb_exists. split.
  - intros (j & Hj%list_elem_of_In & Hx). destruct (stored_job_present _ _ _ _ (Hids _ Hj)) as (? & ? & ? & _).
    rewrite !nul_free_eq in Hx by done. apply is_job_spec in Hx as (-> & -> & <-). done.
  - intros [[= Ec Ew] Hj]. exists (jb_job x). split; [by apply list_elem_of_In|].
    destruct (stored_job_present _ _ _ _ (Hids _ Hj)) as (? & ? & ? & _).
    rewrite !nul_free_eq by done. by apply is_job_spec.
Qed.

Lemma mark_ready_key now cid wid queued ready c w j x :
  is_job c w j (mark_ready now cid wid queued ready x) = is_job c w j x.
Proof. unfold mark_ready. cbn zeta. by repeat case_match. Qed.

Lemma find_fmap {A} (p : A → bool) (f : A → A) l :
  (∀ x, p (f x) = p x) → List.find p (f <$> l) = f <$> List.find p l.
Proof.
  intros Hf. induction l as [|x l IH]; [done|]. rewrite fmap_cons. cbn [List.find]. rewrite Hf, IH.
  by destruct (p x).
Qed.

Lemma sqlite_update_ready d cid wid queued ready :
  sqlite_healthy d →
  Forall (λ j, is_Some (stored_job (cn_tables (sql_conn d)) cid wid j)) (ready ++ queued)%list →
  ∃ d', db_exec _ (UpdateReadyJobs cid wid queued ready) d = (Some true, d') ∧ sqlite_healthy d' ∧
    (∀ c w j, stored_job (cn_tables (sql_conn d')) c w j =
       if decide ((c, w) = (cid, wid) ∧ j ∈ queued) then Some JobStatus.QUEUED
       else if decide ((c, w) = (cid, wid) ∧ j ∈ ready) then Some JobStatus.READY
       else stored_job (cn_tables (sql_conn d)) c w j) ∧
    (∀ c w, stored_workflow (cn_tables (sql_conn d')) c w = stored_workflow (cn_tables (sql_conn d)) c w).
Proof.
  intros Hh Hp. pose proof (proj1 Hh) as [Hf Hs].
  assert (all_present cid wid (ready ++ queued)%list (t_jobs (cn_tables (sql_conn d))) = true) as Hall.
  { apply forallb_forall. intros j Hj%list_elem_of_In. rewrite Forall_forall in Hp.
    by apply Hp, stored_job_present in Hj as (_ & _ & _ & ?). }
  destruct (healthy_after _ (UpdateReadyJobs cid wid queued ready) d true
    (λ c', cn_tables c' = set_jobs (mark_ready (cn_clock (sql_conn d)) cid wid queued ready <$>
             t_jobs (cn_tables (sql_conn d))) (cn_tables (sql_conn d))) Hh) as (d' & Hd & Hh' & Ht).
  { eapply wp_mono; [|apply wp_and; [by apply update_ready_fine|by apply update_ready_jobs_wp]].
    intros b c' [[-> Hf'] (Hs' & _ & Ht)]. done. }
  exists d'. split_and!; [exact Hd|done| |by rewrite Ht]. intros c w j. rewrite Ht. unfold stored_job. simpl.
  rewrite find_fmap by (intros x; apply mark_ready_key).
  apply Forall_app in Hp as [Hr Hq].
  assert (∀ ids, Forall (λ j, is_Some (stored_job (cn_tables (sql_conn d)) cid wid j)) ids →
    (c, w) = (cid, wid) ∧ j ∈ ids →
    nul_free c && nul_free w && nul_free j = true ∧
    is_Some (List.find (is_job c w j) (t_jobs (cn_tables (sql_conn d))))) as Hin.
  { intros ids Hids [[= -> ->] Hj]. rewrite Forall_forall in Hids.
    destruct (stored_job_present _ _ _ _ (Hids _ Hj)) as (-> & -> & -> & He).
    split; [done|]. destruct (Hids _ Hj) as [st Hst]. unfold stored_job in Hst.
    destruct (_ && _); [|done]. by destruct (List.find _ _). }
  destruct (nul_free c && nul_free w && nul_free j) eqn:En.
  2:{ rewrite decide_False by (by intros [? _]%(Hin _ Hq)).
      by rewrite decide_False by (by intros [? _]%(Hin _ Hr)). }
  destruct (List.find (is_job c w j) (t_jobs (cn_tables (sql_conn d)))) as [x|] eqn:Hx; simpl.
  2:{ rewrite decide_False by (by intros [_ [? ?]]%(Hin _ Hq)).
      by rewrite decide_False by (by intros [_ [? ?]]%(Hin _ Hr)). }
  apply find_sat, is_job_spec in Hx as (<- & <- & <-).
  pose proof (one_of_spec _ cid wid queued x Hq) as Eq. pose proof (one_of_spec _ cid wid ready x Hr) as Er.
  unfold mark_ready. cbn zeta.
  destruct (existsb (λ jid, is_job (c_str cid) (c_str wid) (c_str jid) x) queued).
  { rewrite decide_True by (by apply Eq). done. }
  rewrite (decide_False (P := _ ∧ _ ∈ queued)) by (by rewrite <-Eq).
  destruct (existsb (λ jid, is_job (c_str cid) (c_str wid) (c_str jid) x) ready).
  { rewrite decide_True by (by apply Er). done. }
  by rewrite decide_False by (by rewrite <-Er).
Qed.

Lemma key_unique {A K} (key : A → K) l x y :
  NoDup (key <$> l) → x ∈ l → y ∈ l → key x = key y → x = y.
Proof.
  intros Hn [i Hi]%list_elem_of_lookup_1 [j Hj]%list_elem_of_lookup_1 Hk.
  assert (i = j) as ->; [|congruence]. eapply NoDup_lookup; [exact Hn| |].
  - rewrite list_lookup_fmap, Hi. done.
  - rewrite list_lookup_fmap, Hj. simpl. by rewrite Hk.
Qed.

(** What a job row is read as. *)
Lemma job_of_row_ok t r :
  tables_ok t → r ∈ t_jobs t →
  wj_job_id (job_of_row r) = jb_job r ∧ wj_status (job_of_row r) = JobStatus.from_int (jb_status r).
Proof.
  intros Hok Hr. pose proof (ok_job_texts _ Hok) as Htx. pose proof (ok_job_status _ Hok) as Hst.
  rewrite Forall_forall in Htx, Hst. specialize (Htx _ Hr). destruct (Hst _ Hr) as [st Es].
  unfold job_texts_ok in Htx. rewrite !andb_true_iff in Htx. destruct Htx as [_ Htx]. simpl.
  split; [by apply nul_free_eq|]. rewrite to_int32_id; [done|]. rewrite Es. by destruct st.
Qed.

Lemma stored_job_row t cid wid j st :
  tables_ok t → nul_free cid = true → nul_free wid = true →
  stored_job t cid wid j = Some st ↔
    ∃ r, r ∈ t_jobs t ∧ jb_client r = cid ∧ jb_workflow r = wid ∧ jb_job r = j ∧
      JobStatus.from_int (jb_status r) = st.
Proof.
  intros Hok Hc Hw. unfold stored_job. rewrite Hc, Hw. simpl. split.
  - destruct (nul_free j); [|done]. destruct (List.find _ _) as [r|] eqn:Hf; [|done]. intros [= <-].
    exists r. pose proof (find_sat _ _ _ Hf) as (? & ? & ?)%is_job_spec.
    apply find_some in Hf as [Hin _]. split_and!; try done. by apply list_elem_of_In.
  - intros (r & Hr & <- & <- & <- & <-). pose proof (ok_job_texts _ Hok) as Htx.
    rewrite Forall_forall in Htx. pose proof (Htx _ Hr) as Hn. unfold job_texts_ok in Hn.
    rewrite !andb_true_iff in Hn. destruct Hn as [_ ->].
    assert (is_Some (List.find (is_job (jb_client r) (jb_workflow r) (jb_job r)) (t_jobs t))) as [r' Hr'].
    { apply find_existsb_some, existsb_exists. exists r. split; [by apply list_elem_of_In|by apply is_job_spec]. }
    rewrite Hr'. simpl. do 2 f_equal. pose proof (find_sat _ _ _ Hr') as (E1 & E2 & E3)%is_job_spec.
    apply find_some in Hr' as [Hin%list_elem_of_In _]. f_equal.
    eapply (key_unique job_row_key); [apply ok_jobs, Hok|done|done|]. unfold job_row_key. by rewrite E1, E2, E3.
Qed.

Lemma sqlite_get_jobs d cid wid :
  sqlite_healthy d →
  ∃ d' l, db_exec _ (GetAllJobsForWorkflow cid wid) d = (Some (Some l), d') ∧ sqlite_healthy d' ∧
    (∀ c w j, stored_job (cn_tables (sql_conn d')) c w j = stored_job (cn_tables (sql_conn d)) c w j) ∧
    (∀ c w, stored_workflow (cn_tables (sql_conn d')) c w = stored_workflow (cn_tables (sql_conn d)) c w) ∧
    NoDup (wj_job_id <$> l) ∧
    (is_Some (stored_workflow (cn_tables (sql_conn d)) cid wid) →
     ∀ j st, stored_job (cn_tables (sql_conn d)) cid wid j = Some st ↔
       ∃ x, x ∈ l ∧ wj_job_id x = j ∧ wj_status x = st).
Proof.
  intros Hh. pose proof Hh as [[Hf Hs] Hok]. set (t := cn_tables (sql_conn d)) in *.
  set (q := eval_query (SELECT_JOBS (c_str cid) (c_str wid)) t).
  destruct (healthy_after _ (GetAllJobsForWorkflow cid wid) d (Some (job_of_row <$> rows q))
    (λ c', c' = sql_conn d) Hh) as (d' & Hd & Hh' & Ht).
  { eapply wp_mono; [|by apply get_all_jobs_fine]. intros l c' [-> ->]. done. }
  exists d', (job_of_row <$> rows q). rewrite Ht. split_and!; [done..| |].
  - (* the identifiers of the rows of one workflow are distinct *)
    rewrite (rows_perm _ q), <-list_fmap_compose.
    apply (NoDup_fmap_1 (λ j, (c_str cid, c_str wid, j))). rewrite <-list_fmap_compose.
    rewrite (list_fmap_ext _ job_row_key q).
    + apply filter_key, ok_jobs, Hok.
    + intros i x Hx%list_elem_of_lookup_2. unfold q in Hx. simpl in Hx.
      apply list_elem_of_In, filter_In in Hx as [Hx [Ec Ew]%andb_true_iff].
      apply String.eqb_eq in Ec, Ew. unfold job_row_key. simpl. rewrite Ec, Ew. do 2 f_equal.
      pose proof (ok_job_texts _ Hok) as Htx. rewrite Forall_forall in Htx.
      apply list_elem_of_In, Htx in Hx. unfold job_texts_ok in Hx.
      apply andb_true_iff in Hx as [_ Hx]. by apply nul_free_eq.
  - intros (Hc & Hw & _)%stored_workflow_present j st.
    assert (∀ x, x ∈ job_of_row <$> rows q ↔ ∃ r, x = job_of_row r ∧ r ∈ t_jobs t ∧
              jb_client r = cid ∧ jb_workflow r = wid) as Hq.
    { intros x. rewrite list_elem_of_fmap. setoid_rewrite (rows_perm _ q). unfold q. simpl.
      setoid_rewrite list_elem_of_In. setoid_rewrite filter_In.
      setoid_rewrite andb_true_iff. setoid_rewrite String.eqb_eq. rewrite !nul_free_eq by done. naive_solver. }
    rewrite (stored_job_row t cid wid j st Hok Hc Hw). split.
    + intros (r & Hr & Ec & Ew & Ej & Es). exists (job_of_row r).
      rewrite Hq. destruct (job_of_row_ok t r Hok Hr) as [-> ->]. naive_solver.
    + intros (x & (r & -> & Hr & Ec & Ew)%Hq & Ej & Es). exists r.
      destruct (job_of_row_ok t r Hok Hr) as [Hi Hst]. rewrite Hi in Ej. rewrite Hst in Es. done.
Qed.

(** What a workflow row is read as. *)
Lemma workflow_of_row_ok t r :
  tables_ok t → r ∈ t_workflows t →
  rq_client_id (wd_info (workflow_of_row indeterminate r)) = wr_client r ∧
  rq_workflow_id (wd_info (workflow_of_row indeterminate r)) = wr_workflow r ∧
  wd_status (workflow_of_row indeterminate r) = WorkflowStatus.from_int (wr_st r).
Proof.
  intros Hok Hr. pose proof (ok_workflow_texts _ Hok) as Htx. pose proof (ok_workflow_status _ Hok) as Hst.
  rewrite Forall_forall in Htx, Hst. specialize (Htx _ Hr). destruct (Hst _ Hr) as [st Es].
  unfold workflow_texts_ok in Htx. apply andb_true_iff in Htx as [Hc Hw]. simpl.
  split_and!; [by apply nul_free_eq..|]. rewrite to_int32_id; [done|]. rewrite Es. by destruct st.
Qed.

Lemma stored_workflow_row t cid w st :
  tables_ok t → nul_free cid = true →
  stored_workflow t cid w = Some st ↔
    ∃ r, r ∈ t_workflows t ∧ wr_client r = cid ∧ wr_workflow r = w ∧ WorkflowStatus.from_int (wr_st r) = st.
Proof.
  intros Hok Hc. unfold stored_workflow. rewrite Hc. simpl. split.
  - destruct (nul_free w); [|done]. destruct (List.find _ _) as [r|] eqn:Hf; [|done]. intros [= <-].
    exists r. pose proof (find_sat _ _ _ Hf) as (? & ?)%is_workflow_spec.
    apply find_some in Hf as [Hin _]. split_and!; try done. by apply list_elem_of_In.
  - intros (r & Hr & <- & <- & <-). pose proof (ok_workflow_texts _ Hok) as Htx.
    rewrite Forall_forall in Htx. pose proof (Htx _ Hr) as Hn. unfold workflow_texts_ok in Hn.
    apply andb_true_iff in Hn as [_ ->].
    assert (is_Some (List.find (is_workflow (wr_client r) (wr_workflow r)) (t_workflows t))) as [r' Hr'].
    { apply find_existsb_some, existsb_exists. exists r. split; [by apply list_elem_of_In|by apply is_workflow_spec]. }
    rewrite Hr'. simpl. do 2 f_equal. pose proof (find_sat _ _ _ Hr') as (E1 & E2)%is_workflow_spec.
    apply find_some in Hr' as [Hin%list_elem_of_In _]. f_equal.
    eapply (key_unique workflow_row_key); [apply ok_workflows, Hok|done|done|]. unfold workflow_row_key. by rewrite E1, E2.
Qed.

Lemma sqlite_get_workflows d cid :
  sqlite_healthy d → nul_free cid = true →
  ∃ d' l, db_exec _ (GetAllWorkflowsForClient cid) d = (Some (Some l), d') ∧ sqlite_healthy d' ∧
    (∀ c w j, stored_job (cn_tables (sql_conn d')) c w j = stored_job (cn_tables (sql_conn d)) c w j) ∧
    (∀ c w, stored_workflow (cn_tables (sql_conn d')) c w = stored_workflow (cn_tables (sql_conn d)) c w) ∧
    Forall (λ x, rq_client_id (wd_info x) = cid) l ∧
    (∀ w st, stored_workflow (cn_tables (sql_conn d)) cid w = Some st ↔
       ∃ x, x ∈ l ∧ rq_workflow_id (wd_info x) = w ∧ wd_status x = st).
Proof.
  intros Hh Hc. pose proof Hh as [[Hf Hs] Hok]. set (t := cn_tables (sql_conn d)) in *.
  set (q := eval_query (SELECT_WORKFLOWS (c_str cid)) t).
  destruct (healthy_after _ (GetAllWorkflowsForClient cid) d (Some (workflow_of_row indeterminate <$> rows q))
    (λ c', c' = sql_conn d) Hh) as (d' & Hd & Hh' & Ht).
  { eapply wp_mono; [|by apply get_all_workflows_fine]. intros l c' [-> ->]. done. }
  exists d', (workflow_of_row indeterminate <$> rows q).
  assert (∀ x, x ∈ workflow_of_row indeterminate <$> rows q ↔
    ∃ r, x = workflow_of_row indeterminate r ∧ r ∈ t_workflows t ∧ wr_client r = cid) as Hq.
  { intros x. rewrite list_elem_of_fmap. setoid_rewrite (rows_perm _ q). unfold q. simpl.
    setoid_rewrite list_elem_of_In. setoid_rewrite filter_In.
    setoid_rewrite String.eqb_eq. rewrite nul_free_eq by done. naive_solver. }
  rewrite Ht. split_and!; [done..| |].
  - apply Forall_forall. intros x (r & -> & Hr & <-)%Hq. by apply (workflow_of_row_ok t).
  - intros w st. rewrite (stored_workflow_row t cid w st Hok Hc). split.
    + intros (r & Hr & Ec & Ew & Es). exists (workflow_of_row indeterminate r).
      rewrite Hq. destruct (workflow_of_row_ok t r Hok Hr) as (_ & -> & ->). naive_solver.
    + intros (x & (r & -> & Hr & Ec)%Hq & Ew & Es). exists r.
      destruct (workflow_of_row_ok t r Hok Hr) as (_ & Hi & Hst). rewrite Hi in Ew. rewrite Hst in Es. done.
Qed.

#[local] Instance sqlite_store : StatusStore D := {|
  healthy := sqlite_healthy;
  job_status d := stored_job (cn_tables (sql_conn d));
  workflow_status d := stored_workflow (cn_tables (sql_conn d));
  update_job_law := sqlite_update_job;
  update_workflow_law := sqlite_update_workflow;
  update_ready_law := sqlite_update_ready;
  get_jobs_law := sqlite_get_jobs;
  get_workflows_law := sqlite_get_workflows
|}.
End sqlite.
