(* ===== verification/CompletionHandler.v ===== *)
(** * The completion handler

    src/src/completion_handler.cpp: the coroutine that takes job completions off
    the stream and moves the workflow on, in Redis first and then in the
    database.  [CompletionHandler] has no state of its own but [running_].

    The members of a [JobRuntimeData] without an initializer have the value
    [indeterminate] gives them until they are assigned. *)

From S2P Require Import Prelude.
From S2P Require Import Prog.
From S2P Require Import RedisServer.
From S2P Require Import Models.
From S2P Require Import RedisKeys.
From S2P Require Import Scripts.
From S2P Require Import RedisExec.
From S2P Require Import RedisRuntime.
From S2P Require Import RedisAdmission.
From S2P Require Import Database.

Definition parse_int_field (fields : gmap string string) (field_name : string) (default_value : Z) : Z :=
  match fields !! field_name with
  | None => default_value
  | Some v => default default_value (stoi v)
  end.

Definition is_waiting_to_run (st : JobStatus.t) : bool :=
  match st with
  | JobStatus.PENDING | JobStatus.RETRY_DELAY | JobStatus.READY | JobStatus.QUEUED => true
  | _ => false
  end.

Definition is_job_runtime_expired (d : JobRuntimeData) : app_prog bool :=
  let max_job_runtime_sec := jr_timeout_sec d in
  if (jr_start_run_time d <=? 0) || (max_job_runtime_sec <=? 0) then Ret false
  else
    let* now := app_time in
    Ret (max_job_runtime_sec <? now - jr_start_run_time d).

(** ** Reading a job record that may be damaged

    [fetch_job_runtime_async] assigns the fields in order and stops at the first
    that cannot be read, which this handler then uses as it is: [inr] is the
    result [false] with the record assigned so far. *)
Section fetch.
Context (indeterminate : string → Z).

Definition blank_job_runtime : JobRuntimeData :=
  mkJobRuntimeData 0 "" "" "" (indeterminate "remaining_dependencies") (indeterminate "priority")
    (indeterminate "timeout_sec") 0 0 0 (indeterminate "retry_delay_sec") 0 "" [].

Definition assign_job_runtime (job_id : string) (h : gmap string string) :
  JobRuntimeData + JobRuntimeData :=
  let mk status deps prio timeout start maxr cur delay size policy :=
    mkJobRuntimeData 0 job_id "" status deps prio timeout start maxr cur delay size policy [] in
  let b := blank_job_runtime in
  match h !! "status" with
  | None => inr (mk "" (jr_remaining_dependencies b) (jr_priority b) (jr_timeout_sec b) 0 0 0
                   (jr_retry_delay_sec b) 0 "")
  | Some status =>
  match at_int h "remaining_dependencies" with
  | None => inr (mk status (jr_remaining_dependencies b) (jr_priority b) (jr_timeout_sec b) 0 0 0
                   (jr_retry_delay_sec b) 0 "")
  | Some deps =>
  match at_int h "priority" with
  | None => inr (mk status deps (jr_priority b) (jr_timeout_sec b) 0 0 0 (jr_retry_delay_sec b) 0 "")
  | Some prio =>
  match at_int h "timeout_sec" with
  | None => inr (mk status deps prio (jr_timeout_sec b) 0 0 0 (jr_retry_delay_sec b) 0 "")
  | Some timeout =>
  let start := default 0 (h !! "start_run_time" ≫= stoll) in
  match at_int h "max_retries" with
  | None => inr (mk status deps prio timeout start 0 0 (jr_retry_delay_sec b) 0 "")
  | Some maxr =>
  match at_int h "current_retry_count" with
  | None => inr (mk status deps prio timeout start maxr 0 (jr_retry_delay_sec b) 0 "")
  | Some cur =>
  match at_int h "retry_delay_sec" with
  | None => inr (mk status deps prio timeout start maxr cur (jr_retry_delay_sec b) 0 "")
  | Some delay =>
  match h !! "retry_backoff_policy" with
  | None => inr (mk status deps prio timeout start maxr cur delay 0 "")
  | Some policy =>
  match (match h !! "payload_size_bytes" with None => Some 0 | Some v => stoi v end) with
  | None => inr (mk status deps prio timeout start maxr cur delay 0 policy)
  | Some size => inl (mk status deps prio timeout start maxr cur delay size policy)
  end end end end end end end end end.

Definition fetch_job_runtime_into (w : WorkflowIdentity) (job_id : string) :
  redis_prog (JobRuntimeData + JobRuntimeData) :=
  let* fields := execute_hgetall_command_async (job_key w job_id) in
  Ret match fields with
      | None => inr blank_job_runtime
      | Some h => if decide (h = ∅) then inr blank_job_runtime else assign_job_runtime job_id h
      end.

(** When it succeeds it is the record [fetch_job_runtime_async] returns. *)
Lemma assign_job_runtime_ok job_id h :
  match assign_job_runtime job_id h with inl d => Some d | inr _ => None end
    = parse_job_runtime job_id h.
Proof.
  unfold assign_job_runtime, parse_job_runtime. simpl.
  destruct (h !! "status"); simpl; [|done]. destruct (at_int h "remaining_dependencies"); simpl; [|done].
  destruct (at_int h "priority"); simpl; [|done]. destruct (at_int h "timeout_sec"); simpl; [|done].
  destruct (at_int h "max_retries"); simpl; [|done].
  destruct (at_int h "current_retry_count"); simpl; [|done].
  destruct (at_int h "retry_delay_sec"); simpl; [|done].
  destruct (h !! "retry_backoff_policy"); simpl; [|done].
  by destruct (h !! "payload_size_bytes") as [v|]; simpl; [destruct (stoi v)|].
Qed.

(** ** Completion *)

Definition cleanup_completed_workflow_redis_entries (w : WorkflowIdentity) : app_prog bool :=
  let* jobs := db (GetAllJobsForWorkflow (client_id w) (workflow_id w)) in
  match jobs with
  | None => Ret false
  | Some workflow_jobs =>
      let job_ids := wj_job_id <$> workflow_jobs in
      let redis_jobs :=
        (λ id, mkJobRuntimeData 0 id "" "" (indeterminate "remaining_dependencies")
                 (indeterminate "priority") (indeterminate "timeout_sec") 0 0 0
                 (indeterminate "retry_delay_sec") 0 "" []) <$> job_ids in
      let* removed := redis (remove_active_workflow_async (client_id w) (workflow_id w)) in
      if negb removed then Ret false
      else
        let* deleted := redis (delete_all_jobs_payload_async w job_ids) in
        if negb deleted then Ret false
        else
          redis (delete_workflow_runtime_data_async
            (mkWorkflowRuntimeInfo w
               (mkWorkflowRuntimeData "" "" (indeterminate "max_concurrent_jobs")
                  (indeterminate "reserved_execution_slots") (indeterminate "max_runtime_sec")
                  (indeterminate "total_jobs") (indeterminate "pending_jobs")
                  (indeterminate "completed_jobs") (indeterminate "failed_jobs"))
               redis_jobs [] []))
  end.

Definition handle_job_completed (c : JobCompletionData) : app_prog bool :=
  let w := jc_identity c in
  let* now := now_as_string in
  let* result := redis (complete_successful_job_runtime_async w (jc_job_id c) now) in
  match result with
  | None => Ret false
  | Some (ready_job_ids, promoted_job_id, workflow_completed) =>
      let* ok := db (UpdateJobStatus (client_id w) (workflow_id w) (jc_job_id c) JobStatus.COMPLETED) in
      if negb ok then Ret false
      else
        let* ok :=
          (if workflow_completed
           then db (UpdateWorkflowStatus (client_id w) (workflow_id w) WorkflowStatus.COMPLETED)
           else Ret true) in
        if negb ok then Ret false
        else
          let* ok :=
            (if negb (str_empty promoted_job_id) || negb (bool_decide (ready_job_ids = []))
             then
               let queued_jobs := if str_empty promoted_job_id then [] else [promoted_job_id] in
               db (UpdateReadyJobs (client_id w) (workflow_id w) queued_jobs ready_job_ids)
             else Ret true) in
          if negb ok then Ret false
          else if workflow_completed then cleanup_completed_workflow_redis_entries w
          else Ret true
  end.

(** ** Failure *)

(** [retry_at_ms]: now, the delay and a jitter. *)
Definition handle_job_retry (c : JobCompletionData)
  (updated_retry_count retry_delay_sec : Z) : app_prog bool :=
  let w := jc_identity c in
  let* now := trigger NowMs in
  let* jitter := trigger RetryJitterMs in
  let retry_at_ms := now + Z.max 0 retry_delay_sec * 1000 + jitter in
  let* promoted := redis (schedule_job_retry_async w (jc_job_id c) updated_retry_count retry_at_ms) in
  match promoted with
  | None => Ret false
  | Some promoted_job_id =>
      let* ok := db (UpdateJobStatus (client_id w) (workflow_id w) (jc_job_id c) JobStatus.RETRY_DELAY) in
      if negb ok then Ret false
      else if str_empty promoted_job_id then Ret true
      else db (UpdateReadyJobs (client_id w) (workflow_id w) [promoted_job_id] [])
  end.

(** One round of the loops that end the jobs of a failed workflow in the
    database; the accumulator is [persisted]. *)
Definition end_job (w : WorkflowIdentity) (persisted : bool) (job : WorkflowJob) : app_prog bool :=
  let target_status :=
    if is_waiting_to_run (wj_status job) then Some JobStatus.ABORTED
    else if bool_decide (wj_status job = JobStatus.RUNNING) then Some JobStatus.FAILED
    else None in
  match target_status with
  | None => Ret persisted
  | Some st =>
      let* ok := db (UpdateJobStatus (client_id w) (workflow_id w) (wj_job_id job) st) in
      Ret (persisted && ok)
  end.

Definition persist_failed_workflow_after_runtime_failure (w : WorkflowIdentity)
  (failed_job_id : string) (terminal_job_status : JobStatus.t) : app_prog bool :=
  let* ok := db (UpdateJobStatus (client_id w) (workflow_id w) failed_job_id terminal_job_status) in
  let* jobs := db (GetAllJobsForWorkflow (client_id w) (workflow_id w)) in
  let persisted := ok && bool_decide (is_Some jobs) in
  let* persisted := pfold (λ persisted job,
    if String.eqb (wj_job_id job) failed_job_id then Ret persisted else end_job w persisted job)
    (default [] jobs) persisted in
  let* ok := db (UpdateWorkflowStatus (client_id w) (workflow_id w) WorkflowStatus.FAILED) in
  Ret (persisted && ok).

Definition persist_failed_workflow_after_missing_runtime (w : WorkflowIdentity) : app_prog bool :=
  let* jobs := db (GetAllJobsForWorkflow (client_id w) (workflow_id w)) in
  let* persisted := pfold (end_job w) (default [] jobs) (bool_decide (is_Some jobs)) in
  let* ok := db (UpdateWorkflowStatus (client_id w) (workflow_id w) WorkflowStatus.FAILED) in
  Ret (persisted && ok).

(** Whether a failed job is tried again.  The sum of the source is on [int]; the
    count read back is at most [int_max], and the sum is exact below it. *)
Definition may_retry (c : JobCompletionData) (d : JobRuntimeData)
  (workflow_fields : gmap string string) : app_prog bool :=
  let can_retry := bool_decide (jc_status c = JobStatus.FAILED) in
  let workflow_running :=
    bool_decide (workflow_fields !! "status" =
                   Some (WorkflowStatus.to_string WorkflowStatus.RUNNING)) in
  if can_retry && workflow_running && (jr_current_retry_count d + 1 <=? jr_max_retries d)
  then let* expired := is_job_runtime_expired d in Ret (negb expired)
  else Ret false.

(** The default of the third argument is FAILED. *)
Definition handle_job_failed (c : JobCompletionData) (d : JobRuntimeData)
  (workflow_fields : gmap string string) : app_prog bool :=
  let w := jc_identity c in
  let updated_retry_count := jr_current_retry_count d + 1 in
  let terminal_job_status :=
    if bool_decide (jc_status c = JobStatus.ABORTED) then JobStatus.ABORTED else JobStatus.FAILED in
  let* retry := may_retry c d workflow_fields in
  if retry then handle_job_retry c updated_retry_count (jr_retry_delay_sec d)
  else
    let* jobs := db (GetAllJobsForWorkflow (client_id w) (workflow_id w)) in
    match jobs with
    | None => persist_failed_workflow_after_runtime_failure w (jc_job_id c) JobStatus.FAILED
    | Some workflow_jobs =>
        let* result := redis (complete_failed_job_runtime_async w (jc_job_id c) updated_retry_count
                                (wj_job_id <$> workflow_jobs)) in
        match result with
        | None => persist_failed_workflow_after_runtime_failure w (jc_job_id c) terminal_job_status
        | Some (canceled_job_ids, workflow_failed, workflow_completed) =>
            let* persisted :=
              (if bool_decide (terminal_job_status = JobStatus.ABORTED) then
                 let* now := now_as_string in
                 redis (update_job_runtime_async w (jc_job_id c)
                   [("status", JobStatus.to_string JobStatus.ABORTED); ("last_update_time", now)])
               else Ret true) in
            let* ok := db (UpdateJobStatus (client_id w) (workflow_id w) (jc_job_id c)
                             terminal_job_status) in
            let persisted := persisted && ok in
            let* persisted := pfold (λ persisted id,
              let* ok := db (UpdateJobStatus (client_id w) (workflow_id w) id JobStatus.ABORTED) in
              Ret (persisted && ok)) canceled_job_ids persisted in
            let* ok :=
              (if workflow_failed
               then db (UpdateWorkflowStatus (client_id w) (workflow_id w) WorkflowStatus.FAILED)
               else Ret true) in
            let persisted := persisted && ok in
            let* ok := (if workflow_completed
                        then cleanup_completed_workflow_redis_entries w else Ret true) in
            Ret (persisted && ok)
        end
    end.

(** Not called by the handler's own loop. *)
Definition handle_job_canceled (c : JobCompletionData) (workflow_fields : gmap string string) :
  app_prog bool :=
  let w := jc_identity c in
  let* now := now_as_string in
  let reserved_slots := parse_int_field workflow_fields "reserved_execution_slots" 0 in
  let* ok := redis (update_job_runtime_async w (jc_job_id c)
    [("status", JobStatus.to_string JobStatus.ABORTED); ("last_update_time", now)]) in
  if negb ok then Ret false
  else
    let* ok := redis (update_workflow_runtime_async w
      [("reserved_execution_slots", to_str (Z.max 0 (reserved_slots - 1)));
       ("last_update_time", now)]) in
    if negb ok then Ret false
    else db (UpdateJobStatus (client_id w) (workflow_id w) (jc_job_id c) JobStatus.ABORTED).

(** ** Dispatch *)

Definition set_completion (st : JobStatus.t) (code : StatusCodes.t) (c : JobCompletionData) :
  JobCompletionData :=
  mkJobCompletionData (jc_stream_id c) (jc_identity c) (jc_job_id c) st code.

Definition set_job_id (id : string) (d : JobRuntimeData) : JobRuntimeData :=
  mkJobRuntimeData (jr_job_uuid d) id (jr_job_name d) (jr_status d)
    (jr_remaining_dependencies d) (jr_priority d) (jr_timeout_sec d) (jr_start_run_time d)
    (jr_max_retries d) (jr_current_retry_count d) (jr_retry_delay_sec d)
    (jr_payload_size_bytes d) (jr_retry_backoff_policy d) (jr_successors d).

Definition set_retry_count (n : Z) (d : JobRuntimeData) : JobRuntimeData :=
  mkJobRuntimeData (jr_job_uuid d) (jr_job_id d) (jr_job_name d) (jr_status d)
    (jr_remaining_dependencies d) (jr_priority d) (jr_timeout_sec d) (jr_start_run_time d)
    (jr_max_retries d) n (jr_retry_delay_sec d)
    (jr_payload_size_bytes d) (jr_retry_backoff_policy d) (jr_successors d).

(** The part after a completion that was not handled as a success. *)
Definition process_unsuccessful (c : JobCompletionData) (workflow_fields : gmap string string) :
  app_prog bool :=
  let w := jc_identity c in
  let c :=
    if bool_decide (jc_status c = JobStatus.FAILED) || bool_decide (jc_status c = JobStatus.ABORTED)
    then c else set_completion JobStatus.FAILED StatusCodes.INTERNAL_DB_FAILURE c in
  let* job := redis (fetch_job_runtime_into w (jc_job_id c)) in
  match job with
  | inr d =>
      handle_job_failed (set_completion (jc_status c) StatusCodes.INTERNAL_DB_FAILURE c)
        (set_job_id (jc_job_id c) d) workflow_fields
  | inl d =>
      let d := if bool_decide (jc_error_code c = StatusCodes.INTERNAL_DB_FAILURE)
               then set_retry_count (jr_max_retries d) d else d in
      handle_job_failed c d workflow_fields
  end.

Definition process_completed_jobs (c : JobCompletionData) : app_prog bool :=
  let w := jc_identity c in
  let* fields := redis (fetch_workflow_runtime_async w) in
  let missing := match fields with Some h => bool_decide (h = ∅) | None => true end in
  if missing then
    let* workflows := db (GetAllWorkflowsForClient (client_id w)) in
    match workflows with
    | None => Ret false
    | Some workflows =>
        let workflow :=
          List.find (λ x, String.eqb (rq_workflow_id (wd_info x)) (workflow_id w)) workflows in
        let ended := match workflow with
                     | Some x => bool_decide (wd_status x = WorkflowStatus.FAILED)
                                 || bool_decide (wd_status x = WorkflowStatus.CANCELED)
                     | None => false
                     end in
        (if ended then Ret tt
         else persist_failed_workflow_after_missing_runtime w ;; Ret tt) ;;
        Ret false
    end
  else
    let workflow_fields := default ∅ fields in
    if bool_decide (jc_status c = JobStatus.COMPLETED) then
      let* handled := handle_job_completed c in
      if handled then Ret true
      else process_unsuccessful
             (set_completion JobStatus.FAILED StatusCodes.INTERNAL_DB_FAILURE c) workflow_fields
    else process_unsuccessful c workflow_fields.
End fetch.
