(* ===== verification/ClientConfigs.v ===== *)
(** * Client configurations

    src/src/client_sqlite_config_manager.cpp and client_test_config_manager.cpp,
    with the default plans of include/client_config_manager_interface.h.  The
    manager loads plans and clients once, when it is created, and inserts the
    defaults into a database that has none. *)

From S2P Require Import Prelude.
From S2P Require Import Prog.
From S2P Require Import Models.
From S2P Require Import Sqlite.
From S2P Require Import SqliteDb.
From S2P Require Import Database.
From S2P Require Import SqliteFacts.

Definition rplans : list RateLimitConfig :=
  [ mkRateLimitConfig "sandbox" 10 60 1; mkRateLimitConfig "basic" 100 60 5;
    mkRateLimitConfig "professional" 1000 60 10; mkRateLimitConfig "enterprise" 10000 60 50 ].

Definition pplans : list PolicyPlan :=
  [ mkPolicyPlan "sandbox" 10 5 500 300 3 60 1 2 18 3 1 0 5 1 1 1;
    mkPolicyPlan "basic" 20 10 800 600 10 300 2 5 55 6 1 0 10 10 10 10;
    mkPolicyPlan "professional" 50 50 1024 6000 20 600 3 10 90 15 3 0 15 30 30 30;
    mkPolicyPlan "enterprise" 100 100 1024 12000 40 900 5 20 180 25 5 0 20 60 60 60 ].

Record ClientConfigManager := mkManager {
  rate_limit_plans_ : gmap string RateLimitConfig;
  policy_plans_ : gmap string PolicyPlan;
  clients_ : gmap string ClientData }.

(** [out] keeps the members that are not found. *)
Definition get_client_config (m : ClientConfigManager) (client_id : string) (out : ClientConfig) :
  option ClientConfig :=
  match clients_ m !! client_id with
  | None => None
  | Some c =>
      Some (mkClientConfig (cd_client_id c)
              (default (cc_rate_limit_config out)
                 (rate_limit_plans_ m !! cd_rate_limit_config_plan_name c))
              (default (cc_policy_config out) (policy_plans_ m !! cd_policy_plan_name c)))
  end.

(** [ClientTestConfigManager::get_client_config]. *)
Definition test_client_config (client_id : string) : option ClientConfig :=
  r ← rplans !! 0%nat; p ← pplans !! 0%nat; Some (mkClientConfig client_id r p).

Section manager.
Context (indeterminate : PolicyPlan).

(** A query that cannot be prepared leaves the plans as they were; the clients
    are cleared first. *)
Definition load_from_db (m : ClientConfigManager) : sql_prog ClientConfigManager :=
  let* rates := get_rate_limit_plans (rate_limit_plans_ m) in
  let* policies := get_policy_plans indeterminate (policy_plans_ m) in
  let* clients := get_all_users in
  Ret (mkManager (default (rate_limit_plans_ m) rates) (default (policy_plans_ m) policies)
         (default ∅ clients)).

Definition rate_names : list string := ["professional"; "basic"; "sandbox"; "enterprise"].
Definition policy_names : list string := ["basic"; "sandbox"; "professional"; "enterprise"].

(** The results of the insertions are not examined. *)
Definition ensure_defaults : sql_prog unit :=
  pfold (λ _ p, upsert_rate_limit_plan p ;; Ret tt) rplans tt ;;
  pfold (λ _ p, upsert_policy_plan p ;; Ret tt) pplans tt ;;
  pfold (λ _ i,
    let client_id := "client_" +:+ to_str i in
    let rl := default "" (rate_names !! Z.to_nat ((i - 1) mod 4)) in
    let pp := default "" (policy_names !! Z.to_nat ((i - 1) mod 4)) in
    upsert_user_config client_id rl pp ;; Ret tt) (seqZ 1 10) tt.

Definition new_manager : sql_prog ClientConfigManager :=
  let* m := load_from_db (mkManager ∅ ∅ ∅) in
  if bool_decide (rate_limit_plans_ m = ∅) || bool_decide (policy_plans_ m = ∅)
     || bool_decide (clients_ m = ∅)
  then ensure_defaults ;; load_from_db m
  else Ret m.
End manager.

(** ** Loading a map from rows in any order *)

Lemma emplace_all_map {A} (l : list (string * A)) (m : gmap string A) :
  NoDup l.*1 → (∀ k, k ∈ l.*1 → m !! k = None) → emplace_all l m = list_to_map l ∪ m.
Proof.
  unfold emplace_all. revert m. induction l as [|[k x] l IH]; intros m Hnd Hm; simpl.
  { by rewrite map_empty_union. }
  rewrite fmap_cons in Hnd, Hm. apply NoDup_cons in Hnd as [Hk Hnd]. simpl in Hk, Hm.
  rewrite (Hm k) by (by left). rewrite IH; [|done|].
  - apply map_eq. intros i. rewrite !lookup_union.
    destruct (decide (i = k)) as [->|Hne].
    + rewrite !lookup_insert_eq. rewrite (not_elem_of_list_to_map_1 (M := gmap string) l k) by done.
      rewrite Hm by (by left). done.
    + by rewrite !lookup_insert_ne by done.
  - intros i Hi. rewrite lookup_insert_ne by (intros ->; done). apply Hm. by right.
Qed.

Lemma emplace_all_rows {A} (l l' : list (string * A)) :
  NoDup l.*1 → l' ≡ₚ l → emplace_all l' ∅ = list_to_map l.
Proof.
  intros Hnd Hp. rewrite emplace_all_map, map_union_empty.
  - symmetry. apply list_to_map_proper; [done|by symmetry].
  - by rewrite Hp.
  - intros k _. apply lookup_empty.
Qed.

(** ** A fresh database *)
Section fresh.
Context `{RowOrder} (indeterminate : PolicyPlan).

Definition rate_entry (r : rate_row) := (c_str (rt_plan_name r), rate_of_row r).
Definition policy_entry (r : policy_row) :=
  (c_str (po_plan_name r), policy_of_row (c_str (po_plan_name r)) r indeterminate).
Definition client_entry (r : client_row) :=
  (c_str (cl_client_id r),
   mkClientData (c_str (cl_client_id r)) (c_str (cl_rate_limit_plan_name r)) (c_str (cl_policy_plan_name r))).

Lemma load_fine t c :
  cn_faults c = [] → cn_tables c = t →
  NoDup (rate_entry <$> t_rates t).*1 → NoDup (policy_entry <$> t_policies t).*1 →
  NoDup (client_entry <$> t_clients t).*1 →
  wp sql_doc (load_from_db indeterminate (mkManager ∅ ∅ ∅)) (λ m c', c' = c ∧
    m = mkManager (list_to_map (rate_entry <$> t_rates t)) (list_to_map (policy_entry <$> t_policies t))
          (list_to_map (client_entry <$> t_clients t))) c.
Proof.
  intros Hf Ht Hr Hp Hc. unfold load_from_db, get_rate_limit_plans, get_policy_plans, get_all_users.
  apply wp_bind, wp_bind, wp_prepare_fine; [done|]. simpl negb. cbn iota.
  apply wp_bind, wp_select_fine; [done|]. apply wp_ret.
  apply wp_bind, wp_bind, wp_prepare_fine; [done|]. simpl negb. cbn iota.
  apply wp_bind, wp_select_fine; [done|]. apply wp_ret.
  apply wp_bind, wp_bind, wp_prepare_fine; [done|]. simpl negb. cbn iota.
  apply wp_bind, wp_select_fine; [done|]. apply wp_ret, wp_ret. rewrite Ht. split; [done|].
  simpl. f_equal; apply emplace_all_rows; [done|by rewrite rows_perm..|done|by rewrite rows_perm|done|by rewrite rows_perm].
Qed.

(** The rows the defaults leave in empty tables. *)
Definition default_tables (clk : Z) : tables :=
  cn_tables (run sql_doc ensure_defaults (mkConn no_tables None 0 [] clk)).2.

Lemma ensure_defaults_fine n clk :
  run sql_doc ensure_defaults (mkConn no_tables None n [] clk) =
    (Some tt, mkConn (default_tables clk) None 1 [] clk).
Proof. vm_compute. reflexivity. Qed.

Lemma new_manager_fresh c :
  quiet c → cn_tables c = no_tables →
  wp sql_doc (new_manager indeterminate) (λ m _,
    m = mkManager (list_to_map (rate_entry <$> t_rates (default_tables (cn_clock c))))
          (list_to_map (policy_entry <$> t_policies (default_tables (cn_clock c))))
          (list_to_map (client_entry <$> t_clients (default_tables (cn_clock c))))) c.
Proof.
  intros [Hf Hs] Ht. destruct c as [t saved n faults clk]. cbn [cn_faults cn_saved cn_tables cn_clock] in *. subst.
  unfold new_manager. apply wp_bind.
  eapply wp_mono; [|apply (load_fine no_tables); [done|done|constructor..]].
  intros m c' [-> ->]. cbn [rate_limit_plans_]. rewrite bool_decide_true by done. simpl orb. cbn iota.
  apply wp_bind. unfold wp at 1. rewrite ensure_defaults_fine.
  eapply wp_mono; [|apply (load_fine (default_tables clk)); [done|done|..]].
  { intros m c' [_ ->]. reflexivity. }
  all: vm_compute; repeat (constructor; [set_solver|]); constructor.
Qed.
End fresh.

(** What is left of a plan once it has been stored and loaded: the columns the
    statements do not mention are indeterminate. *)
Definition reloaded (indeterminate p : PolicyPlan) : PolicyPlan :=
  mkPolicyPlan (pp_plan_name p) (pp_max_workflow_size_kb p) (pp_max_jobs_in_workflow p)
    (pp_max_job_size_bytes p) (pp_max_workflow_runtime_sec p) (pp_max_workflow_total_retries p)
    (pp_max_job_runtime_sec p) (pp_max_job_retries p) (pp_max_concurrent_jobs p)
    (pp_max_pending_jobs p)
    (pp_max_job_dependencies indeterminate) (pp_max_job_retry_delay_sec indeterminate)
    (pp_default_retry_backoff_policy indeterminate) (pp_max_job_priority indeterminate)
    (pp_workflow_retention_days p) (pp_request_retention_days p) (pp_payload_retention_days p).

(** The plans of client [i] by default. *)
Definition plan_of {A} (name : A → string) (names : list string) (plans : list A) (i : Z) : option A :=
  n ← names !! Z.to_nat ((i - 1) mod 4);
  List.find (λ p, String.eqb (name p) n) plans.

Lemma fresh_client_config `{RowOrder} indeterminate clk out i :
  1 ≤ i ≤ 10 →
  ∃ r p, plan_of rl_plan_name rate_names rplans i = Some r ∧
    plan_of pp_plan_name policy_names pplans i = Some p ∧
    get_client_config
      (mkManager (list_to_map (rate_entry <$> t_rates (default_tables clk)))
         (list_to_map (policy_entry indeterminate <$> t_policies (default_tables clk)))
         (list_to_map (client_entry <$> t_clients (default_tables clk)))) ("client_" +:+ to_str i) out
    = Some (mkClientConfig ("client_" +:+ to_str i) r (reloaded indeterminate p)).
Proof.
  intros Hi. assert (i ∈ seqZ 1 10) as Hin by (apply elem_of_seqZ; lia). clear Hi.
  repeat (apply elem_of_cons in Hin as [-> | Hin];
    [eexists _, _; split; [vm_compute; reflexivity|split; vm_compute; reflexivity]|]).
  by apply elem_of_nil in Hin.
Qed.
