(* ===== verification/AdmissionService.v ===== *)
(** * The admission service

    src/src/workflow_admission_service.cpp (the submission of a workflow) and
    src/src/admission_failure_handler.cpp.  The checks it calls are in
    [Validation], the runtime generator in [RuntimeGen].

    The JSON parser, the schema validator, the client configurations and the
    text of a UUID are parameters. *)

From S2P Require Import Prelude.
From S2P Require Import Prog.
From S2P Require Import RedisServer.
From S2P Require Import Models.
From S2P Require Import RedisKeys.
From S2P Require Import Scripts.
From S2P Require Import RedisExec.
From S2P Require Import RedisRuntime.
From S2P Require Import RedisAdmission.
From S2P Require Import Json.
From S2P Require Import Validation.
From S2P Require Import Database.
From S2P Require Import Calls.
From S2P Require Import RuntimeGen.

(** ** Failures *)

Definition set_request (st : RequestStatus.t) (reason : string) (r : RequestData) : RequestData :=
  mkRequestData (rq_client_id r) (rq_request_id r) (rq_workflow_id r)
    (rq_workflow_payload_size_bytes r) (rq_operation r) st reason.

(** A failing call is logged and ignored. *)
Definition update_redis_request_status (r : RequestData) : app_prog unit :=
  redis (update_request_status_async (rq_client_id r) (rq_request_id r)
           (RequestStatus.to_string (rq_status r))) ;;
  if bool_decide (rq_status r ≠ RequestStatus.ADMITTED) then
    redis (release_request_id_async (rq_client_id r) (rq_request_id r)) ;;
    redis (remove_active_workflow_async (rq_client_id r) (rq_workflow_id r)) ;;
    Ret tt
  else Ret tt.

Definition handle_rejection (r : RequestData) (stage : AdmissionStage.t) (reason : StatusCodes.t) :
  app_prog ValidationResult :=
  let errors_msg := StatusCodes.to_string reason in
  let result := mkValidationResult false reason errors_msg in
  let r := set_request RequestStatus.REJECTED errors_msg r in
  (if AdmissionStage.to_int AdmissionStage.PERSIST_REQUEST <=? AdmissionStage.to_int stage
   then update_redis_request_status r else Ret tt) ;;
  (if AdmissionStage.to_int AdmissionStage.PERSIST_REQUEST <? AdmissionStage.to_int stage
   then
     db (UpdateRequestStatus r) ;;
     db (FailWorkflow (rq_client_id r) (rq_workflow_id r)) ;;
     Ret tt
   else Ret tt) ;;
  Ret result.

(** ** Submission *)
Section service.
Context `{HashOrder}.
Context (parse : string → json + string)          (* json::parse, or the text of its error *)
  (schema_error : json → option string)           (* validator_.validate *)
  (client_config : string → option ClientConfig)  (* ClientConfigManagerFactory::get() *)
  (dump_size : json → Z) (version : string) (key_retention_ttl : Z)
  (uuids : nat → Z) (uuid_text : Z → string).

(** [None] is the exception of a field that is no text. *)
Definition parse_request (body : string) : option ((json * RequestData) + ValidationResult) :=
  match parse body with
  | inr e =>
      Some (inr (mkValidationResult false StatusCodes.INVALID_JSON_FORMAT ("JSON parse error: " +:+ e)))
  | inl workflow_data =>
      match schema_error workflow_data with
      | Some e =>
          Some (inr (mkValidationResult false StatusCodes.SCHEMA_VALIDATION_FAILED
                       ("Schema validation error: " +:+ e)))
      | None =>
          cid ← jvalue_str "client_id" "" workflow_data;
          rid ← jvalue_str "request_id" "" workflow_data;
          wid ← jvalue_str "workflow_id" "" workflow_data;
          Some (inl (workflow_data,
                     mkRequestData cid rid wid (to_int32 (Z.of_nat (String.length body))) "CREATE"
                       RequestStatus.RECEIVED ""))
      end
  end.

Definition get_client_config_data (cid : string) : ClientConfig + ValidationResult :=
  match client_config cid with
  | Some c => inl c
  | None =>
      inr (mkValidationResult false StatusCodes.CLIENT_NOT_FOUND
             (StatusCodes.to_string StatusCodes.CLIENT_NOT_FOUND))
  end.

Definition admit_request (r : RequestData) (rate_limit_config : RateLimitConfig) :
  app_prog (bool * StatusCodes.t) :=
  redis (admit_request_async key_retention_ttl (rq_client_id r) (rq_request_id r) (rq_workflow_id r)
           (rl_max_concurrent_workflows rate_limit_config) (rl_max_requests rate_limit_config)
           (rl_window_sec rate_limit_config)).

Definition persist_request (r : RequestData) (body : string) (cfg : ClientConfig) :
  app_prog (unit + StatusCodes.t) :=
  db (AddRequest r body cfg).

(** The jobs in the order of the hash map. *)
Definition jobs_to_persist (info : gmap string JobRuntimeData) : list JobData :=
  omap (λ j, (λ d, mkJobData (uuid_text (jr_job_uuid d)) j JobStatus.PENDING) <$> info !! j)
    (order "persist" (dom info)).

Definition persist_workflow (wd : WorkflowData) (info : gmap string JobRuntimeData)
  (policy_jobs_retry_num : Z) : app_prog (unit + StatusCodes.t) :=
  let cid := rq_client_id (wd_info wd) in
  let wid := rq_workflow_id (wd_info wd) in
  let* added := db (AddWorkflow wd) in
  match added with
  | inr c => Ret (inr c)
  | inl _ =>
      let* jobs := db (AddWorkflowJobs
        (mkWorkflowJobList cid wid policy_jobs_retry_num (jobs_to_persist info))) in
      db (UpdateWorkflowStatus cid wid
            (match jobs with inl _ => WorkflowStatus.READY | inr _ => WorkflowStatus.FAILED end)) ;;
      Ret jobs
  end.

Definition handle_request_accepted (result : ValidationResult) (r : RequestData) :
  app_prog ValidationResult :=
  let r := set_request RequestStatus.ADMITTED
             (StatusCodes.to_string StatusCodes.WORKFLOW_ADMITTED) r in
  update_redis_request_status r ;;
  db (UpdateRequestStatus r) ;;
  Ret result.

(** From the check of the policy on: the request is admitted in Redis and
    recorded. *)
Definition admit_workflow (data : json) (r : RequestData) (cfg : ClientConfig) :
  app_prog ValidationResult :=
  let p := cc_policy_config cfg in
  match build_jobs_runtime_info uuids data p with
  | Raised => Throw
  | Rejected _ => handle_rejection r AdmissionStage.VALIDATE_WORKFLOW StatusCodes.JOB_POLICY_VIOLATION
  | Ok (info, ready) =>
      match validate_workflow dump_size version data p info r with
      | Raised => Throw
      | Rejected c => handle_rejection r AdmissionStage.VALIDATE_WORKFLOW c
      | Ok (info, wd) =>
          let* persisted := persist_workflow wd info (pp_max_job_retries p) in
          match persisted with
          | inr c => handle_rejection (wd_info wd) AdmissionStage.PERSIST_WORKFLOW c
          | inl _ =>
              let* initialized := initialize_runtime_data data p wd ready info in
              if negb initialized
              then handle_rejection (wd_info wd) AdmissionStage.GENERATE_RUNTIME_DATA
                     StatusCodes.INTERNAL_DB_FAILURE
              else handle_request_accepted
                     (mkValidationResult true StatusCodes.WORKFLOW_ADMITTED "") (wd_info wd)
          end
      end
  end.

Definition submit_workflow (body : string) : app_prog ValidationResult :=
  match parse_request body with
  | None => Throw
  | Some (inr result) => Ret result
  | Some (inl (data, r)) =>
      match get_client_config_data (rq_client_id r) with
      | inr result => Ret result
      | inl cfg =>
          let* '(admitted, reason) := admit_request r (cc_rate_limit_config cfg) in
          if negb admitted then handle_rejection r AdmissionStage.ADMIT_REQUEST reason
          else
            let* persisted := persist_request r body cfg in
            match persisted with
            | inr c => handle_rejection r AdmissionStage.PERSIST_REQUEST c
            | inl _ => admit_workflow data r cfg
            end
      end
  end.
End service.

(** ** A rejection gives back what the admission took *)

(** The request identifier is free again and the workflow is not active. *)
Definition request_released (r : RequestData) (s : rstate) : Prop :=
  look s (request_key (rq_client_id r) (rq_request_id r)) = None ∧
  ∀ a, set_at s (active_workflows_key (rq_client_id r)) = Some a → rq_workflow_id r ∉ a.

Section release.
Context {R D : Type} `{RedisServer R} `{Database D}.
Implicit Types σ : app_world R D.

Definition redis_of σ : rstate := redis_state (wd_redis (aw_redis σ)).

Lemma srem_absent k m s a : set_at (redis_doc _ (SREM k m) s).2 k = Some a → m ∉ a.
Proof.
  simpl. destruct (set_at s k) as [z|] eqn:E; simpl; [|by rewrite E].
  rewrite set_at_put. intros [= <-]. set_solver.
Qed.

Lemma srem_look k k' m s : k ≠ k' → look (redis_doc _ (SREM k m) s).2 k' = look s k'.
Proof. simpl. destruct (set_at s k); simpl; [apply look_put_set_ne|done]. Qed.

Lemma request_key_ne_active cid rid cid' : active_workflows_key cid' ≠ request_key cid rid.
Proof.
  intros E. unfold request_key, active_workflows_key in E. autorewrite with str in E. discriminate E.
Qed.

Lemma update_status_releases r σ :
  wd_faults (aw_redis σ) = [] → rq_status r ≠ RequestStatus.ADMITTED →
  wp app_io (update_redis_request_status r) (λ _ σ',
    wd_faults (aw_redis σ') = [] ∧ request_released r (redis_of σ')) σ.
Proof.
  intros Hf Hst. unfold update_redis_request_status. rewrite bool_decide_true by done.
  apply wp_bind, wp_redis_any; [|done|].
  { unfold update_request_status_async, execute_set_command_async, execute. no_throw. }
  intros _ rw1 Hf1. apply wp_bind, wp_redis.
  unfold release_request_id_async, execute_integer_command_async.
  apply wp_bind, wp_bind, wp_command_any; [done|]. intros reply rw2 Hf2 E2. apply wp_ret, wp_ret.
  apply wp_bind, wp_redis. unfold remove_active_workflow_async, execute_integer_command_async.
  apply wp_bind, wp_bind, wp_command_any; [done|]. intros reply' rw3 Hf3 E3. apply wp_ret, wp_ret, wp_ret.
  split; [done|]. unfold request_released, redis_of. cbn [aw_redis] in *. rewrite E3. split.
  - rewrite srem_look by apply request_key_ne_active. rewrite E2. apply look_del_eq.
  - intros a Ha. by eapply srem_absent.
Qed.

(** A database that answers the two calls of the failure handler, with whatever
    result. *)
Definition answers (D' : Type) `{Database D'} : Prop :=
  (∀ r (d : D'), is_Some (db_exec _ (UpdateRequestStatus r) d).1) ∧
  (∀ cid wid (d : D'), is_Some (db_exec _ (FailWorkflow cid wid) d).1).

Lemma handle_rejection_releases r stage reason σ :
  answers D → wd_faults (aw_redis σ) = [] →
  AdmissionStage.to_int AdmissionStage.PERSIST_REQUEST ≤ AdmissionStage.to_int stage →
  wp app_io (handle_rejection r stage reason) (λ res σ',
    res = mkValidationResult false reason (StatusCodes.to_string reason) ∧ request_released r (redis_of σ')) σ.
Proof.
  intros [Hu Hw] Hf Hst. unfold handle_rejection. cbn zeta. rewrite (proj2 (Z.leb_le _ _)) by done.
  apply wp_bind. eapply wp_mono; [|by apply update_status_releases].
  intros [] σ1 [Hf1 Hr1]. change (request_released r (redis_of σ1)) in Hr1. apply wp_bind. destruct (_ <? _).
  - apply wp_bind. destruct (Hu (set_request RequestStatus.REJECTED (StatusCodes.to_string reason) r) (aw_db σ1)) as [b Hb].
    eapply wp_db; [exact Hb|]. apply wp_bind.
    match goal with |- wp _ (db (FailWorkflow ?c ?w)) _ ?σ2 => destruct (Hw c w (aw_db σ2)) as [b' Hb'] end.
    eapply wp_db; [exact Hb'|]. by apply wp_ret, wp_ret.
  - by apply wp_ret, wp_ret.
Qed.

Lemma run_wp_result {E T A} (h : handler E T) (p : prog E A) Q s a s' :
  wp h p Q s → run h p s = (Some a, s') → Q a s'.
Proof. unfold wp. intros Hwp Hr. by rewrite Hr in Hwp. Qed.

(** A service brings no network fault. *)
Lemma run_faultless {A} (p : app_prog A) σ :
  wd_faults (aw_redis σ) = [] → wd_faults (aw_redis (run app_io p σ).2) = [].
Proof.
  revert σ. induction p as [a| |X e k IH]; intros σ Hf; simpl; [done..|].
  destruct e as [X e|X e| |]; simpl; [|by destruct (db_exec X e (aw_db σ)) as [[x|] d]; [apply IH|]|by apply IH..].
  destruct e as [c|]; simpl; [|by apply IH]. rewrite Hf.
  destruct (serve c (wd_redis (aw_redis σ))) as [reply r']. simpl. by apply IH.
Qed.

Lemma validated_request `{HashOrder} dump_size version data p info r info' wd :
  validate_workflow dump_size version data p info r = Ok (info', wd) → wd_info wd = r.
Proof.
  unfold validate_workflow, cbind, get. repeat (case_match; try done). by intros [= <- <-].
Qed.

Context `{HashOrder} (parse : string → json + string) (schema_error : json → option string)
  (client_config : string → option ClientConfig) (dump_size : json → Z) (version : string)
  (key_retention_ttl : Z) (uuids : nat → Z) (uuid_text : Z → string).

Local Ltac rej Hrej Hrun := eapply Hrej; [| | |exact Hrun]; [done|done|simpl; lia].

(** Every rejection after the admission by Redis releases the request. *)
Lemma admit_workflow_rejected data r cfg σ res σ' :
  answers D → wd_faults (aw_redis σ) = [] →
  run app_io (admit_workflow dump_size version uuids uuid_text data r cfg) σ = (Some res, σ') →
  vr_valid res = false → request_released r (redis_of σ').
Proof.
  intros HD Hf Hrun Hv. unfold admit_workflow in Hrun. cbn zeta in Hrun.
  assert (∀ r' σ1 stage reason, r' = r → wd_faults (aw_redis σ1) = [] →
    AdmissionStage.to_int AdmissionStage.PERSIST_REQUEST ≤ AdmissionStage.to_int stage →
    run app_io (handle_rejection r' stage reason) σ1 = (Some res, σ') → request_released r (redis_of σ')) as Hrej.
  { intros r' σ1 stage reason -> Hf1 Hs Hr.
    by destruct (run_wp_result _ _ _ _ _ _ (handle_rejection_releases r stage reason σ1 HD Hf1 Hs) Hr). }
  destruct (build_jobs_runtime_info _ _ _) as [[info ready]|c|]; [|by rej Hrej Hrun|done].
  destruct (validate_workflow _ _ _ _ _ _) as [[info' wd]|c|] eqn:Hval; [|by rej Hrej Hrun|done].
  apply validated_request in Hval. rewrite run_bind in Hrun.
  pose proof (run_faultless (persist_workflow uuid_text wd info' (pp_max_job_retries (cc_policy_config cfg))) σ Hf) as Hf1.
  destruct (run app_io (persist_workflow _ _ _ _) σ) as [[[[]|c]|] σ1]; cbn [snd] in Hf1; [|by rej Hrej Hrun|done].
  rewrite run_bind in Hrun.
  pose proof (run_faultless (initialize_runtime_data data (cc_policy_config cfg) wd ready info') σ1 Hf1) as Hf2.
  destruct (run app_io (initialize_runtime_data _ _ _ _ _) σ1) as [[b|] σ2]; cbn [snd] in Hf2; [|done].
  destruct b; cbn [negb] in Hrun; [|by rej Hrej Hrun].
  exfalso. unfold handle_request_accepted in Hrun. rewrite run_bind in Hrun.
  destruct (run app_io _ σ2) as [[u|] σ3]; [|done]. rewrite run_bind in Hrun.
  destruct (run app_io _ σ3) as [[u'|] σ4]; [|done]. by injection Hrun as <- <-.
Qed.

Lemma submit_workflow_rejected body data r cfg code σ σ1 res σ' :
  answers D → wd_faults (aw_redis σ) = [] →
  parse_request parse schema_error body = Some (inl (data, r)) →
  client_config (rq_client_id r) = Some cfg →
  run app_io (admit_request key_retention_ttl r (cc_rate_limit_config cfg)) σ = (Some (true, code), σ1) →
  run app_io (submit_workflow parse schema_error client_config dump_size version key_retention_ttl
                uuids uuid_text body) σ = (Some res, σ') →
  vr_valid res = false → request_released r (redis_of σ').
Proof.
  intros HD Hf Hp Hc Ha Hrun Hv. unfold submit_workflow, get_client_config_data in Hrun. rewrite Hp, Hc in Hrun.
  rewrite run_bind, Ha in Hrun. cbn [negb] in Hrun.
  pose proof (run_faultless (admit_request key_retention_ttl r (cc_rate_limit_config cfg)) σ Hf) as Hf1.
  rewrite Ha in Hf1. cbn [snd] in Hf1. rewrite run_bind in Hrun.
  pose proof (run_faultless (persist_request r body cfg) σ1 Hf1) as Hf2.
  destruct (run app_io (persist_request r body cfg) σ1) as [[[[]|c]|] σ2]; cbn [snd] in Hf2; [| |done].
  - by eapply admit_workflow_rejected.
  - eapply (run_wp_result _ _ _ _ _ _ (handle_rejection_releases r _ c σ2 HD Hf2 (Z.le_refl _)) Hrun).
Qed.
End release.
