(* ===== verification/Scheduling.v ===== *)
(** * Schedulers, workers and the retry handler

    src/src/scheduler.cpp, src/src/worker_thread.cpp and src/src/retry_handler.cpp:
    what each does with one job.  Their loops repeat these steps until they are
    stopped. *)

From S2P Require Import Prelude.
From S2P Require Import Prog.
From S2P Require Import RedisServer.
From S2P Require Import Models.
From S2P Require Import RedisKeys.
From S2P Require Import Scripts.
From S2P Require Import RedisExec.
From S2P Require Import RedisRuntime.
From S2P Require Import Database.

(** ** Scheduler *)

Record JobExeData := mkJobExeData {
  je_identity : WorkflowIdentity; je_job_id : string; je_job_name : string;
  je_payload_size_bytes : Z; je_payload : string; je_status : JobStatus.t }.

(** One round of the loop of [get_next_ready_job]: [None] when no job was
    dequeued and the loop goes on, [Some None] is the result [false].  [fuel]
    bounds the rounds of the dequeue loop. *)
Definition get_next_ready_job (fuel : nat) (scheduler_redis_connection_id : string) :
  app_prog (option (option JobExeData)) :=
  let* claimed := redis (blocking_dequeue_job_for_execution_async fuel scheduler_redis_connection_id) in
  match claimed with
  | Some (Some job) =>
      let* runtime := redis (fetch_job_runtime_async (rt_identity job) (rt_job_id job)) in
      Ret (Some match runtime with
                | None => None
                | Some d =>
                    Some (mkJobExeData (rt_identity job) (rt_job_id job) (jr_job_name d)
                            (Z.max 0 (jr_payload_size_bytes d)) "" JobStatus.UNKNOWN)
                end)
  | _ => Ret None
  end.

(** The rest of a round of [scheduler_main_loop]: the job to push on the worker
    queue, or [None] when its payload is not right and a completion is enqueued
    instead. *)
Definition dispatch_job (job : JobExeData) : app_prog (option JobExeData) :=
  let with_payload p := mkJobExeData (je_identity job) (je_job_id job) (je_job_name job)
                          (je_payload_size_bytes job) p (je_status job) in
  if 0 <? je_payload_size_bytes job then
    let* payload := redis (fetch_job_payload_async (je_identity job) (je_job_id job)) in
    match payload with
    | Some p =>
        if Z.of_nat (String.length p) =? je_payload_size_bytes job then Ret (Some (with_payload p))
        else
          redis (enqueue_job_completion_async
            (mkJobCompletionData "" (je_identity job) (je_job_id job) JobStatus.ABORTED
               StatusCodes.INTERNAL_DB_FAILURE)) ;;
          Ret None
    | None =>
        redis (enqueue_job_completion_async
          (mkJobCompletionData "" (je_identity job) (je_job_id job) JobStatus.ABORTED
             StatusCodes.INTERNAL_DB_FAILURE)) ;;
        Ret None
    end
  else Ret (Some (with_payload "")).

(** ** Worker *)

Definition update_job_status_to_running (job : JobExeData) : app_prog bool :=
  let w := je_identity job in
  let* start := redis (try_set_job_to_running_async w (je_job_id job)) in
  if negb start.1 then Ret false
  else
    let* ok := (match start.2 with
                | StartJobResult.FIRST_TO_START =>
                    db (UpdateWorkflowStatus (client_id w) (workflow_id w) WorkflowStatus.RUNNING)
                | _ => Ret true
                end) in
    if negb ok then Ret false
    else db (UpdateJobStatus (client_id w) (workflow_id w) (je_job_id job) JobStatus.RUNNING).

(** The execution of a job is simulated and succeeds. *)
Definition execute_job (_ : JobExeData) : bool := true.

Definition update_completion_handler (c : JobCompletionData) : app_prog unit :=
  redis (enqueue_job_completion_async c) ;;
  Ret tt.

(** The body of the loop of [run_worker_loop], on the job that was fetched;
    [execute] is the virtual [execute_job]. *)
Definition run_job (execute : JobExeData → bool) (job : JobExeData) : app_prog unit :=
  let report st code :=
    update_completion_handler (mkJobCompletionData "" (je_identity job) (je_job_id job) st code) in
  let* started := update_job_status_to_running job in
  if negb started then report JobStatus.ABORTED StatusCodes.STATUS_UPDATED_FAILURE
  else if negb (execute job) then report JobStatus.FAILED StatusCodes.JOB_EXECUTION_FAILURE
  else report JobStatus.COMPLETED StatusCodes.OK.

(** ** Retry handler *)

Definition process_retry_job (r : JobRetryData) : app_prog bool :=
  let w := rt_identity r in
  let* promoted := redis (promote_retry_job_async w (rt_job_id r)) in
  match promoted with
  | None => Ret false
  | Some promoted_job_id =>
      let queued_jobs := if str_empty promoted_job_id then [] else [promoted_job_id] in
      let ready_jobs := if String.eqb promoted_job_id (rt_job_id r) then [] else [rt_job_id r] in
      if negb (bool_decide (queued_jobs = [])) || negb (bool_decide (ready_jobs = []))
      then db (UpdateReadyJobs (client_id w) (workflow_id w) queued_jobs ready_jobs)
      else Ret true
  end.
