(* ===== verification/Mirror.v ===== *)
(** * The database mirrors the running workflow

    Redis holds the running state of a workflow, the database its history.  The
    services change Redis first and then record the change: here is that each of
    them keeps the recorded statuses equal to the running ones, a claimed job
    being still recorded as QUEUED.  The theorems use the database through
    [StatusStore] and Redis through [RedisServer]. *)

From S2P Require Import Prelude.
From S2P Require Import Prog.
From S2P Require Import RedisServer.
From S2P Require Import Models.
From S2P Require Import RedisKeys.
From S2P Require Import Scripts.
From S2P Require Import WorkflowView.
From S2P Require Import WorkflowSpec.
From S2P Require Import WorkflowFacts.
From S2P Require Import WorkflowInv.
From S2P Require Import Interleaving.
From S2P Require Import RedisExec.
From S2P Require Import RedisRuntime.
From S2P Require Import RedisAdmission.
From S2P Require Import Streams.
From S2P Require Import Database.
From S2P Require Import Calls.
From S2P Require Import SqliteFacts.
From S2P Require Import StatusStore.
From S2P Require Import CompletionHandler.
From S2P Require Import Scheduling.

(** ** What is recorded *)

Definition persisted (st : JobStatus.t) : JobStatus.t :=
  match st with JobStatus.PENDING_EXECUTION => JobStatus.QUEUED | _ => st end.

(** The statuses that a view says should be recorded. *)
Definition view_job (w : WorkflowIdentity) (v : wview) (j : string) : option JobStatus.t :=
  (λ x, persisted (jv_status x)) <$> v_jobs v !! job_key w j.

(** The database [d] records the jobs [f] and the status [ws] for workflow [w];
    for the other workflows it agrees with [d0]. *)
Record Recorded `{StatusStore D} (w : WorkflowIdentity) (d0 : D) (f : string → option JobStatus.t)
  (ws : WorkflowStatus.t) (d : D) : Prop := {
  rec_healthy : healthy d;
  rec_job : ∀ j, job_status d (client_id w) (workflow_id w) j = f j;
  rec_workflow : workflow_status d (client_id w) (workflow_id w) = Some ws;
  rec_other_jobs : ∀ c x j, (c, x) ≠ (client_id w, workflow_id w) →
    job_status d c x j = job_status d0 c x j;
  rec_other_workflows : ∀ c x, (c, x) ≠ (client_id w, workflow_id w) →
    workflow_status d c x = workflow_status d0 c x
}.

Definition mirrors `{StatusStore D} (w : WorkflowIdentity) (d0 : D) (v : wview) (d : D) : Prop :=
  Recorded w d0 (view_job w v) (w_status (v_wf v)) d.

Section store.
Context {R D : Type} `{RedisServer R} `{StatusStore D}.
Implicit Types σ : app_world R D.

Definition with_db (d : D) σ : app_world R D := mkApp (aw_redis σ) d (aw_ms σ) (aw_jitter σ).

Lemma recorded_ext w d0 f g ws d :
  (∀ j, f j = g j) → Recorded w d0 f ws d → Recorded w d0 g ws d.
Proof. intros Hfg []. split; try done. intros j. by rewrite <-Hfg. Qed.

Lemma wp_record_job w d0 f ws j st σ (Q : bool → app_world R D → Prop) :
  Recorded w d0 f ws (aw_db σ) → recordable st = true → is_Some (f j) →
  (∀ d, Recorded w d0 (λ i, if decide (i = j) then Some st else f i) ws d → Q true (with_db d σ)) →
  wp app_io (db (UpdateJobStatus (client_id w) (workflow_id w) j st)) Q σ.
Proof.
  intros [Hh Hj Hw Hoj How] Hst Hf HQ.
  destruct (update_job_law (aw_db σ) (client_id w) (workflow_id w) j st Hh Hst) as (d & Hd & Hh' & Hj' & Hw').
  { by rewrite Hj. }
  eapply wp_db; [by rewrite Hd|]. rewrite Hd. apply HQ. split; [done|..]; intros.
  - rewrite Hj'. destruct (decide (j0 = j)); [rewrite decide_True by congruence; done|].
    by rewrite decide_False by congruence.
  - by rewrite Hw'.
  - rewrite Hj', decide_False by congruence. by apply Hoj.
  - rewrite Hw'. by apply How.
Qed.

Lemma wp_record_workflow w d0 f ws st σ (Q : bool → app_world R D → Prop) :
  Recorded w d0 f ws (aw_db σ) → workflow_recordable st = true →
  (∀ d, Recorded w d0 f st d → Q true (with_db d σ)) →
  wp app_io (db (UpdateWorkflowStatus (client_id w) (workflow_id w) st)) Q σ.
Proof.
  intros [Hh Hj Hw Hoj How] Hst HQ.
  destruct (update_workflow_law (aw_db σ) (client_id w) (workflow_id w) st Hh Hst) as (d & Hd & Hh' & Hj' & Hw').
  { by rewrite Hw. }
  eapply wp_db; [by rewrite Hd|]. rewrite Hd. apply HQ. split; [done|..]; intros.
  - by rewrite Hj'.
  - by rewrite Hw', decide_True by congruence.
  - rewrite Hj'. by apply Hoj.
  - rewrite Hw', decide_False by congruence. by apply How.
Qed.

Lemma wp_record_ready w d0 f ws queued ready σ (Q : bool → app_world R D → Prop) :
  Recorded w d0 f ws (aw_db σ) → Forall (λ j, is_Some (f j)) (ready ++ queued)%list →
  (∀ d, Recorded w d0 (λ j, if decide (j ∈ queued) then Some JobStatus.QUEUED
                            else if decide (j ∈ ready) then Some JobStatus.READY else f j) ws d →
     Q true (with_db d σ)) →
  wp app_io (db (UpdateReadyJobs (client_id w) (workflow_id w) queued ready)) Q σ.
Proof.
  intros [Hh Hj Hw Hoj How] Hf HQ.
  destruct (update_ready_law (aw_db σ) (client_id w) (workflow_id w) queued ready Hh) as (d & Hd & Hh' & Hj' & Hw').
  { eapply Forall_impl; [exact Hf|]. intros j Hjf. simpl. by rewrite Hj. }
  eapply wp_db; [by rewrite Hd|]. rewrite Hd. apply HQ. split; [done|..]; intros.
  - rewrite Hj'. destruct (decide (j ∈ queued)); [by rewrite decide_True|].
    rewrite decide_False by naive_solver. destruct (decide (j ∈ ready)); [by rewrite decide_True|].
    by rewrite decide_False by naive_solver.
  - by rewrite Hw'.
  - rewrite Hj', !decide_False by naive_solver. by apply Hoj.
  - rewrite Hw'. by apply How.
Qed.

Lemma wp_get_jobs w d0 f ws σ (Q : option (list WorkflowJob) → app_world R D → Prop) :
  Recorded w d0 f ws (aw_db σ) →
  (∀ d l, Recorded w d0 f ws d → NoDup (wj_job_id <$> l) →
     (∀ j st, f j = Some st ↔ ∃ x, x ∈ l ∧ wj_job_id x = j ∧ wj_status x = st) →
     Q (Some l) (with_db d σ)) →
  wp app_io (db (GetAllJobsForWorkflow (client_id w) (workflow_id w))) Q σ.
Proof.
  intros [Hh Hj Hw Hoj How] HQ.
  destruct (get_jobs_law (aw_db σ) (client_id w) (workflow_id w) Hh) as (d & l & Hd & Hh' & Hj' & Hw' & Hn & Hl).
  eapply wp_db; [by rewrite Hd|]. rewrite Hd. apply HQ; [|done|].
  - split; [done|..]; intros; rewrite ?Hj', ?Hw'; auto.
  - intros j st. rewrite <-Hl by (by rewrite Hw). by rewrite Hj.
Qed.
End store.

(** ** The views after each script *)
Section views.
Context (w : WorkflowIdentity).

Lemma release_status acc ids :
  w_status (v_wf (foldl (spec_release_successor w) acc ids).2) = w_status (v_wf acc.2).
Proof.
  revert acc. induction ids as [|id ids IH]; intros [newly v]; [done|]. cbn [foldl]. rewrite IH.
  unfold spec_release_successor. by repeat (case_match; simpl; try done).
Qed.

Lemma promote_present v k :
  (spec_promote v).1 = Some k → is_Some (v_jobs v !! k) ∧ w_status (v_wf (spec_promote v).2) = w_status (v_wf v).
Proof.
  unfold spec_promote. destruct (zmax _) as [[k' p]|]; [|done]. destruct (v_jobs v !! k') eqn:E; [|done].
  simpl. intros [= <-]. by rewrite E.
Qed.

Lemma promote_status v : w_status (v_wf (spec_promote v).2) = w_status (v_wf v).
Proof. unfold spec_promote. by repeat (case_match; simpl; try done). Qed.

Lemma complete_status now j x v wf promoted newly :
  (spec_complete w now j x v).1 = Completed wf promoted newly →
  w_status (v_wf (spec_complete w now j x v).2) =
    (if wf then WorkflowStatus.COMPLETED else w_status (v_wf v)) ∧
  (wf = true → promoted = None) ∧
  ∀ k, promoted = Some k → is_Some (v_jobs (spec_complete w now j x v).2 !! k).
Proof.
  unfold spec_complete. destruct (job_is JobStatus.COMPLETED x); [done|].
  destruct (wf_is WorkflowStatus.RUNNING v); [|done]. cbn [negb].
  destruct (past_deadline _ _ _); [done|]. unfold spec_record_success.
  match goal with |- context [foldl ?f ?a (succ_of v j)] =>
    pose proof (release_status a (succ_of v j)) as Hst; destruct (foldl f a (succ_of v j)) as [l v3] end.
  cbn [snd] in Hst. cbn zeta. simpl in Hst. destruct (_ && _); [by intros [= <- <- <-]|].
  destruct (_ <? _); [|by intros [= <- <- <-]].
  match goal with |- context [spec_promote ?u] =>
    pose proof (promote_status u) as Hp; pose proof (promote_present u) as Hpp;
    pose proof (spec_promote_jobs u) as Hj; destruct (spec_promote u) as [pr v5] end.
  cbn [fst snd] in *. intros [= <- <- <-]. split_and!; [by rewrite Hp|done|].
  intros k ->. destruct (Hpp k eq_refl) as [[y Hy] _]. rewrite Hj, decide_True, Hy by done. by eexists.
Qed.

(** What the coroutine answers. *)
Definition completion_answer (r : complete_result) : option (list string * string * bool) :=
  match r with
  | AlreadyCompleted => Some ([], "", false)
  | NotRunning | DeadlinePassed => None
  | Completed wf promoted newly =>
      let p := job_id_of w promoted in
      Some (if str_empty p then newly else List.filter (λ id, negb (String.eqb id p)) newly, p, wf)
  end.
End views.

Section services.
Context {R D : Type} `{RedisServer R} `{StatusStore D}.
Context (w : WorkflowIdentity) (J : gset string) (s0 : rstate) (d0 : D).
Implicit Types σ : app_world R D.
Context (Hnames : job_key w "" ∉ J).

Definition keyspace σ : rstate := redis_state (wd_redis (aw_redis σ)).

(** Redis runs the workflow as [v] says and the database records it; there is no
    network fault. *)
Record Running (v : wview) σ : Prop := {
  running_network : wd_faults (aw_redis σ) = [];
  running_rep : Rep w J s0 (keyspace σ) v;
  running_record : mirrors w d0 v (aw_db σ)
}.

Local Abbreviation now := (r_clock s0 `div` 1000000).

Lemma wp_complete_async σ v j x lut (Q : option (list string * string * bool) → app_world R D → Prop) :
  wd_faults (aw_redis σ) = [] → Rep w J s0 (keyspace σ) v → view_ok v →
  v_jobs v !! job_key w j = Some x → Forall (λ id, job_key w id ∈ J) (succ_of v j) →
  (∀ wf p n, (spec_complete w now j x v).1 = Completed wf p n → Z.of_nat (length n) < 2 ^ 64) →
  (∀ rw, wd_faults rw = [] → Rep w J s0 (redis_state (wd_redis rw)) (spec_complete w now j x v).2 →
     Q (completion_answer w (spec_complete w now j x v).1)
       (mkApp rw (aw_db σ) (aw_ms σ) (aw_jitter σ))) →
  wp app_io (redis (complete_successful_job_runtime_async w j lut)) Q σ.
Proof.
  intros Hf HR Hok Hx Hids Hlen HQ. apply wp_redis. unfold complete_successful_job_runtime_async.
  apply wp_bind, wp_script; [done|]. eapply wp_mono; [|by apply (complete_refines w J s0)].
  intros r s' [-> HR'] r' <-. apply wp_ret.
  assert (∀ a, a = completion_answer w (spec_complete w now j x v).1 →
    Q a (mkApp (mkWorld r' [] (wd_clock (aw_redis σ))) (aw_db σ) (aw_ms σ) (aw_jitter σ))) as HQ'.
  { intros a ->. by apply HQ. }
  apply HQ'. clear HQ HQ'. destruct (spec_complete w now j x v).1 as [| | |wf p n] eqn:E; try done.
  simpl. rewrite stoul_to_str by (specialize (Hlen wf p n eq_refl); lia). rewrite Z.eqb_refl.
  simpl. by destruct wf.
Qed.

Lemma cleanup_throwless info :
  (∀ c i, throwless (remove_active_workflow_async c i)) ∧
  (∀ ids, throwless (delete_all_jobs_payload_async w ids)) ∧
  throwless (delete_workflow_runtime_data_async info).
Proof.
  unfold remove_active_workflow_async, delete_all_jobs_payload_async,
    delete_workflow_runtime_data_async, delete_all_workflow_jobs_async, delete_workflow_runtime_async,
    delete_workflow_waiting_ready_jobs, execute_integer_command_async,
    execute_zset_remove_command_async, execute.
  split_and!; intros; no_throw.
Qed.

(** The cleanup of Redis after a workflow changes nothing that is recorded. *)
Lemma cleanup_records indeterminate f ws σ :
  wd_faults (aw_redis σ) = [] → Recorded w d0 f ws (aw_db σ) →
  wp app_io (cleanup_completed_workflow_redis_entries indeterminate w)
    (λ _ σ', Recorded w d0 f ws (aw_db σ')) σ.
Proof.
  intros Hf Hr. unfold cleanup_completed_workflow_redis_entries.
  apply wp_bind. eapply wp_get_jobs; [done|]. intros d l Hd _ _. cbn iota zeta.
  apply wp_bind, wp_redis_any; [by apply (cleanup_throwless (mkWorkflowRuntimeInfo w
    (mkWorkflowRuntimeData "" "" 0 0 0 0 0 0 0) [] [] []))|done|].
  intros [] rw1 Hf1; simpl negb; cbn iota; [|by apply wp_ret].
  apply wp_bind, wp_redis_any; [by apply (cleanup_throwless (mkWorkflowRuntimeInfo w
    (mkWorkflowRuntimeData "" "" 0 0 0 0 0 0 0) [] [] []))|done|].
  intros [] rw2 Hf2; simpl negb; cbn iota; [|by apply wp_ret].
  apply wp_redis_any; [apply cleanup_throwless|done|done].
Qed.

Definition own_jobs (v : wview) : Prop :=
  ∀ k x, v_jobs v !! k = Some x → k ∈ J ∧ ∃ j, k = job_key w j.

Lemma rep_own s v : Rep w J s0 s v → own_jobs v.
Proof. intros HR k x Hx. split; [by eapply rep_in_J|by eapply rep_job_key]. Qed.

Lemma own_put v j x y : own_jobs v → v_jobs v !! job_key w j = Some y → own_jobs (put_job (job_key w j) x v).
Proof.
  intros Ho Hy k z Hz. simpl in Hz.
  apply lookup_insert_Some in Hz as [[<- _]|[_ Hz]]; by eapply Ho.
Qed.

(** A promoted job, as the services name it. *)
Lemma promoted_named v promoted :
  own_jobs v → (∀ k, promoted = Some k → is_Some (v_jobs v !! k)) →
  str_empty (job_id_of w promoted) = bool_decide (promoted = None) ∧
  ∀ i, job_id_of w promoted = i → (promoted = Some (job_key w i) ∨ promoted = None ∧ i = "").
Proof.
  intros HR Hp. destruct promoted as [k|].
  2: { split; [done|]. intros i <-. by right. }
  destruct (Hp k eq_refl) as [y Hy]. destruct (HR _ _ Hy) as [HJ [i ->]]. cbn [job_id_of]. rewrite job_key_prefix_sdrop. split.
  - rewrite bool_decide_false by done. destruct i; [done|done].
  - intros i' <-. by left.
Qed.

Definition queued_of (promoted : option string) : list string :=
  let p := job_id_of w promoted in if str_empty p then [] else [p].
Definition ready_of (promoted : option string) (newly : list string) : list string :=
  let p := job_id_of w promoted in
  if str_empty p then newly else List.filter (λ id, negb (String.eqb id p)) newly.

Lemma queued_of_spec v promoted i :
  own_jobs v → (∀ k, promoted = Some k → is_Some (v_jobs v !! k)) →
  i ∈ queued_of promoted ↔ promoted = Some (job_key w i).
Proof.
  intros HR Hp. destruct (promoted_named v promoted HR Hp) as [He Hn]. unfold queued_of. rewrite He.
  destruct promoted as [k|].
  - rewrite bool_decide_false by done. rewrite list_elem_of_singleton. split; [|intros [= ->]].
    + intros ->. by destruct (Hn _ eq_refl) as [?|[? _]].
    + cbn [job_id_of]. by rewrite job_key_prefix_sdrop.
  - rewrite bool_decide_true by done. split; [by intros ?%elem_of_nil|done].
Qed.

Lemma ready_of_spec v promoted newly i :
  own_jobs v → (∀ k, promoted = Some k → is_Some (v_jobs v !! k)) →
  promoted ≠ Some (job_key w i) → i ∈ ready_of promoted newly ↔ i ∈ newly.
Proof.
  intros HR Hp Hne. destruct (promoted_named v promoted HR Hp) as [He Hn]. unfold ready_of. rewrite He.
  case_bool_decide; [done|]. rewrite !list_elem_of_In, filter_In. split; [by intros [? _]|]. intros Hi.
  split; [done|]. apply negb_true_iff, String.eqb_neq. intros E.
  destruct (Hn i) as [?|[? _]]; [by symmetry|done|done].
Qed.

(** The call of [update_ready_jobs] is skipped when there is nothing to record. *)
Lemma wp_record_promotion f ws promoted newly σ (Q : bool → app_world R D → Prop) :
  Recorded w d0 f ws (aw_db σ) →
  Forall (λ j, is_Some (f j)) (ready_of promoted newly ++ queued_of promoted)%list →
  (∀ d, Recorded w d0 (λ j, if decide (j ∈ queued_of promoted) then Some JobStatus.QUEUED
          else if decide (j ∈ ready_of promoted newly) then Some JobStatus.READY else f j) ws d →
     Q true (with_db d σ)) →
  wp app_io (if negb (str_empty (job_id_of w promoted)) || negb (bool_decide (ready_of promoted newly = []))
             then db (UpdateReadyJobs (client_id w) (workflow_id w) (queued_of promoted)
                        (ready_of promoted newly))
             else Ret true) Q σ.
Proof.
  intros Hr Hf HQ. destruct (_ || _) eqn:E; [by eapply wp_record_ready|].
  apply orb_false_iff in E as [E1%negb_false_iff E2%negb_false_iff].
  apply bool_decide_eq_true in E2. apply wp_ret. replace σ with (with_db (aw_db σ) σ) by (by destruct σ).
  apply HQ. eapply recorded_ext; [|exact Hr]. intros i. unfold queued_of. rewrite E1, E2.
  by rewrite !decide_False by apply not_elem_of_nil.
Qed.

(** The record of a completion. *)
Lemma completion_view v j x wf promoted newly i :
  own_jobs v → (∀ k, promoted = Some k → is_Some (v_jobs v !! k)) →
  (spec_complete w now j x v).1 = Completed wf promoted newly →
  NoDup (succ_of v j) → j ∉ succ_of v j → v_jobs v !! job_key w j = Some x →
  (if decide (i ∈ queued_of promoted) then Some JobStatus.QUEUED
   else if decide (i ∈ ready_of promoted newly) then Some JobStatus.READY
   else if decide (i = j) then Some JobStatus.COMPLETED else view_job w v i)
  = view_job w (spec_complete w now j x v).2 i.
Proof.
  intros HR Hp Hc Hnd Hj Hx. destruct (complete_jobs w now j x v wf promoted newly Hc Hnd Hj) as [Hn Hv].
  unfold view_job. rewrite Hv. cbn zeta. pose proof (queued_of_spec v promoted i HR Hp) as Hq.
  destruct (decide (i ∈ queued_of promoted)) as [Hi|Hi].
  { apply Hq in Hi. rewrite decide_True by done. destruct (Hp _ Hi) as [y Hy]. rewrite Hy.
    by repeat case_decide. }
  rewrite Hq in Hi. rewrite (decide_False (P := promoted = _)) by done.
  pose proof (ready_of_spec v promoted newly i HR Hp Hi) as Hr.
  assert (i ∈ newly ↔ i ∈ succ_of v j ∧ ∃ y, v_jobs v !! job_key w i = Some y ∧ becomes_ready y = true) as Hni.
  { rewrite Hn, list_elem_of_In, filter_In, <-list_elem_of_In.
    destruct (v_jobs v !! job_key w i) as [y|]; naive_solver. }
  destruct (decide (i ∈ ready_of promoted newly)) as [Hi'|Hi'].
  - apply Hr, Hni in Hi' as [Hs (y & Hy & Hb)].
    rewrite decide_False by (intros ->%(inj (job_key w)); done).
    rewrite decide_True by (apply Exists_exists; eauto). rewrite Hy. simpl.
    unfold becomes_ready in Hb. apply andb_true_iff in Hb as [Hb1 Hb2]. unfold released. by rewrite Hb1, Hb2.
  - rewrite Hr in Hi'. destruct (decide (i = j)) as [->|Hij]; [by rewrite decide_True|].
    rewrite decide_False by (by intros ?%(inj (job_key w))).
    case_decide as He; [|done]. apply Exists_exists in He as (i' & Hs & <-%(inj (job_key w))).
    destruct (v_jobs v !! job_key w i) as [y|] eqn:Hy; [|done]. simpl. do 2 f_equal.
    assert (becomes_ready y = false) as Hb by (destruct (becomes_ready y) eqn:E; [|done]; naive_solver).
    unfold becomes_ready, released in *. destruct (job_is _ y); [|done]. simpl in Hb. by rewrite Hb.
Qed.

(** [handle_job_completed] records what the completion script did; the workflow
    keeps running unless this was its last job. *)
Lemma handle_job_completed_mirrors indeterminate c v x σ :
  jc_identity c = w → Running v σ → view_ok v → v_jobs v !! job_key w (jc_job_id c) = Some x →
  Forall (λ id, job_key w id ∈ J) (succ_of v (jc_job_id c)) →
  NoDup (succ_of v (jc_job_id c)) → jc_job_id c ∉ succ_of v (jc_job_id c) →
  Z.of_nat (length (succ_of v (jc_job_id c))) < 2 ^ 64 →
  jv_status x ≠ JobStatus.COMPLETED → w_status (v_wf v) = WorkflowStatus.RUNNING →
  past_deadline now (default 0 (w_start (v_wf v))) (w_maxrun (v_wf v)) = false →
  wp app_io (handle_job_completed indeterminate c) (λ ok σ',
    let v' := (spec_complete w now (jc_job_id c) x v).2 in
    mirrors w d0 v' (aw_db σ') ∧
    (w_status (v_wf v') ≠ WorkflowStatus.COMPLETED → ok = true ∧ Running v' σ')) σ.
Proof.
  intros Hw [Hf HR Hm] Hok Hx Hids Hnd Hj Hlen Hst Hws Hdl. set (j := jc_job_id c) in *.
  destruct (complete_completes w now j x v Hst Hws Hdl) as (wf & promoted & newly & Hc).
  destruct (complete_status w now j x v wf promoted newly Hc) as (Hws' & Hwp & Hpres).
  unfold handle_job_completed. rewrite Hw. fold j. apply wp_bind, wp_now, wp_bind.
  eapply (wp_complete_async _ v j x); [done..| |].
  { intros wf' p' n' Hc'. rewrite Hc in Hc'. injection Hc' as <- <- <-.
    destruct (complete_jobs w now j x v wf promoted newly Hc Hnd Hj) as [-> _].
    eapply Z.le_lt_trans; [|exact Hlen]. apply Nat2Z.inj_le, List.filter_length_le. }
  intros rw Hf1 HR1. rewrite Hc. cbn [completion_answer]. cbn zeta iota.
  fold (ready_of promoted newly).
  assert (Hp : ∀ k, promoted = Some k → is_Some (v_jobs v !! k)).
  { intros k Hk. apply elem_of_dom. rewrite (rep_dom _ _ _ _ _ HR), <-(rep_dom _ _ _ _ _ HR1).
    by apply elem_of_dom, Hpres. }
  pose proof (rep_own _ _ HR) as Hown.
  pose proof (λ i, completion_view v j x wf promoted newly i Hown Hp Hc Hnd Hj Hx) as Hview.
  assert (Hthere : Forall (λ i, is_Some (if decide (i = j) then Some JobStatus.COMPLETED else view_job w v i))
    (ready_of promoted newly ++ queued_of promoted)%list).
  { apply Forall_forall. intros i Hi. destruct (decide (i = j)); [by eexists|]. unfold view_job.
    apply fmap_is_Some. destruct (decide (promoted = Some (job_key w i))) as [E|E]; [by apply Hp|].
    apply elem_of_app in Hi as [Hi|Hi]; [|by apply (queued_of_spec v promoted i Hown Hp) in Hi].
    rewrite (ready_of_spec v promoted newly i Hown Hp E) in Hi.
    destruct (complete_jobs w now j x v wf promoted newly Hc Hnd Hj) as [Hnew _].
    rewrite Hnew, list_elem_of_In, filter_In in Hi. destruct Hi as [_ Hi].
    by destruct (v_jobs v !! job_key w i). }
  unfold mirrors in Hm. apply wp_bind. eapply wp_record_job; [exact Hm|done|unfold view_job; rewrite Hx; by eexists|].
  intros d1 Hd1. simpl negb. cbn iota. apply wp_bind.
  eapply (wp_mono _ _ (λ ok σ', ok = true ∧ aw_redis σ' = rw ∧
    Recorded w d0 (λ i, if decide (i = j) then Some JobStatus.COMPLETED else view_job w v i)
      (w_status (v_wf (spec_complete w now j x v).2)) (aw_db σ'))).
  2: { rewrite Hws'. destruct wf; [|apply wp_ret; by rewrite Hws in Hd1 |- *].
       eapply wp_record_workflow; [exact Hd1|done|]. intros d2 Hd2. done. }
  intros ok2 σ2 (-> & Erw & Hd2). simpl negb. cbn iota. apply wp_bind.
  fold (queued_of promoted). eapply wp_record_promotion; [exact Hd2|exact Hthere|].
  intros d3 Hd3. simpl negb. cbn iota. apply (recorded_ext _ _ _ (view_job w (spec_complete w now j x v).2)) in Hd3; [|exact Hview].
  destruct wf.
  - eapply wp_mono; [|apply cleanup_records; [|exact Hd3]; by rewrite <-Erw in Hf1].
    intros ok σ' Hσ'. split; [exact Hσ'|]. rewrite Hws'. done.
  - apply wp_ret. split; [exact Hd3|]. intros _. split; [done|]. split; simpl; [by rewrite Erw| |exact Hd3].
    unfold keyspace. simpl. by rewrite Erw.
Qed.

(** [handle_job_completed] past the deadline of the workflow: the script fails the
    workflow in Redis, the handler reports failure and records nothing. *)
Lemma handle_job_completed_late indeterminate c v x σ :
  jc_identity c = w → Running v σ → view_ok v → v_jobs v !! job_key w (jc_job_id c) = Some x →
  Forall (λ id, job_key w id ∈ J) (succ_of v (jc_job_id c)) →
  jv_status x ≠ JobStatus.COMPLETED → w_status (v_wf v) = WorkflowStatus.RUNNING →
  past_deadline now (default 0 (w_start (v_wf v))) (w_maxrun (v_wf v)) = true →
  wp app_io (handle_job_completed indeterminate c) (λ ok σ',
    ok = false ∧ aw_db σ' = aw_db σ ∧
    Rep w J s0 (keyspace σ') (with_wf (set_status WorkflowStatus.FAILED (v_wf v)) v)) σ.
Proof.
  intros Hw [Hf HR Hm] Hok Hx Hids Hst Hws Hdl. set (j := jc_job_id c) in *.
  assert (spec_complete w now j x v =
    (DeadlinePassed, with_wf (set_status WorkflowStatus.FAILED (v_wf v)) v)) as Hc.
  { unfold spec_complete, job_is, wf_is. rewrite bool_decide_false by done. by rewrite Hws, Hdl. }
  unfold handle_job_completed. rewrite Hw. fold j. apply wp_bind, wp_now, wp_bind.
  eapply (wp_complete_async _ v j x); [done..| |]; rewrite Hc; [done|].
  intros rw Hf1 HR1. by apply wp_ret.
Qed.

(** ** Workers *)

Lemma start_async_reply r :
  match start_reply r with
  | [a] => (if String.eqb a "FIRST_TO_START" then (true, StartJobResult.FIRST_TO_START)
            else if String.eqb a "STARTED" then (true, StartJobResult.STARTED)
            else
              (false,
               if String.eqb a "CANCELED_BY_WORKFLOW_STATE"
               then StartJobResult.CANCELED_BY_WORKFLOW_STATE
               else if String.eqb a "ALREADY_CANCELED" then StartJobResult.ALREADY_CANCELED
               else if String.eqb a "INVARIANT_VIOLATION_JOB_STATUS"
               then StartJobResult.INVARIANT_VIOLATION_JOB_STATUS
               else if String.eqb a "INVARIANT_VIOLATION_WORKFLOW_STATUS"
               then StartJobResult.INVARIANT_VIOLATION_WORKFLOW_STATUS
               else if String.eqb a "INVARIANT_VIOLATION_WORKFLOW_TIME"
               then StartJobResult.INVARIANT_VIOLATION_WORKFLOW_TIME
               else StartJobResult.INTERNAL_ERROR))
  | _ => (false, StartJobResult.INTERNAL_ERROR)
  end = (started r, r).
Proof. by destruct r. Qed.

(** [update_job_status_to_running] on a claimed job of a workflow that is READY or
    RUNNING: both stores have it RUNNING, and the workflow too. *)
Lemma update_job_status_to_running_mirrors job v x σ :
  je_identity job = w → Running v σ → v_jobs v !! job_key w (je_job_id job) = Some x →
  jv_status x = JobStatus.PENDING_EXECUTION →
  w_status (v_wf v) = WorkflowStatus.RUNNING ∨
    w_status (v_wf v) = WorkflowStatus.READY ∧ w_start (v_wf v) = None →
  wp app_io (update_job_status_to_running job) (λ ok σ',
    ok = true ∧ Running (spec_start w now (je_job_id job) x v).2 σ' ∧
    w_status (v_wf (spec_start w now (je_job_id job) x v).2) = WorkflowStatus.RUNNING) σ.
Proof.
  intros Hw [Hf HR Hm] Hx Hst Hws. set (j := je_job_id job) in *. unfold update_job_status_to_running.
  rewrite Hw. fold j. apply wp_bind, wp_redis. unfold try_set_job_to_running_async.
  apply wp_bind, wp_script; [done|]. eapply wp_mono; [|by apply (start_refines w J s0)].
  intros r s' [-> HR'] r' <-. apply wp_ret. rewrite start_async_reply.
  assert (∃ first : bool, (spec_start w now j x v).1 =
      (if first then StartJobResult.FIRST_TO_START else StartJobResult.STARTED) ∧
    w_status (v_wf (spec_start w now j x v).2) = WorkflowStatus.RUNNING ∧
    (first = false → w_status (v_wf v) = WorkflowStatus.RUNNING) ∧
    v_jobs (spec_start w now j x v).2 = <[job_key w j := job_st JobStatus.RUNNING x]> (v_jobs v))
    as (first & Hr & Hws' & Hfirst & Hjobs).
  { unfold spec_start, job_is. rewrite Hst. simpl. destruct Hws as [E|[E Es]]; rewrite E, ?Es;
      [exists false|exists true]; by split_and!. }
  rewrite Hr. cbn [fst snd].
  assert (started (if first then StartJobResult.FIRST_TO_START else StartJobResult.STARTED) = true) as ->
    by (by destruct first).
  simpl negb. cbn iota. apply wp_bind.
  eapply (wp_mono _ _ (λ ok σ', ok = true ∧ aw_redis σ' = mkWorld r' [] (wd_clock (aw_redis σ)) ∧
    Recorded w d0 (view_job w v) WorkflowStatus.RUNNING (aw_db σ'))).
  2: { destruct first.
       - eapply wp_record_workflow; [exact Hm|done|]. by intros d1 Hd1.
       - apply wp_ret. split_and!; [done..|]. unfold mirrors in Hm. by rewrite Hfirst in Hm. }
  intros ok σ1 (-> & Erw & Hd1). simpl negb. cbn iota.
  eapply wp_record_job; [exact Hd1|done|unfold view_job; rewrite Hx; by eexists|].
  intros d2 Hd2. split_and!; [done| |done]. split; simpl; [by rewrite Erw|unfold keyspace; simpl; by rewrite Erw|].
  unfold mirrors. rewrite Hws'. eapply recorded_ext; [|exact Hd2]. intros i. simpl. unfold view_job. rewrite Hjobs.
  destruct (decide (i = j)) as [->|Hij]; [by rewrite lookup_insert_eq|].
  rewrite lookup_insert_ne; [done|]. intros ?%(inj (job_key w)). congruence.
Qed.

(** Putting a completion on the stream. *)
Lemma wp_report σ ms m (Q : unit → app_world R D → Prop) :
  wd_faults (aw_redis σ) = [] → stream_holds (keyspace σ) ms → 0 ≤ r_clock (keyspace σ) →
  (∀ rw id x, wd_faults rw = [] → redis_state (wd_redis rw) = put JOB_COMPLETION_STREAM_KEY x (keyspace σ) →
     stream_holds (redis_state (wd_redis rw)) (ms ++ [with_id id m])%list →
     Q tt (mkApp rw (aw_db σ) (aw_ms σ) (aw_jitter σ))) →
  wp app_io (update_completion_handler m) Q σ.
Proof.
  intros Hf Hms Hc HQ. destruct (enqueue_lua _ _ m Hms Hc) as (id & x & Hrun & Hs').
  unfold update_completion_handler. apply wp_bind, wp_redis. unfold enqueue_job_completion_async.
  apply wp_bind, wp_script; [done|]. unfold wp at 1. fold (keyspace σ). rewrite Hrun.
  intros r' Hr'. apply wp_ret, wp_ret. eapply HQ; [done|exact Hr'|]. simpl. by rewrite Hr'.
Qed.

(** The completion stream is no key of the workflow. *)
Lemma stream_not_owned : (∀ k, k ∈ J → ∃ j, k = job_key w j) → ¬ owned w J JOB_COMPLETION_STREAM_KEY.
Proof.
  intros Hk [E|[E|[E|[E|[E|(j & _ & E)]]]]]; try (revert E; key_ne).
  destruct (Hk _ E) as [j Ej]. revert Ej. key_ne.
Qed.

Lemma stream_put_rep s v x :
  (∀ k, k ∈ J → ∃ j, k = job_key w j) → Rep w J s s v →
  Rep w J (put JOB_COMPLETION_STREAM_KEY x s) (put JOB_COMPLETION_STREAM_KEY x s) v.
Proof.
  intros Hk HR. eapply undisturbed_rep; [|exact HR]. split.
  - intros k Ho _ _. apply look_put_ne. intros <-. by apply stream_not_owned in Ho.
  - intros K [-> | ->].
    + destruct (rep_exec _ _ _ _ _ HR) as (_ & z & z1 & Hz & _). exists z, z. split_and!; [done| |done].
      erewrite zset_at_look; [done|]. apply look_put_ne. key_ne.
    + destruct (rep_retry _ _ _ _ _ HR) as (_ & z & z1 & Hz & _). exists z, z. split_and!; [done| |done].
      erewrite zset_at_look; [done|]. apply look_put_ne. key_ne.
Qed.

(** A report leaves the workflow and the database as they are. *)
Lemma wp_report_kept σ σ1 v v' ms m (Q : unit → app_world R D → Prop) :
  wd_faults (aw_redis σ1) = [] → Rep w J s0 (keyspace σ) v → Rep w J s0 (keyspace σ1) v' →
  stream_holds (keyspace σ) ms → 0 ≤ r_clock s0 →
  (∀ σ' id, stream_holds (keyspace σ') (ms ++ [with_id id m])%list →
     Rep w J (keyspace σ') (keyspace σ') v' → aw_db σ' = aw_db σ1 → Q tt σ') →
  wp app_io (update_completion_handler m) Q σ1.
Proof.
  intros Hf HR HR1 Hms Hclk HQ. pose proof (rep_keys _ _ _ _ _ HR1) as Hk.
  assert (look (keyspace σ1) JOB_COMPLETION_STREAM_KEY = look (keyspace σ) JOB_COMPLETION_STREAM_KEY) as Hl.
  { rewrite (rep_frame _ _ _ _ _ HR1) by (by apply stream_not_owned).
    by rewrite (rep_frame _ _ _ _ _ HR) by (by apply stream_not_owned). }
  assert (0 ≤ r_clock (keyspace σ1)) by (by rewrite (rep_clock _ _ _ _ _ HR1)).
  apply (stream_holds_look _ _ _ Hl) in Hms. apply rep_rebase in HR1.
  eapply wp_report; [exact Hf|exact Hms|done|]. intros rw id z Hfr Es Hms'.
  apply (HQ _ id); unfold keyspace in *; simpl; [done| |done]. rewrite Es. by apply stream_put_rep.
Qed.

(** The start script makes this job RUNNING. *)
Definition startable (x : jobv) (v : wview) : bool :=
  job_is JobStatus.PENDING_EXECUTION x &&
  (bool_decide (w_status (v_wf v) = WorkflowStatus.RUNNING) ||
   bool_decide (w_status (v_wf v) = WorkflowStatus.READY) && bool_decide (w_start (v_wf v) = None)).

Lemma startable_started t j x v : started (spec_start w t j x v).1 = startable x v.
Proof.
  unfold spec_start, startable, job_is. destruct (jv_status x); try done. simpl.
  destruct (w_status (v_wf v)); try done. by destruct (w_start (v_wf v)).
Qed.

Lemma startable_iff x v :
  startable x v = true ↔ jv_status x = JobStatus.PENDING_EXECUTION ∧
  (w_status (v_wf v) = WorkflowStatus.RUNNING ∨
    w_status (v_wf v) = WorkflowStatus.READY ∧ w_start (v_wf v) = None).
Proof.
  unfold startable, job_is.
  by rewrite andb_true_iff, orb_true_iff, andb_true_iff, !bool_decide_eq_true.
Qed.

(** What the start script does to a claimed job. *)
Lemma start_job t j x v :
  jv_status x = JobStatus.PENDING_EXECUTION →
  v_jobs (spec_start w t j x v).2 !! job_key w j =
    Some (job_st (if startable x v then JobStatus.RUNNING else JobStatus.ABORTED) x) ∧
  (startable x v = true → w_status (v_wf (spec_start w t j x v).2) = WorkflowStatus.RUNNING).
Proof.
  intros Hst. unfold spec_start, startable, job_is. rewrite Hst. simpl.
  destruct (w_status (v_wf v)) eqn:E; simpl;
    try (destruct (w_start (v_wf v)); simpl); by rewrite lookup_insert_eq.
Qed.

(** [run_worker_loop]'s body: a job that can be started runs in both stores and is
    reported once, with the outcome of its execution; any other is reported once,
    as ABORTED, and nothing is recorded. *)
Lemma run_job_reports execute job v x σ ms :
  je_identity job = w → Running v σ → v_jobs v !! job_key w (je_job_id job) = Some x →
  stream_holds (keyspace σ) ms → 0 ≤ r_clock s0 →
  wp app_io (run_job execute job) (λ _ σ', ∃ id,
    let v' := (spec_start w now (je_job_id job) x v).2 in
    let '(st, code) :=
      if negb (startable x v) then (JobStatus.ABORTED, StatusCodes.STATUS_UPDATED_FAILURE)
      else if execute job then (JobStatus.COMPLETED, StatusCodes.OK)
      else (JobStatus.FAILED, StatusCodes.JOB_EXECUTION_FAILURE) in
    stream_holds (keyspace σ') (ms ++ [mkJobCompletionData id w (je_job_id job) st code])%list ∧
    Rep w J (keyspace σ') (keyspace σ') v' ∧
    if startable x v then mirrors w d0 v' (aw_db σ') else aw_db σ' = aw_db σ) σ.
Proof.
  intros Hw Hrun Hx Hms Hclk. pose proof Hrun as [Hf HR Hm]. unfold run_job. apply wp_bind.
  destruct (startable x v) eqn:Hs.
  - apply startable_iff in Hs as [Hst Hws].
    eapply wp_mono; [|by apply (update_job_status_to_running_mirrors job v x)].
    intros ok σ1 (-> & [Hf1 HR1 Hm1] & _). simpl negb. cbn iota. rewrite Hw.
    destruct (execute job); simpl negb; cbn iota.
    all: eapply wp_report_kept; [exact Hf1|exact HR|exact HR1|exact Hms|done|].
    all: intros σ' id Hs' HR' Ed; exists id; split_and!; [done|done|by rewrite Ed].
  - apply wp_bind, wp_redis. rewrite Hw. unfold try_set_job_to_running_async.
    apply wp_bind, wp_script; [done|]. eapply wp_mono; [|by apply (start_refines w J s0)].
    intros r s' [-> HR'] r' <-. apply wp_ret. rewrite start_async_reply. cbn [fst].
    rewrite startable_started, Hs. apply wp_ret. simpl negb. cbn iota.
    eapply wp_report_kept; [done|exact HR|exact HR'|exact Hms|done|].
    intros σ' id Hs' HR2 Ed. exists id. done.
Qed.

(** ** Retries *)

Lemma promoted_id_reply v promoted :
  own_jobs v → (∀ k, promoted = Some k → is_Some (v_jobs v !! k)) →
  promoted_id w (Some (promoted_reply promoted)) = Some (job_id_of w promoted).
Proof.
  intros HR Hp. destruct promoted as [k|]; [|done]. destruct (Hp k eq_refl) as [y Hy].
  destruct (HR _ _ Hy) as [_ [i ->]]. unfold promoted_id, promoted_reply. simpl default.
  rewrite String.eqb_refl. cbn [negb]. rewrite job_key_prefix_starts. simpl negb. by destruct (str_empty (job_key w i)) eqn:E.
Qed.

(** Promoting a waiting job, when there is room. *)
Definition promote_if (room : bool) (v : wview) : option string * wview :=
  if room then spec_promote v else (None, v).

Lemma promote_if_view room v i :
  own_jobs v →
  w_status (v_wf (promote_if room v).2) = w_status (v_wf v) ∧
  (∀ k, (promote_if room v).1 = Some k → is_Some (v_jobs v !! k)) ∧
  (if decide (i ∈ queued_of (promote_if room v).1) then Some JobStatus.QUEUED else view_job w v i)
    = view_job w (promote_if room v).2 i.
Proof.
  intros HR.
  assert (∀ k, (promote_if room v).1 = Some k → is_Some (v_jobs v !! k)) as Hp.
  { destruct room; [|done]. intros k Hk. by apply promote_present in Hk as [? _]. }
  split_and!; [by destruct room; [apply promote_status|]|done|].
  pose proof (queued_of_spec v (promote_if room v).1 i HR Hp) as Hq. unfold view_job.
  destruct room; cbn [promote_if fst snd] in *.
  - rewrite spec_promote_jobs. destruct (decide (i ∈ queued_of (spec_promote v).1)) as [Hi|Hi];
      rewrite Hq in Hi.
    + rewrite decide_True by done. destruct (Hp _ Hi) as [y Hy]. by rewrite Hy.
    + by rewrite decide_False.
  - by rewrite decide_False by (by rewrite Hq).
Qed.

(** The database side of a promotion without newly ready jobs. *)
Lemma wp_record_queued f ws promoted σ (Q : bool → app_world R D → Prop) :
  Recorded w d0 f ws (aw_db σ) → Forall (λ j, is_Some (f j)) (queued_of promoted) →
  (∀ d, Recorded w d0 (λ j, if decide (j ∈ queued_of promoted) then Some JobStatus.QUEUED else f j) ws d →
     Q true (with_db d σ)) →
  wp app_io (if str_empty (job_id_of w promoted) then Ret true
             else db (UpdateReadyJobs (client_id w) (workflow_id w) [job_id_of w promoted] [])) Q σ.
Proof.
  intros Hr Hf HQ. unfold queued_of in *. destruct (str_empty _).
  - apply wp_ret. replace σ with (with_db (aw_db σ) σ) by (by destruct σ). apply HQ.
    eapply recorded_ext; [|exact Hr]. intros i. by rewrite decide_False by apply not_elem_of_nil.
  - eapply wp_record_ready; [exact Hr|exact Hf|]. intros d Hd. apply HQ.
    eapply recorded_ext; [|exact Hd]. intros i. cbn beta.
    destruct (decide (i ∈ [job_id_of w promoted])); [done|].
    destruct (decide (i ∈ [])) as [Hn|]; [by apply elem_of_nil in Hn|done].
Qed.

Definition retry_view (j : string) (retry at_ms : Z) (x : jobv) (v : wview) : wview :=
  let v1 := put_job (job_key w j) (job_st JobStatus.RETRY_DELAY (job_retry retry x)) v in
  let v2 := with_retry (<[job_key w j := at_ms]> (v_retry v1)) v1 in
  with_wf (set_reserved (release (w_reserved (v_wf v2))) (v_wf v2)) v2.

Lemma spec_retry_promote j retry at_ms x v :
  ∃ room, spec_retry w j retry at_ms x v = promote_if room (retry_view j retry at_ms x v).
Proof.
  unfold spec_retry, promote_if. cbn zeta. destruct (wf_is _ v); [|by exists false].
  destruct (_ <=? _); [by exists false|by exists true].
Qed.

(** The job that is retried stays in RETRY_DELAY: it is not the one promoted. *)
Lemma retry_job_kept j retry at_ms x v :
  v_retry (spec_retry w j retry at_ms x v).2 = <[job_key w j := at_ms]> (v_retry v) ∧
  (v_waiting v !! job_key w j = None →
   v_jobs (spec_retry w j retry at_ms x v).2 !! job_key w j =
     Some (job_st JobStatus.RETRY_DELAY (job_retry retry x))).
Proof.
  destruct (spec_retry_promote j retry at_ms x v) as [room ->]. set (v1 := retry_view j retry at_ms x v).
  assert (v_jobs v1 !! job_key w j = Some (job_st JobStatus.RETRY_DELAY (job_retry retry x))) as Hj
    by apply lookup_insert_eq.
  destruct room; [|done]. cbn [promote_if]. split.
  - unfold spec_promote. by repeat (case_match; simpl; try done).
  - intros Hw. rewrite spec_promote_jobs, decide_False, Hj; [done|]. unfold spec_promote.
    destruct (zmax (v_waiting v1)) as [[k p]|] eqn:Ez; [|done]. apply zmax_Some in Ez.
    destruct (v_jobs v1 !! k); [|done]. simpl. intros [= ->]. simpl in Ez. congruence.
Qed.

Lemma put_job_view v j x y :
  v_jobs v !! job_key w j = Some y →
  ∀ i, view_job w (put_job (job_key w j) x v) i =
    if decide (i = j) then Some (persisted (jv_status x)) else view_job w v i.
Proof.
  intros Hy i. unfold view_job, put_job. simpl. destruct (decide (i = j)) as [->|Hij].
  - by rewrite lookup_insert_eq.
  - rewrite lookup_insert_ne; [done|]. intros ?%(inj (job_key w)). congruence.
Qed.

(** [handle_job_retry]: the job waits for its retry in both stores, and the job
    that takes its slot is QUEUED in both. *)
Lemma handle_job_retry_mirrors c retry delay v x σ :
  jc_identity c = w → Running v σ → view_ok v → v_jobs v !! job_key w (jc_job_id c) = Some x →
  wp app_io (handle_job_retry c retry delay) (λ ok σ',
    ok = true ∧
    Running (spec_retry w (jc_job_id c) retry
               (aw_ms σ + Z.max 0 delay * 1000 + aw_jitter σ) x v).2 σ') σ.
Proof.
  intros Hw [Hf HR Hm] Hok Hx. set (j := jc_job_id c) in *. unfold handle_job_retry. rewrite Hw. fold j.
  apply wp_bind, wp_ms, wp_bind, wp_jitter. set (at_ms := aw_ms σ + _ + _).
  apply wp_bind, wp_redis. unfold schedule_job_retry_async. apply wp_bind, wp_script; [done|].
  eapply wp_mono; [|by apply (schedule_retry_refines w J s0)]. intros r s' [-> HR'] r' <-. apply wp_ret.
  destruct (spec_retry_promote j retry at_ms x v) as [room Hsp]. rewrite Hsp in HR' |- *.
  set (v1 := retry_view j retry at_ms x v) in *.
  assert (own_jobs v1) as Hown by exact (own_put v j _ x (rep_own _ _ HR) Hx).
  assert (∀ i, view_job w v1 i = if decide (i = j) then Some JobStatus.RETRY_DELAY else view_job w v i) as Hv1
    by exact (put_job_view v j _ x Hx).
  destruct (promote_if_view room v1 j Hown) as (Hst & Hp & _).
  pose proof (λ i, proj2 (proj2 (promote_if_view room v1 i Hown))) as Hview.
  rewrite (promoted_id_reply v1 _ Hown Hp). apply wp_bind.
  eapply wp_record_job; [exact Hm|done|unfold view_job; rewrite Hx; by eexists|].
  intros d1 Hd1. simpl negb. cbn iota.
  eapply wp_record_queued; [exact Hd1| |].
  { apply Forall_forall. intros i Hi. rewrite <-Hv1. apply (queued_of_spec v1) in Hi; [|done..].
    unfold view_job. apply fmap_is_Some. by apply Hp. }
  intros d2 Hd2. split; [done|]. split; [done|exact HR'|]. unfold mirrors. rewrite Hst.
  eapply recorded_ext; [|exact Hd2]. intros i. cbn beta. by rewrite <-Hv1.
Qed.

(** What [process_retry_job] records as ready. *)
Definition ready_again (j : string) (promoted : option string) : list string :=
  if String.eqb (job_id_of w promoted) j then [] else [j].

Lemma ready_again_spec v j promoted i :
  own_jobs v → (∀ k, promoted = Some k → is_Some (v_jobs v !! k)) → is_Some (v_jobs v !! job_key w j) →
  promoted ≠ Some (job_key w i) → i ∈ ready_again j promoted ↔ i = j.
Proof.
  intros Ho Hp [x Hx] Hne. unfold ready_again. destruct (promoted_named v promoted Ho Hp) as [_ Hn].
  destruct (String.eqb_spec (job_id_of w promoted) j) as [E|E]; [|by rewrite list_elem_of_singleton].
  split; [by intros ?%elem_of_nil|]. intros ->. destruct (Hn j E) as [?|[_ ->]]; [done|].
  by destruct (Ho _ _ Hx).
Qed.

Lemma spec_promote_retry_view v j x :
  own_jobs v → v_jobs v !! job_key w j = Some x → dom (v_waiting v) ⊆ dom (v_jobs v) →
  w_status (v_wf v) = WorkflowStatus.RUNNING → jv_status x = JobStatus.RETRY_DELAY →
  let '(promoted, v') := spec_promote_retry w j x v in
  (∀ k, promoted = Some k → is_Some (v_jobs v !! k)) ∧ w_status (v_wf v') = WorkflowStatus.RUNNING ∧
  ∀ i, (if decide (i ∈ queued_of promoted) then Some JobStatus.QUEUED
        else if decide (i ∈ ready_again j promoted) then Some JobStatus.READY else view_job w v i)
       = view_job w v' i.
Proof.
  intros Ho Hx Hwait Hws Hst. unfold spec_promote_retry, wf_is, job_is. rewrite Hws, Hst. cbn [negb andb].
  rewrite !bool_decide_true by done. cbn [negb andb]. set (full := w_maxc (v_wf v) <=? w_reserved (v_wf v)).
  destruct (negb full && _).
  - split_and!; [by intros k [= <-]|done|]. intros i.
    assert (∀ k, Some (job_key w j) = Some k → is_Some (v_jobs v !! k)) as Hp by (by intros k [= <-]).
    pose proof (queued_of_spec v (Some (job_key w j)) i Ho Hp) as Hq.
    unfold view_job, spec_queue. simpl.
    destruct (decide (i ∈ queued_of (Some (job_key w j)))) as [Hi|Hi]; rewrite Hq in Hi.
    + apply (inj Some), (inj (job_key w)) in Hi. subst i. by rewrite lookup_insert_eq.
    + rewrite lookup_insert_ne by congruence. case_decide as Hr; [|done].
      apply (ready_again_spec v) in Hr; [by subst|done..].
  - set (v2 := with_waiting _ _). cbn zeta.
    assert ((if full then (None, v2) else spec_promote v2) = promote_if (negb full) v2) as -> by (by destruct full).
    assert (own_jobs v2) as Hown by exact (own_put v j _ x Ho Hx).
    assert (∀ i, view_job w v2 i = if decide (i = j) then Some JobStatus.READY else view_job w v i) as Hv2
      by exact (put_job_view v j _ x Hx).
    destruct (promote_if_view (negb full) v2 j Hown) as (Hst2 & Hp & _).
    pose proof (λ i, proj2 (proj2 (promote_if_view (negb full) v2 i Hown))) as Hview.
    destruct (promote_if (negb full) v2) as [promoted v']. cbn [fst snd] in *.
    assert (∀ k, promoted = Some k → is_Some (v_jobs v !! k)) as Hp'.
    { intros k Hk. destruct (Hp k Hk) as [y Hy]. simpl in Hy.
      apply lookup_insert_Some in Hy as [[<- _]|[_ Hy]]; by eexists. }
    split_and!; [done|by rewrite Hst2|]. intros i. rewrite <-Hview, Hv2.
    pose proof (queued_of_spec v promoted i Ho Hp') as Hq.
    destruct (decide (i ∈ queued_of promoted)) as [Hi|Hi]; [done|]. rewrite Hq in Hi.
    pose proof (ready_again_spec v j promoted i Ho Hp' (ex_intro _ x Hx) Hi) as Hr.
    destruct (decide (i ∈ ready_again j promoted)) as [Hr'|Hr']; rewrite Hr in Hr'; by case_decide.
Qed.

(** [process_retry_job] on a workflow that is RUNNING: the job whose delay is over
    is QUEUED or READY in both stores. *)
Lemma process_retry_job_mirrors r v x σ :
  rt_identity r = w → Running v σ → view_ok v → v_jobs v !! job_key w (rt_job_id r) = Some x →
  w_status (v_wf v) = WorkflowStatus.RUNNING → jv_status x = JobStatus.RETRY_DELAY →
  wp app_io (process_retry_job r) (λ ok σ',
    ok = true ∧ Running (spec_promote_retry w (rt_job_id r) x v).2 σ') σ.
Proof.
  intros Hw [Hf HR Hm] Hok Hx Hws Hst. set (j := rt_job_id r) in *. unfold process_retry_job. rewrite Hw. fold j.
  apply wp_bind, wp_redis. unfold promote_retry_job_async. apply wp_bind, wp_script; [done|].
  eapply wp_mono; [|by apply (promote_retry_refines w J s0)]. intros a s' [-> HR'] r' <-. apply wp_ret.
  pose proof (rep_own _ _ HR) as Ho.
  pose proof (spec_promote_retry_view v j x Ho Hx (ok_waiting _ Hok) Hws Hst) as Hv.
  destruct (spec_promote_retry w j x v) as [promoted v']. cbn [fst snd] in *. destruct Hv as (Hp & Hst' & Hview).
  rewrite (promoted_id_reply v _ Ho Hp). cbn iota. fold (queued_of promoted) (ready_again j promoted).
  assert (negb (bool_decide (queued_of promoted = [])) || negb (bool_decide (ready_again j promoted = [])) = true) as ->.
  { pose proof (queued_of_spec v promoted j Ho Hp) as Hq.
    destruct (decide (promoted = Some (job_key w j))) as [E|E].
    - apply Hq in E. destruct (queued_of promoted); [by apply elem_of_nil in E|done].
    - apply orb_true_iff. right. apply negb_true_iff, bool_decide_eq_false. intros E0.
      apply (ready_again_spec v j promoted j Ho Hp (ex_intro _ x Hx)) in E as [_ Hr].
      specialize (Hr eq_refl). rewrite E0 in Hr. by apply elem_of_nil in Hr. }
  eapply wp_record_ready; [exact Hm| |].
  { apply Forall_forall. intros i Hi. unfold view_job. apply fmap_is_Some.
    destruct (decide (promoted = Some (job_key w i))) as [E|E]; [by apply Hp|].
    apply elem_of_app in Hi as [Hi|Hi]; [|by apply (queued_of_spec v promoted i Ho Hp) in Hi].
    apply (ready_again_spec v) in Hi; [|done..]. subst i. by eexists. }
  intros d Hd. split; [done|]. split; [done|exact HR'|]. unfold mirrors. rewrite Hst', <-Hws.
  eapply recorded_ext; [|exact Hd]. exact Hview.
Qed.

(** ** Failures *)

(** Whether the failure of a job leads to another attempt. *)
Definition retry_allowed (c : JobCompletionData) (d : JobRuntimeData) (fields : gmap string string)
  (now_sec : Z) : bool :=
  bool_decide (jc_status c = JobStatus.FAILED) &&
  bool_decide (fields !! "status" = Some (WorkflowStatus.to_string WorkflowStatus.RUNNING)) &&
  (jr_current_retry_count d + 1 <=? jr_max_retries d) &&
  negb ((0 <? jr_start_run_time d) && (0 <? jr_timeout_sec d) &&
        (jr_timeout_sec d <? now_sec - jr_start_run_time d)).

Lemma wp_may_retry c d fields σ (Q : bool → app_world R D → Prop) :
  Q (retry_allowed c d fields (wd_clock (aw_redis σ))) σ → wp app_io (may_retry c d fields) Q σ.
Proof.
  unfold may_retry, retry_allowed. cbn zeta. destruct (_ && _ && (_ <=? _)) eqn:E; simpl; [|done].
  intros HQ. apply wp_bind. unfold is_job_runtime_expired. cbn zeta.
  rewrite !Z.leb_antisym. destruct (0 <? jr_start_run_time d); simpl in *; [|by apply wp_ret, wp_ret].
  destruct (0 <? jr_timeout_sec d); simpl in *; [|by apply wp_ret, wp_ret].
  apply wp_bind. unfold wp, app_time. simpl. destruct σ. exact HQ.
Qed.

Lemma may_retry_run c d fields σ :
  run app_io (may_retry c d fields) σ = (Some (retry_allowed c d fields (wd_clock (aw_redis σ))), σ).
Proof.
  assert (wp app_io (may_retry c d fields)
    (λ b σ', b = retry_allowed c d fields (wd_clock (aw_redis σ)) ∧ σ' = σ) σ) as Hwp
    by (by apply wp_may_retry).
  by apply wp_run in Hwp as (b & σ' & -> & -> & ->).
Qed.

Lemma retry_allowed_spec c d fields now_sec :
  retry_allowed c d fields now_sec = true ↔
    jc_status c = JobStatus.FAILED ∧ fields !! "status" = Some "RUNNING" ∧
    jr_current_retry_count d + 1 ≤ jr_max_retries d ∧
    (0 < jr_start_run_time d → 0 < jr_timeout_sec d →
     now_sec - jr_start_run_time d ≤ jr_timeout_sec d).
Proof.
  unfold retry_allowed. rewrite !andb_true_iff, !bool_decide_eq_true, Z.leb_le, negb_true_iff.
  rewrite !andb_false_iff, !Z.ltb_ge. change (WorkflowStatus.to_string WorkflowStatus.RUNNING) with "RUNNING".
  split; [intros [[[??]?] ?]|intros (? & ? & ? & ?)]; split_and!; try done; lia.
Qed.

(** The siblings the failure script cancels, in the order of the list. *)
Lemma cancel_list j ids acc :
  NoDup ids →
  (foldl (spec_cancel w j) acc ids).1 =
    (acc.1 ++ List.filter (λ id, negb (String.eqb id j) &&
                match v_jobs acc.2 !! job_key w id with
                | Some y => cancelable (jv_status y) | None => false end) ids)%list.
Proof.
  revert acc. induction ids as [|id ids IH]; intros acc Hnd; [by rewrite app_nil_r|].
  apply NoDup_cons in Hnd as [Hid Hnd]. cbn [foldl List.filter]. rewrite IH by done.
  rewrite (filter_ext_in _ (λ id0, negb (String.eqb id0 j) &&
    match v_jobs acc.2 !! job_key w id0 with Some y => cancelable (jv_status y) | None => false end)).
  2: { intros id' Hin%list_elem_of_In. cbn beta. rewrite spec_cancel_jobs, decide_False; [done|].
       intros [E%(inj (job_key w)) _]. by subst. }
  destruct acc as [l v]. unfold spec_cancel. cbn [fst snd].
  destruct (String.eqb_spec id j) as [->|Hne].
  { rewrite decide_True by done. done. }
  rewrite decide_False by (by intros ?%(inj (job_key w))). cbn [negb andb].
  destruct (v_jobs v !! job_key w id) as [y|]; [|done]. destruct (cancelable (jv_status y)); [|done].
  cbn [fst]. by rewrite <-app_assoc.
Qed.

Lemma fail_canceled j retry ids x v :
  NoDup ids → w_status (v_wf v) = WorkflowStatus.RUNNING →
  fr_failed_workflow (spec_fail w j retry ids x v).1 = true ∧
  fr_canceled (spec_fail w j retry ids x v).1 =
    List.filter (λ id, negb (String.eqb id j) &&
      match v_jobs v !! job_key w id with Some y => cancelable (jv_status y) | None => false end) ids.
Proof.
  intros Hnd Hst. unfold spec_fail, wf_is. rewrite bool_decide_true by done.
  match goal with |- context [foldl ?f ?a ids] =>
    pose proof (cancel_list j ids a Hnd) as Hc; destruct (foldl f a ids) as [l v2] end.
  cbn [fst snd fr_canceled] in *. split; [done|]. rewrite Hc. cbn [app]. apply filter_ext_in. intros id _.
  destruct (String.eqb_spec id j) as [->|Hne]; [done|]. cbn [negb andb]. simpl.
  rewrite lookup_insert_ne; [done|]. intros ?%(inj (job_key w)). congruence.
Qed.

(** The view after a failure: the script, and the status of an aborted job. *)
Definition failed_view (j : string) (retry : Z) (ids : list string) (terminal : JobStatus.t) (x : jobv)
  (v : wview) : wview :=
  let v' := (spec_fail w j retry ids x v).2 in
  if bool_decide (terminal = JobStatus.ABORTED)
  then put_job (job_key w j) (job_st JobStatus.ABORTED (job_retry retry x)) v' else v'.

Lemma failed_jobs j retry ids terminal x v k :
  terminal = JobStatus.FAILED ∨ terminal = JobStatus.ABORTED → own_jobs v →
  (∀ i, is_Some (v_jobs v !! job_key w i) ↔ i ∈ ids) → w_status (v_wf v) = WorkflowStatus.RUNNING →
  v_jobs (failed_view j retry ids terminal x v) !! k =
    if decide (k = job_key w j) then Some (job_st terminal (job_retry retry x))
    else canceled <$> v_jobs v !! k.
Proof.
  intros Ht Ho Hids Hst. unfold failed_view. cbn zeta. pose proof (fail_jobs w j retry ids x v k Hst) as Hj.
  assert (k ≠ job_key w j → v_jobs (spec_fail w j retry ids x v).2 !! k = canceled <$> v_jobs v !! k) as Hk.
  { intros Hne. rewrite Hj, decide_False by done. destruct (v_jobs v !! k) as [y|] eqn:Hy;
      [|by destruct (decide (Exists _ _))].
    rewrite decide_True; [done|]. destruct (Ho _ _ Hy) as [_ [i ->]]. apply Exists_exists. exists i.
    split; [apply Hids; by eexists|done]. }
  destruct (decide (k = job_key w j)) as [->|Hne].
  - destruct Ht as [-> | ->]; simpl; [by rewrite Hj|apply lookup_insert_eq].
  - case_bool_decide; [|by apply Hk]. simpl. rewrite lookup_insert_ne by congruence. by apply Hk.
Qed.

Lemma failed_view_status j retry ids terminal x v :
  w_status (v_wf v) = WorkflowStatus.RUNNING →
  w_status (v_wf (failed_view j retry ids terminal x v)) = WorkflowStatus.FAILED.
Proof.
  intros Hst. unfold failed_view. cbn zeta. rewrite <-(fail_status w j retry ids x v Hst).
  by case_bool_decide.
Qed.

Lemma fail_view j retry ids x v terminal i :
  terminal = JobStatus.FAILED ∨ terminal = JobStatus.ABORTED →
  NoDup ids → (∀ i, is_Some (v_jobs v !! job_key w i) ↔ i ∈ ids) →
  w_status (v_wf v) = WorkflowStatus.RUNNING → v_jobs v !! job_key w j = Some x →
  (if decide (i ∈ fr_canceled (spec_fail w j retry ids x v).1) then Some JobStatus.ABORTED
   else if decide (i = j) then Some terminal else view_job w v i)
  = view_job w (failed_view j retry ids terminal x v) i.
Proof.
  intros Ht Hnd Hids Hst Hx. destruct (fail_canceled j retry ids x v Hnd Hst) as [_ Hcl].
  assert (i ∈ fr_canceled (spec_fail w j retry ids x v).1 ↔
    i ≠ j ∧ ∃ y, v_jobs v !! job_key w i = Some y ∧ cancelable (jv_status y) = true) as Hi.
  { rewrite Hcl, list_elem_of_In, filter_In, <-list_elem_of_In, <-Hids, andb_true_iff, negb_true_iff, String.eqb_neq.
    destruct (v_jobs v !! job_key w i) as [y|]; naive_solver. }
  pose proof (fail_jobs w j retry ids x v (job_key w i) Hst) as Hj.
  assert (view_job w (failed_view j retry ids terminal x v) i =
    if decide (i = j) then Some terminal
    else (λ y, persisted (jv_status (canceled y))) <$> v_jobs v !! job_key w i) as ->.
  { unfold failed_view. cbn zeta. destruct (decide (i = j)) as [->|Hij].
    - destruct Ht as [-> | ->]; unfold view_job; simpl; [|by rewrite lookup_insert_eq].
      by rewrite Hj, decide_True.
    - transitivity (view_job w (spec_fail w j retry ids x v).2 i).
      { case_bool_decide; [|done]. unfold view_job. simpl. rewrite lookup_insert_ne; [done|].
        intros ?%(inj (job_key w)). congruence. }
      unfold view_job. rewrite Hj, decide_False by (by intros ?%(inj (job_key w))).
      destruct (v_jobs v !! job_key w i) as [y|] eqn:Hy; [|by destruct (decide (Exists _ _))].
      rewrite decide_True; [done|]. apply Exists_exists. exists i. split; [apply Hids; by rewrite Hy|done]. }
  destruct (decide (i ∈ fr_canceled _)) as [Hc|Hc]; rewrite Hi in Hc.
  - destruct Hc as [Hij (y & Hy & Hyc)]. rewrite decide_False, Hy by done. simpl. unfold canceled. by rewrite Hyc.
  - destruct (decide (i = j)); [done|]. unfold view_job.
    destruct (v_jobs v !! job_key w i) as [y|]; [|done]. simpl. unfold canceled.
    destruct (cancelable (jv_status y)) eqn:E; [|done]. exfalso. apply Hc. eauto.
Qed.

(** The loop that records the canceled siblings. *)
Lemma wp_record_canceled f ws ids σ (Q : bool → app_world R D → Prop) :
  Recorded w d0 f ws (aw_db σ) → Forall (λ i, is_Some (f i)) ids →
  (∀ d, Recorded w d0 (λ i, if decide (i ∈ ids) then Some JobStatus.ABORTED else f i) ws d →
     Q true (with_db d σ)) →
  wp app_io (pfold (λ persisted id,
    let* ok := db (UpdateJobStatus (client_id w) (workflow_id w) id JobStatus.ABORTED) in
    Ret (persisted && ok)) ids true) Q σ.
Proof.
  revert f σ. induction ids as [|id ids IH]; intros f σ Hr Hf HQ; simpl.
  - apply wp_ret. replace σ with (with_db (aw_db σ) σ) by (by destruct σ). apply HQ.
    eapply recorded_ext; [|exact Hr]. intros i. by rewrite decide_False by apply not_elem_of_nil.
  - apply Forall_cons in Hf as [Hid Hf]. apply wp_bind, wp_bind.
    eapply wp_record_job; [exact Hr|done|done|]. intros d Hd. apply wp_ret. cbn [andb].
    eapply IH; [exact Hd| |].
    + eapply Forall_impl; [exact Hf|]. intros i Hi. cbn beta. destruct (decide (i = id)); [by eexists|done].
    + intros d' Hd'. apply HQ. eapply recorded_ext; [|exact Hd']. intros i. cbn beta.
      destruct (decide (i ∈ ids)) as [Hi|Hi]; [by rewrite decide_True by (by right)|].
      destruct (decide (i = id)) as [->|Hne]; [by rewrite decide_True by (by left)|].
      rewrite decide_False; [done|]. by intros [?|?]%elem_of_cons.
Qed.

Lemma fail_answer r :
  Z.of_nat (length (fr_canceled r)) < 2 ^ 64 →
  match Some (fail_reply r) with
  | Some (a :: failed :: completed :: count :: canceled) =>
      if negb (String.eqb a "1") then None
      else
        match stoul count with
        | None => None
        | Some canceled_count =>
            if negb (Z.of_nat (length canceled) =? canceled_count) then None
            else Some (canceled, String.eqb failed "1", String.eqb completed "1")
        end
  | _ => None
  end = Some (fr_canceled r, fr_failed_workflow r, fr_completed_workflow r).
Proof.
  intros Hl. unfold fail_reply. cbn [app]. rewrite stoul_to_str, Z.eqb_refl by lia. simpl.
  by destruct (fr_failed_workflow r), (fr_completed_workflow r).
Qed.

Lemma wp_fail_async σ v j x retry ids (Q : option (list string * bool * bool) → app_world R D → Prop) :
  wd_faults (aw_redis σ) = [] → Rep w J s0 (keyspace σ) v → view_ok v →
  v_jobs v !! job_key w j = Some x → Forall (λ id, job_key w id ∈ J) ids →
  Z.of_nat (length ids) < 2 ^ 52 → NoDup ids → w_status (v_wf v) = WorkflowStatus.RUNNING →
  (∀ rw, wd_faults rw = [] → wd_clock rw = wd_clock (aw_redis σ) →
     Rep w J s0 (redis_state (wd_redis rw)) (spec_fail w j retry ids x v).2 →
     let r := (spec_fail w j retry ids x v).1 in
     Q (Some (fr_canceled r, true, fr_completed_workflow r))
       (mkApp rw (aw_db σ) (aw_ms σ) (aw_jitter σ))) →
  wp app_io (redis (complete_failed_job_runtime_async w j retry ids)) Q σ.
Proof.
  intros Hf HR Hok Hx Hids Hlen Hnd Hst HQ. apply wp_redis. unfold complete_failed_job_runtime_async.
  apply wp_bind, wp_script; [done|]. eapply wp_mono; [|by apply (fail_refines w J s0)].
  intros r s' [-> HR'] r' <-. apply wp_ret.
  destruct (fail_canceled j retry ids x v Hnd Hst) as [Hfw Hcl]. rewrite fail_answer.
  - rewrite Hfw. by apply HQ.
  - rewrite Hcl. eapply Z.le_lt_trans; [apply Nat2Z.inj_le, List.filter_length_le|lia].
Qed.

(** The status of an aborted job, written after the script. *)
Lemma wp_mark_aborted σ v j x ts (Q : bool → app_world R D → Prop) :
  wd_faults (aw_redis σ) = [] → Rep w J s0 (keyspace σ) v → v_jobs v !! job_key w j = Some x →
  (∀ rw, wd_faults rw = [] → Rep w J s0 (redis_state (wd_redis rw)) (put_job (job_key w j) (job_st JobStatus.ABORTED x) v) →
     Q true (mkApp rw (aw_db σ) (aw_ms σ) (aw_jitter σ))) →
  wp app_io (redis (update_job_runtime_async w j
    [("status", JobStatus.to_string JobStatus.ABORTED); ("last_update_time", ts)])) Q σ.
Proof.
  intros Hf HR Hx HQ. apply wp_redis. unfold update_job_runtime_async, execute_hset_command_async.
  apply wp_bind, wp_command; [done|].
  eapply (wp_job_hset w J s0 _ v _ x _ (job_st JobStatus.ABORTED x)); [exact HR|exact Hx|fields_tac|].
  intros n s' HR' r' <-. apply wp_ret. by apply HQ.
Qed.

Lemma ids_size ids : NoDup ids → (∀ i, i ∈ ids → job_key w i ∈ J) → (length ids ≤ size J)%nat.
Proof.
  intros Hnd Hin. rewrite <-(length_fmap (job_key w)).
  rewrite <-(size_list_to_set (C := gset string) (job_key w <$> ids)) by (by apply NoDup_fmap_2; [apply _|]).
  apply subseteq_size. intros k (i & -> & Hi)%elem_of_list_to_set%list_elem_of_fmap. by apply Hin.
Qed.

(** [handle_job_failed] when the job is not tried again, on a workflow that is
    RUNNING: the workflow is FAILED in both stores, its waiting jobs ABORTED. *)
Lemma handle_job_failed_mirrors indeterminate c d fields v x σ :
  jc_identity c = w → Running v σ → view_ok v → v_jobs v !! job_key w (jc_job_id c) = Some x →
  Z.of_nat (size J) < 2 ^ 52 → w_status (v_wf v) = WorkflowStatus.RUNNING →
  retry_allowed c d fields (wd_clock (aw_redis σ)) = false →
  wp app_io (handle_job_failed indeterminate c d fields) (λ ok σ', ∃ ids,
    let terminal := if bool_decide (jc_status c = JobStatus.ABORTED)
                    then JobStatus.ABORTED else JobStatus.FAILED in
    let v' := failed_view (jc_job_id c) (jr_current_retry_count d + 1) ids terminal x v in
    (∀ i, is_Some (v_jobs v !! job_key w i) ↔ i ∈ ids) ∧ mirrors w d0 v' (aw_db σ') ∧
    (fr_completed_workflow (spec_fail w (jc_job_id c) (jr_current_retry_count d + 1) ids x v).1 = false →
     ok = true ∧ Running v' σ')) σ.
Proof.
  intros Hw [Hf HR Hm] Hok Hx Hsize Hst Hret. set (j := jc_job_id c) in *. unfold handle_job_failed.
  rewrite Hw. fold j. cbn zeta. set (retry := jr_current_retry_count d + 1).
  set (terminal := if bool_decide (jc_status c = JobStatus.ABORTED) then JobStatus.ABORTED else JobStatus.FAILED).
  assert (terminal = JobStatus.FAILED ∨ terminal = JobStatus.ABORTED) as Ht
    by (unfold terminal; case_bool_decide; auto).
  apply wp_bind, wp_may_retry. rewrite Hret. cbn iota.
  apply wp_bind. eapply wp_get_jobs; [exact Hm|]. intros d1 l Hd1 Hnd Hl. cbn iota.
  set (ids := wj_job_id <$> l) in *.
  assert (Hids : ∀ i, is_Some (v_jobs v !! job_key w i) ↔ i ∈ ids).
  { intros i. unfold ids. rewrite list_elem_of_fmap. split.
    - intros [y Hy]. destruct (Hl i (persisted (jv_status y))) as [Hl' _]. unfold view_job in Hl'.
      rewrite Hy in Hl'. destruct (Hl' eq_refl) as (z & Hz & <- & _). by exists z.
    - intros (z & -> & Hz). destruct (Hl (wj_job_id z) (wj_status z)) as [_ Hl'].
      apply (fmap_is_Some (λ y, persisted (jv_status y))). eexists. apply Hl'. eauto. }
  assert (HJ : Forall (λ id, job_key w id ∈ J) ids).
  { apply Forall_forall. intros i [y Hy]%Hids. by eapply rep_in_J. }
  apply wp_bind. eapply (wp_fail_async _ v j x retry ids); [done|exact HR|done|done|done| |done|done|].
  { eapply Z.le_lt_trans; [|exact Hsize]. apply Nat2Z.inj_le, ids_size; [done|by rewrite Forall_forall in HJ]. }
  intros rw Hf1 Hk1 HR1. cbn zeta iota. set (r := spec_fail w j retry ids x v) in *.
  set (v' := failed_view j retry ids terminal x v).
  pose proof (fail_jobs w j retry ids x v (job_key w j) Hst) as Hxj. rewrite decide_True in Hxj by done.
  pose proof (λ i, fail_view j retry ids x v terminal i Ht Hnd Hids Hst Hx) as Hview. fold r v' in Hview.
  assert (Hst' : w_status (v_wf v') = WorkflowStatus.FAILED).
  { by apply failed_view_status. }
  apply wp_bind. eapply (wp_mono _ _ (λ ok σ2, ok = true ∧ wd_faults (aw_redis σ2) = [] ∧
    Rep w J s0 (keyspace σ2) v' ∧ aw_db σ2 = d1)).
  2: { unfold v', failed_view. cbn zeta. fold r. case_bool_decide as Ha; [|by apply wp_ret].
       apply wp_bind, wp_now. eapply wp_mark_aborted; [done|exact HR1|exact Hxj|]. by intros rw2 Hf2 HR2. }
  intros ok σ2 (-> & Hf2 & HR2 & Ed). rewrite <-Ed in Hd1.
  apply wp_bind. eapply wp_record_job; [exact Hd1|by destruct Ht as [-> | ->]|unfold view_job; rewrite Hx; by eexists|].
  intros d2 Hd2. apply wp_bind. cbn [andb]. eapply wp_record_canceled; [exact Hd2| |].
  { apply Forall_forall. intros i Hi. unfold r in Hi.
    destruct (fail_canceled j retry ids x v Hnd Hst) as [_ Hcl]. rewrite Hcl, list_elem_of_In, filter_In in Hi.
    destruct Hi as [_ [_ Hi]%andb_true_iff]. destruct (decide (i = j)); [by eexists|]. unfold view_job.
    by destruct (v_jobs v !! job_key w i). }
  intros d3 Hd3. apply wp_bind. eapply wp_record_workflow; [exact Hd3|done|]. intros d4 Hd4. cbn [andb].
  assert (mirrors w d0 v' d4) as Hm4.
  { unfold mirrors. rewrite Hst'. eapply recorded_ext; [exact Hview|exact Hd4]. }
  apply wp_bind. destruct (fr_completed_workflow r.1) eqn:Ec.
  - eapply wp_mono; [|apply cleanup_records; [exact Hf2|exact Hm4]]. intros ok3 σ3 Hd5. apply wp_ret.
    exists ids. fold r. rewrite Ec. done.
  - apply wp_ret, wp_ret. exists ids. split_and!; [done|done|]. intros _. done.
Qed.
End services.
