(* ===== verification/BlockingQueue.v ===== *)
(** * The queue between a scheduler and its workers

    include/thread_safe_blocking_queue.h.  Each operation holds the mutex, so it
    is one step; a thread that waits on a condition variable takes its step when
    the predicate of the wait holds. *)

From S2P Require Import Prelude.

Section queue.
Context {T : Type}.

Record ThreadSafeBlockingQueue := mkQueue {
  capacity_ : nat; queue_ : list T; closed_ : bool }.

Definition new_queue (capacity : nat) : ThreadSafeBlockingQueue := mkQueue capacity [] false.

Definition close (q : ThreadSafeBlockingQueue) : ThreadSafeBlockingQueue :=
  mkQueue (capacity_ q) (queue_ q) true.

(** [None]: the caller waits. *)
Definition push (value : T) (q : ThreadSafeBlockingQueue) : option (bool * ThreadSafeBlockingQueue) :=
  if closed_ q || (length (queue_ q) <? capacity_ q)%nat then
    if closed_ q then Some (false, q)
    else Some (true, mkQueue (capacity_ q) (queue_ q ++ [value])%list (closed_ q))
  else None.

(** [Some (None, q)] is the result [false]. *)
Definition pop (q : ThreadSafeBlockingQueue) : option (option T * ThreadSafeBlockingQueue) :=
  if closed_ q || negb (bool_decide (length (queue_ q) = 0%nat)) then
    match queue_ q with
    | [] => Some (None, q)
    | x :: l => Some (Some x, mkQueue (capacity_ q) l (closed_ q))
    end
  else None.

(** ** Any number of producers and consumers

    [h_pushed] and [h_popped] are the accepted and the delivered values, in
    order. *)
Record history := mkHistory {
  h_queue : ThreadSafeBlockingQueue; h_pushed : list T; h_popped : list T }.

Inductive qstep (σ : history) : history → Prop :=
| qstep_push x ok q :
    push x (h_queue σ) = Some (ok, q) →
    qstep σ (mkHistory q (if ok then h_pushed σ ++ [x] else h_pushed σ)%list (h_popped σ))
| qstep_pop r q :
    pop (h_queue σ) = Some (r, q) →
    qstep σ (mkHistory q (h_pushed σ) (h_popped σ ++ option_list r)%list)
| qstep_close :
    qstep σ (mkHistory (close (h_queue σ)) (h_pushed σ) (h_popped σ)).

Definition initial (capacity : nat) : history := mkHistory (new_queue capacity) [] [].

Definition qreachable (capacity : nat) (σ : history) : Prop := rtc qstep (initial capacity) σ.

Record QInv (capacity : nat) (σ : history) : Prop := {
  q_capacity : capacity_ (h_queue σ) = capacity;
  q_bounded : (length (queue_ (h_queue σ)) ≤ capacity)%nat;
  q_fifo : h_pushed σ = (h_popped σ ++ queue_ (h_queue σ))%list
}.

Lemma qstep_inv n σ σ' : qstep σ σ' → QInv n σ → QInv n σ'.
Proof.
  intros Hs [Hc Hb Hf]. destruct Hs as [x ok q Hp|r q Hp|].
  - unfold push in Hp. destruct (closed_ (h_queue σ)) eqn:Ec.
    + injection Hp as <- <-. by split.
    + simpl in Hp. destruct (Nat.ltb_spec (length (queue_ (h_queue σ))) (capacity_ (h_queue σ))); [|done].
      injection Hp as <- <-. split; simpl; [done|rewrite length_app; simpl; lia|].
      by rewrite Hf, app_assoc.
  - unfold pop in Hp. destruct (closed_ _ || _); [|done].
    destruct (queue_ (h_queue σ)) as [|x l] eqn:Eq; injection Hp as <- <-.
    + split; simpl; [done|by rewrite Eq|by rewrite Eq, app_nil_r].
    + split; simpl; simpl in Hb; [done|lia|]. by rewrite Hf, <-app_assoc.
  - by split.
Qed.

Lemma qreachable_inv n σ : qreachable n σ → QInv n σ.
Proof.
  intros Hr. unfold qreachable in Hr. remember (initial n) as σ0 eqn:E.
  assert (QInv n σ0) as H0 by (subst; split; simpl; [done|lia|done]). clear E.
  induction Hr as [|? ? ? Hs _ IH]; [done|]. eauto using qstep_inv.
Qed.

(** A worker that keeps popping a closed queue gets every value left and then
    [false]: nothing that was accepted is dropped. *)
Fixpoint drain (fuel : nat) (q : ThreadSafeBlockingQueue) : option (list T) :=
  match fuel with
  | O => None
  | S fuel' =>
      match pop q with
      | Some (Some x, q') => cons x <$> drain fuel' q'
      | Some (None, _) => Some []
      | None => None
      end
  end.

Lemma drain_closed q fuel :
  closed_ q = true → (length (queue_ q) < fuel)%nat → drain fuel q = Some (queue_ q).
Proof.
  destruct q as [n l c]. simpl. intros ->. revert fuel.
  induction l as [|x l IH]; intros [|fuel] Hf; simpl in *; try lia; [done|].
  unfold pop. simpl. rewrite IH by lia. done.
Qed.

(** A push that has to wait can proceed after a pop or a close, a pop that has
    to wait after a push or a close: no wake-up is needed from anyone else. *)
Lemma push_waits x q : push x q = None ↔ closed_ q = false ∧ (capacity_ q ≤ length (queue_ q))%nat.
Proof.
  unfold push. destruct (closed_ q); simpl; [by split; [|intros [? _]]|].
  destruct (Nat.ltb_spec (length (queue_ q)) (capacity_ q)); (split; [|intros [_ ?]]); naive_solver lia.
Qed.
Lemma pop_waits q : pop q = None ↔ closed_ q = false ∧ queue_ q = [].
Proof.
  unfold pop. destruct (closed_ q); simpl.
  - destruct (queue_ q); naive_solver.
  - destruct (queue_ q); simpl; naive_solver.
Qed.
End queue.
Arguments ThreadSafeBlockingQueue T : clear implicits.
Arguments history T : clear implicits.
