(* ===== verification/Shutdown.v ===== *)
(** * Stopping a component

    How a scheduler and its workers end (src/src/scheduler.cpp,
    src/src/worker_thread.cpp), and how the two handlers do
    (src/src/completion_handler.cpp, src/src/retry_handler.cpp): the flag
    [running_], the closing of the worker queue, the flags and counters that the
    destructors wait for.

    A thread is a program counter.  A step is a read of [running_], an operation
    of the worker queue, the return of an awaited call, or a critical section of
    one of the condition variables.  What is awaited (Redis, the database, the
    job itself) returns with any result or throws; it does not depend on the
    component that is being stopped.  Closing the Redis connection only ends a
    call that is awaited, so it has no step of its own. *)

From S2P Require Import Prelude.
From S2P Require Import Models.
From S2P Require Import RedisKeys.
From S2P Require Import RedisRuntime.
From S2P Require Import Scheduling.
From S2P Require Import BlockingQueue.

(** ** The scheduler *)

(** [scheduler_main_loop], with [get_next_ready_job] inside it. *)
Inductive main_pc :=
| MLoop                          (* while (running_) *)
| MNext                          (* while (running_) of get_next_ready_job *)
| MDequeue                       (* blocking_dequeue_job_for_execution_async *)
| MRuntime                       (* fetch_job_runtime_async *)
| MRecheck                       (* nothing dequeued: if (!running_) *)
| MNone                          (* get_next_ready_job gave false: if (!running_) *)
| MPayload (job : JobExeData)    (* fetch_job_payload_async *)
| MAborted                       (* enqueue_job_completion_async *)
| MPush (job : JobExeData)       (* worker_thread_queue_.push *)
| MMark                          (* mark_main_loop_finished *)
| MFinished.

(** [run_worker_loop]; [WMark (Some job)] is the end by an exception, while
    [job] was in hand. *)
Inductive worker_pc :=
| WFetch                         (* fetch_job *)
| WStart (job : JobExeData)      (* start_transition.get() *)
| WExecute (job : JobExeData)    (* execute_job *)
| WReport (job : JobExeData)     (* update_completion_handler *)
| WMark (lost : option JobExeData) (* mark_worker_loop_finished *)
| WEnded (lost : option JobExeData).

(** [~scheduler]. *)
Inductive dtor_pc :=
| Alive | DClose | DWaitMain | DJoin (i : nat) | DWaitWorkers | Destroyed.

(** [sc_closing]: the owner called [request_stop], which has set [running_] and
    not yet closed the queue.  The last three fields are histories: the jobs
    that [push] accepted, that workers took, and that they handled to the end. *)
Record scheduler := mkScheduler {
  sc_running : bool;
  sc_closing : bool;
  sc_queue : ThreadSafeBlockingQueue JobExeData;
  sc_main : main_pc;
  sc_main_loop_finished : bool;
  sc_workers : list worker_pc;
  sc_running_worker_loops : nat;
  sc_dtor : dtor_pc;
  sc_accepted : list JobExeData;
  sc_fetched : list JobExeData;
  sc_handled : list JobExeData }.

Definition new_scheduler (worker_thread_count worker_queue_capacity : nat) : scheduler :=
  let thread_count := if (worker_thread_count =? 0)%nat then 1%nat else worker_thread_count in
  mkScheduler true false
    (new_queue (if (worker_queue_capacity =? 0)%nat then 1%nat else worker_queue_capacity))
    MLoop false (replicate thread_count WFetch) thread_count Alive [] [] [].

Definition with_payload (job : JobExeData) (p : string) : JobExeData :=
  mkJobExeData (je_identity job) (je_job_id job) (je_job_name job) (je_payload_size_bytes job) p
    (je_status job).

(** The dispatcher up to the push, given what it reads of [running_]. *)
Inductive dispatch : bool → main_pc → main_pc → Prop :=
| d_loop running : dispatch running MLoop (if running then MNext else MMark)
| d_next running : dispatch running MNext (if running then MDequeue else MNone)
| d_dequeued running : dispatch running MDequeue MRuntime
| d_nothing running : dispatch running MDequeue MRecheck
| d_recheck running : dispatch running MRecheck (if running then MNext else MNone)
| d_none running : dispatch running MNone (if running then MLoop else MMark)
| d_no_runtime running : dispatch running MRuntime MNone
| d_runtime running job :
    0 ≤ je_payload_size_bytes job →
    dispatch running MRuntime
      (if 0 <? je_payload_size_bytes job then MPayload job else MPush (with_payload job ""))
| d_payload running job p :
    dispatch running (MPayload job)
      (if Z.of_nat (String.length p) =? je_payload_size_bytes job then MPush (with_payload job p)
       else MAborted)
| d_no_payload running job : dispatch running (MPayload job) MAborted
| d_aborted running : dispatch running MAborted MLoop
| d_throws running pc :
    match pc with MDequeue | MRuntime | MPayload _ | MAborted => True | _ => False end →
    dispatch running pc MMark.

(** A worker, between two operations of the queue: the next counter and the job
    that is handled, if one is. *)
Inductive work : worker_pc → worker_pc → option JobExeData → Prop :=
| w_started job : work (WStart job) (WExecute job) None
| w_not_started job : work (WStart job) (WReport job) None
| w_executed job : work (WExecute job) (WReport job) None
| w_reported job : work (WReport job) WFetch (Some job)
| w_throws pc job :
    pc = WStart job ∨ pc = WExecute job ∨ pc = WReport job → work pc (WMark (Some job)) None.

Definition set_main pc σ :=
  mkScheduler (sc_running σ) (sc_closing σ) (sc_queue σ) pc (sc_main_loop_finished σ) (sc_workers σ)
    (sc_running_worker_loops σ) (sc_dtor σ) (sc_accepted σ) (sc_fetched σ) (sc_handled σ).

Definition set_dtor pc σ :=
  mkScheduler (sc_running σ) (sc_closing σ) (sc_queue σ) (sc_main σ) (sc_main_loop_finished σ)
    (sc_workers σ) (sc_running_worker_loops σ) pc (sc_accepted σ) (sc_fetched σ) (sc_handled σ).

(** [worker_thread_queue_.push]: [false] ends the loop. *)
Definition push_job job (ok : bool) q σ :=
  mkScheduler (sc_running σ) (sc_closing σ) q (if ok then MLoop else MMark) (sc_main_loop_finished σ)
    (sc_workers σ) (sc_running_worker_loops σ) (sc_dtor σ)
    (if ok then sc_accepted σ ++ [job] else sc_accepted σ)%list (sc_fetched σ) (sc_handled σ).

Definition mark_main_loop_finished σ :=
  mkScheduler (sc_running σ) (sc_closing σ) (sc_queue σ) MFinished true (sc_workers σ)
    (sc_running_worker_loops σ) (sc_dtor σ) (sc_accepted σ) (sc_fetched σ) (sc_handled σ).

(** [fetch_job], by worker [i]. *)
Definition fetch_job i (r : option JobExeData) q σ :=
  mkScheduler (sc_running σ) (sc_closing σ) q (sc_main σ) (sc_main_loop_finished σ)
    (<[i := match r with Some job => WStart job | None => WMark None end]> (sc_workers σ))
    (sc_running_worker_loops σ) (sc_dtor σ) (sc_accepted σ) (sc_fetched σ ++ option_list r)%list
    (sc_handled σ).

Definition work_on i pc (handled : option JobExeData) σ :=
  mkScheduler (sc_running σ) (sc_closing σ) (sc_queue σ) (sc_main σ) (sc_main_loop_finished σ)
    (<[i := pc]> (sc_workers σ)) (sc_running_worker_loops σ) (sc_dtor σ) (sc_accepted σ)
    (sc_fetched σ) (sc_handled σ ++ option_list handled)%list.

Definition mark_worker_loop_finished i lost σ :=
  mkScheduler (sc_running σ) (sc_closing σ) (sc_queue σ) (sc_main σ) (sc_main_loop_finished σ)
    (<[i := WEnded lost]> (sc_workers σ))
    (if (0 <? sc_running_worker_loops σ)%nat then (sc_running_worker_loops σ - 1)%nat
     else sc_running_worker_loops σ)
    (sc_dtor σ) (sc_accepted σ) (sc_fetched σ) (sc_handled σ).

(** The two parts of [request_stop], called by the owner or by the destructor. *)
Definition stop_running closing pc σ :=
  mkScheduler false closing (sc_queue σ) (sc_main σ) (sc_main_loop_finished σ) (sc_workers σ)
    (sc_running_worker_loops σ) pc (sc_accepted σ) (sc_fetched σ) (sc_handled σ).
Definition stop_close pc σ :=
  mkScheduler (sc_running σ) false (close (sc_queue σ)) (sc_main σ) (sc_main_loop_finished σ)
    (sc_workers σ) (sc_running_worker_loops σ) pc (sc_accepted σ) (sc_fetched σ) (sc_handled σ).

Inductive sstep (σ : scheduler) : scheduler → Prop :=
| s_dispatch pc : dispatch (sc_running σ) (sc_main σ) pc → sstep σ (set_main pc σ)
| s_push job ok q :
    sc_main σ = MPush job → push job (sc_queue σ) = Some (ok, q) → sstep σ (push_job job ok q σ)
| s_main_finished : sc_main σ = MMark → sstep σ (mark_main_loop_finished σ)
| s_fetch i r q :
    sc_workers σ !! i = Some WFetch → pop (sc_queue σ) = Some (r, q) → sstep σ (fetch_job i r q σ)
| s_work i pc pc' handled :
    sc_workers σ !! i = Some pc → work pc pc' handled → sstep σ (work_on i pc' handled σ)
| s_worker_finished i lost :
    sc_workers σ !! i = Some (WMark lost) → sstep σ (mark_worker_loop_finished i lost σ)
| s_request_stop :
    sc_dtor σ = Alive → sc_running σ = true → sstep σ (stop_running true Alive σ)
| s_request_stop_close :
    sc_closing σ = true → sstep σ (stop_close (sc_dtor σ) σ)
| s_dtor_stop :
    sc_dtor σ = Alive → sc_closing σ = false → sc_running σ = true → sstep σ (stop_running false DClose σ)
| s_dtor_stopped :
    sc_dtor σ = Alive → sc_closing σ = false → sc_running σ = false → sstep σ (set_dtor DWaitMain σ)
| s_dtor_close :
    sc_dtor σ = DClose → sstep σ (stop_close DWaitMain σ)
| s_dtor_main :
    sc_dtor σ = DWaitMain → sc_main_loop_finished σ = true → sstep σ (set_dtor (DJoin 0) σ)
| s_dtor_join i lost :
    sc_dtor σ = DJoin i → sc_workers σ !! i = Some (WEnded lost) → sstep σ (set_dtor (DJoin (S i)) σ)
| s_dtor_joined i :
    sc_dtor σ = DJoin i → sc_workers σ !! i = None → sstep σ (set_dtor DWaitWorkers σ)
| s_dtor_workers :
    sc_dtor σ = DWaitWorkers → sc_running_worker_loops σ = 0%nat → sstep σ (set_dtor Destroyed σ).

(** *** The invariant *)

Definition main_over (pc : main_pc) : bool := match pc with MFinished => true | _ => false end.
Definition ended (pc : worker_pc) : bool := match pc with WEnded _ => true | _ => false end.
Definition live (pc : worker_pc) : nat := if ended pc then 0 else 1.
Definition held (pc : worker_pc) : list JobExeData :=
  match pc with
  | WStart job | WExecute job | WReport job => [job]
  | WMark lost | WEnded lost => option_list lost
  | WFetch => []
  end.
(** The worker's loop ended because there was no job left. *)
Definition done_pc (pc : worker_pc) : bool :=
  match pc with WMark None | WEnded None => true | _ => false end.

Lemma sum_insert {A} (f : A → nat) l i x y :
  l !! i = Some x → (sum_list_with f (<[i:=y]> l) + f x = sum_list_with f l + f y)%nat.
Proof.
  revert i. induction l as [|z l IH]; intros [|i] Hi; simpl in *; try done.
  - injection Hi as ->. lia.
  - specialize (IH i Hi). lia.
Qed.

Lemma held_insert l i x y :
  l !! i = Some x →
  held x ++ concat (held <$> <[i:=y]> l) ≡ₚ held y ++ concat (held <$> l).
Proof.
  revert i. induction l as [|z l IH]; intros [|i] Hi; simpl in *; try done.
  - injection Hi as ->. apply Permutation_app_swap_app.
  - specialize (IH i Hi). rewrite Permutation_app_swap_app, IH. apply Permutation_app_swap_app.
Qed.

Lemma held_ended l : Forall (λ pc, pc = WEnded None) l → concat (held <$> l) = [].
Proof. by induction 1 as [|? ? -> _ IH]. Qed.

(** How far the destructor got. *)
Definition dtor_ok (σ : scheduler) : Prop :=
  match sc_dtor σ with
  | Alive => True
  | DClose | DWaitMain => sc_running σ = false
  | DJoin i => sc_running σ = false ∧ sc_main σ = MFinished ∧
      ∀ j, (j < i)%nat → ∃ lost, sc_workers σ !! j = Some (WEnded lost)
  | DWaitWorkers | Destroyed => sc_running σ = false ∧ sc_main σ = MFinished ∧
      ∀ j pc, sc_workers σ !! j = Some pc → ended pc = true
  end.

Record SchedInv (σ : scheduler) : Prop := {
  si_main : sc_main_loop_finished σ = main_over (sc_main σ);
  si_loops : sc_running_worker_loops σ = sum_list_with live (sc_workers σ);
  si_fifo : sc_accepted σ = (sc_fetched σ ++ queue_ (sc_queue σ))%list;
  si_held : sc_fetched σ ≡ₚ sc_handled σ ++ concat (held <$> sc_workers σ);
  si_done : ∀ i pc, sc_workers σ !! i = Some pc → done_pc pc = true →
    closed_ (sc_queue σ) = true ∧ queue_ (sc_queue σ) = [];
  si_closed : sc_running σ = false →
    sc_closing σ = true ∨ sc_dtor σ = DClose ∨ closed_ (sc_queue σ) = true;
  si_closing : sc_closing σ = true → sc_dtor σ = Alive;
  si_dtor : dtor_ok σ
}.

Lemma new_scheduler_inv n c : SchedInv (new_scheduler n c).
Proof.
  unfold new_scheduler. cbn zeta. set (k := if (n =? 0)%nat then 1%nat else n).
  split; cbn; try done.
  - induction k as [|k IH]; simpl; [done|]. by rewrite <- IH.
  - by induction k.
  - intros i pc [-> _]%lookup_replicate. done.
Qed.

(** A worker that is not at its end moves to [y]; the rest stays. *)
Lemma dtor_ok_worker σ σ' i x y :
  sc_workers σ !! i = Some x → ended x = false → sc_workers σ' = <[i:=y]> (sc_workers σ) →
  sc_main σ' = sc_main σ → sc_running σ' = sc_running σ → sc_dtor σ' = sc_dtor σ → dtor_ok σ → dtor_ok σ'.
Proof.
  unfold dtor_ok. intros Hi He -> -> -> ->. destruct (sc_dtor σ) as [| | |k| |]; try done.
  - intros (? & ? & Hj). split_and!; [done|done|]. intros j Hlt. destruct (Hj j Hlt) as [lost Hl].
    exists lost. rewrite list_lookup_insert_ne; [done|]. intros ->. rewrite Hi in Hl. by injection Hl as ->.
  - intros (_ & _ & Hj). by rewrite (Hj _ _ Hi) in He.
  - intros (_ & _ & Hj). by rewrite (Hj _ _ Hi) in He.
Qed.

(** The dispatcher moves; the rest stays. *)
Lemma dtor_ok_main σ σ' :
  sc_main σ ≠ MFinished → sc_workers σ' = sc_workers σ → sc_running σ' = sc_running σ →
  sc_dtor σ' = sc_dtor σ → dtor_ok σ → dtor_ok σ'.
Proof. unfold dtor_ok. intros Hm -> -> ->. destruct (sc_dtor σ); naive_solver. Qed.

Lemma done_insert (l : list worker_pc) (i : nat) y (P : Prop) :
  (∀ j pc, l !! j = Some pc → done_pc pc = true → P) → (done_pc y = true → P) →
  ∀ j pc, <[i:=y]> l !! j = Some pc → done_pc pc = true → P.
Proof.
  intros Hl Hy j pc Hj Hd. destruct (decide (i = j)) as [->|].
  - rewrite list_lookup_insert in Hj. destruct (decide _); naive_solver.
  - rewrite list_lookup_insert_ne in Hj by done. eauto.
Qed.

Lemma dispatch_over running pc pc' : dispatch running pc pc' → main_over pc = false ∧ main_over pc' = false.
Proof. intros []; split; repeat case_match; done. Qed.

(** The steps of the dispatcher. *)
Lemma dispatch_inv σ pc : dispatch (sc_running σ) (sc_main σ) pc → SchedInv σ → SchedInv (set_main pc σ).
Proof.
  intros [Ho Ho']%dispatch_over []. split; cbn; try done; [by rewrite Ho', si_main0, Ho|].
  apply (dtor_ok_main σ); [|done..]. by intros E; rewrite E in Ho.
Qed.

Lemma push_inv σ job ok q :
  sc_main σ = MPush job → push job (sc_queue σ) = Some (ok, q) → SchedInv σ → SchedInv (push_job job ok q σ).
Proof.
  intros Hm Hp []. unfold push in Hp.
  assert (dtor_ok (push_job job ok q σ)) by (apply (dtor_ok_main σ); [|done..]; by rewrite Hm).
  destruct (closed_ (sc_queue σ)) eqn:Ec; cbn [orb] in Hp.
  - injection Hp as <- <-. split; cbn; try done; (by rewrite si_main0, Hm) || by rewrite Ec.
  - destruct (_ <? _)%nat; [|done]. injection Hp as <- <-. split; cbn; try done.
    + by rewrite si_main0, Hm.
    + by rewrite si_fifo0, app_assoc.
    + intros i pc Hi Hd. destruct (si_done0 i pc Hi Hd). congruence.
Qed.

Lemma main_finished_inv σ : sc_main σ = MMark → SchedInv σ → SchedInv (mark_main_loop_finished σ).
Proof.
  intros Hm []. split; cbn; try done. apply (dtor_ok_main σ); [|done..]. by rewrite Hm.
Qed.

(** The steps of a worker. *)
Lemma fetch_inv σ i r q :
  sc_workers σ !! i = Some WFetch → pop (sc_queue σ) = Some (r, q) → SchedInv σ → SchedInv (fetch_job i r q σ).
Proof.
  intros Hi Hp []. unfold pop in Hp.
  set (y := match r with Some job => WStart job | None => WMark None end).
  assert (dtor_ok (fetch_job i r q σ)) by by eapply (dtor_ok_worker σ _ i WFetch y).
  pose proof (sum_insert live _ _ _ y Hi) as Hsum. pose proof (held_insert _ _ _ y Hi) as Hheld.
  destruct (closed_ _ || _) eqn:Eg; [|done].
  destruct (queue_ (sc_queue σ)) as [|x l] eqn:Eq; injection Hp as <- <-; subst y; cbn [live ended held] in *;
    split; cbn -[sum_list_with]; try done.
  - lia.
  - by rewrite Eq, app_nil_r, app_nil_r in *.
  - rewrite app_nil_r. cbn in Hheld. by rewrite Hheld.
  - rewrite Eq. apply done_insert; [done|]. intros _. split; [|done]. by destruct (closed_ (sc_queue σ)).
  - lia.
  - by rewrite si_fifo0, <- app_assoc.
  - cbn in Hheld. rewrite Hheld, si_held0. rewrite <- app_assoc. apply Permutation_app_head.
    by rewrite Permutation_app_comm.
  - apply done_insert; [|done]. intros j pc Hj Hd. by destruct (si_done0 j pc Hj Hd).
Qed.

Lemma work_facts pc pc' h : work pc pc' h →
  live pc = 1%nat ∧ live pc' = 1%nat ∧ ended pc = false ∧ done_pc pc' = false ∧
  held pc = (option_list h ++ held pc')%list.
Proof. intros []; try done. by destruct H as [-> | [-> | ->]]. Qed.

Lemma work_inv σ i pc pc' h :
  sc_workers σ !! i = Some pc → work pc pc' h → SchedInv σ → SchedInv (work_on i pc' h σ).
Proof.
  intros Hi (Hl & Hl' & He & Hd & Hh)%work_facts [].
  pose proof (sum_insert live _ _ _ pc' Hi) as Hsum. pose proof (held_insert _ _ _ pc' Hi) as Hheld.
  split; cbn; try done; [lia| |by apply done_insert; [|rewrite Hd]|by eapply (dtor_ok_worker σ _ i pc pc')].
  rewrite si_held0, <- app_assoc. apply Permutation_app_head.
  apply (Permutation_app_inv_l (held pc')). rewrite <- Hheld, Hh, <- !app_assoc.
  apply Permutation_app_swap_app.
Qed.

Lemma worker_finished_inv σ i lost :
  sc_workers σ !! i = Some (WMark lost) → SchedInv σ → SchedInv (mark_worker_loop_finished i lost σ).
Proof.
  intros Hi []. pose proof (sum_insert live _ _ _ (WEnded lost) Hi) as Hsum.
  pose proof (held_insert _ _ _ (WEnded lost) Hi) as Hheld. cbn in Hsum.
  split; cbn -[sum_list_with Nat.ltb]; try done.
  - destruct (Nat.ltb_spec 0 (sc_running_worker_loops σ)); lia.
  - rewrite si_held0. apply Permutation_app_head. by apply Permutation_app_inv_l in Hheld.
  - apply done_insert; [done|]. intros Hd. apply (si_done0 i (WMark lost)); by destruct lost.
  - by eapply (dtor_ok_worker σ _ i (WMark lost) (WEnded lost)).
Qed.

(** The steps of [request_stop] and of the destructor. *)
Lemma stop_running_inv closing pc σ :
  pc = Alive ∧ closing = true ∨ pc = DClose ∧ closing = false → SchedInv σ → SchedInv (stop_running closing pc σ).
Proof. intros Hc []. split; cbn; try done; [naive_solver|naive_solver|]. by destruct Hc as [[-> _]|[-> _]]. Qed.

Lemma stop_close_inv pc σ :
  pc = sc_dtor σ ∨ pc = DWaitMain ∧ sc_running σ = false → SchedInv σ → SchedInv (stop_close pc σ).
Proof.
  intros Hc []. split; cbn; try done; [|auto|].
  - intros i x Hi Hd. by destruct (si_done0 i x Hi Hd).
  - by destruct Hc as [-> | [-> ?]].
Qed.

Lemma set_dtor_inv pc σ :
  sc_closing σ = false ∧ sc_dtor σ ≠ DClose →
  dtor_ok (set_dtor pc σ) → SchedInv σ → SchedInv (set_dtor pc σ).
Proof.
  intros (Hc & H3) Hd []. split; cbn; try done; [|congruence].
  intros Hr. destruct (si_closed0 Hr) as [?|[?|?]]; [congruence..|auto].
Qed.

Lemma sstep_inv σ σ' : sstep σ σ' → SchedInv σ → SchedInv σ'.
Proof.
  intros Hs I. assert (sc_dtor σ ≠ Alive → sc_closing σ = false) as Hc.
  { destruct I. destruct (sc_closing σ); naive_solver. }
  destruct Hs as [| | | | | | | | |Hd Hc' Hr| |Hd Hf|i lost Hd Hl|i Hd Hl|Hd Hl].
  - by apply dispatch_inv.
  - by apply push_inv.
  - by apply main_finished_inv.
  - by apply fetch_inv.
  - by eapply work_inv.
  - by apply worker_finished_inv.
  - apply stop_running_inv; auto.
  - apply stop_close_inv; auto.
  - apply stop_running_inv; auto.
  - apply set_dtor_inv; [by split; [auto; rewrite Hd in *; auto|rewrite Hd]| |done]. done.
  - apply stop_close_inv; [|done]. right. split; [done|]. destruct I. unfold dtor_ok in *. by destruct (sc_dtor σ).
  - apply set_dtor_inv; [by split; [auto; rewrite Hd in *; auto|rewrite Hd]| |done]. destruct I as [Hm ? ? ? ? ? ? Ho]. unfold dtor_ok in *. cbn.
    rewrite Hd in Ho. split_and!; [done| |lia]. rewrite Hf in Hm. by destruct (sc_main σ).
  - apply set_dtor_inv; [by split; [auto; rewrite Hd in *; auto|rewrite Hd]| |done]. destruct I as [Hm ? ? ? ? ? ? Ho]. unfold dtor_ok in *. cbn.
    rewrite Hd in Ho. destruct Ho as (? & ? & Ho). split_and!; [done|done|]. intros j Hj.
    destruct (decide (j = i)) as [->|]; [eauto|]. apply Ho. lia.
  - apply set_dtor_inv; [by split; [auto; rewrite Hd in *; auto|rewrite Hd]| |done]. destruct I as [Hm ? ? ? ? ? ? Ho]. unfold dtor_ok in *. cbn.
    rewrite Hd in Ho. destruct Ho as (? & ? & Ho). split_and!; [done|done|]. intros j pc Hj.
    apply lookup_ge_None in Hl. apply lookup_lt_Some in Hj as Hlt. destruct (Ho j) as [lost Hlo]; [lia|].
    rewrite Hlo in Hj. by injection Hj as <-.
  - apply set_dtor_inv; [by split; [auto; rewrite Hd in *; auto|rewrite Hd]| |done]. destruct I as [Hm ? ? ? ? ? ? Ho]. unfold dtor_ok in *. cbn.
    by rewrite Hd in Ho.
Qed.

Lemma sstep_workers σ σ' : sstep σ σ' → length (sc_workers σ') = length (sc_workers σ).
Proof. intros []; cbn; by rewrite ?length_insert. Qed.

Lemma ssteps_inv σ σ' :
  rtc sstep σ σ' → SchedInv σ → SchedInv σ' ∧ length (sc_workers σ') = length (sc_workers σ).
Proof.
  induction 1 as [|σ1 σ2 σ3 Hs _ IH]; [done|]. intros I.
  destruct (IH (sstep_inv _ _ Hs I)) as [? ->]. split; [done|by apply sstep_workers].
Qed.

Lemma new_scheduler_workers n c : (0 < length (sc_workers (new_scheduler n c)))%nat.
Proof. cbn. rewrite length_replicate. destruct n; cbn; lia. Qed.

(** *** After the stop *)

Definition main_rank (pc : main_pc) : nat :=
  match pc with
  | MFinished => 0 | MMark => 1 | MLoop | MNone => 2 | MAborted | MNext | MRecheck => 3
  | MPush _ => 7 | MPayload _ => 8 | MRuntime => 9 | MDequeue => 10
  end.
Definition worker_rank (pc : worker_pc) : nat :=
  match pc with
  | WEnded _ => 0 | WMark _ => 1 | WFetch => 2 | WReport _ => 3 | WExecute _ => 4 | WStart _ => 5
  end.
Definition dtor_rank (workers : nat) (pc : dtor_pc) : nat :=
  match pc with
  | Destroyed => 0 | DWaitWorkers => 1 | DJoin i => workers - i + 2
  | DWaitMain => workers + 3 | DClose => workers + 4 | Alive => workers + 5
  end.

(** A bound on the steps that are left once the scheduler was asked to stop. *)
Definition stop_bound (σ : scheduler) : nat :=
  main_rank (sc_main σ) + sum_list_with worker_rank (sc_workers σ) + 4 * length (queue_ (sc_queue σ)) +
  dtor_rank (length (sc_workers σ)) (sc_dtor σ) + (if sc_closing σ then 1 else 0).

Lemma dispatch_rank pc pc' : dispatch false pc pc' → (main_rank pc' < main_rank pc)%nat.
Proof. intros Hd. inversion Hd; subst; repeat case_match; cbn in *; try done; lia. Qed.

Lemma work_rank pc pc' h : work pc pc' h → (worker_rank pc' < worker_rank pc)%nat.
Proof. intros []; cbn; try lia. destruct H as [-> | [-> | ->]]; cbn; lia. Qed.

Lemma sstep_bound σ σ' :
  sc_running σ = false → sstep σ σ' → sc_running σ' = false ∧ (stop_bound σ' < stop_bound σ)%nat.
Proof.
  intros Hr Hs. unfold stop_bound.
  destruct Hs as [pc Hd|job ok q Hm Hp|Hm|i r q Hi Hp|i pc pc' h Hi Hw|i lost Hi| |Hc|
                 |Hd Hc _|Hd|Hd Hf|i lost Hd Hl|i Hd Hl|Hd Hl]; try congruence; split; try done;
    cbn -[Nat.mul dtor_rank sum_list_with].
  - rewrite Hr in Hd. apply dispatch_rank in Hd. lia.
  - rewrite Hm. unfold push in Hp. destruct (closed_ _) eqn:Ec; cbn [orb] in Hp; [injection Hp as <- <-; cbn; lia|].
    destruct (_ <? _)%nat; [|done]. injection Hp as <- <-. cbn [queue_]. rewrite length_app. cbn. lia.
  - rewrite Hm. cbn. lia.
  - unfold pop in Hp. rewrite length_insert. destruct (_ || _); [|done].
    destruct (queue_ (sc_queue σ)) as [|x l] eqn:Eq; injection Hp as <- <-; [rewrite Eq|].
    + pose proof (sum_insert worker_rank _ _ _ (WMark None) Hi) as E. cbn [worker_rank] in E. lia.
    + pose proof (sum_insert worker_rank _ _ _ (WStart x) Hi) as E. cbn [worker_rank] in E. cbn [queue_ length]. lia.
  - rewrite length_insert. pose proof (sum_insert worker_rank _ _ _ pc' Hi). apply work_rank in Hw. lia.
  - rewrite length_insert. pose proof (sum_insert worker_rank _ _ _ (WEnded lost) Hi) as E. cbn [worker_rank] in E. lia.
  - rewrite Hc. cbn. lia.
  - rewrite Hd. cbn. lia.
  - rewrite Hd. cbn. case_match; lia.
  - rewrite Hd. cbn. lia.
  - rewrite Hd. apply lookup_lt_Some in Hl. cbn. lia.
  - rewrite Hd. cbn. lia.
  - rewrite Hd. cbn. lia.
Qed.

Lemma sstep_steps_bound k σ σ' :
  sc_running σ = false → nsteps sstep k σ σ' → (k + stop_bound σ' ≤ stop_bound σ)%nat.
Proof.
  intros Hr Hs. revert Hr. induction Hs as [σ|k σ σ1 σ2 Hs _ IH]; intros Hr; [done|].
  apply sstep_bound in Hs as [Hr1 Hlt]; [|done]. specialize (IH Hr1). lia.
Qed.

(** A thread that waits can go on once the queue is closed. *)
Lemma main_moves σ :
  closed_ (sc_queue σ) = true → sc_main σ = MFinished ∨ ∃ σ', sstep σ σ'.
Proof.
  intros Hc. destruct (sc_main σ) eqn:Em; [right..|by left]; eexists.
  all: try (apply s_dispatch; rewrite Em; first [apply d_no_payload|by constructor]).
  - eapply s_push; [done|]. unfold push. by rewrite Hc.
  - by apply s_main_finished.
Qed.

Lemma worker_moves σ i pc :
  closed_ (sc_queue σ) = true → sc_workers σ !! i = Some pc → ended pc = true ∨ ∃ σ', sstep σ σ'.
Proof.
  intros Hc Hi. destruct pc; [right..|by left].
  - destruct (pop (sc_queue σ)) as [[r q]|] eqn:Ep; [by eexists; eapply s_fetch|].
    unfold pop in Ep. rewrite Hc in Ep. by destruct (queue_ _).
  - eexists. by eapply s_work; [|constructor].
  - eexists. by eapply s_work; [|constructor].
  - eexists. by eapply s_work; [|constructor].
  - eexists. by eapply s_worker_finished.
Qed.

Lemma live_ended l : (∀ i pc, l !! i = Some pc → ended pc = true) → sum_list_with live l = 0%nat.
Proof.
  induction l as [|x l IH]; intros H; [done|]. cbn [sum_list_with]. unfold live at 1.
  rewrite (H 0%nat x eq_refl). apply (IH (λ i, H (S i))).
Qed.

(** A scheduler that was asked to stop and has nothing left to do is destroyed. *)
Lemma stuck_destroyed σ :
  SchedInv σ → sc_running σ = false → (∀ σ', ¬ sstep σ σ') → sc_dtor σ = Destroyed.
Proof.
  intros I Hr Hstuck. destruct I as [Hm Hl _ _ _ Hc Hcl Hd].
  assert (sc_closing σ = false) as Ec
    by (destruct (sc_closing σ) eqn:E; [by edestruct Hstuck; apply s_request_stop_close|done]).
  assert (sc_dtor σ ≠ DClose) as Hnc by (intros E; by edestruct Hstuck; apply s_dtor_close).
  assert (closed_ (sc_queue σ) = true) as Hq by (destruct (Hc Hr) as [|[|]]; congruence).
  assert (sc_main σ = MFinished) as Em
    by (destruct (main_moves σ Hq) as [|[σ' Hs]]; [done|by destruct (Hstuck σ')]).
  assert (∀ i pc, sc_workers σ !! i = Some pc → ended pc = true) as Hw
    by (intros i pc Hi; destruct (worker_moves σ i pc Hq Hi) as [|[σ' Hs]]; [done|by destruct (Hstuck σ')]).
  rewrite Em in Hm. rewrite (live_ended _ Hw) in Hl.
  destruct (sc_dtor σ) as [| | |i| |] eqn:Ed; try done.
  - by edestruct Hstuck; apply s_dtor_stopped.
  - by edestruct Hstuck; apply s_dtor_main.
  - destruct (sc_workers σ !! i) as [pc|] eqn:Ei; [|by edestruct Hstuck; eapply s_dtor_joined].
    pose proof (Hw _ _ Ei). destruct pc; try done. by edestruct Hstuck; eapply s_dtor_join.
  - by edestruct Hstuck; apply s_dtor_workers.
Qed.

(** ** The completion handler and the retry handler

    Both run a main loop with a loop inside that looks for a message. *)

Inductive handler_pc :=
| HLoop                          (* while (running_) *)
| HGet                           (* while (running_) of get_completed_jobs, get_retry_job *)
| HFirst                         (* its first awaited call *)
| HSecond                        (* its second *)
| HNone                          (* it gave false: if (!running_) *)
| HProcess                       (* process_completed_jobs, process_retry_job *)
| HMark                          (* mark_main_loop_finished *)
| HFinished.

(** What the loops share. *)
Inductive handler_loop : bool → handler_pc → handler_pc → Prop :=
| h_loop running : handler_loop running HLoop (if running then HGet else HMark)
| h_get running : handler_loop running HGet (if running then HFirst else HNone)
| h_none running : handler_loop running HNone (if running then HLoop else HMark)
| h_processed running : handler_loop running HProcess HLoop
| h_throws running pc :
    match pc with HFirst | HSecond | HProcess => True | _ => False end → handler_loop running pc HMark.

(** [get_completed_jobs] waits for an event, then takes a message. *)
Inductive completion_loop : bool → handler_pc → handler_pc → Prop :=
| c_shared running pc pc' : handler_loop running pc pc' → completion_loop running pc pc'
| c_timeout running : completion_loop running HFirst HGet
| c_error running : completion_loop running HFirst HNone
| c_event running : completion_loop running HFirst HSecond
| c_dequeue_failed running : completion_loop running HSecond HNone
| c_dequeue_empty running : completion_loop running HSecond HGet
| c_dequeued running : completion_loop running HSecond HProcess.

(** [get_retry_job] takes a due job, or else waits for an event. *)
Inductive retry_loop : bool → handler_pc → handler_pc → Prop :=
| r_shared running pc pc' : handler_loop running pc pc' → retry_loop running pc pc'
| r_dequeue_failed running : retry_loop running HFirst HNone
| r_dequeued running : retry_loop running HFirst HProcess
| r_not_due running : retry_loop running HFirst HSecond
| r_timeout_or_event running : retry_loop running HSecond HGet
| r_error running : retry_loop running HSecond HNone.

Definition handler_rank (pc : handler_pc) : nat :=
  match pc with
  | HFinished => 0 | HMark => 1 | HLoop | HNone => 2 | HGet | HProcess => 3 | HSecond => 4 | HFirst => 5
  end.

(** What the destructor of a handler relies on: the loop can always go on until
    its end, and does not go round once [running_] is [false]. *)
Class StopsOnRequest (loop : bool → handler_pc → handler_pc → Prop) := {
  loop_goes_on running pc : pc ≠ HMark → pc ≠ HFinished → ∃ pc', loop running pc pc';
  loop_ends running pc pc' : loop running pc pc' → pc ≠ HMark ∧ pc ≠ HFinished ∧ pc' ≠ HFinished;
  loop_runs_out pc pc' : loop false pc pc' → (handler_rank pc' < handler_rank pc)%nat
}.

Lemma handler_loop_facts running pc pc' :
  handler_loop running pc pc' →
  (pc ≠ HMark ∧ pc ≠ HFinished ∧ pc' ≠ HFinished) ∧
  (running = false → (handler_rank pc' < handler_rank pc)%nat).
Proof. intros [| | | |r []]; repeat case_match; split_and!; intros; subst; cbn in *; try done; lia. Qed.

#[export] Instance completion_loop_stops : StopsOnRequest completion_loop.
Proof.
  split.
  - intros running [] ? ?; try done; eexists; first [by do 2 constructor|by constructor].
  - intros running pc pc' Hl. inversion Hl; subst; try done. by apply (handler_loop_facts running).
  - intros pc pc' Hl. inversion Hl; subst; cbn; try lia. by apply (handler_loop_facts false).
Qed.

#[export] Instance retry_loop_stops : StopsOnRequest retry_loop.
Proof.
  split.
  - intros running [] ? ?; try done; eexists; first [by do 2 constructor|by constructor].
  - intros running pc pc' Hl. inversion Hl; subst; try done. by apply (handler_loop_facts running).
  - intros pc pc' Hl. inversion Hl; subst; cbn; try lia. by apply (handler_loop_facts false).
Qed.

Inductive handler_dtor := HAlive | HWaitMain | HDestroyed.

(** [hd_pc] is [None] when no loop was started. *)
Record message_handler := mkHandler {
  hd_running : bool; hd_main_loop_started : bool; hd_main_loop_finished : bool;
  hd_pc : option handler_pc; hd_dtor : handler_dtor }.

(** The constructors; [start] spawns the loop. *)
Definition new_handler (auto_start : bool) : message_handler :=
  if auto_start then mkHandler true true false (Some HLoop) HAlive
  else mkHandler true false false None HAlive.

Definition hd_request_stop (h : message_handler) : message_handler :=
  mkHandler false (hd_main_loop_started h) (hd_main_loop_finished h) (hd_pc h) (hd_dtor h).
Definition hd_move (pc : handler_pc) (h : message_handler) : message_handler :=
  mkHandler (hd_running h) (hd_main_loop_started h) (hd_main_loop_finished h) (Some pc) (hd_dtor h).
Definition hd_mark_main_loop_finished (h : message_handler) : message_handler :=
  mkHandler (hd_running h) (hd_main_loop_started h) true (Some HFinished) (hd_dtor h).
Definition hd_set_dtor (pc : handler_dtor) (h : message_handler) : message_handler :=
  mkHandler (hd_running h) (hd_main_loop_started h) (hd_main_loop_finished h) (hd_pc h) pc.

(** [wait_for_main_loop_finished] lets its caller go on. *)
Definition hd_may_go (h : message_handler) : bool := negb (hd_main_loop_started h) || hd_main_loop_finished h.

Section handler.
Context (loop : bool → handler_pc → handler_pc → Prop) `{!StopsOnRequest loop}.

Inductive hstep (h : message_handler) : message_handler → Prop :=
| h_move pc pc' : hd_pc h = Some pc → loop (hd_running h) pc pc' → hstep h (hd_move pc' h)
| h_finished : hd_pc h = Some HMark → hstep h (hd_mark_main_loop_finished h)
| h_request_stop : hd_dtor h = HAlive → hd_running h = true → hstep h (hd_request_stop h)
| h_dtor_stop : hd_dtor h = HAlive → hstep h (hd_set_dtor HWaitMain (hd_request_stop h))
| h_dtor_waited : hd_dtor h = HWaitMain → hd_may_go h = true → hstep h (hd_set_dtor HDestroyed h).

(** The loop runs no more. *)
Definition loop_over (h : message_handler) : Prop := hd_pc h = None ∨ hd_pc h = Some HFinished.

Record HandlerInv (h : message_handler) : Prop := {
  hi_started : hd_main_loop_started h = false ↔ hd_pc h = None;
  hi_finished : hd_main_loop_finished h = true ↔ hd_pc h = Some HFinished;
  hi_dtor : hd_dtor h ≠ HAlive → hd_running h = false;
  hi_destroyed : hd_dtor h = HDestroyed → loop_over h
}.

Lemma new_handler_inv auto_start : HandlerInv (new_handler auto_start).
Proof. by destruct auto_start. Qed.

Lemma hstep_inv h h' : hstep h h' → HandlerInv h → HandlerInv h'.
Proof.
  intros Hs [Hst Hf Hd Hx]. unfold loop_over in *. destruct Hs as [pc pc' Hp Hl|Hp| |Ha|Hw Hg].
  - destruct (loop_ends _ _ _ Hl) as (? & ? & ?). rewrite Hp in *. split; cbn; naive_solver.
  - rewrite Hp in *. split; cbn; naive_solver.
  - split; cbn; naive_solver.
  - split; cbn; naive_solver.
  - split; cbn; [done|done|intros _; apply Hd; by rewrite Hw|]. intros _. unfold hd_may_go, loop_over in *. cbn.
    apply orb_true_iff in Hg as [Hg%negb_true_iff|Hg]; [left; by apply Hst|right; by apply Hf].
Qed.

Lemma hsteps_inv h h' : rtc hstep h h' → HandlerInv h → HandlerInv h'.
Proof. induction 1; eauto using hstep_inv. Qed.

Lemma hsteps_started h h' : rtc hstep h h' → hd_main_loop_started h' = hd_main_loop_started h.
Proof. induction 1 as [|h1 h2 h3 Hs _ IH]; [done|]. rewrite IH. by destruct Hs. Qed.

(** A loop that runs no more ended, if it was started. *)
Lemma handler_over h :
  HandlerInv h → loop_over h →
  if hd_main_loop_started h then hd_pc h = Some HFinished else hd_pc h = None.
Proof.
  intros [Hst _ _ _] Ho. destruct (hd_main_loop_started h); [|by apply Hst].
  destruct Ho as [Ho|]; [|done]. by apply Hst in Ho.
Qed.

Definition hd_bound (h : message_handler) : nat :=
  from_option handler_rank 0%nat (hd_pc h) +
  match hd_dtor h with HAlive => 2 | HWaitMain => 1 | HDestroyed => 0 end.

Lemma hstep_bound h h' :
  hd_running h = false → hstep h h' → hd_running h' = false ∧ (hd_bound h' < hd_bound h)%nat.
Proof.
  intros Hr Hs. unfold hd_bound. destruct Hs as [pc pc' Hp Hl|Hp| |Ha|Hw Hg]; split; cbn; try congruence.
  - rewrite Hr in Hl. apply loop_runs_out in Hl. rewrite Hp. cbn. lia.
  - rewrite Hp. cbn. lia.
  - rewrite Ha. lia.
  - rewrite Hw. lia.
Qed.

Lemma hstep_steps_bound k h h' :
  hd_running h = false → nsteps hstep k h h' → (k + hd_bound h' ≤ hd_bound h)%nat.
Proof.
  intros Hr Hs. revert Hr. induction Hs as [h|k h h1 h2 Hs _ IH]; intros Hr; [done|].
  apply hstep_bound in Hs as [Hr1 Hlt]; [|done]. specialize (IH Hr1). lia.
Qed.

Lemma handler_stuck h :
  HandlerInv h → (∀ h', ¬ hstep h h') → hd_dtor h = HDestroyed ∧ loop_over h.
Proof.
  intros [Hst Hf _ _] Hstuck.
  assert (loop_over h) as Ho.
  { unfold loop_over. destruct (hd_pc h) as [pc|] eqn:Ep; [|by left]. right. f_equal.
    destruct pc; try done; try (edestruct Hstuck; by apply h_finished).
    all: edestruct (loop_goes_on (hd_running h)) as [pc' Hl]; [| |edestruct Hstuck; by eapply h_move]; done. }
  split; [|done]. destruct (hd_dtor h) eqn:Ed; [|..|done].
  - by edestruct Hstuck; apply h_dtor_stop.
  - edestruct Hstuck. apply h_dtor_waited; [done|]. unfold hd_may_go, loop_over in *. apply orb_true_iff.
    destruct Ho as [Ho|Ho]; [left; by apply negb_true_iff, Hst|right; by apply Hf].
Qed.
End handler.
