(* ===== verification/Lifecycle.v ===== *)
(** * The runtime and its components

    src/src/flow_pilot_runtime.cpp: the object that owns the schedulers, the
    completion handlers, the retry handler and the I/O threads.

    Each operation is what it does under the mutex; [shutdown] has two critical
    sections, between which other calls can run.  Components are numbered as
    they are created; [fr_unstopped] are those that were started and whose
    [request_stop] has not been called.  A component that was asked to stop runs
    on until its destructor has joined its threads ([Shutdown]). *)

From S2P Require Import Prelude.

Record FlowPilotRuntimeStatus := mkRuntimeStatus {
  rs_redis_io_threads : nat; rs_scheduler_count : nat; rs_completion_handler_count : nat;
  rs_retry_handler_count : nat; rs_started : bool; rs_shutting_down : bool }.

Record FlowPilotRuntime := mkRuntime {
  fr_redis_io_thread_count : nat;
  fr_initial_scheduler_count : nat;
  fr_initial_completion_handler_count : nat;
  fr_schedulers : list nat;
  fr_completion_handlers : list nat;
  fr_retry_handler : option nat;
  fr_redis_io_threads : nat;
  fr_started : bool;
  fr_shutting_down : bool;
  fr_unstopped : list nat;
  fr_created : nat }.

(** The constructor. *)
Definition new_runtime (redis_io_threads scheduler_count completion_handler_count : nat) : FlowPilotRuntime :=
  mkRuntime (Nat.max 1 redis_io_threads) (Nat.max 1 scheduler_count) (Nat.max 1 completion_handler_count)
    [] [] None 0 false false [] 0.

(** The components a runtime owns. *)
Definition components (r : FlowPilotRuntime) : list nat :=
  fr_completion_handlers r ++ option_list (fr_retry_handler r) ++ fr_schedulers r.

Definition start (r : FlowPilotRuntime) : FlowPilotRuntime :=
  if fr_started r || fr_shutting_down r then r
  else
    let n := fr_created r in
    let handlers := seq n (fr_initial_completion_handler_count r) in
    let n1 := (n + fr_initial_completion_handler_count r)%nat in
    let schedulers := seq (S n1) (fr_initial_scheduler_count r) in
    mkRuntime (fr_redis_io_thread_count r) (fr_initial_scheduler_count r)
      (fr_initial_completion_handler_count r)
      (fr_schedulers r ++ schedulers) (fr_completion_handlers r ++ handlers) (Some n1)
      (fr_redis_io_threads r + fr_redis_io_thread_count r) true (fr_shutting_down r)
      (fr_unstopped r ++ handlers ++ [n1] ++ schedulers)
      (S n1 + fr_initial_scheduler_count r).

(** The first critical section: every component is asked to stop, and they are
    moved out to be destroyed. *)
Definition shutdown_begin (r : FlowPilotRuntime) : FlowPilotRuntime :=
  if fr_shutting_down r then r
  else mkRuntime (fr_redis_io_thread_count r) (fr_initial_scheduler_count r)
         (fr_initial_completion_handler_count r) [] [] None (fr_redis_io_threads r) (fr_started r) true
         (List.filter (λ c, negb (bool_decide (c ∈ components r))) (fr_unstopped r)) (fr_created r).

(** The second: the I/O threads are moved out to be joined. *)
Definition shutdown_end (r : FlowPilotRuntime) : FlowPilotRuntime :=
  mkRuntime (fr_redis_io_thread_count r) (fr_initial_scheduler_count r)
    (fr_initial_completion_handler_count r) (fr_schedulers r) (fr_completion_handlers r)
    (fr_retry_handler r) 0 false (fr_shutting_down r) (fr_unstopped r) (fr_created r).

Definition with_schedulers (l : list nat) (unstopped : list nat) (created : nat) (r : FlowPilotRuntime) :=
  mkRuntime (fr_redis_io_thread_count r) (fr_initial_scheduler_count r)
    (fr_initial_completion_handler_count r) l (fr_completion_handlers r) (fr_retry_handler r)
    (fr_redis_io_threads r) (fr_started r) (fr_shutting_down r) unstopped created.

Definition with_handlers (l : list nat) (unstopped : list nat) (created : nat) (r : FlowPilotRuntime) :=
  mkRuntime (fr_redis_io_thread_count r) (fr_initial_scheduler_count r)
    (fr_initial_completion_handler_count r) (fr_schedulers r) l (fr_retry_handler r)
    (fr_redis_io_threads r) (fr_started r) (fr_shutting_down r) unstopped created.

Definition add_scheduler (r : FlowPilotRuntime) : FlowPilotRuntime :=
  if negb (fr_started r) || fr_shutting_down r then r
  else with_schedulers (fr_schedulers r ++ [fr_created r]) (fr_unstopped r ++ [fr_created r])
         (S (fr_created r)) r.

Definition remove_scheduler (r : FlowPilotRuntime) : bool * FlowPilotRuntime :=
  match last (fr_schedulers r) with
  | Some c =>
      if negb (fr_started r) || fr_shutting_down r then (false, r)
      else (true, with_schedulers (removelast (fr_schedulers r))
                    (List.filter (λ x, negb (x =? c)%nat) (fr_unstopped r)) (fr_created r) r)
  | None => (false, r)
  end.

Definition add_completion_handler (r : FlowPilotRuntime) : FlowPilotRuntime :=
  if negb (fr_started r) || fr_shutting_down r then r
  else with_handlers (fr_completion_handlers r ++ [fr_created r]) (fr_unstopped r ++ [fr_created r])
         (S (fr_created r)) r.

Definition remove_completion_handler (r : FlowPilotRuntime) : bool * FlowPilotRuntime :=
  match last (fr_completion_handlers r) with
  | Some c =>
      if negb (fr_started r) || fr_shutting_down r then (false, r)
      else (true, with_handlers (removelast (fr_completion_handlers r))
                    (List.filter (λ x, negb (x =? c)%nat) (fr_unstopped r)) (fr_created r) r)
  | None => (false, r)
  end.

Definition status (r : FlowPilotRuntime) : FlowPilotRuntimeStatus :=
  mkRuntimeStatus (fr_redis_io_threads r) (length (fr_schedulers r)) (length (fr_completion_handlers r))
    (length (option_list (fr_retry_handler r))) (fr_started r) (fr_shutting_down r).

(** The calls, interleaved at their critical sections; a thread that is inside
    [shutdown] makes the second after the first. *)
Inductive rstep : FlowPilotRuntime → FlowPilotRuntime → Prop :=
| rstep_start r : rstep r (start r)
| rstep_shutdown_begin r : rstep r (shutdown_begin r)
| rstep_shutdown_end r : fr_shutting_down r = true → rstep r (shutdown_end r)
| rstep_add_scheduler r : rstep r (add_scheduler r)
| rstep_remove_scheduler r : rstep r (remove_scheduler r).2
| rstep_add_handler r : rstep r (add_completion_handler r)
| rstep_remove_handler r : rstep r (remove_completion_handler r).2.

(** ** Ownership *)

(** The components not asked to stop are the owned ones, each once; there are
    none before [start] and after the first part of [shutdown]. *)
Record RuntimeInv (r : FlowPilotRuntime) : Prop := {
  own_unstopped : fr_unstopped r ≡ₚ components r;
  own_nodup : NoDup (components r);
  own_created : Forall (λ c, (c < fr_created r)%nat) (components r);
  own_idle : fr_started r = false ∨ fr_shutting_down r = true → components r = [];
  own_threads : fr_started r = false → fr_redis_io_threads r = 0%nat;
  own_counts : fr_started r = true → fr_redis_io_threads r = fr_redis_io_thread_count r
}.

Lemma filter_perm_remove (c : nat) l l' :
  NoDup l → l ≡ₚ c :: l' → List.filter (λ x, negb (x =? c)%nat) l ≡ₚ l'.
Proof.
  intros Hn Hp. assert (NoDup (c :: l')) as Hn' by (by rewrite <- Hp).
  apply NoDup_cons in Hn' as [Hc Hn'].
  assert (∀ p, List.filter p l ≡ₚ List.filter p (c :: l')) as ->.
  { intros p. clear Hn Hc Hn'. induction Hp; simpl; repeat case_match; try done; by econstructor. }
  simpl. rewrite Nat.eqb_refl. simpl. clear Hp Hn'.
  induction l' as [|x l' IH]; [done|]. apply not_elem_of_cons in Hc as [Hx Hc]. simpl.
  destruct (Nat.eqb_spec x c); [by subst|]. simpl. by rewrite IH.
Qed.

Lemma filter_all_removed (l l' : list nat) :
  l ≡ₚ l' → List.filter (λ c, negb (bool_decide (c ∈ l'))) l = [].
Proof.
  intros Hp. assert (∀ k, k ⊆ l' → List.filter (λ c, negb (bool_decide (c ∈ l'))) k = []) as Hk.
  { induction k as [|x k IH]; intros Hk; [done|]. simpl. rewrite bool_decide_true by (apply Hk; left).
    simpl. apply IH. intros y Hy. apply Hk. by right. }
  apply Hk. intros x. by rewrite Hp.
Qed.

Lemma last_snoc l (c : nat) : last l = Some c → l = (removelast l ++ [c])%list.
Proof.
  intros [l' ->]%last_Some. by rewrite removelast_last.
Qed.

Lemma new_runtime_inv a b c : RuntimeInv (new_runtime a b c).
Proof. by split; try done; constructor. Qed.

Lemma seq_below n k m : (n + k ≤ m)%nat → Forall (λ c, (c < m)%nat) (seq n k).
Proof. intros Hm. apply Forall_forall. intros x Hx%elem_of_seq. lia. Qed.

Lemma start_inv r : RuntimeInv r → RuntimeInv (start r).
Proof.
  intros Hr. unfold start. destruct (fr_started r) eqn:Es; [done|]. destruct (fr_shutting_down r) eqn:Ed; [done|].
  simpl. destruct Hr as [Hp Hn Hc Hi Ht _]. rewrite (Hi (or_introl Es)) in *.
  assert (fr_completion_handlers r = [] ∧ fr_retry_handler r = None ∧ fr_schedulers r = []) as (E1 & E2 & E3).
  { specialize (Hi (or_introl Es)). unfold components in Hi.
    apply app_nil in Hi as [? [Hr ?]%app_nil]. by destruct (fr_retry_handler r). }
  apply Permutation_nil_r in Hp. split; unfold components; simpl; rewrite ?E1, ?E3, ?Hp; simpl; try done.
  - apply NoDup_app. split; [apply NoDup_seq|]. split.
    + intros x Hx%elem_of_seq [->|Hy%elem_of_seq]%elem_of_cons; lia.
    + apply NoDup_cons. split; [intros Hx%elem_of_seq; lia|apply NoDup_seq].
  - apply Forall_app. split; [apply seq_below; lia|]. constructor; [lia|]. apply seq_below. lia.
  - naive_solver.
  - intros _. by rewrite Ht.
Qed.

Lemma shutdown_begin_inv r : RuntimeInv r → RuntimeInv (shutdown_begin r).
Proof.
  intros Hr. unfold shutdown_begin. destruct (fr_shutting_down r) eqn:Ed; [done|].
  destruct Hr as [Hp Hn Hc Hi Ht Hk]. split; simpl; try done; try constructor.
  change (components (mkRuntime _ _ _ _ _ _ _ _ _ _ _)) with (@nil nat).
  by rewrite (filter_all_removed _ _ Hp).
Qed.

Lemma shutdown_end_inv r : fr_shutting_down r = true → RuntimeInv r → RuntimeInv (shutdown_end r).
Proof.
  intros Ed [Hp Hn Hc Hi Ht Hk]. split; simpl; try done. intros _. apply Hi. by right.
Qed.

(** Adding a component that is created and started. *)
Lemma grow_inv r r' :
  RuntimeInv r → fr_started r = true → fr_shutting_down r = false →
  fr_started r' = true → fr_shutting_down r' = false →
  fr_redis_io_threads r' = fr_redis_io_threads r → fr_redis_io_thread_count r' = fr_redis_io_thread_count r →
  components r' ≡ₚ fr_created r :: components r →
  fr_unstopped r' ≡ₚ fr_created r :: fr_unstopped r → fr_created r' = S (fr_created r) → RuntimeInv r'.
Proof.
  intros [Hp Hn Hc Hi Ht Hk] Es Ed Es' Ed' Et Etc Hcomp Hrun Hcr.
  split.
  - by rewrite Hrun, Hcomp, Hp.
  - rewrite Hcomp. apply NoDup_cons. split; [|done]. rewrite Forall_forall in Hc. intros Hx%Hc. lia.
  - rewrite Hcomp, Hcr. constructor; [lia|]. eapply Forall_impl; [exact Hc|]. simpl. lia.
  - rewrite Es', Ed'. by intros [|].
  - by rewrite Es'.
  - intros _. rewrite Et, Etc. by apply Hk.
Qed.

(** Removing a component that is asked to stop. *)
Lemma shrink_inv r r' c :
  RuntimeInv r → fr_started r = true → fr_shutting_down r = false →
  fr_started r' = true → fr_shutting_down r' = false →
  fr_redis_io_threads r' = fr_redis_io_threads r → fr_redis_io_thread_count r' = fr_redis_io_thread_count r →
  components r ≡ₚ c :: components r' →
  fr_unstopped r' = List.filter (λ x, negb (x =? c)%nat) (fr_unstopped r) → fr_created r' = fr_created r →
  RuntimeInv r'.
Proof.
  intros [Hp Hn Hc Hi Ht Hk] Es Ed Es' Ed' Et Etc Hcomp Hrun Hcr.
  assert (NoDup (c :: components r')) as [_ Hn']%NoDup_cons by (by rewrite <- Hcomp).
  split.
  - rewrite Hrun. apply filter_perm_remove; [by rewrite Hp|]. by rewrite Hp.
  - done.
  - rewrite Hcomp in Hc. rewrite Hcr. by inversion Hc.
  - rewrite Es', Ed'. by intros [|].
  - by rewrite Es'.
  - intros _. rewrite Et, Etc. by apply Hk.
Qed.

Lemma rstep_inv r r' : rstep r r' → RuntimeInv r → RuntimeInv r'.
Proof.
  intros Hs Hr. destruct Hs as [r|r|r Hd|r|r|r|r].
  - by apply start_inv.
  - by apply shutdown_begin_inv.
  - by apply shutdown_end_inv.
  - unfold add_scheduler. destruct (fr_started r) eqn:Es, (fr_shutting_down r) eqn:Ed; try done. simpl.
    eapply grow_inv; [exact Hr|done..| | |done]; unfold components, with_schedulers; simpl; solve_Permutation.
  - unfold remove_scheduler. destruct (last _) as [c|] eqn:El; [|done].
    destruct (fr_started r) eqn:Es, (fr_shutting_down r) eqn:Ed; try done. simpl.
    eapply (shrink_inv r _ c); [exact Hr|done..| |done|done]. unfold components, with_schedulers. simpl.
    apply last_snoc in El. rewrite El at 1. solve_Permutation.
  - unfold add_completion_handler. destruct (fr_started r) eqn:Es, (fr_shutting_down r) eqn:Ed; try done. simpl.
    eapply grow_inv; [exact Hr|done..| | |done]; unfold components, with_handlers; simpl; solve_Permutation.
  - unfold remove_completion_handler. destruct (last _) as [c|] eqn:El; [|done].
    destruct (fr_started r) eqn:Es, (fr_shutting_down r) eqn:Ed; try done. simpl.
    eapply (shrink_inv r _ c); [exact Hr|done..| |done|done]. unfold components, with_handlers. simpl.
    apply last_snoc in El. rewrite El at 1. solve_Permutation.
Qed.

(** Once shutting down, a runtime stays so and creates nothing. *)
Lemma shutting_down_forever r r' :
  rtc rstep r r' → fr_shutting_down r = true →
  fr_shutting_down r' = true ∧ fr_created r' = fr_created r.
Proof.
  induction 1 as [r|r1 r2 r3 Hs _ IH]; intros Hd; [done|].
  assert (fr_shutting_down r2 = true ∧ fr_created r2 = fr_created r1) as [Hd2 Hc2].
  { destruct Hs; unfold start, shutdown_begin, add_scheduler, remove_scheduler, add_completion_handler,
      remove_completion_handler; rewrite ?Hd, ?orb_true_r; try done; by case_match; rewrite ?Hd, ?orb_true_r. }
  destruct (IH Hd2) as [? ?]. split; [done|congruence].
Qed.

Lemma rsteps_inv r r' : rtc rstep r r' → RuntimeInv r → RuntimeInv r'.
Proof. induction 1 as [|r1 r2 r3 Hs _ IH]; [done|]. intros Hr. by eapply IH, rstep_inv. Qed.
