(* ===== verification/Http.v ===== *)
(** * HTTP requests

    src/src/request_handlers.cpp: the target of a request is split into path
    segments and query parameters, [get_handler] picks the handler, and the
    handler answers.  Requests and responses are the fields the code reads and
    sets; the text of a JSON value ([dump]) is the JSON library's. *)

From S2P Require Import Prelude.
From S2P Require Import Prog.
From S2P Require Import RedisServer.
From S2P Require Import Models.
From S2P Require Import RedisKeys.
From S2P Require Import Scripts.
From S2P Require Import RedisExec.
From S2P Require Import Json.
From S2P Require Import Validation.
From S2P Require Import Database.
From S2P Require Import Calls.
From S2P Require Import SqliteFacts.
From S2P Require Import StatusStore.
From S2P Require Import AdmissionService.
From S2P Require Import Lifecycle.

Module Verb.
Inductive t := get | post | delete_ | other.
End Verb.

Module HttpStatus.
Inductive t :=
| ok | accepted | bad_request | forbidden | not_found | method_not_allowed | conflict
| payload_too_large | too_many_requests | internal_server_error | not_implemented
| service_unavailable.
End HttpStatus.

Record http_request := mkRequest {
  hr_method : Verb.t; hr_target : string; hr_body : string; hr_keep_alive : bool }.

Record http_response := mkResponse {
  hs_status : HttpStatus.t; hs_keep_alive : bool; hs_content_type : option string; hs_body : string }.

Record HandlerCtxData := mkCtx {
  cx_workflow_id : string; cx_client_id : string; cx_request_body : string;
  cx_error_status : HttpStatus.t; cx_keep_alive : bool }.

Inductive handler_id :=
| WorkflowValidationHandler | GetWorkflowListHandler | GetWorkflowHandler | DeleteWorkflowHandler
| CancelWorkflowHandler | RuntimeStatusHandler | ErrorHandler.

(** ** Targets *)

(** The loop over the segments, from position [start]; each round moves on. *)
Fixpoint split_go (fuel : nat) (target : string) (start : nat) : list string :=
  match fuel with
  | O => []
  | S fuel' =>
      if (start <=? String.length target)%nat then
        let next := default (String.length target) (str_find "/" target start) in
        let segments := split_go fuel' target (S next) in
        if (start <? next)%nat then substr target start (next - start) :: segments else segments
      else []
  end.

Definition split_path (target : string) : list string :=
  match target with
  | String "/" _ =>
      let path := match str_find "?" target 0 with
                  | Some query_pos => substr target 0 query_pos
                  | None => target
                  end in
      split_go (S (String.length path)) path 1
  | _ => []
  end.

Fixpoint query_go (fuel : nat) (query name : string) : string :=
  match fuel with
  | O => ""
  | S fuel' =>
      if str_empty query then ""
      else
        let next_param := str_find "&" query 0 in
        let param := match next_param with Some n => substr query 0 n | None => query end in
        let go_on := match next_param with
                     | Some n => query_go fuel' (sdrop (S n) query) name
                     | None => ""
                     end in
        match str_find "=" param 0 with
        | Some equals => if String.eqb (substr param 0 equals) name then sdrop (S equals) param else go_on
        | None => go_on
        end
  end.

Definition get_query_param (target name : string) : string :=
  match str_find "?" target 0 with
  | Some query_pos => query_go (S (String.length target)) (sdrop (S query_pos) target) name
  | None => ""
  end.

(** ** Routing

    [uninit] is the context before the call: [error_status_] and [keep_alive]
    are not initialised.  An error path does not set [keep_alive]. *)

Definition with_error (st : HttpStatus.t) (cx : HandlerCtxData) : HandlerCtxData :=
  mkCtx (cx_workflow_id cx) (cx_client_id cx) (cx_request_body cx) st (cx_keep_alive cx).
Definition with_keep_alive (b : bool) (cx : HandlerCtxData) : HandlerCtxData :=
  mkCtx (cx_workflow_id cx) (cx_client_id cx) (cx_request_body cx) (cx_error_status cx) b.
Definition with_workflow (id client : string) (cx : HandlerCtxData) : HandlerCtxData :=
  mkCtx id client (cx_request_body cx) (cx_error_status cx) (cx_keep_alive cx).
Definition with_body (body : string) (cx : HandlerCtxData) : HandlerCtxData :=
  mkCtx (cx_workflow_id cx) (cx_client_id cx) body (cx_error_status cx) (cx_keep_alive cx).

Definition no_route (m : Verb.t) (uninit : HandlerCtxData) : handler_id * HandlerCtxData :=
  match m with
  | Verb.other => (ErrorHandler, with_error HttpStatus.method_not_allowed uninit)
  | _ => (ErrorHandler, with_error HttpStatus.not_found uninit)
  end.

Definition get_handler (max_request_body_size : Z) (uninit : HandlerCtxData) (req : http_request) :
  handler_id * HandlerCtxData :=
  let m := hr_method req in
  let alive := with_keep_alive (hr_keep_alive req) uninit in
  if max_request_body_size <? Z.of_nat (String.length (hr_body req))
  then (ErrorHandler, with_error HttpStatus.payload_too_large uninit)
  else
    match split_path (hr_target req) with
    | ["api"; "v1"; "runtime"; "status"] =>
        match m with
        | Verb.get => (RuntimeStatusHandler, alive)
        | _ => (ErrorHandler, with_error HttpStatus.method_not_allowed uninit)
        end
    | ["api"; "v1"; "workflows"] =>
        match m with
        | Verb.get => (GetWorkflowListHandler, alive)
        | Verb.post => (WorkflowValidationHandler, with_body (hr_body req) alive)
        | _ => no_route m uninit
        end
    | ["api"; "v1"; "workflows"; id] =>
        match m with
        | Verb.get =>
            (GetWorkflowHandler, with_workflow id (get_query_param (hr_target req) "client_id") alive)
        | Verb.delete_ => (DeleteWorkflowHandler, with_workflow id (cx_client_id uninit) alive)
        | _ => no_route m uninit
        end
    | ["api"; "v1"; "workflows"; id; "cancel"] =>
        match m with
        | Verb.post => (CancelWorkflowHandler, with_workflow id (cx_client_id uninit) alive)
        | _ => no_route m uninit
        end
    | _ => no_route m uninit
    end.

(** ** Responses *)

Definition make_json_response (st : HttpStatus.t) (keep_alive : bool) (body : string) : http_response :=
  mkResponse st keep_alive (Some "application/json; charset=utf-8") body.
Definition make_header_only_response (st : HttpStatus.t) (keep_alive : bool) : http_response :=
  mkResponse st keep_alive None "".

(** The keys of an object are in the order of the JSON library's map. *)
Definition validation_error_json (r : ValidationResult) : json :=
  JObj [("errors", JArr [JStr (vr_errors_msg r)]);
        ("message", JStr (StatusCodes.to_string (vr_status_code r)));
        ("status", JStr "validation_failed")].

Definition validation_success_json (workflow_id : string) : json :=
  JObj [("message", JStr "workflow validation successful"); ("status", JStr "accepted");
        ("workflow_id", JStr workflow_id)].

Definition job_status_json (job : WorkflowJob) : json :=
  JObj [("job_id", JStr (wj_job_id job)); ("status", JStr (JobStatus.to_string (wj_status job)))].

Definition workflow_status_to_json (w : WorkflowData) (jobs : list WorkflowJob) : json :=
  JObj [("client_id", JStr (rq_client_id (wd_info w))); ("jobs", JArr (job_status_json <$> jobs));
        ("status", JStr (WorkflowStatus.to_string (wd_status w)));
        ("total_jobs", JInt (wd_total_jobs w)); ("workflow_id", JStr (rq_workflow_id (wd_info w)))].

Definition rejection_status (c : StatusCodes.t) : HttpStatus.t :=
  match c with
  | StatusCodes.CLIENT_NOT_FOUND => HttpStatus.forbidden
  | StatusCodes.DUPLICATE_REQUEST => HttpStatus.conflict
  | StatusCodes.RATE_LIMIT_EXCEEDED | StatusCodes.CONCURRENT_WORKFLOW_LIMIT_EXCEEDED =>
      HttpStatus.too_many_requests
  | StatusCodes.INTERNAL_DB_FAILURE => HttpStatus.internal_server_error
  | _ => HttpStatus.bad_request
  end.

Definition runtime_status_json (s : FlowPilotRuntimeStatus) : json :=
  JObj [("completion_handler_count", JInt (Z.of_nat (rs_completion_handler_count s)));
        ("redis_io_threads", JInt (Z.of_nat (rs_redis_io_threads s)));
        ("retry_handler_count", JInt (Z.of_nat (rs_retry_handler_count s)));
        ("scheduler_count", JInt (Z.of_nat (rs_scheduler_count s)));
        ("shutting_down", JBool (rs_shutting_down s));
        ("started", JBool (rs_started s));
        ("status", JStr (if rs_shutting_down s then "shutting_down"
                         else if rs_started s then "running" else "stopped"))].

Definition error_text (text : string) : string :=
  "{" +:+ String "034" "error" +:+ String "034" ":" +:+ String "034" text +:+ String "034" "}".

Section handlers.
Context `{HashOrder}.
Context (dump : json → option string)              (* json::dump; None: it throws (bytes that are no UTF-8) *)
  (parse : string → json + string)                 (* json::parse *)
  (submit : string → app_prog ValidationResult)    (* WorkflowAdmissionService::submit_workflow *)
  (runtime : option FlowPilotRuntime).             (* FlowPilotRuntime::active_runtime *)

Definition dumped (st : HttpStatus.t) (keep_alive : bool) (j : json) : app_prog http_response :=
  match dump j with
  | Some body => Ret (make_json_response st keep_alive body)
  | None => Throw
  end.

Definition handle_workflow_validation (cx : HandlerCtxData) : app_prog http_response :=
  let* validation := submit (cx_request_body cx) in
  if negb (vr_valid validation) then
    dumped (rejection_status (vr_status_code validation)) (cx_keep_alive cx)
      (validation_error_json validation)
  else
    let workflow_id := match parse (cx_request_body cx) with
                       | inl data => default "" (jvalue_str "workflow_id" "" data)
                       | inr _ => ""
                       end in
    dumped HttpStatus.accepted (cx_keep_alive cx) (validation_success_json workflow_id).

Definition handle_get_workflow (cx : HandlerCtxData) : app_prog http_response :=
  if str_empty (cx_client_id cx) then
    Ret (make_json_response HttpStatus.bad_request (cx_keep_alive cx)
           (error_text "client_id query parameter is required"))
  else
    let* workflows := db (GetAllWorkflowsForClient (cx_client_id cx)) in
    match workflows with
    | None => Ret (make_json_response HttpStatus.internal_server_error (cx_keep_alive cx)
                     (error_text "failed to read workflow status"))
    | Some workflows =>
        match List.find (λ w, String.eqb (rq_workflow_id (wd_info w)) (cx_workflow_id cx)) workflows with
        | None => Ret (make_json_response HttpStatus.not_found (cx_keep_alive cx)
                         (error_text "workflow not found"))
        | Some w =>
            let* jobs := db (GetAllJobsForWorkflow (cx_client_id cx) (cx_workflow_id cx)) in
            match jobs with
            | None => Ret (make_json_response HttpStatus.internal_server_error (cx_keep_alive cx)
                             (error_text "failed to read workflow jobs"))
            | Some jobs => dumped HttpStatus.ok (cx_keep_alive cx) (workflow_status_to_json w jobs)
            end
        end
    end.

Definition handle_runtime_status (cx : HandlerCtxData) : app_prog http_response :=
  match runtime with
  | None => Ret (make_json_response HttpStatus.service_unavailable (cx_keep_alive cx)
              ("{" +:+ String "034" "status" +:+ String "034" ":" +:+ String "034" "unavailable" +:+
               String "034" "," +:+ String "034" "error" +:+ String "034" ":" +:+
               String "034" "runtime is not available" +:+ String "034" "}"))
  | Some r => dumped HttpStatus.ok (cx_keep_alive cx) (runtime_status_json (status r))
  end.

Definition handle_error (cx : HandlerCtxData) : http_response :=
  match cx_error_status cx with
  | HttpStatus.payload_too_large =>
      make_json_response HttpStatus.payload_too_large (cx_keep_alive cx) (error_text "request body too large")
  | HttpStatus.method_not_allowed =>
      make_json_response HttpStatus.method_not_allowed (cx_keep_alive cx) (error_text "method not allowed")
  | HttpStatus.not_found =>
      make_json_response HttpStatus.not_found (cx_keep_alive cx) (error_text "not found")
  | _ =>
      make_json_response HttpStatus.internal_server_error (cx_keep_alive cx)
        (error_text "internal server error")
  end.

Definition handle (h : handler_id) (cx : HandlerCtxData) : app_prog http_response :=
  match h with
  | WorkflowValidationHandler => handle_workflow_validation cx
  | GetWorkflowHandler => handle_get_workflow cx
  | GetWorkflowListHandler | DeleteWorkflowHandler | CancelWorkflowHandler =>
      Ret (make_header_only_response HttpStatus.not_implemented (cx_keep_alive cx))
  | RuntimeStatusHandler => handle_runtime_status cx
  | ErrorHandler => Ret (handle_error cx)
  end.

(** A request of a session (http_server.cpp): the context is created, the
    handler chosen and run. *)
Definition serve_request (max_request_body_size : Z) (error_status : HttpStatus.t) (keep_alive : bool)
  (req : http_request) : app_prog http_response :=
  let '(h, cx) := get_handler max_request_body_size (mkCtx "" "" "" error_status keep_alive) req in
  handle h cx.
End handlers.

(** ** Targets are read back *)

(** A path: each segment after a slash. *)
Definition path_of (segments : list string) : string :=
  foldr (λ s acc, String "/" s +:+ acc) "" segments.

Definition segment_ok (s : string) : bool :=
  negb (str_empty s) && no_char "/" s && no_char "?" s.

Lemma split_round fuel pre s tail :
  segment_ok s = true → (tail = "" ∨ ∃ t, tail = String "/" t) →
  split_go (S fuel) (pre +:+ s +:+ tail) (String.length pre) =
    s :: split_go fuel (pre +:+ s +:+ tail) (S (String.length pre + String.length s)).
Proof.
  intros [[He Hs]%andb_true_iff _]%andb_true_iff Ht. cbn [split_go].
  rewrite !string_length_app, str_find_skip.
  assert (default (String.length pre + (String.length s + String.length tail))%nat
    (Nat.add (String.length pre) <$> str_find "/" (s +:+ tail) 0) =
    (String.length pre + String.length s)%nat) as ->.
  { destruct Ht as [->|[t ->]].
    - rewrite str_find_none by (by rewrite no_char_app, Hs). simpl. lia.
    - by rewrite str_find_first. }
  assert (0 < String.length s)%nat by (destruct s; simpl in *; [done|lia]).
  rewrite (proj2 (Nat.leb_le _ _)) by lia. rewrite (proj2 (Nat.ltb_lt _ _)) by lia.
  f_equal. unfold substr. rewrite substring_app_r.
  replace (String.length pre + String.length s - String.length pre)%nat with (String.length s) by lia.
  apply substring_prefix.
Qed.

Lemma split_go_end fuel target start : (String.length target < start)%nat → split_go fuel target start = [].
Proof. intros Hs. destruct fuel; [done|]. cbn [split_go]. by rewrite (proj2 (Nat.leb_gt _ _)). Qed.

Lemma split_go_path fuel pre s segments :
  forallb segment_ok (s :: segments) = true → (length segments < fuel)%nat →
  split_go fuel (pre +:+ s +:+ path_of segments) (String.length pre) = s :: segments.
Proof.
  revert fuel pre s. induction segments as [|s' segments IH]; intros fuel pre s [Hs Hok]%andb_true_iff Hf;
    (destruct fuel as [|fuel]; [cbn in Hf; lia|]).
  - rewrite split_round by (by auto). f_equal. apply split_go_end. rewrite !string_length_app. cbn. lia.
  - rewrite split_round; [|done|right; by eexists]. f_equal. cbn [path_of foldr]. fold (path_of segments).
    assert (pre +:+ s +:+ String "/" s' +:+ path_of segments =
      (pre +:+ s +:+ "/") +:+ s' +:+ path_of segments) as -> by (by rewrite !string_app_assoc).
    replace (S (String.length pre + String.length s)) with (String.length (pre +:+ s +:+ "/"))
      by (rewrite !string_length_app; cbn; lia).
    apply IH; [done|]. cbn in Hf. lia.
Qed.

Lemma no_query segments : forallb segment_ok segments = true → no_char "?" (path_of segments) = true.
Proof.
  induction segments as [|s segments IH]; [done|]. intros [[_ Hq]%andb_true_iff Hok]%andb_true_iff.
  cbn [path_of foldr]. fold (path_of segments). rewrite no_char_app, IH by done. cbn. by rewrite Hq.
Qed.

(** Segments without slashes and question marks are read back, whatever query
    follows. *)
Lemma split_path_segments s segments query :
  forallb segment_ok (s :: segments) = true → (query = "" ∨ ∃ q, query = String "?" q) →
  split_path (path_of (s :: segments) +:+ query) = s :: segments.
Proof.
  intros Hok Hq. set (path := path_of (s :: segments)).
  assert (match str_find "?" (path +:+ query) 0 with
    | Some query_pos => substr (path +:+ query) 0 query_pos | None => path +:+ query end = path) as Hp.
  { destruct Hq as [->|[q ->]].
    - rewrite str_find_none; [by rewrite string_app_empty|]. rewrite string_app_empty. by apply no_query.
    - rewrite str_find_first by (by apply no_query). apply substring_prefix. }
  change (split_path (path +:+ query)) with
    (let path' := match str_find "?" (path +:+ query) 0 with
       | Some query_pos => substr (path +:+ query) 0 query_pos | None => path +:+ query end in
     split_go (S (String.length path')) path' 1). rewrite Hp. cbv zeta.
  change path with ("/" +:+ s +:+ path_of segments). change 1%nat with (String.length "/").
  apply split_go_path; [done|]. rewrite !string_length_app. cbn [String.length].
  enough (length segments ≤ String.length (path_of segments))%nat by lia. clear.
  induction segments as [|x l IH]; [done|]. cbn [path_of foldr length]. fold (path_of l).
  rewrite string_length_app. cbn [String.length]. lia.
Qed.

(** A parameter that is the whole query. *)
Lemma get_query_param_only path name value :
  no_char "?" path = true → no_char "&" name = true → no_char "=" name = true → no_char "&" value = true →
  get_query_param (path +:+ "?" +:+ name +:+ "=" +:+ value) name = value.
Proof.
  intros Hp Hn He Hv. unfold get_query_param.
  change ("?" +:+ name +:+ "=" +:+ value) with (String "?" (name +:+ String "=" value)).
  rewrite str_find_first by done.
  replace (sdrop (S (String.length path)) (path +:+ String "?" (name +:+ String "=" value)))
    with (name +:+ String "=" value).
  2:{ symmetry. replace (S (String.length path)) with (String.length (path +:+ "?"))
        by (rewrite string_length_app; cbn; lia).
      replace (path +:+ String "?" (name +:+ String "=" value)) with ((path +:+ "?") +:+ name +:+ String "=" value)
        by (by rewrite string_app_assoc).
      apply sdrop_app. }
  cbn [query_go]. destruct (str_empty (name +:+ String "=" value)) eqn:Ee; [by destruct name|].
  rewrite (str_find_none "&" (name +:+ String "=" value)) by (rewrite no_char_app, Hn; cbn; by rewrite Hv).
  rewrite str_find_first by done. unfold substr. rewrite substring_prefix, String.eqb_refl.
  replace (S (String.length name)) with (String.length (name +:+ "=")) by (rewrite string_length_app; cbn; lia).
  replace (name +:+ String "=" value) with ((name +:+ "=") +:+ value) by (by rewrite string_app_assoc).
  apply sdrop_app.
Qed.

(** ** The answer to a query *)
Section answer.
Context {R D : Type} `{RedisServer R} `{StatusStore D}.
Implicit Types σ : app_world R D.

(** The body of the answer, from the recorded statuses. *)
Definition recorded_json (client workflow : string) (st : WorkflowStatus.t) (total : Z)
  (jobs : list (string * JobStatus.t)) : json :=
  JObj [("client_id", JStr client);
        ("jobs", JArr ((λ js, JObj [("job_id", JStr js.1); ("status", JStr (JobStatus.to_string js.2))]) <$> jobs));
        ("status", JStr (WorkflowStatus.to_string st)); ("total_jobs", JInt total);
        ("workflow_id", JStr workflow)].

Lemma find_workflow l w x :
  List.find (λ w', String.eqb (rq_workflow_id (wd_info w')) w) l = Some x →
  x ∈ l ∧ rq_workflow_id (wd_info x) = w.
Proof. intros [Hin He]%find_some. split; [by apply list_elem_of_In|by apply String.eqb_eq]. Qed.

Lemma handle_get_workflow_spec dump cx σ :
  healthy (aw_db σ) → nul_free (cx_client_id cx) = true → str_empty (cx_client_id cx) = false →
  let respond st := make_json_response st (cx_keep_alive cx) in
  ∃ σ', aw_redis σ' = aw_redis σ ∧ healthy (aw_db σ') ∧
    (∀ c w, workflow_status (aw_db σ') c w = workflow_status (aw_db σ) c w) ∧
    match workflow_status (aw_db σ) (cx_client_id cx) (cx_workflow_id cx) with
    | None => run app_io (handle_get_workflow dump cx) σ =
        (Some (respond HttpStatus.not_found (error_text "workflow not found")), σ')
    | Some st => ∃ total jobs,
        run app_io (handle_get_workflow dump cx) σ =
          (respond HttpStatus.ok <$>
             dump (recorded_json (cx_client_id cx) (cx_workflow_id cx) st total jobs), σ') ∧
        NoDup jobs.*1 ∧
        ∀ j s, (j, s) ∈ jobs ↔ job_status (aw_db σ) (cx_client_id cx) (cx_workflow_id cx) j = Some s
    end.
Proof.
  intros Hh Hn He respond.
  destruct (get_workflows_law _ _ Hh Hn) as (d1 & l & E1 & Hh1 & Hj1 & Hw1 & Hcl & Hl).
  destruct (get_jobs_law d1 (cx_client_id cx) (cx_workflow_id cx) Hh1) as (d2 & jobs & E2 & Hh2 & Hj2 & Hw2 & Hnd & Hjobs).
  set (at_db (d : D) := mkApp (aw_redis σ) d (aw_ms σ) (aw_jitter σ)).
  assert (run app_io (handle_get_workflow dump cx) σ =
    match List.find (λ w, String.eqb (rq_workflow_id (wd_info w)) (cx_workflow_id cx)) l with
    | None => (Some (respond HttpStatus.not_found (error_text "workflow not found")), at_db d1)
    | Some w => (respond HttpStatus.ok <$> dump (workflow_status_to_json w jobs), at_db d2)
    end) as Hrun.
  { unfold handle_get_workflow, db. rewrite He, run_trigger_bind. cbn [app_io]. rewrite E1. cbn iota beta.
    destruct (List.find _ l) as [w|]; [|done]. rewrite run_trigger_bind. cbn [app_io aw_db]. rewrite E2.
    cbn iota beta. unfold dumped. by destruct (dump _). }
  destruct (List.find _ l) as [w|] eqn:Ef.
  - apply find_workflow in Ef as [Hin Hid].
    assert (workflow_status (aw_db σ) (cx_client_id cx) (cx_workflow_id cx) = Some (wd_status w)) as Est
      by (apply Hl; by exists w).
    exists (at_db d2). split_and!; [done|done|by intros; rewrite Hw2, Hw1|]. rewrite Est.
    exists (wd_total_jobs w), ((λ x, (wj_job_id x, wj_status x)) <$> jobs).
    rewrite Forall_forall in Hcl. split_and!.
    + rewrite Hrun. do 2 f_equal. unfold workflow_status_to_json, recorded_json. rewrite Hcl, Hid by done.
      by rewrite <- list_fmap_compose.
    + by rewrite <- list_fmap_compose.
    + intros j s. rewrite <- Hj1, Hjobs by (rewrite Hw1, Est; by eexists).
      rewrite list_elem_of_fmap. naive_solver.
  - assert (workflow_status (aw_db σ) (cx_client_id cx) (cx_workflow_id cx) = None) as Est.
    { apply eq_None_not_Some. intros [st (x & Hx & Hid & _)%Hl].
      apply list_elem_of_In, (find_none _ _ Ef) in Hx as Hne. cbn in Hne. by rewrite Hid, String.eqb_refl in Hne. }
    exists (at_db d1). rewrite Est. split_and!; done.
Qed.
End answer.
