(* ===== verification/Session.v ===== *)
(** * HTTP sessions and the listener

    src/src/http_server.cpp: a session reads requests from its connection and
    answers them one after the other; the listener accepts connections.  What
    the network does is an input: the requests that arrive, the calls that
    fail.  Parsing a request and writing a response are the HTTP library's. *)

From S2P Require Import Prelude.
From S2P Require Import Prog.
From S2P Require Import RedisServer.
From S2P Require Import Models.
From S2P Require Import RedisExec.
From S2P Require Import Json.
From S2P Require Import Validation.
From S2P Require Import Database.
From S2P Require Import AdmissionService.
From S2P Require Import Lifecycle.
From S2P Require Import Http.

(** ** Sessions *)

(** What the next [async_read] gives: a request, for which the members of the
    context that are not initialised hold [in_error_status] and [in_keep_alive]
    and whose answer is written or not; or an error (the end of the stream). *)
Inductive input :=
| Request (req : http_request) (in_error_status : HttpStatus.t) (in_keep_alive : bool) (written : bool)
| ReadFails.

(** [Waiting]: the session is in [async_read].  [Closed]: it has shut down its
    side of the connection. *)
Inductive session_end := Waiting | Closed.

(** Every value that a program returns satisfies [P]. *)
Fixpoint returns {E A} (P : A → Prop) (p : prog E A) : Prop :=
  match p with Ret a => P a | Throw => True | Vis e k => ∀ x, returns P (k x) end.

Lemma returns_bind {E A B} (P : B → Prop) (p : prog E A) (f : A → prog E B) :
  (∀ a, returns P (f a)) → returns P (pbind p f).
Proof.
  intros Hf. induction p as [a| |X e k IH]; [apply Hf|done|]. intros x. apply IH.
Qed.

Lemma returns_run {E S A} (P : A → Prop) (h : Prog.handler E S) (p : prog E A) s a s' :
  returns P p → run h p s = (Some a, s') → P a.
Proof.
  revert s. induction p as [b| |X e k IH]; intros s Hp Hr; cbn in *; [by injection Hr as -> _|done|].
  destruct (h X e s) as [[x|] s1]; [|done]. by eapply IH.
Qed.

Section session.
Context `{RedisServer R} `{Database D}.
Context (dump : json → option string) (parse : string → json + string)
  (submit : string → app_prog ValidationResult) (runtime : option FlowPilotRuntime)
  (max_request_body_size : Z).

(** [session::run]: the requests answered, with their answers. *)
Fixpoint session_run (inputs : list input) (σ : app_world R D) :
  list (http_request * http_response) * session_end * app_world R D :=
  match inputs with
  | [] => ([], Waiting, σ)
  | ReadFails :: _ => ([], Closed, σ)
  | Request req error_status keep_alive written :: inputs' =>
      match run app_io (serve_request dump parse submit runtime max_request_body_size error_status
                          keep_alive req) σ with
      | (None, σ') => ([], Closed, σ')
      | (Some res, σ') =>
          if negb written then ([], Closed, σ')
          else if negb (hs_keep_alive res) then ([(req, res)], Closed, σ')
          else let '(log, e, σ'') := session_run inputs' σ' in ((req, res) :: log, e, σ'')
      end
  end.

(** The request has a handler of its own. *)
Definition routed (req : http_request) : Prop :=
  ∀ uninit, (get_handler max_request_body_size uninit req).1 ≠ ErrorHandler.

Lemma no_route_error m uninit : (no_route m uninit).1 = ErrorHandler.
Proof. by destruct m. Qed.

Lemma get_handler_keep_alive uninit req h cx :
  get_handler max_request_body_size uninit req = (h, cx) → h ≠ ErrorHandler →
  cx_keep_alive cx = hr_keep_alive req.
Proof.
  unfold get_handler. intros Hg Hh.
  repeat (case_match; simplify_eq/=; try done).
  all: exfalso; apply Hh; match type of Hg with no_route ?m ?u = _ =>
    by rewrite <- (no_route_error m u), Hg end.
Qed.

Lemma dumped_keep_alive st b j : returns (λ res, hs_keep_alive res = b) (dumped dump st b j).
Proof. unfold dumped. by destruct (dump j). Qed.

(** Every handler answers with the [keep_alive] of the context. *)
Lemma handle_keep_alive h cx :
  returns (λ res, hs_keep_alive res = cx_keep_alive cx) (handle dump parse submit runtime h cx).
Proof.
  destruct h; cbn [handle]; try done.
  - apply returns_bind. intros v. destruct (negb (vr_valid v)); apply dumped_keep_alive.
  - unfold handle_get_workflow. destruct (str_empty _); [done|]. apply returns_bind. intros [ws|]; [|done].
    destruct (List.find _ ws); [|done]. apply returns_bind. intros [l|]; [apply dumped_keep_alive|done].
  - unfold handle_runtime_status. destruct runtime; [apply dumped_keep_alive|done].
  - unfold handle_error. by destruct (cx_error_status cx).
Qed.

Lemma serve_keep_alive error_status keep_alive req σ res σ' :
  run app_io (serve_request dump parse submit runtime max_request_body_size error_status keep_alive req) σ =
    (Some res, σ') →
  routed req → hs_keep_alive res = hr_keep_alive req.
Proof.
  unfold serve_request. intros Hr Hq. specialize (Hq (mkCtx "" "" "" error_status keep_alive)).
  destruct (get_handler _ _ req) as [h cx] eqn:Eg. cbn in Hq.
  rewrite <- (get_handler_keep_alive _ _ _ _ Eg Hq).
  exact (returns_run _ _ _ _ _ _ (handle_keep_alive h cx) Hr).
Qed.

(** What the handler of a request answers ([None]: it throws), and the world when
    it has returned. *)
Definition answer (error_status : HttpStatus.t) (keep_alive : bool) (req : http_request)
  (σ : app_world R D) : option http_response * app_world R D :=
  run app_io (serve_request dump parse submit runtime max_request_body_size error_status keep_alive req) σ.

(** The world when the handlers of all these requests have run, in order. *)
Definition handled (inputs : list input) (σ : app_world R D) : app_world R D :=
  foldl (λ σ i, match i with
                | Request req error_status keep_alive _ => (answer error_status keep_alive req σ).2
                | ReadFails => σ
                end) σ inputs.

(** The input gets no answer: nothing could be read, the handler of the request
    throws, or its answer cannot be written. *)
Definition unanswered (i : input) (σ : app_world R D) : Prop :=
  match i with
  | ReadFails => True
  | Request req error_status keep_alive written =>
      written = false ∨ (answer error_status keep_alive req σ).1 = None
  end.

(** The answers of a session: the answer of each handler, in the world the
    earlier ones left. *)
Lemma session_log inputs σ log e σ' :
  session_run inputs σ = (log, e, σ') →
  (∀ i req res, log !! i = Some (req, res) →
     ∃ error_status keep_alive, inputs !! i = Some (Request req error_status keep_alive true) ∧
       (answer error_status keep_alive req (handled (take i inputs) σ)).1 = Some res ∧
       (routed req → hs_keep_alive res = hr_keep_alive req) ∧
       ((S i < length log)%nat → hs_keep_alive res = true)) ∧
  (e = Waiting → length log = length inputs ∧ σ' = handled inputs σ ∧
     Forall (λ p, hs_keep_alive p.2 = true) log) ∧
  (e = Closed → (∃ p, last log = Some p ∧ hs_keep_alive p.2 = false) ∨
     ∃ i, inputs !! length log = Some i ∧ unanswered i (handled (take (length log) inputs) σ)).
Proof.
  revert σ log e σ'. induction inputs as [|[req er ka wr|] inputs IH]; intros σ log e σ'; cbn [session_run].
  - intros [= <- <- <-]. split_and!; [done|done|done].
  - fold (answer er ka req σ). destruct (answer er ka req σ) as [[res|] σ1] eqn:Er.
    2:{ intros [= <- <- <-]. split_and!; [done|done|]. intros _. right. eexists. split; [done|].
        right. cbn. by rewrite Er. }
    destruct wr; cbn [negb].
    2:{ intros [= <- <- <-]. split_and!; [done|done|]. intros _. right. eexists. split; [done|]. by left. }
    assert (Hk : routed req → hs_keep_alive res = hr_keep_alive req) by (by eapply serve_keep_alive).
    destruct (hs_keep_alive res) eqn:Ek; cbn [negb].
    + destruct (session_run inputs σ1) as [[log' e'] σ2] eqn:Es. intros [= <- <- <-].
      destruct (IH _ _ _ _ Es) as (H1 & H2 & H3). split_and!.
      * intros [|i] q r; cbn; [intros [= <- <-]|].
        -- exists er, ka. by rewrite Er, Ek.
        -- rewrite Er. cbn. intros Hi. destruct (H1 i q r Hi) as (er' & ka' & ? & ? & ? & Hn).
           exists er', ka'. split_and!; [done..|]. intros Hl. apply Hn. lia.
      * intros He. destruct (H2 He) as (Hl & -> & Hf). cbn. rewrite Er, Hl. split_and!; [done..|by constructor].
      * intros He. destruct (H3 He) as [(p & Hp & Hc)|(i & Hi & Hu)]; [left|right].
        -- exists p. split; [|done]. destruct log'; [done|exact Hp].
        -- exists i. split; [done|]. cbn. by rewrite Er.
    + intros [= <- <- <-]. split_and!; [|done|].
      * intros [|i] q r; cbn; [intros [= <- <-]|done]. exists er, ka. rewrite Er, Ek. split_and!; [done..|lia].
      * intros _. left. by exists (req, res).
  - intros [= <- <- <-]. split_and!; [done|done|]. intros _. right. by exists ReadFails.
Qed.
End session.

(** ** The schema of the requests *)

(** The constructor of [WorkflowAdmissionService], from the text of the file if it
    can be opened; [None] is an exception. *)
Definition new_service {V} (open_file : string → option string) (parse : string → json + string)
  (set_root_schema : json → option V) (schema_path : string) : option V :=
  text ← open_file schema_path;
  match parse text with
  | inl schema => set_root_schema schema
  | inr _ => None
  end.

(** The service is made when the first workflow is submitted, and each time anew
    while it cannot be made. *)
Definition submit_by {V} (service : option V) (submit : V → string → app_prog ValidationResult)
  (body : string) : app_prog ValidationResult :=
  match service with Some v => submit v body | None => Throw end.

(** Without the file of the schema the process starts and serves; only
    submissions are closed without an answer. *)
Lemma no_schema_no_answer `{RedisServer R} `{Database D} {V} dump parse set_root_schema (submit : V → _) runtime
  schema_path max_body body error_status keep_alive alive written inputs (σ : app_world R D) :
  Z.of_nat (String.length body) ≤ max_body →
  session_run dump parse (submit_by (new_service (λ _, None) parse set_root_schema schema_path) submit) runtime
    max_body (Request (mkRequest Verb.post "/api/v1/workflows" body alive) error_status keep_alive written :: inputs) σ =
    ([], Closed, σ).
Proof.
  intros Hb. cbn [session_run]. unfold serve_request.
  replace (get_handler _ _ _) with (WorkflowValidationHandler, mkCtx "" "" body error_status alive); [done|].
  unfold get_handler. cbn [hr_body hr_target hr_method hr_keep_alive]. by rewrite (proj2 (Z.ltb_ge _ _)) by lia.
Qed.

(** ** The listener *)

(** How [async_accept] and what follows it end: a session is spawned, or one of
    them throws. *)
Inductive accept_result := Accepted_ | AcceptThrows.

(** [listener::run]: the sessions spawned, and whether it still accepts; an
    acceptor that does not listen throws at once. *)
Fixpoint listener_run (listening : bool) (accepts : list accept_result) : nat * bool :=
  match accepts with
  | [] => (0%nat, listening)
  | a :: accepts' =>
      if negb listening then (0%nat, false)
      else
        match a with
        | AcceptThrows => (0%nat, false)
        | Accepted_ => let '(n, on) := listener_run listening accepts' in (S n, on)
        end
  end.

(** One connection that fails while it is accepted ends the listener for good,
    and one that does not listen (its port was taken) accepts nothing: the
    process goes on without. *)
Lemma accept_error_is_final n l : listener_run true (replicate n Accepted_ ++ AcceptThrows :: l) = (n, false).
Proof. induction n as [|n IH]; [done|]. cbn. by rewrite IH. Qed.
