(* ===== verification/Startup.v ===== *)
(** * Configuration, command line and start-up

    src/include/config.h, src/src/main.cpp, the factories (db_factory.cpp,
    client_config_manager_factory.cpp), the connections of redis_db_async.cpp as
    far as they are opened, and what an exception leaves behind.

    [main_] is a program over the calls that can fail: sockets, files, threads,
    signals, and room for as many components as the command line asks for.
    [Throw] is an exception.  The thread pool of the database is created without
    failure, memory for anything else is there, and what is logged is left
    out. *)

From S2P Require Import Prelude.
From S2P Require Import Prog.
From S2P Require Import Resp.
From S2P Require Import Schema.
From S2P Require Import Shutdown.
From S2P Require Import Lifecycle.

(** ** Configuration *)

Inductive LogLevel := DEBUG | INFO | WARN | ERROR.
Inductive LogOutput := CONSOLE_ONLY | FILE_ONLY | DUAL.
Inductive DBTypes := ASYNC_SQLITE | POSTGRESQL.
Inductive ConfigManagerTypes := SQLITE_MANAGER | TEST_MANAGER.

Record ServerConfig := mkServerConfig { sv_address : string; sv_port : Z; sv_max_request_body_size : Z }.
Record LoggerConfig := mkLoggerConfig {
  lg_output : LogOutput; lg_level : LogLevel; lg_filename : string; lg_max_file_size : Z; lg_max_files : Z }.
Record InMemoryDBConfig := mkRedisConfig {
  rd_host : string; rd_port : Z; rd_password : string; rd_key_retention_ttl : Z;
  rd_queue_read_timeout_ms : Z }.
Record DBConfig := mkDBConfig { dc_db_type : DBTypes; dc_db_path : string }.
Record ClientDataConfig := mkClientDataConfig { cdc_config_type : ConfigManagerTypes }.
Record ThreadConfig := mkThreadConfig {
  th_redis_io_threads : Z; th_scheduler_count : Z; th_completion_handler_count : Z }.
Record WorkflowConfig := mkWorkflowConfig { wc_version : string; wc_workflow_schema_path : string }.

Record Config := mkConfig {
  server_config_ : ServerConfig; logger_config_ : LoggerConfig; redis_config_ : InMemoryDBConfig;
  db_config_ : DBConfig; client_config_ : ClientDataConfig; workflow_config_ : WorkflowConfig;
  thread_config_ : ThreadConfig }.

Definition default_config : Config :=
  mkConfig (mkServerConfig "0.0.0.0" 8080 (100 * 1024))
    (mkLoggerConfig DUAL INFO "../logs/flow_pilot.log" (1024 * 1024) 3)
    (mkRedisConfig "127.0.0.1" 6379 "" 900 1000)
    (mkDBConfig ASYNC_SQLITE "db/flow_pilot.db") (mkClientDataConfig SQLITE_MANAGER)
    (mkWorkflowConfig "v1.0" "schema/workflow_request.schema.json") (mkThreadConfig 1 1 1).

Definition set_server f (c : Config) :=
  mkConfig (f (server_config_ c)) (logger_config_ c) (redis_config_ c) (db_config_ c) (client_config_ c)
    (workflow_config_ c) (thread_config_ c).
Definition set_redis f (c : Config) :=
  mkConfig (server_config_ c) (logger_config_ c) (f (redis_config_ c)) (db_config_ c) (client_config_ c)
    (workflow_config_ c) (thread_config_ c).
Definition set_threads f (c : Config) :=
  mkConfig (server_config_ c) (logger_config_ c) (redis_config_ c) (db_config_ c) (client_config_ c)
    (workflow_config_ c) (f (thread_config_ c)).

Definition set_port p := set_server (λ s, mkServerConfig (sv_address s) p (sv_max_request_body_size s)).
Definition set_redis_host h :=
  set_redis (λ r, mkRedisConfig h (rd_port r) (rd_password r) (rd_key_retention_ttl r) (rd_queue_read_timeout_ms r)).
Definition set_redis_port p :=
  set_redis (λ r, mkRedisConfig (rd_host r) p (rd_password r) (rd_key_retention_ttl r) (rd_queue_read_timeout_ms r)).
Definition set_redis_password w :=
  set_redis (λ r, mkRedisConfig (rd_host r) (rd_port r) w (rd_key_retention_ttl r) (rd_queue_read_timeout_ms r)).
Definition set_io_threads n :=
  set_threads (λ t, mkThreadConfig n (th_scheduler_count t) (th_completion_handler_count t)).
Definition set_schedulers n :=
  set_threads (λ t, mkThreadConfig (th_redis_io_threads t) n (th_completion_handler_count t)).
Definition set_completion_handlers n :=
  set_threads (λ t, mkThreadConfig (th_redis_io_threads t) (th_scheduler_count t) n).

(** ** Command line *)

(** [static_cast<unsigned short>(std::stoi(s))]. *)
Definition to_port (s : string) : option Z := z ← stoi s; Some (z mod 2 ^ 16).

(** [std::max<std::size_t>(1, std::stoul(s))]. *)
Definition to_count (s : string) : option Z := z ← stoul s; Some (Z.max 1 z).

(** An argument that is no option with a value: the first three may be given by
    position. *)
Definition positional (i : nat) (arg : string) (c : Config) : option Config :=
  if starts_with "--" arg then Some c
  else
    match i with
    | 1%nat => p ← to_port arg; Some (set_port p c)
    | 2%nat =>
        match str_find ":" arg 0 with
        | Some pos => p ← to_port (sdrop (S pos) arg); Some (set_redis_port p (set_redis_host (substr arg 0 pos) c))
        | None => Some (set_redis_host arg c)
        end
    | 3%nat => p ← to_port arg; Some (set_redis_port p c)
    | _ => Some c
    end.

(** An option with its value; [None]: it is no option, [Some None]: the value
    throws. *)
Definition option_value (arg value : string) (c : Config) : option (option Config) :=
  if String.eqb arg "--port" then Some (p ← to_port value; Some (set_port p c))
  else if String.eqb arg "--redis-host" then Some (Some (set_redis_host value c))
  else if String.eqb arg "--redis-port" then Some (p ← to_port value; Some (set_redis_port p c))
  else if String.eqb arg "--redis-password" then Some (Some (set_redis_password value c))
  else if String.eqb arg "--redis-io-threads" then Some (n ← to_count value; Some (set_io_threads n c))
  else if String.eqb arg "--schedulers" then Some (n ← to_count value; Some (set_schedulers n c))
  else if String.eqb arg "--completion-handlers" then Some (n ← to_count value; Some (set_completion_handlers n c))
  else None.

(** The loop over the arguments from index [i]; [None] is an exception. *)
Fixpoint parse_args (i : nat) (args : list string) (c : Config) {struct args} : option Config :=
  match args with
  | [] => Some c
  | arg :: rest =>
      match rest with
      | [] => positional i arg c
      | value :: rest' =>
          match option_value arg value c with
          | Some c' => c' ← c'; parse_args (S (S i)) rest' c'
          | None => c' ← positional i arg c; parse_args (S i) rest c'
          end
      end
  end.

(** What the command line leaves of the configuration, and its bounds. *)
Record config_ok (c : Config) : Prop := {
  ok_port : 0 ≤ sv_port (server_config_ c) < 2 ^ 16;
  ok_redis_port : 0 ≤ rd_port (redis_config_ c) < 2 ^ 16;
  ok_io_threads : 1 ≤ th_redis_io_threads (thread_config_ c) < 2 ^ 64;
  ok_schedulers : 1 ≤ th_scheduler_count (thread_config_ c) < 2 ^ 64;
  ok_handlers : 1 ≤ th_completion_handler_count (thread_config_ c) < 2 ^ 64;
  ok_address : sv_address (server_config_ c) = "0.0.0.0" ∧ sv_max_request_body_size (server_config_ c) = 100 * 1024;
  ok_retention : rd_key_retention_ttl (redis_config_ c) = 900 ∧ rd_queue_read_timeout_ms (redis_config_ c) = 1000;
  ok_rest : logger_config_ c = logger_config_ default_config ∧ db_config_ c = db_config_ default_config ∧
    client_config_ c = client_config_ default_config ∧ workflow_config_ c = workflow_config_ default_config
}.

Lemma default_config_ok : config_ok default_config.
Proof. split; cbn; lia || done. Qed.

Lemma to_port_bounds s p : to_port s = Some p → 0 ≤ p < 2 ^ 16.
Proof. unfold to_port. destruct (stoi s); cbn; [|done]. intros [= <-]. apply Z.mod_pos_bound. lia. Qed.

Lemma to_count_bounds s n : to_count s = Some n → 1 ≤ n < 2 ^ 64.
Proof.
  unfold to_count, stoul. destruct (strtol s) as [z|]; cbn; [|done].
  destruct (_ && _); cbn; [|done]. intros [= <-]. pose proof (Z.mod_pos_bound z (2 ^ 64)). lia.
Qed.

Lemma positional_ok i arg c c' : positional i arg c = Some c' → config_ok c → config_ok c'.
Proof.
  unfold positional. destruct (starts_with "--" arg); [by intros [= <-]|].
  destruct i as [|[|[|[|i]]]]; try by intros [= <-].
  - intros (p & Hp%to_port_bounds & [= <-])%bind_Some []. by split.
  - destruct (str_find ":" arg 0); [|intros [= <-] []; by split].
    intros (p & Hp%to_port_bounds & [= <-])%bind_Some []. by split.
  - intros (p & Hp%to_port_bounds & [= <-])%bind_Some []. by split.
Qed.

Lemma option_value_ok arg value c c' :
  option_value arg value c = Some (Some c') → config_ok c → config_ok c'.
Proof.
  unfold option_value. intros Ho [].
  repeat (match type of Ho with (if ?b then _ else _) = _ => destruct b end;
    [injection Ho as Ho; try (apply bind_Some in Ho as (p & Hp & [= Ho])); subst c';
     first [apply to_port_bounds in Hp|apply to_count_bounds in Hp|idtac]; by split|]).
  done.
Qed.

Lemma parse_args_ok i args c c' : parse_args i args c = Some c' → config_ok c → config_ok c'.
Proof.
  remember (length args) as n eqn:En. assert (length args ≤ n)%nat as Hn by lia. clear En.
  revert i args c Hn. induction n as [|n IH]; intros i args c Hn; destruct args as [|arg [|value rest]];
    cbn [parse_args]; cbn in Hn; try lia; try (by intros [= <-]); try by apply positional_ok.
  destruct (option_value arg value c) as [o|] eqn:Eo.
  - intros (c1 & -> & Hp)%bind_Some Hc. eapply IH; [|exact Hp|by eapply option_value_ok]. lia.
  - intros (c1 & Hq & Hp)%bind_Some Hc. apply (IH (S i) (value :: rest) c1); [cbn; lia|exact Hp|by eapply positional_ok].
Qed.

(** ** Starting *)

Inductive boot_call :=
| BlockSignals                          (* pthread_sigmask *)
| Resolve (host port : string)          (* resolver_.resolve *)
| Connect (host port : string)          (* boost::asio::connect *)
| NonBlocking                           (* socket_.non_blocking *)
| FileCall (e : file_ev bool)
| MakeAddress (address : string)        (* asio::ip::make_address *)
| AcceptorOpen | AcceptorSetOption | AcceptorBind (port : Z) | AcceptorListen
| Reserve (n : Z)                       (* std::vector::reserve *)
| WorkerThread_ (i : nat)               (* the thread of worker [i] of a scheduler *)
| IoThread                              (* a thread that runs the I/O context *)
| SignalThread
| WaitSignal.                           (* sigwait *)

(** The result is whether the call succeeds. *)
Inductive boot_ev : Type → Type :=
| Call (c : boot_call) : boot_ev bool.

Abbreviation boot_prog := (prog boot_ev).
Abbreviation call c := (@trigger boot_ev bool (Call c)).

(** A call whose failure is an exception. *)
Definition must (c : boot_call) : boot_prog unit :=
  let* ok := call c in if ok then Ret tt else Throw.

(** [try { p } catch (...)]. *)
Fixpoint ptry {E A} (p : prog E A) : prog E (option A) :=
  match p with
  | Ret a => Ret (Some a)
  | Throw => Ret None
  | Vis e k => Vis e (λ x, ptry (k x))
  end.

(** [ImplAsync::connect]. *)
Definition connect (host port : string) : boot_prog bool :=
  let* ok := call (Resolve host port) in
  if negb ok then Ret false
  else
    let* ok := call (Connect host port) in
    if negb ok then Ret false
    else
      let* ok := call NonBlocking in
      if negb ok then Ret false else Ret true.

Definition connection_string (config : InMemoryDBConfig) : string :=
  rd_host config +:+ ":" +:+ to_str (rd_port config).

(** The constructor of [RedisConnectionContext]. *)
Definition new_context (config : InMemoryDBConfig) : boot_prog unit :=
  match parse_connection_string (connection_string config) "127.0.0.1" "6379" (rd_password config) with
  | None => Throw
  | Some (host, port, _) =>
      let* connected := connect host port in
      if negb connected then Throw else Ret tt
  end.

(** [RedisDatabaseAsync::connect], on the connection of the object. *)
Definition redis_connect (connection_string password : string) : boot_prog bool :=
  match connect_target connection_string password with
  | None => Ret false
  | Some (host, port, _) =>
      let* connected := connect host port in
      if negb connected then Ret false else Ret true
  end.

(** [RedisDatabaseAsync::init]: the object connects when it is made, and once
    more. *)
Definition redis_init (config : InMemoryDBConfig) : boot_prog unit :=
  new_context config ;;
  let* connected := redis_connect (connection_string config) (rd_password config) in
  if negb connected then Throw else Ret tt.

Definition file_call (X : Type) (e : file_ev X) : boot_ev X :=
  match e with
  | CreateDirectories p => Call (FileCall (CreateDirectories p))
  | OpenV2 p => Call (FileCall (OpenV2 p))
  | ExecDdl d => Call (FileCall (ExecDdl d))
  end.

(** How [ClientConfigManagerFactory] chooses, when a request first needs it. *)
Definition create_client_config_manager {A} (config_type : ConfigManagerTypes) (sqlite test : A) : A :=
  match config_type with SQLITE_MANAGER => sqlite | TEST_MANAGER => test end.

Section main.
Context (parent_path : string → string).

(** [AsyncDatabase::get_db_instance]. *)
Definition get_db_instance (config : DBConfig) : boot_prog unit :=
  match dc_db_type config with
  | ASYNC_SQLITE => plift file_call (new_database parent_path (dc_db_path config))
  | POSTGRESQL => Throw
  end.

(** [DBFactory::create_db], the first time. *)
Definition create_db (config : DBConfig) : boot_prog unit :=
  match dc_db_type config with ASYNC_SQLITE => get_db_instance config | POSTGRESQL => Throw end.

(** The constructor of the listener: what fails is logged and the rest left
    out; [true] when the acceptor listens. *)
Definition new_listener (port : Z) : boot_prog bool :=
  let* ok := call AcceptorOpen in
  if negb ok then Ret false
  else
    let* ok := call AcceptorSetOption in
    if negb ok then Ret false
    else
      let* ok := call (AcceptorBind port) in
      if negb ok then Ret false
      else
        let* ok := call AcceptorListen in
        if negb ok then Ret false else Ret true.

(** The acceptor it spawns the loop for. *)
Definition run_http_server (config : ServerConfig) : boot_prog bool :=
  must (MakeAddress (sv_address config)) ;; new_listener (sv_port config).

(** How making a component ends: [Terminated] is [std::terminate]. *)
Inductive ending := Done | Thrown | Terminated.

Definition attempt (p : boot_prog unit) : boot_prog ending :=
  let* r := ptry p in Ret (match r with Some _ => Done | None => Thrown end).

(** The threads of the workers from [i] on; threads that were started and not
    joined end the process when their vector is destroyed. *)
Fixpoint start_workers (i n : nat) : boot_prog ending :=
  match n with
  | 0%nat => Ret Done
  | S n' =>
      let* ok := call (WorkerThread_ i) in
      if ok then start_workers (S i) n' else Ret (match i with 0%nat => Thrown | S _ => Terminated end)
  end.

Definition DEFAULT_WORKERS_NUM : nat := 10.

(** The constructors; their loops are posted to the I/O context. *)
Definition make_handler (config : InMemoryDBConfig) : boot_prog ending := attempt (new_context config).
Definition make_scheduler (config : InMemoryDBConfig) : boot_prog ending :=
  let* e := make_handler config in
  match e with Done => start_workers 0 DEFAULT_WORKERS_NUM | _ => Ret e end.

(** [emplace_back(std::make_unique<...>())]. *)
Definition push_handler (r : FlowPilotRuntime) : FlowPilotRuntime :=
  with_handlers (fr_completion_handlers r ++ [fr_created r]) (fr_unstopped r ++ [fr_created r])
    (S (fr_created r)) r.
Definition push_scheduler (r : FlowPilotRuntime) : FlowPilotRuntime :=
  with_schedulers (fr_schedulers r ++ [fr_created r]) (fr_unstopped r ++ [fr_created r])
    (S (fr_created r)) r.
Definition set_retry_handler (r : FlowPilotRuntime) : FlowPilotRuntime :=
  mkRuntime (fr_redis_io_thread_count r) (fr_initial_scheduler_count r)
    (fr_initial_completion_handler_count r) (fr_schedulers r) (fr_completion_handlers r)
    (Some (fr_created r)) (fr_redis_io_threads r) (fr_started r) (fr_shutting_down r)
    (fr_unstopped r ++ [fr_created r]) (S (fr_created r)).
Definition push_io_thread (r : FlowPilotRuntime) : FlowPilotRuntime :=
  mkRuntime (fr_redis_io_thread_count r) (fr_initial_scheduler_count r)
    (fr_initial_completion_handler_count r) (fr_schedulers r) (fr_completion_handlers r)
    (fr_retry_handler r) (S (fr_redis_io_threads r)) (fr_started r) (fr_shutting_down r)
    (fr_unstopped r) (fr_created r).
Definition set_started (r : FlowPilotRuntime) : FlowPilotRuntime :=
  mkRuntime (fr_redis_io_thread_count r) (fr_initial_scheduler_count r)
    (fr_initial_completion_handler_count r) (fr_schedulers r) (fr_completion_handlers r)
    (fr_retry_handler r) (fr_redis_io_threads r) true (fr_shutting_down r)
    (fr_unstopped r) (fr_created r).

(** A loop of [n] rounds; the runtime is what it was when a round failed. *)
Fixpoint rounds (n : nat) (make : boot_prog ending) (add : FlowPilotRuntime → FlowPilotRuntime)
  (r : FlowPilotRuntime) : boot_prog (FlowPilotRuntime * ending) :=
  match n with
  | 0%nat => Ret (r, Done)
  | S n' =>
      let* e := make in
      match e with Done => rounds n' make add (add r) | _ => Ret (r, e) end
  end.

(** [reserve], then the loop. *)
Definition fill (n : nat) (make : boot_prog ending) (add : FlowPilotRuntime → FlowPilotRuntime)
  (r : FlowPilotRuntime) : boot_prog (FlowPilotRuntime * ending) :=
  let* e := attempt (must (Reserve (Z.of_nat n))) in
  match e with Done => rounds n make add r | _ => Ret (r, e) end.

Definition and_then (p : boot_prog (FlowPilotRuntime * ending))
  (f : FlowPilotRuntime → boot_prog (FlowPilotRuntime * ending)) : boot_prog (FlowPilotRuntime * ending) :=
  let* ' (r, e) := p in match e with Done => f r | _ => Ret (r, e) end.

(** [FlowPilotRuntime::start]. *)
Definition start_runtime (config : InMemoryDBConfig) (r : FlowPilotRuntime) :
  boot_prog (FlowPilotRuntime * ending) :=
  if fr_started r || fr_shutting_down r then Ret (r, Done)
  else
    and_then (fill (fr_initial_completion_handler_count r) (make_handler config) push_handler r) (λ r,
    and_then (rounds 1 (make_handler config) set_retry_handler r) (λ r,
    and_then (fill (fr_initial_scheduler_count r) (make_scheduler config) push_scheduler r) (λ r,
    and_then (fill (fr_redis_io_thread_count r) (attempt (must IoThread)) push_io_thread r) (λ r,
    Ret (set_started r, Done))))).

(** How the process ends. *)
Inductive outcome := EXIT_SUCCESS_ | EXIT_FAILURE_ | Hangs | Terminates.

(** An exception leaves [main] when [~FlowPilotRuntime] returns: it waits for the
    loops of its components, which run in the I/O threads. *)
Definition destroy_runtime (r : FlowPilotRuntime) : outcome :=
  match components r with
  | [] => EXIT_FAILURE_
  | _ :: _ => if (fr_redis_io_threads r =? 0)%nat then Hangs else EXIT_FAILURE_
  end.

(** The part of [main] in its [try] block, after the command line. *)
Definition serve (c : Config) : boot_prog outcome :=
  must BlockSignals ;;
  redis_init (redis_config_ c) ;;
  create_db (db_config_ c) ;;
  let r := new_runtime (Z.to_nat (th_redis_io_threads (thread_config_ c)))
             (Z.to_nat (th_scheduler_count (thread_config_ c)))
             (Z.to_nat (th_completion_handler_count (thread_config_ c))) in
  let* http := ptry (run_http_server (server_config_ c)) in
  match http with
  | None => Ret (destroy_runtime r)
  | Some _ =>
      let* ' (r, e) := start_runtime (redis_config_ c) r in
      match e with
      | Terminated => Ret Terminates
      | Thrown => Ret (destroy_runtime r)
      | Done =>
          let* ok := call SignalThread in
          if negb ok then Ret (destroy_runtime r)
          else let* _ := call WaitSignal in Ret EXIT_SUCCESS_
      end
  end.

Definition main_ (args : list string) : boot_prog outcome :=
  match parse_args 1 args default_config with
  | None => Ret EXIT_FAILURE_
  | Some c =>
      let* r := ptry (serve c) in
      Ret (match r with Some o => o | None => EXIT_FAILURE_ end)
  end.

End main.

(** ** The world *)

(** [true] in [b_faults] is a call that fails; [b_log] are the calls made. *)
Record boot_world := mkBoot {
  b_file : db_file; b_faults : list bool; b_log : list (boot_call * bool) }.

Definition boot_io : handler boot_ev boot_world := λ X e w,
  match e in boot_ev X return option X * boot_world with
  | Call (FileCall e as c) =>
      match file_doc bool e (b_file w, b_faults w) with
      | (Some ok, (f, faults)) => (Some ok, mkBoot f faults (b_log w ++ [(c, ok)]))
      | (None, (f, faults)) => (None, mkBoot f faults (b_log w))
      end
  | Call c =>
      let ok := negb (default false (head (b_faults w))) in
      (Some ok, mkBoot (b_file w) (tail (b_faults w)) (b_log w ++ [(c, ok)]))
  end.
