(* ===== verification/StartupFacts.v ===== *)
(** * Starting: the calls made, and how it ends

    Every configured connection string has a target; the calls that start-up
    makes, in order, and what the process does when one of them fails. *)

From S2P Require Import Prelude.
From S2P Require Import Prog.
From S2P Require Import Resp.
From S2P Require Import Schema.
From S2P Require Import SchemaFacts.
From S2P Require Import Shutdown.
From S2P Require Import Lifecycle.
From S2P Require Import Startup.
#[local] Open Scope list_scope.

(** ** Connection strings *)

(** The string ends with [":"] and [p]. *)
Definition ends_with_port (p s : string) : Prop := ∃ a, s = a +:+ String ":" p.

Lemma ends_with_port_cons p c s : ends_with_port p (String c s) → c ≠ ":"%char ∨ p ≠ s → ends_with_port p s.
Proof.
  intros [[|d a] E] Hc; autorewrite with str in E; injection E as -> ->; [naive_solver|]. by exists a.
Qed.

Lemma str_find_cons c d s :
  str_find c (String d s) 0 =
    if Ascii.ascii_dec c d then Some 0%nat else S <$> str_find c s 0.
Proof.
  unfold str_find. cbn. destruct (Ascii.ascii_dec c d); [by destruct s|].
  by destruct (String.index 0 (String c "") s).
Qed.

Lemma ends_with_port_find p s : ends_with_port p s → is_Some (str_find ":" s 0).
Proof.
  intros [a ->]. induction a as [|d a [n IH]]; autorewrite with str; rewrite str_find_cons; [done|].
  destruct (Ascii.ascii_dec ":" d); [done|]. rewrite IH. by eexists.
Qed.

(** What follows an at-sign still ends with the port. *)
Lemma ends_with_port_after p s n :
  no_char "@" p = true → ends_with_port p s → str_find "@" s 0 = Some n → ends_with_port p (sdrop (S n) s).
Proof.
  intros Hp. revert n. induction s as [|d s IH]; intros n He; [done|]. rewrite str_find_cons.
  destruct (Ascii.ascii_dec "@" d) as [<-|Hd].
  - intros [= <-]. cbn. by apply (ends_with_port_cons _ "@"); [|left].
  - intros (m & Hm & ->)%fmap_Some. apply IH; [|done]. apply (ends_with_port_cons _ d); [done|].
    right. intros ->. by rewrite str_find_none in Hm.
Qed.

Lemma parse_connection_some s p h0 p0 pw0 :
  no_char "@" p = true → no_char "/" p = true → ends_with_port p s →
  ∃ h q pw, parse_connection_string s h0 p0 pw0 = Some (h, q, pw).
Proof.
  intros Hat Hsl He. unfold parse_connection_string, starts_with.
  destruct (String.prefix "redis://" s) eqn:Ep.
  2:{ destruct (ends_with_port_find _ _ He) as [n ->]. by do 3 eexists. }
  apply prefix_inv in Ep as [e ->].
  assert (ends_with_port p e) as He'.
  { repeat (apply ends_with_port_cons in He; [|first [by left|right; intros ->; done]]). done. }
  change 8%nat with (String.length "redis://"). rewrite sdrop_app.
  destruct (str_find "@" e 0) as [n|] eqn:Ef.
  - destruct (ends_with_port_find p (sdrop (S n) e)) as [m ->]; [by eapply ends_with_port_after|].
    by do 3 eexists.
  - destruct (ends_with_port_find _ _ He') as [m ->]. by do 3 eexists.
Qed.

Lemma no_char_port c z : digit c = None → 0 ≤ z → no_char c (to_str z) = true.
Proof.
  intros Hc Hz. destruct z as [|p|p]; [|by apply (no_char_pretty c (N.pos p))|lia].
  by apply (no_char_pretty c 0%N).
Qed.

(** The host and the port a connection of the components is made to, and that
    of the second connection of the Redis object. *)
Definition target (config : InMemoryDBConfig) : string * string :=
  default ("", "") (fst <$> parse_connection_string (connection_string config) "127.0.0.1" "6379" (rd_password config)).
Definition second_target (config : InMemoryDBConfig) : string * string :=
  default ("", "") (fst <$> connect_target (connection_string config) (rd_password config)).

Lemma connection_string_target config :
  0 ≤ rd_port config →
  ∃ pw pw', parse_connection_string (connection_string config) "127.0.0.1" "6379" (rd_password config) =
    Some (target config, pw) ∧
  connect_target (connection_string config) (rd_password config) = Some (second_target config, pw').
Proof.
  intros Hp. unfold target, second_target, connect_target.
  assert (str_empty (connection_string config) = false) as ->.
  { unfold connection_string. by destruct (rd_host config). }
  destruct (parse_connection_some (connection_string config) (to_str (rd_port config)) "127.0.0.1" "6379"
    (rd_password config)) as (h & q & pw & ->); [by apply no_char_port..|by eexists|]. by do 2 eexists.
Qed.

(** ** Programs that stop at the first failure *)

(** The calls, all of which succeeded. *)
Definition done_calls (cs : list boot_call) : list (boot_call * bool) := (λ c, (c, true)) <$> cs.

Lemma done_calls_app cs ds : done_calls (cs ++ ds) = (done_calls cs ++ done_calls ds).
Proof. apply fmap_app. Qed.

(** The calls after which [f] fails, among [cs] in their order. *)
Definition stopped (cs l : list boot_call) (f : boot_call) : Prop := (l ++ [f]) `prefix_of` cs.

Lemma stopped_app_l cs ds l f : stopped cs l f → stopped (cs ++ ds) l f.
Proof. apply prefix_app_r. Qed.
Lemma stopped_app_r cs ds l f : stopped ds l f → stopped (cs ++ ds) (cs ++ l) f.
Proof. intros [k ->]. exists k. by rewrite <- !app_assoc. Qed.

(** The program makes the calls [cs] and returns [a], or throws when the first
    of them fails. *)
Definition follows {A} (p : boot_prog A) (cs : list boot_call) (a : A) : Prop := ∀ w,
  (∃ w', run boot_io p w = (Some a, w') ∧ b_log w' = (b_log w ++ done_calls cs)) ∨
  (∃ l f w', run boot_io p w = (None, w') ∧ stopped cs l f ∧
     b_log w' = (b_log w ++ done_calls l ++ [(f, false)])).

Lemma follows_ret {A} (a : A) : follows (Ret a) [] a.
Proof. intros w. left. exists w. split; [done|]. by rewrite app_nil_r. Qed.

Lemma follows_bind {A B} (p : boot_prog A) (k : A → boot_prog B) cs ds a b :
  follows p cs a → follows (k a) ds b → follows (pbind p k) (cs ++ ds) b.
Proof.
  intros Hp Hk w. rewrite run_bind. destruct (Hp w) as [(w1 & -> & L1)|(l & f & w1 & -> & Hs & L1)].
  - destruct (Hk w1) as [(w2 & -> & L2)|(l & f & w2 & -> & Hs & L2)].
    + left. exists w2. split; [done|]. by rewrite L2, L1, done_calls_app, app_assoc.
    + right. exists (cs ++ l), f, w2. split_and!; [done|by apply stopped_app_r|].
      by rewrite L2, L1, done_calls_app, <- !app_assoc.
  - right. exists l, f, w1. split_and!; [done|by apply stopped_app_l|done].
Qed.

Lemma file_doc_returns X (e : file_ev X) s : ∃ x s', file_doc X e s = (Some x, s').
Proof.
  destruct s as [f faults], e as [p|p|d]; cbn; [by do 2 eexists..|].
  destruct (default false (head faults)); [by do 2 eexists|]. destruct (exec_ddl d f); by do 2 eexists.
Qed.

(** One call: its result is logged. *)
Lemma boot_io_call c w :
  ∃ ok w', boot_io bool (Call c) w = (Some ok, w') ∧ b_log w' = (b_log w ++ [(c, ok)]).
Proof.
  destruct c; try (by do 2 eexists). unfold boot_io.
  destruct (file_doc_returns bool e (b_file w, b_faults w)) as (ok & [f fl] & ->). by do 2 eexists.
Qed.

(** A call that must succeed, and what follows it. *)
Lemma follows_call {A} c (k : bool → boot_prog A) cs a :
  k false = Throw → follows (k true) cs a → follows (pbind (call c) k) (c :: cs) a.
Proof.
  intros Hf Ht w. rewrite run_trigger_bind. destruct (boot_io_call c w) as ([] & w1 & -> & L1).
  - destruct (Ht w1) as [(w2 & -> & L2)|(l & f & w2 & -> & Hs & L2)].
    + left. exists w2. split; [done|]. by rewrite L2, L1, <- app_assoc.
    + right. exists (c :: l), f, w2. split_and!; [done|by apply (stopped_app_r [c])|].
      by rewrite L2, L1, <- app_assoc.
  - rewrite Hf. right. exists [], c, w1. split_and!; [done|by eexists|done].
Qed.

Lemma follows_must c : follows (must c) [c] tt.
Proof. apply follows_call; [done|apply follows_ret]. Qed.

(** ** The setup *)

Definition dial (t : string * string) : list boot_call := [Resolve t.1 t.2; Connect t.1 t.2; NonBlocking].

Lemma follows_dial {A} host port (k : bool → boot_prog A) a :
  k false = Throw → k true = Ret a → follows (pbind (connect host port) k) (dial (host, port)) a.
Proof.
  intros Hf Ht. unfold connect.
  repeat (apply follows_call; [exact Hf|]). cbn. unfold pbind. rewrite Ht. apply follows_ret.
Qed.

Lemma new_context_follows config : 0 ≤ rd_port config → follows (new_context config) (dial (target config)) tt.
Proof.
  intros (pw & _ & E & _)%connection_string_target. unfold new_context. rewrite E.
  destruct (target config). by apply follows_dial.
Qed.

Lemma follows_ext {A} (p q : boot_prog A) cs a :
  (∀ w, run boot_io p w = run boot_io q w) → follows p cs a → follows q cs a.
Proof. intros E Hp w. rewrite <- E. apply Hp. Qed.

Lemma redis_init_follows config :
  0 ≤ rd_port config → follows (redis_init config) (dial (target config) ++ dial (second_target config)) tt.
Proof.
  intros Hp. unfold redis_init. eapply follows_bind; [by apply new_context_follows|].
  destruct (connection_string_target config Hp) as (_ & pw & _ & E). unfold redis_connect. rewrite E.
  destruct (second_target config) as [host port].
  eapply follows_ext; [|apply (follows_dial host port (λ connected,
    let* connected := (if negb connected then Ret false else Ret true) in
    if negb connected then Throw else Ret tt) tt); done].
  intros w. rewrite !run_bind. by destruct (run boot_io (connect host port) w) as [[[]|] w'].
Qed.

Lemma run_plift_bind {A B} (p : file_prog A) (k : A → file_prog B) w :
  run boot_io (plift file_call (pbind p k)) w =
    run boot_io (pbind (plift file_call p) (λ a, plift file_call (k a))) w.
Proof.
  revert w. induction p as [a| |X e q IH]; intros w; [done..|].
  rewrite run_bind. change (pbind (Vis e q) k) with (Vis e (λ x, pbind (q x) k)). cbn [plift run].
  destruct (boot_io X (file_call X e) w) as [[x|] w']; [by rewrite IH, run_bind|done].
Qed.

Lemma follows_lift_bind {A B} (p : file_prog A) (k : A → file_prog B) cs ds a b :
  follows (plift file_call p) cs a → follows (plift file_call (k a)) ds b →
  follows (plift file_call (pbind p k)) (cs ++ ds) b.
Proof.
  intros Hp Hk. eapply follows_ext; [intros w; symmetry; apply run_plift_bind|].
  by eapply follows_bind.
Qed.

Lemma follows_ddl d : follows (plift file_call (execute_ddl_cmd d)) [FileCall (ExecDdl d)] tt.
Proof.
  apply (follows_call _ (λ ok : bool, plift file_call (if ok then Ret tt else Throw))); [done|apply follows_ret].
Qed.

Section setup.
Context (parent_path : string → string).

Definition file_calls (path : string) : list boot_call :=
  (if str_empty (parent_path path) then [] else [FileCall (CreateDirectories (parent_path path))]) ++
  FileCall (OpenV2 path) :: ((λ d, FileCall (ExecDdl d)) <$> schema_ddl).

Lemma init_db_follows path :
  follows (plift file_call (init_db parent_path path))
    ((if str_empty (parent_path path) then [] else [FileCall (CreateDirectories (parent_path path))]) ++
     [FileCall (OpenV2 path)]) tt.
Proof.
  unfold init_db. destruct (str_empty (parent_path path)); cbn [negb].
  - apply (follows_call _ (λ ok : bool, plift file_call (if ok then Ret tt else Throw))); [done|apply follows_ret].
  - apply (follows_call _ (λ ok : bool, plift file_call (if negb ok then Throw else
      let* ok := file (OpenV2 path) in if ok then Ret tt else Throw))); [done|].
    apply (follows_call _ (λ ok : bool, plift file_call (if ok then Ret tt else Throw))); [done|apply follows_ret].
Qed.

Lemma new_database_follows path :
  follows (plift file_call (new_database parent_path path)) (file_calls path) tt.
Proof.
  unfold new_database, file_calls. rewrite cons_middle, app_assoc.
  apply (follows_lift_bind _ _ _ _ tt); [apply init_db_follows|].
  rewrite <- (app_nil_r (_ <$> schema_ddl)). apply (follows_lift_bind _ _ _ _ true); [|apply follows_ret].
  do 5 (apply (follows_lift_bind _ _ [_] _ tt); [apply follows_ddl|]).
  apply (follows_lift_bind _ _ [_; _] _ tt); [apply (follows_lift_bind _ _ [_] _ tt); apply follows_ddl|].
  apply (follows_lift_bind _ _ [_] _ tt); [apply follows_ddl|apply follows_ret].
Qed.

Definition setup (c : Config) : list boot_call :=
  BlockSignals :: (dial (target (redis_config_ c)) ++ dial (second_target (redis_config_ c))) ++
  file_calls (dc_db_path (db_config_ c)).
End setup.

(** ** The components *)

(** A worker thread that fails when one was started before it. *)
Definition late (f : boot_call) : bool := match f with WorkerThread_ (S _) => true | _ => false end.

(** The program makes the calls [cs] and is [Done], or ends otherwise when the
    first of them fails. *)
Definition makes (p : boot_prog ending) (cs : list boot_call) : Prop := ∀ w,
  (∃ w', run boot_io p w = (Some Done, w') ∧ b_log w' = (b_log w ++ done_calls cs)) ∨
  (∃ l f w', run boot_io p w = (Some (if late f then Terminated else Thrown), w') ∧ stopped cs l f ∧
     b_log w' = (b_log w ++ done_calls l ++ [(f, false)])).

Lemma run_ptry {A} (p : boot_prog A) w :
  run boot_io (ptry p) w =
    match run boot_io p w with (Some a, w') => (Some (Some a), w') | (None, w') => (Some None, w') end.
Proof.
  revert w. induction p as [a| |X e k IH]; intros w; [done..|]. destruct e as [c]. cbn [ptry run].
  destruct (boot_io_call c w) as (ok & w' & -> & _). apply IH.
Qed.

Lemma stopped_elem cs l f : stopped cs l f → f ∈ cs.
Proof. intros [k ->]. set_solver. Qed.

Lemma attempt_makes p cs : follows p cs tt → Forall (λ f, late f = false) cs → makes (attempt p) cs.
Proof.
  intros Hp Hl w. unfold attempt. rewrite run_bind, run_ptry.
  destruct (Hp w) as [(w1 & -> & L1)|(l & f & w1 & -> & Hs & L1)]; [left|right; exists l, f]; exists w1; [done|].
  rewrite Forall_forall in Hl. by rewrite (Hl f (stopped_elem _ _ _ Hs)).
Qed.

Lemma start_workers_makes i n : makes (start_workers i n) (WorkerThread_ <$> seq i n).
Proof.
  revert i. induction n as [|n IH]; intros i w; cbn [start_workers seq fmap list_fmap].
  - left. exists w. split; [done|]. by rewrite app_nil_r.
  - rewrite run_trigger_bind. destruct (boot_io_call (WorkerThread_ i) w) as ([] & w1 & -> & L1).
    + destruct (IH (S i) w1) as [(w2 & -> & L2)|(l & f & w2 & -> & Hs & L2)].
      * left. exists w2. split; [done|]. by rewrite L2, L1, <- app_assoc.
      * right. exists (WorkerThread_ i :: l), f, w2. split_and!; [done|by apply (stopped_app_r [WorkerThread_ i])|].
        by rewrite L2, L1, <- app_assoc.
    + right. exists [], (WorkerThread_ i), w1. split_and!; [by destruct i|by eexists|done].
Qed.

Definition scheduler_calls (t : string * string) : list boot_call :=
  dial t ++ (WorkerThread_ <$> seq 0 DEFAULT_WORKERS_NUM).

Lemma make_handler_makes config : 0 ≤ rd_port config → makes (make_handler config) (dial (target config)).
Proof. intros Hp. apply attempt_makes; [by apply new_context_follows|]. by repeat constructor. Qed.

Lemma make_scheduler_makes config :
  0 ≤ rd_port config → makes (make_scheduler config) (scheduler_calls (target config)).
Proof.
  intros Hp w. unfold make_scheduler. rewrite run_bind.
  destruct (make_handler_makes config Hp w) as [(w1 & -> & L1)|(l & f & w1 & -> & Hs & L1)].
  - destruct (start_workers_makes 0 DEFAULT_WORKERS_NUM w1) as [(w2 & -> & L2)|(l & f & w2 & -> & Hs & L2)].
    + left. exists w2. split; [done|]. unfold scheduler_calls. by rewrite L2, L1, done_calls_app, app_assoc.
    + right. exists (dial (target config) ++ l), f, w2. split_and!; [done|by apply stopped_app_r|].
      by rewrite L2, L1, done_calls_app, <- !app_assoc.
  - right. exists l, f, w1. split_and!; [by destruct (late f)|by apply stopped_app_l|done].
Qed.

(** ** The runtime *)

(** The program makes the calls [cs] and gives [r'], or ends when the first of
    them fails with a runtime that [bad] describes. *)
Definition ran (p : boot_prog (FlowPilotRuntime * ending)) (cs : list boot_call) (r' : FlowPilotRuntime)
  (bad : FlowPilotRuntime → list boot_call → Prop) : Prop := ∀ w,
  (∃ w', run boot_io p w = (Some (r', Done), w') ∧ b_log w' = (b_log w ++ done_calls cs)) ∨
  (∃ r1 l f w', run boot_io p w = (Some (r1, if late f then Terminated else Thrown), w') ∧ stopped cs l f ∧
     bad r1 l ∧ b_log w' = (b_log w ++ done_calls l ++ [(f, false)])).

Lemma ran_weaken p cs r' (bad bad' : FlowPilotRuntime → list boot_call → Prop) :
  (∀ r1 l, bad r1 l → bad' r1 l) → ran p cs r' bad → ran p cs r' bad'.
Proof. intros Hb Hp w. destruct (Hp w) as [?|(r1 & l & f & w1 & ?)]; [by left|right]. naive_solver. Qed.

Lemma and_then_ran p k cs ds r1 r2 (bad : FlowPilotRuntime → list boot_call → Prop) :
  ran p cs r1 bad → ran (k r1) ds r2 (λ r l, bad r (cs ++ l)) → ran (and_then p k) (cs ++ ds) r2 bad.
Proof.
  intros Hp Hk w. unfold and_then. rewrite run_bind.
  destruct (Hp w) as [(w1 & -> & L1)|(r & l & f & w1 & -> & Hs & Hb & L1)].
  - destruct (Hk w1) as [(w2 & -> & L2)|(r & l & f & w2 & -> & Hs & Hb & L2)].
    + left. exists w2. split; [done|]. by rewrite L2, L1, done_calls_app, app_assoc.
    + right. exists r, (cs ++ l), f, w2. split_and!; [done|by apply stopped_app_r|done|].
      by rewrite L2, L1, done_calls_app, <- !app_assoc.
  - right. exists r, l, f, w1. split_and!; [by destruct (late f)|by apply stopped_app_l|done|done].
Qed.

(** Rounds fail in round [k], with the runtime of the rounds before it. *)
Definition in_round (n : nat) (cs : list boot_call) add r (r1 : FlowPilotRuntime) (l : list boot_call) : Prop :=
  ∃ k l' f, (k < n)%nat ∧ r1 = Nat.iter k add r ∧ l = (concat (replicate k cs) ++ l') ∧ stopped cs l' f.

Lemma rounds_ran n make cs add r :
  makes make cs →
  ran (rounds n make add r) (concat (replicate n cs)) (Nat.iter n add r) (in_round n cs add r).
Proof.
  intros Hm. revert r. induction n as [|n IH]; intros r w; cbn [rounds].
  - left. exists w. split; [done|]. by rewrite app_nil_r.
  - rewrite run_bind. destruct (Hm w) as [(w1 & -> & L1)|(l & f & w1 & -> & Hs & L1)].
    + destruct (IH (add r) w1) as [(w2 & -> & L2)|(r1 & l & f & w2 & -> & Hs & (k & l' & f' & Hk & -> & -> & Hl) & L2)].
      * left. exists w2. split; [by rewrite Nat.iter_succ_r|]. cbn. by rewrite L2, L1, done_calls_app, app_assoc.
      * right. exists (Nat.iter (S k) add r), (cs ++ concat (replicate k cs) ++ l'), f, w2. split_and!.
        -- by rewrite Nat.iter_succ_r.
        -- cbn. by apply stopped_app_r.
        -- exists (S k), l', f'. split_and!; [lia|done| |done]. cbn. by rewrite app_assoc.
        -- by rewrite L2, L1, !done_calls_app, <- !app_assoc.
    + right. exists r, l, f, w1. split_and!; [by destruct (late f)|cbn; by apply stopped_app_l| |done].
      exists 0%nat, l, f. split_and!; [lia|done..].
Qed.

Lemma fill_ran n make cs add r :
  makes make cs →
  ran (fill n make add r) (Reserve (Z.of_nat n) :: concat (replicate n cs)) (Nat.iter n add r)
    (λ r1 l, l = [] ∧ r1 = r ∨ ∃ l', l = Reserve (Z.of_nat n) :: l' ∧ in_round n cs add r r1 l').
Proof.
  intros Hm w. unfold fill. rewrite run_bind.
  destruct (attempt_makes _ _ (follows_must (Reserve (Z.of_nat n))) ltac:(by repeat constructor) w)
    as [(w1 & -> & L1)|(l & f & w1 & -> & Hs & L1)].
  - destruct (rounds_ran n make cs add r Hm w1) as [(w2 & -> & L2)|(r1 & l & f & w2 & -> & Hs & Hb & L2)].
    + left. exists w2. split; [done|]. by rewrite L2, L1, <- app_assoc.
    + right. exists r1, (Reserve (Z.of_nat n) :: l), f, w2. split_and!; [done| | |by rewrite L2, L1, <- app_assoc].
      * by apply (stopped_app_r [Reserve (Z.of_nat n)]).
      * right. by exists l.
  - assert (l = []) as -> by (destruct Hs as [m Hm']; by destruct l as [|? [|]]).
    right. exists r, [], f, w1. split_and!; [by destruct (late f)| |by left|done].
    by apply (stopped_app_l [Reserve (Z.of_nat n)]).
Qed.

(** Connections opened and I/O threads started. *)
Definition is_opened (c : boot_call) : bool := match c with NonBlocking => true | _ => false end.
Definition is_io_thread (c : boot_call) : bool := match c with IoThread => true | _ => false end.
Definition opened (l : list boot_call) : nat := length (List.filter is_opened l).
Definition io_threads (l : list boot_call) : nat := length (List.filter is_io_thread l).

Lemma opened_app l l' : opened (l ++ l') = (opened l + opened l')%nat.
Proof. unfold opened. by rewrite List.filter_app, length_app. Qed.
Lemma io_threads_app l l' : io_threads (l ++ l') = (io_threads l + io_threads l')%nat.
Proof. unfold io_threads. by rewrite List.filter_app, length_app. Qed.
Lemma opened_reserve n l : opened (Reserve n :: l) = opened l.
Proof. done. Qed.
Lemma io_threads_reserve n l : io_threads (Reserve n :: l) = io_threads l.
Proof. done. Qed.
Lemma opened_rounds k cs : opened (concat (replicate k cs)) = (k * opened cs)%nat.
Proof. induction k as [|k IH]; [done|]. cbn [replicate concat]. rewrite opened_app, IH. lia. Qed.
Lemma io_threads_rounds k cs : io_threads (concat (replicate k cs)) = (k * io_threads cs)%nat.
Proof. induction k as [|k IH]; [done|]. cbn [replicate concat]. rewrite io_threads_app, IH. lia. Qed.

Lemma io_threads_stopped cs l f : stopped cs l f → io_threads cs = 0%nat → io_threads l = 0%nat.
Proof. intros [k ->]. rewrite !io_threads_app. lia. Qed.

Lemma opened_stopped_dial t l f : stopped (dial t) l f → opened l = 0%nat.
Proof.
  intros [k E]. unfold dial in E. destruct l as [|x1 l]; [done|]. injection E as <- E.
  destruct l as [|x2 l]; [done|]. injection E as <- E. destruct l as [|x3 l]; [done|].
  injection E as <- E. by destruct l.
Qed.

(** What rounds leave. *)
Lemma push_handlers k r :
  Nat.iter k push_handler r =
    with_handlers (fr_completion_handlers r ++ seq (fr_created r) k) (fr_unstopped r ++ seq (fr_created r) k)
      (fr_created r + k) r.
Proof.
  induction k as [|k IH]; [destruct r; unfold with_handlers; cbn; by rewrite !app_nil_r, Nat.add_0_r|].
  rewrite seq_S, !app_assoc. change (Nat.iter (S k) push_handler r) with (push_handler (Nat.iter k push_handler r)).
  rewrite IH. unfold push_handler, with_handlers. cbn. by rewrite Nat.add_succ_r.
Qed.

Lemma push_schedulers k r :
  Nat.iter k push_scheduler r =
    with_schedulers (fr_schedulers r ++ seq (fr_created r) k) (fr_unstopped r ++ seq (fr_created r) k)
      (fr_created r + k) r.
Proof.
  induction k as [|k IH]; [destruct r; unfold with_schedulers; cbn; by rewrite !app_nil_r, Nat.add_0_r|].
  rewrite seq_S, !app_assoc.
  change (Nat.iter (S k) push_scheduler r) with (push_scheduler (Nat.iter k push_scheduler r)).
  rewrite IH. unfold push_scheduler, with_schedulers. cbn. by rewrite Nat.add_succ_r.
Qed.

Lemma push_io_threads k r :
  Nat.iter k push_io_thread r =
    mkRuntime (fr_redis_io_thread_count r) (fr_initial_scheduler_count r)
      (fr_initial_completion_handler_count r) (fr_schedulers r) (fr_completion_handlers r)
      (fr_retry_handler r) (k + fr_redis_io_threads r) (fr_started r) (fr_shutting_down r)
      (fr_unstopped r) (fr_created r).
Proof.
  induction k as [|k IH]; [by destruct r|].
  change (Nat.iter (S k) push_io_thread r) with (push_io_thread (Nat.iter k push_io_thread r)). by rewrite IH.
Qed.

(** The calls of [FlowPilotRuntime::start]. *)
Definition start_calls (t : string * string) (threads schedulers handlers : nat) : list boot_call :=
  (Reserve (Z.of_nat handlers) :: concat (replicate handlers (dial t))) ++ dial t ++
  (Reserve (Z.of_nat schedulers) :: concat (replicate schedulers (scheduler_calls t))) ++
  (Reserve (Z.of_nat threads) :: concat (replicate threads [IoThread])).

(** The runtime that an exception leaves, after the calls [l]: components when a
    connection was opened, and the threads that were started. *)
Definition left_by (l : list boot_call) (r : FlowPilotRuntime) : Prop :=
  (components r = [] ↔ opened l = 0%nat) ∧ fr_redis_io_threads r = io_threads l.

Lemma left_by_later pre l r :
  components r ≠ [] → (1 ≤ opened pre)%nat → io_threads pre = 0%nat → fr_redis_io_threads r = io_threads l →
  left_by (pre ++ l) r.
Proof. intros Hc Ho Hi Hr. split; [|by rewrite io_threads_app, Hi, Hr]. rewrite opened_app. split; [done|lia]. Qed.

Lemma io_threads_dials t k : io_threads (concat (replicate k (dial t))) = 0%nat.
Proof. rewrite io_threads_rounds. cbn. lia. Qed.
Lemma opened_dials t k : opened (concat (replicate k (dial t))) = k.
Proof. rewrite opened_rounds. cbn. lia. Qed.
Lemma io_threads_schedulers t k : io_threads (concat (replicate k (scheduler_calls t))) = 0%nat.
Proof. rewrite io_threads_rounds. cbn. lia. Qed.

Section runtime.
Context (config : InMemoryDBConfig) (Hport : 0 ≤ rd_port config) (threads schedulers handlers : nat).
#[local] Abbreviation t := (target config).
#[local] Abbreviation r0 := (new_runtime threads schedulers handlers).
#[local] Abbreviation H := (Nat.max 1 handlers).

Lemma stage_handlers :
  ran (fill H (make_handler config) push_handler r0) (Reserve (Z.of_nat H) :: concat (replicate H (dial t)))
    (Nat.iter H push_handler r0) (λ r l, left_by l r).
Proof.
  eapply ran_weaken; [|by apply fill_ran, make_handler_makes].
  intros r1 l [[-> ->]|(l' & -> & k & l1 & f & Hk & -> & -> & Hs)]; [done|].
  rewrite push_handlers. unfold left_by, components. rewrite opened_reserve, io_threads_reserve.
  rewrite opened_app, opened_dials, (opened_stopped_dial _ _ _ Hs), io_threads_app, io_threads_dials,
    (io_threads_stopped _ _ _ Hs) by done. cbn. split; [|done]. destruct k; cbn; [done|]. split; [done|lia].
Qed.

(** The later stages start with a component and no thread. *)
Definition has_components (r : FlowPilotRuntime) (pre : list boot_call) : Prop :=
  components r ≠ [] ∧ (1 ≤ opened pre)%nat ∧ io_threads pre = 0%nat ∧ fr_redis_io_threads r = 0%nat.

Lemma stage_retry r pre :
  has_components r pre →
  ran (rounds 1 (make_handler config) set_retry_handler r) (dial t) (set_retry_handler r)
    (λ r1 l, left_by (pre ++ l) r1).
Proof.
  intros (Hc & Ho & Hi & Hr).
  eapply ran_weaken; [|apply (rounds_ran 1 _ (dial t) set_retry_handler r); by apply make_handler_makes].
  intros r1 l (k & l1 & f & Hk & -> & -> & Hs). destruct k; [|lia]. apply left_by_later; [done..|].
  by rewrite io_threads_app, (io_threads_stopped _ _ _ Hs).
Qed.

Lemma stage_schedulers n r pre :
  has_components r pre →
  ran (fill n (make_scheduler config) push_scheduler r)
    (Reserve (Z.of_nat n) :: concat (replicate n (scheduler_calls t))) (Nat.iter n push_scheduler r)
    (λ r1 l, left_by (pre ++ l) r1).
Proof.
  intros (Hc & Ho & Hi & Hr). eapply ran_weaken; [|by apply fill_ran, make_scheduler_makes].
  intros r1 l [[-> ->]|(l' & -> & k & l1 & f & Hk & -> & -> & Hs)]; [by apply left_by_later|].
  rewrite push_schedulers. apply left_by_later; [|done..|].
  - unfold components in *. cbn. intros [E1 [E2 [E3 _]%app_nil]%app_nil]%app_nil. apply Hc. by rewrite E1, E2, E3.
  - by rewrite io_threads_reserve, io_threads_app, io_threads_schedulers, (io_threads_stopped _ _ _ Hs).
Qed.

Lemma stage_io_threads n r pre :
  has_components r pre →
  ran (fill n (attempt (must IoThread)) push_io_thread r)
    (Reserve (Z.of_nat n) :: concat (replicate n [IoThread])) (Nat.iter n push_io_thread r)
    (λ r1 l, left_by (pre ++ l) r1).
Proof.
  intros (Hc & Ho & Hi & Hr). eapply ran_weaken; [|apply (fill_ran _ _ [IoThread])].
  2:{ apply attempt_makes; [apply follows_must|by repeat constructor]. }
  intros r1 l [[-> ->]|(l' & -> & k & l1 & f & Hk & -> & -> & Hs)]; [by apply left_by_later|].
  assert (l1 = []) as -> by (destruct Hs as [m Hm']; by destruct l1 as [|? [|]]).
  rewrite push_io_threads. apply left_by_later; [done..|].
  rewrite io_threads_reserve, io_threads_app, io_threads_rounds. cbn. lia.
Qed.

(** The calls and the runtimes after the completion handlers and after the
    schedulers. *)
#[local] Abbreviation S_ := (Nat.max 1 schedulers).
#[local] Abbreviation pre1 := (Reserve (Z.of_nat H) :: concat (replicate H (dial t))).
#[local] Abbreviation r1 := (Nat.iter H push_handler r0).
#[local] Abbreviation pre3 := (Reserve (Z.of_nat S_) :: concat (replicate S_ (scheduler_calls t))).
#[local] Abbreviation r3 := (Nat.iter S_ push_scheduler (set_retry_handler r1)).

Lemma after_handlers : has_components r1 pre1.
Proof.
  unfold has_components. rewrite push_handlers, opened_reserve, io_threads_reserve, opened_dials, io_threads_dials. cbn.
  destruct H eqn:E; [lia|]. split_and!; done || lia.
Qed.

Lemma after_retry_handler : has_components (set_retry_handler r1) (pre1 ++ dial t).
Proof.
  destruct after_handlers as (Hc & Ho & Hi & Hr). unfold has_components. rewrite opened_app, io_threads_app.
  split_and!; [|lia|by rewrite Hi|done]. unfold components in *. cbn.
  intros [E1 _]%app_nil. rewrite push_handlers in E1. cbn in E1. by destruct H eqn:E; [lia|].
Qed.

Lemma after_schedulers : has_components r3 ((pre1 ++ dial t) ++ pre3).
Proof.
  destruct after_retry_handler as (Hc & Ho & Hi & Hr). unfold has_components. rewrite push_schedulers.
  rewrite (opened_app (_ ++ _)), (io_threads_app (_ ++ _)), Hi. split_and!; [|lia| |done].
  - unfold components in *. cbn in *. by intros [E1 E2]%app_nil.
  - by rewrite io_threads_reserve, io_threads_schedulers.
Qed.

Lemma started_runtime : set_started (Nat.iter (Nat.max 1 threads) push_io_thread r3) = start r0.
Proof.
  rewrite push_io_threads, push_schedulers, push_handlers. unfold start, set_started. cbn.
  rewrite Nat.add_0_r. f_equal. by rewrite <- app_assoc.
Qed.

(** [start] makes its calls in order; when all succeed the runtime is that of
    [Lifecycle.start]. *)
Lemma start_runtime_ran :
  ran (start_runtime config r0) (start_calls t (Nat.max 1 threads) S_ H) (start r0) (λ r l, left_by l r).
Proof.
  unfold start_runtime, start_calls. cbn [fr_started fr_shutting_down orb new_runtime fr_initial_completion_handler_count].
  eapply and_then_ran; [apply stage_handlers|].
  eapply and_then_ran; [apply stage_retry, after_handlers|].
  replace (fr_initial_scheduler_count _) with S_ by (by rewrite push_handlers).
  eapply and_then_ran.
  { eapply ran_weaken; [|apply stage_schedulers, after_retry_handler]. intros r l. cbn beta. by rewrite <- app_assoc. }
  replace (fr_redis_io_thread_count _) with (Nat.max 1 threads) by (by rewrite push_schedulers, push_handlers).
  rewrite <- (app_nil_r (Reserve _ :: _)). eapply and_then_ran.
  { eapply ran_weaken; [|apply stage_io_threads, after_schedulers]. intros r l. cbn beta. by rewrite <- !app_assoc. }
  intros w. left. exists w. by rewrite started_runtime, app_nil_r.
Qed.
End runtime.

(** ** The whole start *)

(** [~FlowPilotRuntime] without an I/O thread: a component whose loop never runs
    is never destroyed. *)
Lemma unscheduled_handler_waits h : rtc (hstep (λ _ _ _, False)) (new_handler true) h → hd_dtor h ≠ HDestroyed.
Proof.
  intros Hr. enough (hd_pc h = Some HLoop ∧ hd_main_loop_started h = true ∧ hd_main_loop_finished h = false ∧
    hd_dtor h ≠ HDestroyed) by tauto.
  remember (new_handler true) as h0 eqn:E0.
  assert (hd_pc h0 = Some HLoop ∧ hd_main_loop_started h0 = true ∧ hd_main_loop_finished h0 = false ∧
    hd_dtor h0 ≠ HDestroyed) as Hh by (by subst). clear E0.
  induction Hr as [|h0 h1 h2 Hs _ IH]; [done|]. apply IH. destruct Hh as (Hp & Hst & Hf & Hd).
  destruct Hs as [| |Ha|Ha|Hw Hg]; cbn in *; try done; [congruence|].
  exfalso. unfold hd_may_go in Hg. by rewrite Hst, Hf in Hg.
Qed.

(** How the process ends when [f] fails after the calls [l] of [start]. *)
Definition outcome_after (l : list boot_call) (f : boot_call) : outcome :=
  if late f then Terminates
  else if (opened l =? 0)%nat then EXIT_FAILURE_
  else if (io_threads l =? 0)%nat then Hangs
  else EXIT_FAILURE_.

Lemma destroy_runtime_left l r f : left_by l r → late f = false → destroy_runtime r = outcome_after l f.
Proof.
  intros [Hc Hi] Hf. unfold destroy_runtime, outcome_after. rewrite Hf, Hi.
  destruct (Nat.eqb_spec (opened l) 0) as [E|E]; [by rewrite (proj2 Hc E)|].
  destruct (components r); [by destruct E; apply Hc|done].
Qed.

Definition acceptor_calls (port : Z) : list boot_call :=
  [AcceptorOpen; AcceptorSetOption; AcceptorBind port; AcceptorListen].

(** The calls of the listener's constructor, with their results. *)
Inductive listener_log (port : Z) : list (boot_call * bool) → Prop :=
| listener_listens : listener_log port (done_calls (acceptor_calls port))
| listener_fails l f : stopped (acceptor_calls port) l f → listener_log port (done_calls l ++ [(f, false)]).

Lemma new_listener_run port w :
  ∃ b w' acc, run boot_io (new_listener port) w = (Some b, w') ∧ listener_log port acc ∧
    b_log w' = b_log w ++ acc.
Proof.
  unfold new_listener.
  rewrite run_trigger_bind. destruct (boot_io_call AcceptorOpen w) as ([] & w1 & -> & L1); cbn [negb].
  2:{ exists false, w1, [(AcceptorOpen, false)]. split_and!; [done|by apply (listener_fails _ []); eexists|done]. }
  rewrite run_trigger_bind. destruct (boot_io_call AcceptorSetOption w1) as ([] & w2 & -> & L2); cbn [negb].
  2:{ exists false, w2, (done_calls [AcceptorOpen] ++ [(AcceptorSetOption, false)]).
      split_and!; [done|apply listener_fails; by eexists|by rewrite L2, L1, <- app_assoc]. }
  rewrite run_trigger_bind. destruct (boot_io_call (AcceptorBind port) w2) as ([] & w3 & -> & L3); cbn [negb].
  2:{ exists false, w3, (done_calls [AcceptorOpen; AcceptorSetOption] ++ [(AcceptorBind port, false)]).
      split_and!; [done|apply listener_fails; by eexists|by rewrite L3, L2, L1, <- !app_assoc]. }
  rewrite run_trigger_bind. destruct (boot_io_call AcceptorListen w3) as ([] & w4 & -> & L4); cbn [negb].
  - exists true, w4, (done_calls (acceptor_calls port)).
    split_and!; [done|constructor|by rewrite L4, L3, L2, L1, <- !app_assoc].
  - exists false, w4, (done_calls [AcceptorOpen; AcceptorSetOption; AcceptorBind port] ++ [(AcceptorListen, false)]).
    split_and!; [done|apply listener_fails; by eexists|by rewrite L4, L3, L2, L1, <- !app_assoc].
Qed.

(** Tables are only added. *)
Lemma file_doc_extends X (e : file_ev X) s : extends s.1 (file_doc X e s).2.1.
Proof.
  destruct s as [f fl], e as [p|p|d]; [by intros ? ?..|]. cbn.
  destruct (default false (head fl)); [by intros ? ?|].
  destruct (exec_ddl d f) eqn:E; [by eapply exec_ddl_extends|by intros ? ?].
Qed.

Lemma boot_extends {A} (p : boot_prog A) w : extends (b_file w) (b_file (run boot_io p w).2).
Proof.
  revert w. induction p as [a| |X e k IH]; intros w; [by intros ? ?..|]. destruct e as [c]. cbn [run].
  assert (extends (b_file w) (b_file (boot_io bool (Call c) w).2)) as Hx.
  { destruct c; try by intros ? ?. unfold boot_io.
    pose proof (file_doc_extends bool e (b_file w, b_faults w)) as He.
    by destruct (file_doc bool e (b_file w, b_faults w)) as [[] [f fl]]. }
  destruct (boot_io bool (Call c) w) as [[x|] w1]; [|done]. intros n td Hn. by apply IH, Hx.
Qed.

(** The file under the lifted calls is the file under the calls. *)
Lemma run_plift_file {A} (p : file_prog A) w :
  let '(r, w') := run boot_io (plift file_call p) w in
  run file_doc p (b_file w, b_faults w) = (r, (b_file w', b_faults w')).
Proof.
  revert w. induction p as [a| |X e k IH]; intros w; [done..|]. cbn [plift run].
  assert (∃ x w1, boot_io X (file_call X e) w = (Some x, w1) ∧
    file_doc X e (b_file w, b_faults w) = (Some x, (b_file w1, b_faults w1))) as (x & w1 & -> & ->); [|apply IH].
  clear IH k. destruct (file_doc_returns X e (b_file w, b_faults w)) as (x & [f fl] & E).
  exists x, (mkBoot f fl (b_log (boot_io X (file_call X e) w).2)). split; [|done].
  destruct e; unfold boot_io, file_call; by rewrite E.
Qed.

Lemma create_db_tables parent_path config w w' :
  run boot_io (create_db parent_path config) w = (Some tt, w') →
  ∀ t, t ∈ all_tables → is_Some (find_table (td_name t) (f_tables (b_file w'))).
Proof.
  unfold create_db, get_db_instance. destruct (dc_db_type config); [|done]. intros Hr.
  pose proof (run_plift_file (new_database parent_path (dc_db_path config)) w) as Hf. rewrite Hr in Hf. clear Hr.
  unfold new_database in Hf. rewrite run_bind in Hf.
  destruct (run file_doc (init_db _ _) _) as [[?|] [f fl]]; [|done]. rewrite run_bind in Hf.
  destruct (run file_doc create_schema (f, fl)) as [[?|] s] eqn:Es; [|done]. injection Hf as ->.
  by apply create_schema_spec in Es as [_ [?|[_ ?]]].
Qed.

Section main.
Context (parent_path : string → string).

(** The calls of [main], in order: before the listener, and after it. *)
Definition setup_calls (c : Config) : list boot_call :=
  setup parent_path c ++ [MakeAddress (sv_address (server_config_ c))].
Definition launch_calls (c : Config) : list boot_call :=
  start_calls (target (redis_config_ c)) (Z.to_nat (th_redis_io_threads (thread_config_ c)))
    (Z.to_nat (th_scheduler_count (thread_config_ c)))
    (Z.to_nat (th_completion_handler_count (thread_config_ c))) ++ [SignalThread].

(** How the process ends, and the calls it made. *)
Inductive ends (c : Config) : outcome → list (boot_call * bool) → Prop :=
| ends_stopped acc ok :
    listener_log (sv_port (server_config_ c)) acc →
    ends c EXIT_SUCCESS_ (done_calls (setup_calls c) ++ acc ++ done_calls (launch_calls c) ++ [(WaitSignal, ok)])
| ends_in_setup l f :
    stopped (setup_calls c) l f → ends c EXIT_FAILURE_ (done_calls l ++ [(f, false)])
| ends_in_launch acc l f :
    listener_log (sv_port (server_config_ c)) acc → stopped (launch_calls c) l f →
    ends c (outcome_after l f) (done_calls (setup_calls c) ++ acc ++ done_calls l ++ [(f, false)]).

Lemma create_db_follows config :
  dc_db_type config = ASYNC_SQLITE → follows (create_db parent_path config) (file_calls parent_path (dc_db_path config)) tt.
Proof. unfold create_db, get_db_instance. intros ->. apply new_database_follows. Qed.

(** From the runtime on, in a world where the setup is done. *)
Definition launch (c : Config) (r : FlowPilotRuntime) : boot_prog outcome :=
  let* ' (r, e) := start_runtime (redis_config_ c) r in
  match e with
  | Terminated => Ret Terminates
  | Thrown => Ret (destroy_runtime r)
  | Done =>
      let* ok := call SignalThread in
      if negb ok then Ret (destroy_runtime r)
      else let* _ := call WaitSignal in Ret EXIT_SUCCESS_
  end.

Lemma start_left threads schedulers handlers t :
  left_by (start_calls t (Nat.max 1 threads) (Nat.max 1 schedulers) (Nat.max 1 handlers))
    (start (new_runtime threads schedulers handlers)).
Proof.
  unfold left_by, start_calls. rewrite !opened_app, !io_threads_app, !opened_reserve, !io_threads_reserve.
  rewrite opened_dials, io_threads_dials, io_threads_schedulers, io_threads_rounds.
  unfold start, new_runtime, components. cbn. split; [|lia]. destruct handlers; cbn; split; done || lia.
Qed.

Lemma launch_run c w :
  config_ok c →
  ∃ o w', run boot_io (launch c (new_runtime (Z.to_nat (th_redis_io_threads (thread_config_ c)))
             (Z.to_nat (th_scheduler_count (thread_config_ c)))
             (Z.to_nat (th_completion_handler_count (thread_config_ c))))) w = (Some o, w') ∧
    ((∃ ok, o = EXIT_SUCCESS_ ∧ b_log w' = b_log w ++ done_calls (launch_calls c) ++ [(WaitSignal, ok)]) ∨
     (∃ l f, o = outcome_after l f ∧ stopped (launch_calls c) l f ∧
        b_log w' = b_log w ++ done_calls l ++ [(f, false)])).
Proof.
  intros []. unfold launch, launch_calls. rewrite run_bind.
  set (th := Z.to_nat _). set (sc := Z.to_nat _). set (ha := Z.to_nat _).
  assert (th = Nat.max 1 th ∧ sc = Nat.max 1 sc ∧ ha = Nat.max 1 ha) as (E1 & E2 & E3) by (unfold th, sc, ha; lia).
  pose proof (start_runtime_ran (redis_config_ c) ltac:(lia) th sc ha) as Hs.
  pose proof (start_left th sc ha (target (redis_config_ c))) as Hl. rewrite <- E1, <- E2, <- E3 in Hs, Hl.
  destruct (Hs w) as [(w1 & -> & L1)|(r1 & l & f & w1 & -> & Hf & Hb & L1)].
  - rewrite run_trigger_bind. destruct (boot_io_call SignalThread w1) as ([] & w2 & -> & L2); cbn [negb].
    + rewrite run_trigger_bind. destruct (boot_io_call WaitSignal w2) as (ok & w3 & -> & L3).
      exists EXIT_SUCCESS_, w3. split; [done|]. left. exists ok. split; [done|].
      by rewrite L3, L2, L1, done_calls_app, <- !app_assoc.
    + exists (destroy_runtime (start (new_runtime th sc ha))), w2. split; [done|]. right.
      exists (start_calls (target (redis_config_ c)) th sc ha), SignalThread. split_and!.
      * by apply destroy_runtime_left.
      * by eexists; rewrite app_nil_r.
      * by rewrite L2, L1, <- app_assoc.
  - exists (outcome_after l f), w1. split.
    + destruct (late f) eqn:El; cbn [run]; [by unfold outcome_after; rewrite El|].
      by rewrite (destroy_runtime_left _ _ _ Hb El).
    + right. exists l, f. split_and!; [done|by apply stopped_app_l|done].
Qed.

Lemma setup_follows c :
  config_ok c →
  follows (must BlockSignals ;; redis_init (redis_config_ c) ;; create_db parent_path (db_config_ c))
    (setup parent_path c) tt.
Proof.
  intros Hc. pose proof (ok_redis_port c Hc). unfold setup. apply (follows_bind _ _ [BlockSignals] _ tt); [apply follows_must|].
  eapply follows_bind; [apply redis_init_follows; lia|]. apply create_db_follows.
  by destruct (ok_rest c Hc) as (_ & -> & _).
Qed.

(** Whatever fails, the process ends as [ends] says. *)
Lemma serve_run c w :
  config_ok c →
  ∃ o w' log, run boot_io (ptry (serve parent_path c)) w = (Some o, w') ∧ b_log w' = b_log w ++ log ∧
    ends c (default EXIT_FAILURE_ o) log.
Proof.
  intros Hc. rewrite run_ptry.
  replace (run boot_io (serve parent_path c) w) with
    (run boot_io (let* _ := (must BlockSignals ;; redis_init (redis_config_ c) ;; create_db parent_path (db_config_ c)) in
      let r := new_runtime (Z.to_nat (th_redis_io_threads (thread_config_ c)))
             (Z.to_nat (th_scheduler_count (thread_config_ c)))
             (Z.to_nat (th_completion_handler_count (thread_config_ c))) in
      let* http := ptry (run_http_server (server_config_ c)) in
      match http with None => Ret (destroy_runtime r) | Some _ => launch c r end) w).
  2:{ unfold serve. rewrite !run_bind. destruct (run boot_io (must BlockSignals) w) as [[]]; [|done].
      rewrite !run_bind. destruct (run boot_io (redis_init _) _) as [[]]; [|done]. by rewrite run_bind. }
  rewrite run_bind. destruct (setup_follows c Hc w) as [(w1 & -> & L1)|(l & f & w1 & -> & Hs & L1)].
  2:{ exists None, w1, (done_calls l ++ [(f, false)]). split_and!; [done|done|]. apply ends_in_setup.
      by apply stopped_app_l. }
  cbn zeta. rewrite run_bind, run_ptry. unfold run_http_server. rewrite run_bind.
  destruct (follows_must (MakeAddress (sv_address (server_config_ c))) w1) as
    [(w2 & -> & L2)|(l & f & w2 & -> & Hs & L2)].
  2:{ exists (Some EXIT_FAILURE_), w2, (done_calls (setup parent_path c ++ l) ++ [(f, false)]). split_and!.
      - done.
      - by rewrite L2, L1, done_calls_app, <- !app_assoc.
      - apply ends_in_setup. by apply stopped_app_r. }
  destruct (new_listener_run (sv_port (server_config_ c)) w2) as (b & w3 & acc & -> & Ha & L3).
  destruct (launch_run c w3 Hc) as (o & w4 & -> & Ho). exists (Some o), w4.
  assert (b_log w3 = b_log w ++ done_calls (setup_calls c) ++ acc) as L.
  { unfold setup_calls. by rewrite L3, L2, L1, done_calls_app, <- !app_assoc. }
  destruct Ho as [(ok & -> & L4)|(l & f & -> & Hs & L4)]; eexists; (split; [done|]);
    (split; [by rewrite L4, L, <- !app_assoc|]); by constructor.
Qed.

Lemma serve_tables c w o w' :
  run boot_io (serve parent_path c) w = (Some o, w') →
  ∀ t, t ∈ all_tables → is_Some (find_table (td_name t) (f_tables (b_file w'))).
Proof.
  unfold serve. rewrite run_bind. destruct (run boot_io (must BlockSignals) w) as [[]]; [|done].
  rewrite run_bind. destruct (run boot_io (redis_init _) _) as [[]]; [|done]. rewrite run_bind.
  destruct (run boot_io (create_db _ _) _) as [[[]|] w3] eqn:E; [|done]. intros Hr t Ht.
  eapply extends_some; [|by eapply create_db_tables]. 
  match type of Hr with run boot_io ?p ?v = _ => pose proof (boot_extends p v) as Hx end. by rewrite Hr in Hx.
Qed.

Lemma main_run args w :
  ∃ o w', run boot_io (main_ parent_path args) w = (Some o, w') ∧
    match parse_args 1 args default_config with
    | None => o = EXIT_FAILURE_ ∧ w' = w
    | Some c => config_ok c ∧ (∃ log, b_log w' = b_log w ++ log ∧ ends c o log) ∧
        (o ≠ EXIT_FAILURE_ → ∀ t, t ∈ all_tables → is_Some (find_table (td_name t) (f_tables (b_file w'))))
    end.
Proof.
  unfold main_. destruct (parse_args 1 args default_config) as [c|] eqn:Ep; [|by do 2 eexists].
  assert (config_ok c) as Hc by (eapply parse_args_ok; [done|apply default_config_ok]).
  rewrite run_bind. destruct (serve_run c w Hc) as (o & w' & log & Hr & L & He). rewrite Hr.
  exists (default EXIT_FAILURE_ o), w'. split_and!; [by destruct o|done|by exists log|].
  rewrite run_ptry in Hr. destruct (run boot_io (serve parent_path c) w) as [[o'|] w1] eqn:Es; injection Hr as <- <-; [|done].
  intros _. by eapply serve_tables.
Qed.
End main.
