(* ===== verification/Waits.v ===== *)
(** * Waiting for work: the main loops and their wake-up

    The waits of src/src/redis_db_async.cpp (a connection subscribes to a
    channel, the queue is checked over another connection, then the first waits
    for a message) and the main loops of the completion handler, the retry
    handler, the scheduler and the workers.  A service is a program over
    [svc_ev]; what the program does not decide (connections, messages, the flag
    [running_], the hand-over queue) are events.

    [wstep] interleaves a service with all other clients of the server.  A
    service that is asleep in a wait with no message under way has seen the
    completion stream empty, and it still is ([never_sleeps_on_work]). *)

From S2P Require Import Prelude.
From S2P Require Import Prog.
From S2P Require Import RedisServer.
From S2P Require Import Models.
From S2P Require Import RedisKeys.
From S2P Require Import Scripts.
From S2P Require Import RedisExec.
From S2P Require Import RedisRuntime.
From S2P Require Import Database.
From S2P Require Import CompletionHandler.
From S2P Require Import Scheduling.

Module JobCompletionWaitResult.
Inductive t := EVENT | TIMEOUT | ERROR.
End JobCompletionWaitResult.

(** How a wait for a message ends: a message on the channel, the timer closed
    the connection, the connection failed. *)
Inductive wait_end := Message | TimedOut | Broken.

Inductive svc_ev : Type → Type :=
| App {X} (e : app_ev X) : svc_ev X
| Connect : svc_ev bool                            (* ImplAsync::connect *)
| ConnectChecker : svc_ev bool                     (* a second connection *)
| Subscribe (channel : string) : svc_ev (option bool) (* subscribe_async; None: it throws *)
| WaitMessage (channel : string) : svc_ev wait_end (* wait_for_subscribed_pubsub_message_async *)
| IsRunning : svc_ev bool                          (* running_.load() *)
| PushJob (job : JobExeData) : svc_ev bool         (* worker_thread_queue_.push *)
| FetchJob : svc_ev (option JobExeData).           (* job_fetcher_.fetch_job *)

Abbreviation svc_prog := (prog svc_ev).
Definition service {A} (p : app_prog A) : svc_prog A := plift (λ X e, App e) p.

(** ** Waits *)

(** Without a timer; the connection for the check is opened after the
    subscription.  Exceptions are caught and logged. *)
Definition wait_for_ready_job_event_async : svc_prog unit :=
  let* connected := trigger Connect in
  if negb connected then Ret tt
  else
    let* subscribed := trigger (Subscribe EXECUTION_QUEUE_READY_CHANNEL) in
    match subscribed with
    | Some true =>
        let* checker := trigger ConnectChecker in
        if negb checker then Ret tt
        else
          let* queue_type := service (redis (execute_bulk_string_command_async
                               (Cmd (TYPE EXECUTION_QUEUE_KEY)))) in
          let* queue_size := (match queue_type with
            | Some "zset" =>
                let* n := service (redis (execute_integer_command_async (Cmd (ZCARD EXECUTION_QUEUE_KEY)))) in
                Ret (default 0 n)
            | _ => Ret 0
            end) in
          if 0 <? queue_size then Ret tt
          else let* _ := trigger (WaitMessage EXECUTION_QUEUE_READY_CHANNEL) in Ret tt
    | _ => Ret tt
    end.

Definition wait_result (e : wait_end) : JobCompletionWaitResult.t :=
  match e with
  | Message => JobCompletionWaitResult.EVENT
  | TimedOut => JobCompletionWaitResult.TIMEOUT
  | Broken => JobCompletionWaitResult.ERROR
  end.

Definition wait_for_job_completion_event_async : svc_prog JobCompletionWaitResult.t :=
  let* connected := trigger Connect in
  if negb connected then Ret JobCompletionWaitResult.ERROR
  else
    let* subscribed := trigger (Subscribe JOB_COMPLETION_READY_CHANNEL) in
    match subscribed with
    | Some true =>
        let* stream_size := service (redis (execute_integer_command_async
                              (Cmd (XLEN JOB_COMPLETION_STREAM_KEY)))) in
        match stream_size with
        | None => Ret JobCompletionWaitResult.ERROR
        | Some n =>
            if 0 <? n then Ret JobCompletionWaitResult.EVENT
            else
              let* e := trigger (WaitMessage JOB_COMPLETION_READY_CHANNEL) in
              Ret (wait_result e)
        end
    | _ => Ret JobCompletionWaitResult.ERROR
    end.

Definition wait_for_job_retry_event_async : svc_prog JobCompletionWaitResult.t :=
  let* connected := trigger Connect in
  if negb connected then Ret JobCompletionWaitResult.ERROR
  else
    let* subscribed := trigger (Subscribe JOB_RETRY_READY_CHANNEL) in
    match subscribed with
    | Some true =>
        let* values := service (redis (execute_lua_script_async
                         (retry_due_check_lua JOB_RETRY_STREAM_KEY))) in
        match values with
        | None => Ret JobCompletionWaitResult.ERROR
        | Some ["1"] => Ret JobCompletionWaitResult.EVENT
        | Some _ =>
            let* e := trigger (WaitMessage JOB_RETRY_READY_CHANNEL) in
            Ret (wait_result e)
        end
    | _ => Ret JobCompletionWaitResult.ERROR
    end.

(** ** Main loops

    [fuel] counts rounds; a loop that is cut off answers [None]. *)

(** [Some None] is the result [false]. *)
Fixpoint get_completed_jobs (fuel : nat) : svc_prog (option (option JobCompletionData)) :=
  match fuel with
  | O => Ret None
  | S fuel' =>
      let* running := trigger IsRunning in
      if negb running then Ret (Some None)
      else
        let* r := wait_for_job_completion_event_async in
        match r with
        | JobCompletionWaitResult.TIMEOUT => get_completed_jobs fuel'
        | JobCompletionWaitResult.ERROR => Ret (Some None)
        | JobCompletionWaitResult.EVENT =>
            let* c := service (redis dequeue_job_completion_async) in
            match c with
            | None => Ret (Some None)
            | Some c => if str_empty (jc_stream_id c) then get_completed_jobs fuel'
                        else Ret (Some (Some c))
            end
        end
  end.

Fixpoint completion_handler_main_loop (indeterminate : string → Z) (fuel : nat) :
  svc_prog (option unit) :=
  match fuel with
  | O => Ret None
  | S fuel' =>
      let* running := trigger IsRunning in
      if negb running then Ret (Some tt)
      else
        let* got := get_completed_jobs fuel in
        match got with
        | None => Ret None
        | Some None =>
            let* running := trigger IsRunning in
            if negb running then Ret (Some tt) else completion_handler_main_loop indeterminate fuel'
        | Some (Some c) =>
            service (process_completed_jobs indeterminate c) ;;
            completion_handler_main_loop indeterminate fuel'
        end
  end.

(** [None]: cut off; [Some None] is the result [false]. *)
Fixpoint get_retry_job (fuel : nat) : svc_prog (option (option JobRetryData)) :=
  match fuel with
  | O => Ret None
  | S fuel' =>
      let* running := trigger IsRunning in
      if negb running then Ret (Some None)
      else
        let* now_ms := service (trigger NowMs) in
        let* due := service (redis (dequeue_due_job_retry_async now_ms)) in
        match due with
        | None => Ret (Some None)
        | Some (Some r) => Ret (Some (Some r))
        | Some None =>
            let* r := wait_for_job_retry_event_async in
            match r with
            | JobCompletionWaitResult.ERROR => Ret (Some None)
            | _ => get_retry_job fuel'
            end
        end
  end.

Fixpoint retry_handler_main_loop (fuel : nat) : svc_prog (option unit) :=
  match fuel with
  | O => Ret None
  | S fuel' =>
      let* running := trigger IsRunning in
      if negb running then Ret (Some tt)
      else
        let* got := get_retry_job fuel in
        match got with
        | None => Ret None
        | Some None =>
            let* running := trigger IsRunning in
            if negb running then Ret (Some tt) else retry_handler_main_loop fuel'
        | Some (Some r) =>
            service (process_retry_job r) ;;
            retry_handler_main_loop fuel'
        end
  end.

(** The loop of [get_next_ready_job] in scheduler.cpp. *)
Fixpoint next_ready_job (fuel : nat) (connection_id : string) : svc_prog (option (option JobExeData)) :=
  match fuel with
  | O => Ret None
  | S fuel' =>
      let* running := trigger IsRunning in
      if negb running then Ret (Some None)
      else
        let* got := service (get_next_ready_job fuel connection_id) in
        match got with
        | Some r => Ret (Some r)
        | None =>
            let* running := trigger IsRunning in
            if negb running then Ret (Some None) else next_ready_job fuel' connection_id
        end
  end.

Fixpoint scheduler_main_loop (fuel : nat) (connection_id : string) : svc_prog (option unit) :=
  match fuel with
  | O => Ret None
  | S fuel' =>
      let* running := trigger IsRunning in
      if negb running then Ret (Some tt)
      else
        let* got := next_ready_job fuel connection_id in
        match got with
        | None => Ret None
        | Some None =>
            let* running := trigger IsRunning in
            if negb running then Ret (Some tt) else scheduler_main_loop fuel' connection_id
        | Some (Some job) =>
            let* job := service (dispatch_job job) in
            match job with
            | None => scheduler_main_loop fuel' connection_id
            | Some job =>
                let* pushed := trigger (PushJob job) in
                if negb pushed then Ret (Some tt) else scheduler_main_loop fuel' connection_id
            end
        end
  end.

Fixpoint run_worker_loop (execute : JobExeData → bool) (fuel : nat) : svc_prog (option unit) :=
  match fuel with
  | O => Ret None
  | S fuel' =>
      let* job := trigger FetchJob in
      match job with
      | None => Ret (Some tt)
      | Some job => service (run_job execute job) ;; run_worker_loop execute fuel'
      end
  end.

(** ** A service among the clients of a server *)

(** The messages that a command publishes. *)
Definition published {X} (c : redis_cmd X) : list (string * string) :=
  match c with PUBLISH ch m => [(ch, m)] | _ => [] end.

Section system.
Context `{RedisServer R}.

(** The server, with a record of what is published. *)
Definition publishing : handler redis_cmd (R * list (string * string)) := λ X c σ,
  let '(x, r) := redis_exec X c σ.1 in (x, (r, σ.2 ++ published c)%list).

Record wsys (A : Type) := mkW {
  ws_prog : svc_prog A;             (* what the service has still to do *)
  ws_redis : R;
  ws_subscribed : list string;      (* by the connection that waits *)
  ws_mail : list (string * string)  (* delivered to it and not yet read *)
}.
Arguments mkW {A}.
Arguments ws_prog {A}.
Arguments ws_redis {A}.
Arguments ws_subscribed {A}.
Arguments ws_mail {A}.

(** Messages reach the subscribers of their channel. *)
Definition delivered (subs : list string) (ms : list (string * string)) : list (string * string) :=
  List.filter (λ m, bool_decide (m.1 ∈ subs)) ms.

(** What the server does to a command: it can be lost, or its reply can. *)
Inductive answered (c : command) (r : R) : option RedisReply → R → Prop :=
| answered_lost : answered c r None r
| answered_served x r' : serve c r = (x, r') → answered c r x r'
| answered_unheard x r' : serve c r = (x, r') → answered c r None r'.

(** Another client: the script that enqueues a completion, run as a whole, any
    other command that adds nothing to that stream, or the passing of time. *)
Inductive elsewhere (r : R) : R → list (string * string) → Prop :=
| other_completion client workflow job status code x r' ms :
    run publishing (enqueue_job_completion_lua JOB_COMPLETION_STREAM_KEY client workflow job
      status code JOB_COMPLETION_READY_CHANNEL) (r, []) = (x, (r', ms)) →
    elsewhere r r' ms
| other_command X (c : redis_cmd X) x r' :
    (∀ fields, existT X c ≠ existT _ (XADD JOB_COMPLETION_STREAM_KEY fields)) →
    redis_exec X c r = (x, r') → elsewhere r r' (published c)
| other_time r' :
    r_keys (redis_state r') = r_keys (redis_state r) →
    r_clock (redis_state r) ≤ r_clock (redis_state r') → elsewhere r r' [].

Inductive wstep {A} : wsys A → wsys A → Prop :=
| step_redis (k : option RedisReply → svc_prog A) c r subs mail x r' :
    answered c r x r' →
    wstep (mkW (Vis (App (Redis (Execute c))) k) r subs mail) (mkW (k x) r' subs mail)
| step_local X (e : app_ev X) (k : X → svc_prog A) r subs mail x :
    (∀ c, existT X e ≠ existT _ (Redis (Execute c))) →
    wstep (mkW (Vis (App e) k) r subs mail) (mkW (k x) r subs mail)
| step_connect (k : bool → svc_prog A) r subs mail ok :
    wstep (mkW (Vis Connect k) r subs mail) (mkW (k ok) r [] [])
| step_checker (k : bool → svc_prog A) r subs mail ok :
    wstep (mkW (Vis ConnectChecker k) r subs mail) (mkW (k ok) r subs mail)
| step_subscribe (k : option bool → svc_prog A) ch r subs mail :
    wstep (mkW (Vis (Subscribe ch) k) r subs mail) (mkW (k (Some true)) r (ch :: subs) mail)
| step_subscribe_fails (k : option bool → svc_prog A) ch r subs mail x :
    x ≠ Some true →
    wstep (mkW (Vis (Subscribe ch) k) r subs mail) (mkW (k x) r subs mail)
| step_message (k : wait_end → svc_prog A) ch r subs pre m mail :
    wstep (mkW (Vis (WaitMessage ch) k) r subs (pre ++ (ch, m) :: mail)%list) (mkW (k Message) r subs mail)
| step_wait_ends (k : wait_end → svc_prog A) ch r subs mail e :
    e ≠ Message →
    wstep (mkW (Vis (WaitMessage ch) k) r subs mail) (mkW (k e) r subs mail)
| step_running (k : bool → svc_prog A) r subs mail b :
    wstep (mkW (Vis IsRunning k) r subs mail) (mkW (k b) r subs mail)
| step_push (k : bool → svc_prog A) job r subs mail b :
    wstep (mkW (Vis (PushJob job) k) r subs mail) (mkW (k b) r subs mail)
| step_fetch (k : option JobExeData → svc_prog A) r subs mail job :
    wstep (mkW (Vis FetchJob k) r subs mail) (mkW (k job) r subs mail)
| step_elsewhere p r subs mail r' ms :
    elsewhere r r' ms →
    wstep (mkW p r subs mail) (mkW p r' subs (mail ++ delivered subs ms)%list).

(** The completion stream has no entry. *)
Definition drained (s : rstate) : Prop :=
  ∀ l last, look s JOB_COMPLETION_STREAM_KEY = Some (RStream l last) → l = [].

Lemma drained_put k v s :
  drained s → (k = JOB_COMPLETION_STREAM_KEY → ∀ l last, v = RStream l last → l = []) → drained (put k v s).
Proof.
  intros Hd Hv l last Hl. unfold look, put in Hl. cbn [r_keys] in Hl.
  destruct (decide (k = JOB_COMPLETION_STREAM_KEY)) as [->|Hk].
  - rewrite lookup_insert_eq in Hl. case_match; [|done]. simplify_eq/=. by eapply Hv.
  - rewrite lookup_insert_ne in Hl by done. by eapply Hd.
Qed.

Lemma drained_put_ttl k v t s :
  drained s → (k = JOB_COMPLETION_STREAM_KEY → ∀ l last, v = RStream l last → l = []) →
  drained (put_ttl k v t s).
Proof.
  intros Hd Hv l last Hl. unfold look, put_ttl in Hl. cbn [r_keys] in Hl.
  destruct (decide (k = JOB_COMPLETION_STREAM_KEY)) as [->|Hk].
  - rewrite lookup_insert_eq in Hl. case_match; [|done]. simplify_eq/=. by eapply Hv.
  - rewrite lookup_insert_ne in Hl by done. by eapply Hd.
Qed.

Lemma drained_del k s : drained s → drained (del k s).
Proof.
  intros Hd l last Hl. unfold look, del in Hl. cbn [r_keys] in Hl.
  destruct (decide (k = JOB_COMPLETION_STREAM_KEY)) as [->|Hk].
  - by rewrite lookup_delete_eq in Hl.
  - rewrite lookup_delete_ne in Hl by done. by eapply Hd.
Qed.

(** No command but XADD makes an empty stream hold something. *)
Lemma drained_doc {X} (c : redis_cmd X) s :
  (∀ fields, existT X c ≠ existT _ (XADD JOB_COMPLETION_STREAM_KEY fields)) →
  drained s → drained (redis_doc X c s).2.
Proof.
  intros Hc Hd. destruct c; cbn [redis_doc]; unfold zpopmax, incr_by, put_zset, put_set;
    repeat (case_match; cbn [snd]; try done);
    try apply drained_del; try apply drained_put_ttl; try apply drained_put; try done.
  - intros -> l last ->. by eapply Hd.
  - intros ->. by destruct (Hc fvs).
  - intros -> l' last [= <- <-]. unfold stream_at in *. repeat case_match; simplify_eq.
    match goal with Hl : look s _ = Some _ |- _ => by rewrite (Hd _ _ Hl) end.
Qed.

Lemma drained_exec {X} (c : redis_cmd X) (r : R) x r' :
  (∀ fields, existT X c ≠ existT _ (XADD JOB_COMPLETION_STREAM_KEY fields)) →
  redis_exec X c r = (x, r') → drained (redis_state r) → drained (redis_state r').
Proof.
  intros Hc He Hd. pose proof (redis_documented X c r) as E. rewrite He in E. cbn [fst snd] in E.
  replace (redis_state r') with (redis_doc X c (redis_state r)).2 by (by rewrite E).
  by apply drained_doc.
Qed.

Lemma drained_time s s' : r_keys s' = r_keys s → r_clock s ≤ r_clock s' → drained s → drained s'.
Proof.
  intros Hk Hc Hd l last Hl. apply (Hd l last). unfold look, live in *. rewrite Hk in Hl.
  destruct (r_keys s !! _) as [[v t]|]; [|done]. cbn [fst snd] in *. destruct t as [t|]; [|done].
  repeat case_match; try done; lia.
Qed.

(** ** The discipline of a wait *)

(** What the service knows: nothing; that it is subscribed; that it is and has
    then seen the stream empty. *)
Inductive stage := Fresh | Subscribed | Checked.

Definition asks_length (c : command) : bool :=
  match c with
  | Cmd (XLEN key) => String.eqb key JOB_COMPLETION_STREAM_KEY
  | _ => false
  end.

Definition says_empty (x : option RedisReply) : bool :=
  match x with
  | Some (Integer n) => n <=? 0
  | Some (SimpleString s) => match stoll s with Some n => n <=? 0 | None => false end
  | _ => false
  end.

Definition after_command (st : stage) (c : command) (x : option RedisReply) : stage :=
  match st with
  | Fresh => Fresh
  | _ => if asks_length c && says_empty x then Checked else Subscribed
  end.

Definition after_app (st : stage) {X} (e : app_ev X) : X → stage :=
  match e in app_ev X return X → stage with
  | Redis e => match e in redis_ev X return X → stage with
               | Execute c => after_command st c
               | TimeNow => λ _, st
               end
  | _ => λ _, st
  end.

Definition after (st : stage) {X} (e : svc_ev X) : X → stage :=
  match e in svc_ev X return X → stage with
  | App e => after_app st e
  | Connect => λ _, Fresh
  | Subscribe ch => λ x,
      match st, x with
      | Fresh, Some true => if String.eqb ch JOB_COMPLETION_READY_CHANNEL then Subscribed else Fresh
      | _, _ => st
      end
  | WaitMessage _ => λ _, match st with Checked => Subscribed | _ => st end
  | _ => λ _, st
  end.

Definition may (st : stage) {X} (e : svc_ev X) : Prop :=
  match e with
  | WaitMessage ch => ch = JOB_COMPLETION_READY_CHANNEL → st = Checked
  | _ => True
  end.

(** Every wait for a completion comes after the subscription and the check. *)
Fixpoint disciplined {A} (st : stage) (p : svc_prog A) : Prop :=
  match p with
  | Ret _ | Throw => True
  | Vis e k => may st e ∧ ∀ x, disciplined (after st e x) (k x)
  end.

Lemma disciplined_bind {A B} (p : svc_prog A) (f : A → svc_prog B) st :
  disciplined st p → (∀ a st, disciplined st (f a)) → disciplined st (pbind p f).
Proof.
  intros Hp Hf. revert st Hp. induction p as [a| |X e k IH]; intros st Hp; cbn; [apply Hf|done|].
  destruct Hp as [Hm Hp]. split; [done|]. intros x. by apply IH.
Qed.

Lemma disciplined_service {A} (p : app_prog A) st : disciplined st (service p).
Proof. revert st. induction p as [a| |X e k IH]; intros st; cbn; [done..|]. split; [done|]. intros x. apply IH. Qed.

Lemma disciplined_wait st : disciplined st wait_for_job_completion_event_async.
Proof.
  split; [done|]. intros []; [|done]. split; [done|]. intros [[]|]; [|done..]. cbn.
  split; [done|]. intros reply. cbn [after after_app after_command asks_length].
  rewrite String.eqb_refl. cbn [andb]. lazy [pbind plift].
  destruct reply as [[|s|n|s|l]|]; try done; cbn [says_empty].
  - destruct (stoll s) as [n|]; [|done]. destruct (0 <? n) eqn:Hn; [done|]. split; [|done]. intros _.
    by replace (n <=? 0) with true by lia.
  - destruct (0 <? n) eqn:Hn; [done|]. split; [|done]. intros _. by replace (n <=? 0) with true by lia.
Qed.

Lemma disciplined_trigger {X A} (e : svc_ev X) (f : X → svc_prog A) st :
  may st e → (∀ x st, disciplined st (f x)) → disciplined st (pbind (trigger e) f).
Proof. intros Hm Hf. apply disciplined_bind; [|done]. by split. Qed.

Lemma disciplined_get fuel st : disciplined st (get_completed_jobs fuel).
Proof.
  revert st. induction fuel as [|fuel IH]; intros st; [done|].
  apply disciplined_trigger; [done|]. intros [] st1; [|done].
  apply disciplined_bind; [apply disciplined_wait|]. intros [] st2; [|apply IH|done].
  apply disciplined_bind; [apply disciplined_service|]. intros [c|] st3; [|done].
  case_match; [apply IH|done].
Qed.

Lemma disciplined_loop indeterminate fuel st :
  disciplined st (completion_handler_main_loop indeterminate fuel).
Proof.
  revert st. induction fuel as [|fuel IH]; intros st; [done|].
  apply disciplined_trigger; [done|]. intros [] st1; [|done].
  apply disciplined_bind; [apply disciplined_get|]. intros [[c|]|] st2; [| |done].
  - apply disciplined_bind; [apply disciplined_service|]. intros _ st3. apply IH.
  - apply disciplined_trigger; [done|]. intros [] st3; [apply IH|done].
Qed.

(** ** No wake-up is lost *)

Definition has_message (ch : string) (mail : list (string * string)) : Prop := ∃ m, (ch, m) ∈ mail.

Definition Alert {A} (σ : wsys A) : Prop :=
  ∃ st, disciplined st (ws_prog σ) ∧
    (st ≠ Fresh → JOB_COMPLETION_READY_CHANNEL ∈ ws_subscribed σ) ∧
    (st = Checked →
     has_message JOB_COMPLETION_READY_CHANNEL (ws_mail σ) ∨ drained (redis_state (ws_redis σ))).

Lemma xlen_empty key (r : R) x r' :
  serve (Cmd (XLEN key)) r = (x, r') → key = JOB_COMPLETION_STREAM_KEY → says_empty x = true →
  drained (redis_state r').
Proof.
  intros Hs -> He. cbn [serve] in Hs. destruct (redis_exec Z _ r) as [y r1] eqn:E.
  pose proof (redis_documented Z (XLEN JOB_COMPLETION_STREAM_KEY) r) as D. rewrite E in D.
  cbn [fst snd redis_doc] in D. unfold stream_at in D.
  destruct y as [n|]; injection Hs as <- <-; [|done]. intros l last Hl.
  destruct (look (redis_state r) JOB_COMPLETION_STREAM_KEY) as [[]|] eqn:El; simplify_eq/=.
  - match goal with H1 : redis_state r = redis_state _ |- _ => rewrite <- H1, El in Hl end.
    simplify_eq. destruct l; [done|]. cbn in He. by (lia || done).
  - match goal with H1 : redis_state r = redis_state _ |- _ => rewrite <- H1, El in Hl end. done.
Qed.

(** A completion that is enqueued is announced. *)
Lemma enqueue_announces key client workflow job status code ch (r : R) x r' ms :
  run publishing (enqueue_job_completion_lua key client workflow job status code ch) (r, []) = (x, (r', ms)) →
  has_message ch ms ∨ redis_state r' = redis_state r.
Proof.
  unfold enqueue_job_completion_lua, call, trigger. intros Hrun. lazy [pbind] in Hrun. cbn [run] in Hrun.
  unfold publishing in Hrun at 1. cbn [fst snd] in Hrun.
  match type of Hrun with context [redis_exec ?X ?c r] =>
    pose proof (redis_documented X c r) as D; destruct (redis_exec X c r) as [[id|] r1] eqn:E end.
  - cbn [published app] in Hrun. left. unfold publishing in Hrun. cbn [fst snd] in Hrun.
    match type of Hrun with context [redis_exec ?X ?c r1] =>
      destruct (redis_exec X c r1) as [[]  r2] eqn:E2 end; simplify_eq/=; exists id; by left.
  - right. cbn [fst snd] in D. injection Hrun as _ <- _. cbn [redis_doc] in D. by repeat case_match; simplify_eq/=.
Qed.

Lemma elsewhere_alert (r r' : R) ms subs mail :
  elsewhere r r' ms → JOB_COMPLETION_READY_CHANNEL ∈ subs →
  has_message JOB_COMPLETION_READY_CHANNEL mail ∨ drained (redis_state r) →
  has_message JOB_COMPLETION_READY_CHANNEL (mail ++ delivered subs ms) ∨ drained (redis_state r').
Proof.
  intros He Hs [[m Hm]|Hd]; [left; exists m; apply elem_of_app; by left|].
  destruct He as [client workflow job status code x r' ms Hrun|X c x r' Hc Hx|r' Hk Hc].
  - destruct (enqueue_announces _ _ _ _ _ _ _ _ _ _ _ Hrun) as [[m Hm]| ->]; [left|by right].
    exists m. apply elem_of_app. right. unfold delivered. apply list_elem_of_In, filter_In.
    split; [by apply list_elem_of_In|]. by apply bool_decide_eq_true.
  - right. by eapply drained_exec.
  - right. by eapply drained_time.
Qed.

Lemma command_checked st c (r r' : R) x :
  answered c r x r' → after_command st c x = Checked → drained (redis_state r').
Proof.
  intros Ha Hc. assert (asks_length c && says_empty x = true) as [Hl He]%andb_true_iff.
  { destruct st; cbn in Hc; [done|by destruct (_ && _)..]. }
  destruct Ha as [|x r' Hs|]; [done| |done].
  destruct c as [X c|]; [|done]. destruct c; try done. cbn in Hl. apply String.eqb_eq in Hl.
  by eapply xlen_empty.
Qed.

Lemma after_command_fresh c x : after_command Fresh c x = Fresh.
Proof. done. Qed.

(** A step that neither touches the mail nor the stream. *)
Lemma alert_same {A} (k : svc_prog A) (r : R) subs mail st :
  disciplined st k → (st ≠ Fresh → JOB_COMPLETION_READY_CHANNEL ∈ subs) →
  (st = Checked → has_message JOB_COMPLETION_READY_CHANNEL mail ∨ drained (redis_state r)) →
  Alert (mkW k r subs mail).
Proof. intros. by exists st. Qed.

(** Every step keeps the service alert. *)
Lemma wstep_alert {A} (σ σ' : wsys A) : wstep σ σ' → Alert σ → Alert σ'.
Proof.
  intros Hstep (st & Hd & Hsub & Hchk).
  destruct Hstep as [k c r subs mail x r' Ha|X e k r subs mail x He|k r subs mail ok|k r subs mail ok
    |k ch r subs mail|k ch r subs mail x Hx|k ch r subs pre m mail|k ch r subs mail e He
    |k r subs mail b|k job r subs mail b|k r subs mail job|p r subs mail r' ms He];
    cbn [ws_prog ws_redis ws_subscribed ws_mail] in *;
    try (destruct Hd as [Hm Hd]; cbn [after] in Hd); try (by eapply alert_same).
  - apply alert_same with (after_command st c x); [apply Hd| |].
    + intros Hf. apply Hsub. by intros ->.
    + intros Hc. right. by eapply command_checked.
  - apply alert_same with st; [|done..]. specialize (Hd x).
    destruct e as [X [c|]| | |]; [by destruct (He c)|done..].
  - eapply alert_same; [apply (Hd (Some true))| |].
    + intros Hf. destruct st; [|right; by apply Hsub..]. case_match; [|done].
      match goal with E : (_ =? _)%string = true |- _ => apply String.eqb_eq in E as -> end. left.
    + intros Hc. apply Hchk. destruct st; [by case_match|done..].
  - apply alert_same with st; [|done..]. specialize (Hd x). destruct st; [|done..]. by destruct x as [[]|].
  - eapply alert_same; [apply Hd| |].
    + intros Hf. apply Hsub. by intros ->.
    + by destruct st.
  - eapply alert_same; [apply Hd| |].
    + intros Hf. apply Hsub. by intros ->.
    + by destruct st.
  - apply alert_same with st; [done..|]. intros Hc. eapply elsewhere_alert; [done| |by apply Hchk].
    apply Hsub. by rewrite Hc.
Qed.

(** A disciplined service that waits for a completion with no message under way
    waits on an empty stream. *)
Lemma never_sleeps_on_work {A} (p : svc_prog A) (r : R) σ k :
  disciplined Fresh p → rtc wstep (mkW p r [] []) σ →
  ws_prog σ = Vis (WaitMessage JOB_COMPLETION_READY_CHANNEL) k →
  ¬ has_message JOB_COMPLETION_READY_CHANNEL (ws_mail σ) →
  drained (redis_state (ws_redis σ)).
Proof.
  intros Hp Hr Hw Hm. assert (Alert (mkW p r [] [])) as H0 by (by exists Fresh).
  assert (Alert σ) as (st & Hd & _ & Hc).
  { clear Hw Hm. induction Hr as [|σ1 σ2 σ3 Hs _ IH]; [done|]. apply IH. by eapply wstep_alert. }
  rewrite Hw in Hd. destruct Hd as [Hst _]. by destruct (Hc (Hst eq_refl)).
Qed.
End system.
