(* ===== verification/Sample.v ===== *)
(** * A sample workflow

    A concrete request with two jobs, the second depending on the first, taken
    through validation, initialization and the first steps of its execution.
    The theorems on admitted workflows are applied to it. *)

From S2P Require Import Prelude.
From S2P Require Import Prog.
From S2P Require Import RedisServer.
From S2P Require Import Models.
From S2P Require Import RedisKeys.
From S2P Require Import Scripts.
From S2P Require Import WorkflowView.
From S2P Require Import WorkflowSpec.
From S2P Require Import WorkflowInv.
From S2P Require Import Interleaving.
From S2P Require Import RedisExec.
From S2P Require Import RedisRuntime.
From S2P Require Import Json.
From S2P Require Import Validation.
From S2P Require Import Database.
From S2P Require Import RuntimeGen.
From S2P Require Import RuntimeInit.
From S2P Require Import RedisAdmission.

Definition sample_w : WorkflowIdentity := mkIdentity "acme" "wf1".

Definition sample_request : RequestData :=
  mkRequestData "acme" "req1" "wf1" 100 "CREATE" RequestStatus.RECEIVED "".

Definition sample_policy : PolicyPlan :=
  mkPolicyPlan "basic" 64 10 4096 3600 10 600 3 1 10 5 60 0 9 30 30 30.

Definition sample_data : json :=
  JObj [("client_id", JStr "acme"); ("workflow_id", JStr "wf1");
        ("jobs", JArr
          [JObj [("job_id", JStr "a"); ("priority", JInt 5); ("payload", JArr [JInt 1; JInt 2])];
           JObj [("job_id", JStr "b"); ("depends_on", JArr [JStr "a"])]])].

Definition sample_specs : list (string * list string) := [("a", []); ("b", ["a"])].

(** A database that accepts every update. *)
Definition yes_exec : handler db_ev unit := λ X e u,
  match e in db_ev X return option X * unit with
  | AddRequestOnly _ => (Some (inl tt), u)
  | AddRequest _ _ _ => (Some (inl tt), u)
  | UpdateRequestStatus _ => (Some true, u)
  | GetAllRequestsForClient _ => (Some (Some []), u)
  | AddWorkflow _ => (Some (inl tt), u)
  | UpdateWorkflowStatus _ _ _ => (Some true, u)
  | GetAllActiveWorkflows => (Some (Some []), u)
  | GetAllWorkflowsForClient _ => (Some (Some []), u)
  | GetAllJobsForWorkflow _ _ => (Some (Some []), u)
  | FailWorkflow _ _ => (Some true, u)
  | AddWorkflowJobs _ => (Some (inl tt), u)
  | UpdateReadyJobs _ _ _ _ => (Some true, u)
  | UpdateJobStatus _ _ _ _ => (Some true, u)
  end.

#[global] Instance yes_db : Database unit := {| db_exec := yes_exec |}.

(** An empty server at a given time. *)
Definition sample_s0 : rstate := mkR ∅ 1700000000000000.

Definition unwrap {A} (d : A) (c : checked A) : A := match c with Ok a => a | _ => d end.

Definition sample_built := unwrap (∅, []) (build_jobs_runtime_info Z.of_nat sample_data sample_policy).
Definition sample_wd : WorkflowData :=
  mkWorkflowData sample_request WorkflowStatus.ADMITTED "" "1.0" 2 0 0 0 0.
Definition sample_valid :=
  unwrap (∅, sample_wd)
    (validate_workflow (λ _, 100) "1.0" sample_data sample_policy sample_built.1 sample_request).

Lemma sample_build : build_jobs_runtime_info Z.of_nat sample_data sample_policy = Ok sample_built.
Proof. vm_compute. reflexivity. Qed.
Lemma sample_validate :
  validate_workflow (λ _, 100) "1.0" sample_data sample_policy sample_built.1 sample_request
    = Ok sample_valid.
Proof. vm_compute. reflexivity. Qed.

(** The keyspace after initialization. *)
Definition sample_init : app_world rstate unit :=
  (run app_io (initialize_runtime_data sample_data sample_policy sample_valid.2 sample_built.2
                 sample_valid.1)
     (mkApp (mkWorld sample_s0 [] 1700000000) tt 0 0)).2.
Definition sample_s1 : rstate := wd_redis (aw_redis sample_init).
Definition sample_J : gset string := set_map (job_key sample_w) (list_to_set ["a"; "b"] : gset string).
Definition sample_succ0 : gmap string (list string) := {[ "a" := ["b"] ]}.
Definition sample_c1 : csys := mkC sample_s1 ∅ ∅ ∅.

Lemma sample_fresh : fresh_keys sample_w ["a"; "b"] sample_s0.
Proof.
  split_and!; [done..|]. intros K [-> | ->]; exists ∅; done.
Qed.

(** The admitted workflow satisfies the invariant. *)
Lemma sample_good : Good sample_w sample_J sample_succ0 sample_c1.
Proof.
  destruct (planned Z.of_nat (λ _, 100) "1.0" sample_data sample_policy sample_request
    sample_built.1 sample_built.2 sample_valid.1 sample_valid.2) as (specs & Hs & HP & Hi & Ht & _).
  - apply _.
  - done.
  - rewrite sample_build. by destruct sample_built.
  - rewrite sample_validate. by destruct sample_valid.
  - vm_compute in Hs. injection Hs as <-.
    pose proof (initialize_good sample_data sample_policy sample_valid.2
      [("a", []); ("b", ["a"])] sample_valid.1 sample_built.2 sample_s0 1700000000 tt 0 0 HP) as Hspec.
    assert (0 ≤ pp_max_concurrent_jobs sample_policy ≤ int_max) as Hm by (vm_compute; by split).
    rewrite Hi in Hspec. specialize (Hspec Hm). specialize (Hspec Ht).
    assert (Hpl : Forall (λ job, is_Some (jfield "job_id" job ≫= jstr) ∧
      (jfield "payload" job = None ∨ jfield "payload" job = Some JNull ∨
       is_Some (jfield "payload" job ≫= jbytes))) (jobs_of sample_data)) by (repeat constructor; simpl; eauto).
    specialize (Hspec Hpl). specialize (Hspec sample_fresh). specialize (Hspec (λ q r, eq_refl)).
    apply wp_run in Hspec as (ok & σ & Hrun & _ & s' & Hs' & HG).
    assert (sample_s1 = s') as E.
    { unfold sample_s1, sample_init. rewrite Hrun. simpl. by rewrite Hs'. }
    unfold sample_c1. rewrite E.
    by replace sample_succ0 with (successors_of sample_valid.1) by (vm_compute; reflexivity).
Qed.

(** ** Its first steps *)

Definition step_to {A} (p : lua A) (s : rstate) : rstate := (run redis_doc p s).2.

Definition key_a : string := job_key sample_w "a".
Definition key_b : string := job_key sample_w "b".

Definition sample_s2 : rstate := step_to (call (BZPOPMAX EXECUTION_QUEUE_KEY)) sample_s1.
Definition sample_s3 : rstate := step_to (claim_lua key_a "scheduler1") sample_s2.
Definition sample_s4 : rstate :=
  step_to (try_set_job_to_running_lua (workflow_key sample_w) key_a) sample_s3.
Definition sample_s5 : rstate :=
  step_to (complete_successful_lua (workflow_key sample_w) (workflow_waiting_jobs_key sample_w)
    EXECUTION_QUEUE_KEY key_a (successors_key sample_w "a") "1700000005" (job_key sample_w ""))
    sample_s4.

Definition sample_c2 : csys := mkC sample_s2 ({[key_a]} ∪ ∅) ∅ ∅.
Definition sample_c3 : csys := mkC sample_s3 (({[key_a]} ∪ ∅) ∖ {[key_a]}) ∅ (<[key_a := TClaimed]> ∅).
Definition sample_c4 : csys :=
  mkC sample_s4 (c_unclaimed sample_c3) ∅ (<[key_a := TStarted]> (c_tok sample_c3)).
Definition sample_c4' : csys :=
  mkC sample_s4 (c_unclaimed sample_c3) ∅ (<[key_a := TDone]> (c_tok sample_c4)).
Definition sample_c5 : csys :=
  mkC sample_s5 (c_unclaimed sample_c3) ∅ (delete key_a (c_tok sample_c4')).

Lemma run_step_to {A} (p : lua A) s a : (run redis_doc p s).1 = Some a → run redis_doc p s = (Some a, step_to p s).
Proof. unfold step_to. destruct (run redis_doc p s); simpl. by intros ->. Qed.

Lemma key_a_in : key_a ∈ sample_J.
Proof. unfold sample_J, key_a. set_solver. Qed.
Lemma key_b_in : key_b ∈ sample_J.
Proof. unfold sample_J, key_b. set_solver. Qed.

Lemma sample_J_elem k : k ∈ sample_J → k = key_a ∨ k = key_b.
Proof. unfold sample_J, key_a, key_b. set_solver. Qed.

Lemma small_field s k f h n z :
  (hash_at s k ≫= λ h, h !! f ≫= tonumber) = Some n → small n →
  hash_at s k = Some h → h !! f = Some (to_str z) → small z.
Proof.
  intros Hn Hs Hh Hf. rewrite Hh in Hn. simpl in Hn. rewrite Hf in Hn. simpl in Hn.
  rewrite tonumber_to_str in Hn. by injection Hn as ->.
Qed.

(** The counters of a concrete state, read off by computation. *)
Ltac counters_by_computation :=
  split;
  [ let Hf := fresh in
    intros ? ? ? Hh Hf Hz;
    repeat (apply elem_of_cons in Hf as [->|Hf];
      [eapply small_field; [| |exact Hh|exact Hz]; [vm_compute; reflexivity|clear; unfold small; lia]|]);
    destruct (not_elem_of_nil _ Hf)
  | intros ? ? ? [-> | ->]%sample_J_elem Hh Hz;
    (eapply small_field; [| |exact Hh|exact Hz]; [vm_compute; reflexivity|clear; unfold small; lia]) ].

Lemma sample_small : counters_small sample_w sample_J sample_s4.
Proof. counters_by_computation. Qed.

Lemma sample_reach3 : creachable sample_w sample_J sample_c1 sample_c3.
Proof.
  eapply creach_step; [eapply creach_step; [apply creach_init|]|].
  - apply (cstep_pop _ _ sample_c1 key_a 5); [|apply key_a_in].
    apply run_step_to. vm_compute. reflexivity.
  - change sample_c3 with (mkC sample_s3 (c_unclaimed sample_c2 ∖ {[key_a]}) (c_unpromoted sample_c2)
      (if bool_decide (["1"] = ["1"]) then <[key_a := TClaimed]> (c_tok sample_c2) else c_tok sample_c2)).
    apply (cstep_claim _ _ sample_c2 key_a "scheduler1"); [simpl; set_solver|apply key_a_in|].
    apply run_step_to. vm_compute. reflexivity.
Qed.

Lemma sample_reach4 : creachable sample_w sample_J sample_c1 sample_c4'.
Proof.
  eapply creach_step; [eapply creach_step; [apply sample_reach3|]|].
  - change sample_c4 with (mkC sample_s4 (c_unclaimed sample_c3) (c_unpromoted sample_c3)
      (<[key_a := if start_ok ["FIRST_TO_START"] then TStarted else TAborted]> (c_tok sample_c3))).
    apply (cstep_start _ _ sample_c3 "a"); [vm_compute; reflexivity|apply key_a_in|].
    apply run_step_to. vm_compute. reflexivity.
  - apply (cstep_finish _ _ sample_c4 key_a TDone); [vm_compute; reflexivity|by left].
Qed.

(** Job [a] has completed, job [b] is queued. *)
Lemma sample_reach5 : creachable sample_w sample_J sample_c1 sample_c5.
Proof.
  eapply creach_step; [apply sample_reach4|].
  change sample_c5 with (mkC sample_s5 (c_unclaimed sample_c4') (c_unpromoted sample_c4')
    (if complete_ok ["1"; "0"; "b"; "1"; "b"] && true then delete key_a (c_tok sample_c4')
     else <[key_a := TBroken]> (c_tok sample_c4'))).
  apply (cstep_complete _ _ sample_c4' "a" "1700000005" true);
    [vm_compute; reflexivity|apply key_a_in|apply sample_small|].
  apply run_step_to. vm_compute. reflexivity.
Qed.

(** ** To the end of the workflow *)

Definition sample_s6 : rstate := step_to (call (BZPOPMAX EXECUTION_QUEUE_KEY)) sample_s5.
Definition sample_s7 : rstate := step_to (claim_lua key_b "scheduler1") sample_s6.
Definition sample_s8 : rstate :=
  step_to (try_set_job_to_running_lua (workflow_key sample_w) key_b) sample_s7.
Definition sample_s9 : rstate :=
  step_to (complete_successful_lua (workflow_key sample_w) (workflow_waiting_jobs_key sample_w)
    EXECUTION_QUEUE_KEY key_b (successors_key sample_w "b") "1700000009" (job_key sample_w ""))
    sample_s8.

Definition sample_c6 : csys := mkC sample_s6 ({[key_b]} ∪ c_unclaimed sample_c5) ∅ (c_tok sample_c5).
Definition sample_c7 : csys :=
  mkC sample_s7 (c_unclaimed sample_c6 ∖ {[key_b]}) ∅ (<[key_b := TClaimed]> (c_tok sample_c6)).
Definition sample_c8 : csys :=
  mkC sample_s8 (c_unclaimed sample_c7) ∅ (<[key_b := TStarted]> (c_tok sample_c7)).
Definition sample_c8' : csys :=
  mkC sample_s8 (c_unclaimed sample_c7) ∅ (<[key_b := TDone]> (c_tok sample_c8)).
Definition sample_c9 : csys :=
  mkC sample_s9 (c_unclaimed sample_c7) ∅ (delete key_b (c_tok sample_c8')).

Lemma sample_small8 : counters_small sample_w sample_J sample_s8.
Proof. counters_by_computation. Qed.

Lemma sample_reach7 : creachable sample_w sample_J sample_c1 sample_c7.
Proof.
  eapply creach_step; [eapply creach_step; [apply sample_reach5|]|].
  - apply (cstep_pop _ _ sample_c5 key_b 9); [|apply key_b_in].
    apply run_step_to. vm_compute. reflexivity.
  - change sample_c7 with (mkC sample_s7 (c_unclaimed sample_c6 ∖ {[key_b]}) (c_unpromoted sample_c6)
      (if bool_decide (["1"] = ["1"]) then <[key_b := TClaimed]> (c_tok sample_c6) else c_tok sample_c6)).
    apply (cstep_claim _ _ sample_c6 key_b "scheduler1");
      [unfold sample_c6; cbn [c_unclaimed]; set_solver|apply key_b_in|].
    apply run_step_to. vm_compute. reflexivity.
Qed.

(** Both jobs have completed. *)
Lemma sample_reach9 : creachable sample_w sample_J sample_c1 sample_c9.
Proof.
  eapply creach_step; [eapply creach_step; [eapply creach_step; [apply sample_reach7|]|]|].
  - change sample_c8 with (mkC sample_s8 (c_unclaimed sample_c7) (c_unpromoted sample_c7)
      (<[key_b := if start_ok ["STARTED"] then TStarted else TAborted]> (c_tok sample_c7))).
    apply (cstep_start _ _ sample_c7 "b"); [vm_compute; reflexivity|apply key_b_in|].
    apply run_step_to. vm_compute. reflexivity.
  - apply (cstep_finish _ _ sample_c8 key_b TDone); [vm_compute; reflexivity|by left].
  - change sample_c9 with (mkC sample_s9 (c_unclaimed sample_c8') (c_unpromoted sample_c8')
      (if complete_ok ["1"; "1"; ""; "0"] && true then delete key_b (c_tok sample_c8')
       else <[key_b := TBroken]> (c_tok sample_c8'))).
    apply (cstep_complete _ _ sample_c8' "b" "1700000009" true);
      [vm_compute; reflexivity|apply key_b_in|apply sample_small8|].
    apply run_step_to. vm_compute. reflexivity.
Qed.

(** ** The view of the running workflow *)

(** Job [a] is RUNNING. *)
Lemma sample_view4 :
  ∃ v x, Rep sample_w sample_J sample_s4 sample_s4 v ∧ view_ok v ∧
    v_jobs v !! key_a = Some x ∧ Forall (λ id, job_key sample_w id ∈ sample_J) (succ_of v "a") ∧
    jv_status x = JobStatus.RUNNING ∧ w_status (v_wf v) = WorkflowStatus.RUNNING.
Proof.
  destruct (creachable_good _ _ _ _ _ sample_good sample_reach4) as (v & HR & HI).
  cbn [c_s sample_c4'] in HR.
  destruct (inv_tokens _ _ _ HI key_a TDone) as (x & Hx & Hst & _).
  { cbn [s_tok sample_c4' c_tok]. by rewrite lookup_insert_eq. }
  exists v, x. split_and!; [done|by eapply counters_view_ok, sample_small|done| |done|].
  - unfold succ_of. destruct (v_succ v !! "a") as [l|] eqn:El; [|constructor].
    simpl. rewrite <-(rep_dom _ _ _ _ _ HR). by eapply (inv_deps _ _ _ HI).
  - destruct (rep_wf _ _ _ _ _ HR) as (h & Hh & Hf & _).
    assert (hash_at sample_s4 (workflow_key sample_w) ≫= (.!! "status") = Some "RUNNING") as E
      by (vm_compute; reflexivity).
    rewrite Hh in E. simpl in E. rewrite Hf in E. injection E as E.
    by apply (inj WorkflowStatus.to_string _ WorkflowStatus.RUNNING).
Qed.
