(* ===== verification/Observe.v ===== *)
(** * What can be observed of a workflow in the keyspace

    Fields and statuses read from the keyspace itself, and the facts about them
    that the invariant gives.  The theorems on the runtime are stated with these
    observations, with no reference to typed views. *)

From S2P Require Import Prelude.
From S2P Require Import Prog.
From S2P Require Import RedisServer.
From S2P Require Import Models.
From S2P Require Import RedisKeys.
From S2P Require Import Scripts.
From S2P Require Import WorkflowView.
From S2P Require Import WorkflowSpec.
From S2P Require Import WorkflowInv.
From S2P Require Import Interleaving.

Definition field_at (s : rstate) (k f : string) : option string :=
  h ← hash_at s k; h !! f.

Definition job_has (s : rstate) (sts : list JobStatus.t) (k : string) : bool :=
  match field_at s k "status" with
  | Some v => bool_decide (v ∈ JobStatus.to_string <$> sts)
  | None => false
  end.

(** How many of the jobs have one of the statuses. *)
Definition count_jobs (s : rstate) (J : gset string) (sts : list JobStatus.t) : Z :=
  cnt (job_has s sts) (elements J).

Definition slot_statuses : list JobStatus.t :=
  [JobStatus.QUEUED; JobStatus.PENDING_EXECUTION; JobStatus.RUNNING].
Definition terminal_statuses : list JobStatus.t :=
  [JobStatus.COMPLETED; JobStatus.FAILED; JobStatus.ABORTED].

Definition failed_statuses : list JobStatus.t := [JobStatus.FAILED; JobStatus.ABORTED].

(** The workflow has not ended. *)
Definition wf_active (s : rstate) (w : WorkflowIdentity) : Prop :=
  field_at s (workflow_key w) "status" = Some wf_ready ∨
  field_at s (workflow_key w) "status" = Some wf_running.

Definition in_zset (s : rstate) (K k : string) : Prop :=
  ∃ z p, zset_at s K = Some z ∧ z !! k = Some p.

(** The three queues a job of the workflow can be in. *)
Definition in_no_queue (s : rstate) (w : WorkflowIdentity) (k : string) : Prop :=
  ¬ in_zset s (workflow_waiting_jobs_key w) k ∧ ¬ in_zset s EXECUTION_QUEUE_KEY k ∧
  ¬ in_zset s JOB_RETRY_STREAM_KEY k.

Section observe.
Context (w : WorkflowIdentity) (J : gset string) (s : rstate) (v : wview).
Context (HR : Rep w J s s v).

Lemma obs_wf f x : (∀ h, wf_fields h (v_wf v) → h !! f = Some x) →
  field_at s (workflow_key w) f = Some x.
Proof using HR.
  intros Hf. destruct (rep_wf _ _ _ _ _ HR) as (h & Hh & Hw). unfold field_at. rewrite Hh. simpl.
  by apply Hf.
Qed.

Lemma obs_wf_status :
  field_at s (workflow_key w) "status" = Some (WorkflowStatus.to_string (w_status (v_wf v))).
Proof using HR. apply obs_wf. fields_tac. Qed.

Lemma obs_job k x : v_jobs v !! k = Some x →
  field_at s k "status" = Some (JobStatus.to_string (jv_status x)).
Proof using HR.
  intros Hx. destruct (rep_job _ _ _ _ _ HR k x Hx) as (h & Hh & Hst & _). unfold field_at.
  by rewrite Hh.
Qed.

Lemma obs_job_inv k st : k ∈ J → field_at s k "status" = Some (JobStatus.to_string st) →
  ∃ x, v_jobs v !! k = Some x ∧ jv_status x = st.
Proof using HR.
  intros Hk Hst. rewrite <-(rep_dom _ _ _ _ _ HR) in Hk. apply elem_of_dom in Hk as [x Hx].
  exists x. split; [done|]. rewrite (obs_job k x Hx) in Hst. injection Hst as E.
  by apply (inj JobStatus.to_string) in E.
Qed.

Lemma obs_active : wf_active s w ↔ active v = true.
Proof using HR.
  unfold wf_active. rewrite obs_wf_status. unfold active, wf_ready, wf_running.
  destruct (w_status (v_wf v)); naive_solver.
Qed.

Lemma obs_count sts (p : jobv → bool) :
  (∀ x, p x = bool_decide (jv_status x ∈ sts)) → count_jobs s J sts = mcnt p (v_jobs v).
Proof using HR.
  intros Hp. unfold count_jobs.
  assert (∀ k x, v_jobs v !! k = Some x → job_has s sts k = p x) as Hk.
  { intros k x Hx. unfold job_has. rewrite (obs_job k x Hx), Hp. apply bool_decide_ext. split.
    - intros (st & E%(inj JobStatus.to_string) & Hst)%list_elem_of_fmap. by subst.
    - intros Hin. by apply list_elem_of_fmap_2. }
  rewrite (mcnt_keys p (v_jobs v) (List.filter (job_has s sts) (elements J))).
  - induction (elements J) as [|k l IH]; simpl; [done|]. rewrite IH. destruct (job_has s sts k); simpl; lia.
  - pose proof (NoDup_elements J) as Hnd. induction Hnd as [|k l Hk' Hnd IH]; simpl; [apply NoDup_nil_2|].
    destruct (job_has s sts k); [|done]. apply NoDup_cons. split; [|done].
    intros [Hin _]%list_elem_of_In%filter_In. apply Hk'. by apply list_elem_of_In.
  - intros k. rewrite list_elem_of_In, filter_In, <-list_elem_of_In, elem_of_elements.
    rewrite <-(rep_dom _ _ _ _ _ HR), elem_of_dom. split.
    + intros [[x Hx] Hj]. exists x. by rewrite <-(Hk k x Hx).
    + intros (x & Hx & Hpx). split; [eauto|]. by rewrite (Hk k x Hx).
Qed.

Lemma obs_waiting k : in_zset s (workflow_waiting_jobs_key w) k ↔ is_Some (v_waiting v !! k).
Proof using HR.
  unfold in_zset. rewrite (rep_waiting _ _ _ _ _ HR). split.
  - intros (z & p & [= <-] & Hp). eauto.
  - intros [p Hp]. eauto.
Qed.

Lemma obs_shared K z k : shared_zset J s s K z → k ∈ J → in_zset s K k ↔ is_Some (z !! k).
Proof.
  intros (_ & z0 & z1 & _ & Hz1 & HJ & _) Hk. unfold in_zset. rewrite Hz1, <-(HJ k Hk). split.
  - intros (z' & p & [= <-] & Hp). eauto.
  - intros [p Hp]. eauto.
Qed.
End observe.
