(* ===== verification/PropsRuntime.v ===== *)
(** * Properties of the running workflow

    The theorems on the scripts of one workflow, run by schedulers, workers, the
    completion handler and the retry handler in any interleaving on the Redis
    keyspace, with lost messages and failed database updates among the steps. *)

From S2P Require Import Prelude.
From S2P Require Import Prog.
From S2P Require Import RedisServer.
From S2P Require Import Models.
From S2P Require Import RedisKeys.
From S2P Require Import Scripts.
From S2P Require Import WorkflowView.
From S2P Require Import WorkflowSpec.
From S2P Require Import WorkflowInv.
From S2P Require Import Interleaving.
From S2P Require Import RedisExec.
From S2P Require Import RedisRuntime.
From S2P Require Import Json.
From S2P Require Import Validation.
From S2P Require Import Database.
From S2P Require Import RuntimeGen.
From S2P Require Import RuntimeInit.
From S2P Require Import RedisAdmission.
From S2P Require Import Sample.
From S2P Require Import Observe.

(** C1. Concurrency limit: in every state the runtime can reach, the jobs that
    are QUEUED, PENDING_EXECUTION or RUNNING are at most
    [max_concurrent_jobs]. *)
Theorem slot_bound w J succ0 σ0 σ :
  Good w J succ0 σ0 → creachable w J σ0 σ →
  ∃ m, field_at (c_s σ) (workflow_key w) "max_concurrent_jobs" = Some (to_str m) ∧
    count_jobs (c_s σ) J slot_statuses ≤ m.
Proof.
  intros HG Hr. destruct (creachable_good _ _ _ _ _ HG Hr) as (v & HR & HI).
  exists (w_maxc (v_wf v)). split; [eapply obs_wf; [done|fields_tac]|].
  rewrite (obs_count w J _ v HR slot_statuses slot).
  - apply (c_slots _ _ _ (inv_counts _ _ _ HI)).
  - intros [[] ???]; done.
Qed.

Lemma slot_bound_witness :
  ∃ m, field_at sample_s5 (workflow_key sample_w) "max_concurrent_jobs" = Some (to_str m) ∧
    count_jobs sample_s5 sample_J slot_statuses ≤ m.
Proof. exact (slot_bound _ _ _ _ sample_c5 sample_good sample_reach5). Defined.

(** C2. Dependencies: while the workflow has not ended, a job that is no longer
    PENDING has only COMPLETED predecessors. *)
Theorem dependencies_respected w J succ0 σ0 σ j d st :
  Good w J succ0 σ0 → creachable w J σ0 σ → wf_active (c_s σ) w →
  job_key w j ∈ J → field_at (c_s σ) (job_key w j) "status" = Some (JobStatus.to_string st) →
  st ≠ JobStatus.PENDING →
  job_key w d ∈ J → j ∈ default [] (succ0 !! d) →
  field_at (c_s σ) (job_key w d) "status" = Some st_completed.
Proof.
  intros HG Hr Ha Hj Hst Hne Hd Hs. destruct (creachable_good _ _ _ _ _ HG Hr) as (v & HR & HI).
  apply (obs_active w J _ v HR) in Ha.
  destruct (obs_job_inv w J _ v HR _ _ Hj Hst) as (x & Hx & <-).
  rewrite <-(rep_dom _ _ _ _ _ HR) in Hd. apply elem_of_dom in Hd as [y Hy].
  rewrite (obs_job w J _ v HR _ _ Hy). unfold st_completed. do 2 f_equal.
  exact (released_deps w succ0 v j x d y (inv_deps _ _ _ HI) Ha Hx Hne Hy Hs).
Qed.

Lemma dependencies_respected_witness :
  field_at sample_s5 (job_key sample_w "a") "status" = Some st_completed.
Proof.
  apply (dependencies_respected sample_w sample_J sample_succ0 sample_c1 sample_c5 "b" "a"
    JobStatus.QUEUED).
  - exact sample_good.
  - exact sample_reach5.
  - right. vm_compute. reflexivity.
  - exact key_b_in.
  - vm_compute. reflexivity.
  - discriminate.
  - exact key_a_in.
  - left.
Defined.

(** C3. Exact accounting: while the workflow has not ended, [completed_jobs]
    counts the COMPLETED, FAILED and ABORTED jobs, [failed_jobs] the FAILED and
    ABORTED ones, [pending_jobs] the PENDING ones, and
    [reserved_execution_slots] is the number of QUEUED, PENDING_EXECUTION and
    RUNNING jobs plus that of the failed ones, and within the limit: a job that
    fails while the workflow is still READY does not return its slot. *)
Theorem counters_exact w J succ0 σ0 σ :
  Good w J succ0 σ0 → creachable w J σ0 σ → wf_active (c_s σ) w →
  ∃ m, let slots := count_jobs (c_s σ) J slot_statuses in
    let failed := count_jobs (c_s σ) J failed_statuses in
    field_at (c_s σ) (workflow_key w) "max_concurrent_jobs" = Some (to_str m) ∧
    field_at (c_s σ) (workflow_key w) "reserved_execution_slots" = Some (to_str (slots + failed)) ∧
    slots + failed ≤ m ∧
    field_at (c_s σ) (workflow_key w) "failed_jobs" = Some (to_str failed) ∧
    field_at (c_s σ) (workflow_key w) "completed_jobs"
      = Some (to_str (count_jobs (c_s σ) J terminal_statuses)) ∧
    field_at (c_s σ) (workflow_key w) "pending_jobs"
      = Some (to_str (count_jobs (c_s σ) J [JobStatus.PENDING])) ∧
    field_at (c_s σ) (workflow_key w) "total_jobs" = Some (to_str (Z.of_nat (size J))).
Proof.
  intros HG Hr Ha. destruct (creachable_good _ _ _ _ _ HG Hr) as (v & HR & HI).
  apply (obs_active w J _ v HR) in Ha. pose proof (inv_counts _ _ _ HI) as HC. simpl in HC.
  rewrite (obs_count w J _ v HR slot_statuses slot) by (intros [[] ???]; done).
  rewrite (obs_count w J _ v HR failed_statuses dropped) by (intros [[] ???]; done).
  rewrite (obs_count w J _ v HR terminal_statuses terminal) by (intros [[] ???]; done).
  rewrite (obs_count w J _ v HR [JobStatus.PENDING] (job_is JobStatus.PENDING)) by (intros [[] ???]; done).
  exists (w_maxc (v_wf v)). cbv zeta.
  rewrite <-(rep_dom _ _ _ _ _ HR), size_dom, <-(c_total _ _ _ HC).
  rewrite <-(c_completed _ _ _ HC Ha), Z.add_0_r, <-(c_pending _ _ _ HC Ha).
  destruct (c_reserved _ _ _ HC Ha) as [Er Hle]. rewrite Z.add_0_r in Er. rewrite <-Er.
  rewrite <-(c_failed _ _ _ HC Ha). split_and!; try done; (eapply obs_wf; [done|fields_tac]).
Qed.

Lemma counters_exact_witness :
  ∃ m, let slots := count_jobs sample_s5 sample_J slot_statuses in
    let failed := count_jobs sample_s5 sample_J failed_statuses in
    field_at sample_s5 (workflow_key sample_w) "max_concurrent_jobs" = Some (to_str m) ∧
    field_at sample_s5 (workflow_key sample_w) "reserved_execution_slots" = Some (to_str (slots + failed)) ∧
    slots + failed ≤ m ∧
    field_at sample_s5 (workflow_key sample_w) "failed_jobs" = Some (to_str failed) ∧
    field_at sample_s5 (workflow_key sample_w) "completed_jobs"
      = Some (to_str (count_jobs sample_s5 sample_J terminal_statuses)) ∧
    field_at sample_s5 (workflow_key sample_w) "pending_jobs"
      = Some (to_str (count_jobs sample_s5 sample_J [JobStatus.PENDING])) ∧
    field_at sample_s5 (workflow_key sample_w) "total_jobs" = Some (to_str (Z.of_nat (size sample_J))).
Proof.
  apply (counters_exact sample_w sample_J sample_succ0 sample_c1 sample_c5).
  - exact sample_good.
  - exact sample_reach5.
  - right. vm_compute. reflexivity.
Defined.

(** C4. Queues and statuses agree: while the workflow has not ended, a job is in
    the waiting set exactly when it is READY; one in the execution queue is
    QUEUED, one in the retry queue RETRY_DELAY, so a job is in at most one of
    the three; a PENDING, PENDING_EXECUTION, RUNNING, COMPLETED, FAILED or
    ABORTED job, and one a message is under way for, is in none.  A QUEUED job
    outside the execution queue has been popped and not claimed since, a
    RETRY_DELAY job outside the retry queue has been dequeued and not promoted
    since; whether the actor that popped it still holds it is not stated. *)
Theorem queues_agree w J succ0 σ0 σ k st :
  Good w J succ0 σ0 → creachable w J σ0 σ → wf_active (c_s σ) w →
  k ∈ J → field_at (c_s σ) k "status" = Some (JobStatus.to_string st) →
  (in_zset (c_s σ) (workflow_waiting_jobs_key w) k ↔ st = JobStatus.READY) ∧
  (in_zset (c_s σ) EXECUTION_QUEUE_KEY k ↔ st = JobStatus.QUEUED ∧ k ∉ c_unclaimed σ) ∧
  (in_zset (c_s σ) JOB_RETRY_STREAM_KEY k ↔ st = JobStatus.RETRY_DELAY ∧ k ∉ c_unpromoted σ) ∧
  (unqueued st = true ∨ is_Some (c_tok σ !! k) → in_no_queue (c_s σ) w k).
Proof.
  intros HG Hr Ha Hk Hst. destruct (creachable_good _ _ _ _ _ HG Hr) as (v & HR & HI).
  apply (obs_active w J _ v HR) in Ha. pose proof (inv_queues _ _ _ HI) as HQ. simpl in HQ.
  destruct (obs_job_inv w J _ v HR _ _ Hk Hst) as (x & Hx & <-). unfold in_no_queue.
  rewrite (obs_waiting w J _ v HR), (obs_shared J _ _ _ k (rep_exec _ _ _ _ _ HR) Hk),
    (obs_shared J _ _ _ k (rep_retry _ _ _ _ _ HR) Hk).
  pose proof (queues_where w v _ _ HQ Ha k x Hx) as (Hw & He & Hd).
  split_and!; [done..|]. intros Hu. rewrite Hw, He, Hd.
  assert (unqueued (jv_status x) = true) as Hn.
  { destruct Hu as [?|[t Ht]]; [done|].
    exact (proj1 (no_token _ _ _ _ _ (inv_tokens _ _ _ HI) Hx Ht)). }
  destruct (jv_status x); naive_solver.
Qed.

Lemma queues_agree_witness :
  in_zset sample_s5 EXECUTION_QUEUE_KEY key_b ↔
    JobStatus.QUEUED = JobStatus.QUEUED ∧ key_b ∉ c_unclaimed sample_c5.
Proof.
  destruct (queues_agree sample_w sample_J sample_succ0 sample_c1 sample_c5 key_b JobStatus.QUEUED)
    as (_ & H & _).
  - exact sample_good.
  - exact sample_reach5.
  - right. vm_compute. reflexivity.
  - exact key_b_in.
  - vm_compute. reflexivity.
  - exact H.
Defined.

(** C5. A workflow is marked COMPLETED only when every job is COMPLETED, FAILED
    or ABORTED. *)
Theorem completed_only_when_done w J succ0 σ0 σ :
  Good w J succ0 σ0 → creachable w J σ0 σ →
  field_at (c_s σ) (workflow_key w) "status" = Some wf_completed →
  count_jobs (c_s σ) J terminal_statuses = Z.of_nat (size J).
Proof.
  intros HG Hr Hc. destruct (creachable_good _ _ _ _ _ HG Hr) as (v & HR & HI).
  rewrite (obs_wf_status w J _ v HR) in Hc. injection Hc as Hc.
  apply (inj WorkflowStatus.to_string _ WorkflowStatus.COMPLETED) in Hc.
  rewrite (obs_count w J _ v HR terminal_statuses terminal) by (intros [[] ???]; done).
  rewrite <-(rep_dom _ _ _ _ _ HR), size_dom. apply mcnt_full.
  apply (c_done _ _ _ (inv_counts _ _ _ HI) Hc).
Qed.

Lemma completed_only_when_done_witness :
  count_jobs sample_s9 sample_J terminal_statuses = Z.of_nat (size sample_J).
Proof.
  apply (completed_only_when_done sample_w sample_J sample_succ0 sample_c1 sample_c9).
  - exact sample_good.
  - exact sample_reach9.
  - vm_compute. reflexivity.
Defined.

(** C6. The checks of the start script never fire: whatever the interleaving, a
    worker that starts a job its scheduler claimed is never answered with an
    INVARIANT_VIOLATION. *)
Theorem start_never_violates w J succ0 σ0 σ j reply s' :
  Good w J succ0 σ0 → creachable w J σ0 σ →
  c_tok σ !! job_key w j = Some TClaimed →
  run redis_doc (try_set_job_to_running_lua (workflow_key w) (job_key w j)) (c_s σ)
    = (Some reply, s') →
  reply = ["FIRST_TO_START"] ∨ reply = ["STARTED"] ∨ reply = ["CANCELED_BY_WORKFLOW_STATE"].
Proof.
  intros HG Hr Ht Hrun. destruct (creachable_good _ _ _ _ _ HG Hr) as (v & HR & HI).
  destruct (inv_tokens _ _ _ HI _ _ Ht) as (x & Hx & Hst). simpl in Hx, Hst.
  destruct (wp_result _ _ _ _ _ (start_refines _ _ _ _ _ _ _ HR Hx) Hrun) as [-> _].
  pose proof (inv_counts _ _ _ HI) as HC. simpl in HC. by eapply start_claimed.
Qed.

Lemma start_never_violates_witness :
  (run redis_doc (try_set_job_to_running_lua (workflow_key sample_w) key_a) sample_s3).1
    = Some ["FIRST_TO_START"] ∧
  (["FIRST_TO_START"] = ["FIRST_TO_START"] ∨ ["FIRST_TO_START"] = ["STARTED"] ∨
   ["FIRST_TO_START"] = ["CANCELED_BY_WORKFLOW_STATE"]).
Proof.
  split; [vm_compute; reflexivity|].
  apply (start_never_violates sample_w sample_J sample_succ0 sample_c1 sample_c3 "a" _ sample_s4).
  - exact sample_good.
  - exact sample_reach3.
  - vm_compute. reflexivity.
  - apply run_step_to. vm_compute. reflexivity.
Defined.
