(* ===== verification/PropsScripts.v ===== *)
(** * Properties of the Lua scripts

    Each runtime script, run on any server that behaves as documented and any
    keyspace that represents a workflow, answers as its specification says and
    leaves a keyspace that represents the specified view; nothing outside the
    workflow changes ([Rep]). *)

From S2P Require Import Prelude.
From S2P Require Import Prog.
From S2P Require Import RedisServer.
From S2P Require Import Models.
From S2P Require Import RedisKeys.
From S2P Require Import Scripts.
From S2P Require Import WorkflowView.
From S2P Require Import WorkflowSpec.
From S2P Require Import WorkflowInv.
From S2P Require Import Interleaving.
From S2P Require Import RedisExec.
From S2P Require Import RedisRuntime.
From S2P Require Import Json.
From S2P Require Import Validation.
From S2P Require Import Database.
From S2P Require Import RuntimeGen.
From S2P Require Import RuntimeInit.
From S2P Require Import RedisAdmission.
From S2P Require Import Sample.
From S2P Require Import Observe.
From S2P Require Import WorkflowFacts.

(** The script answers [reply] and takes the view of the workflow to [v]. *)
Definition script_does `{RedisServer R} (w : WorkflowIdentity) (J : gset string)
  (p : lua (list string)) (r : R) (reply : list string) (v : wview) : Prop :=
  (redis_eval p r).1 = Some reply ∧
  Rep w J (redis_state r) (redis_state (redis_eval p r).2) v.

(** The time of the server in seconds. *)
Definition server_now `{RedisServer R} (r : R) : Z := r_clock (redis_state r) `div` 1000000.

Lemma script_does_wp `{RedisServer R} w J p (r : R) reply v :
  wp redis_doc p (λ a s', a = reply ∧ Rep w J (redis_state r) s' v) (redis_state r) →
  script_does w J p r reply v.
Proof. intros Hwp. apply redis_eval_wp in Hwp as (a & Ha & -> & HR). by split. Qed.

(** A completion whose workflow or job has no status is refused, and nothing is
    written. *)
Lemma complete_missing wk waiting exec jk succ lut prefix s hw hj :
  hash_at s wk = Some hw → hash_at s jk = Some hj →
  hw !! "status" = None ∨ hj !! "status" = None →
  wp redis_doc (complete_successful_lua wk waiting exec jk succ lut prefix)
    (λ a s', a = ["0"] ∧ s' = s) s.
Proof.
  intros Hw Hj Hn. unfold wp, complete_successful_lua.
  rewrite run_trigger_bind. cbn [redis_doc]. rewrite Hw, run_trigger_bind. cbn [redis_doc]. rewrite Hj.
  destruct Hn as [-> | ->]; [done|]. by destruct (hw !! "status").
Qed.

Section scripts.
Context (w : WorkflowIdentity) (J : gset string).

(** C7. [complete_successful_job_runtime_async]'s script, on every branch.  On a
    keyspace that represents a workflow with that job: the job becomes COMPLETED,
    its dependants are released, the slot returned, the workflow completed or the
    best waiting job promoted, or nothing but the answer is given, exactly as
    [spec_complete] says.  When the hash of the workflow or of the job has no
    status (a completion delivered again after the cleanup): the answer is "0"
    and the keyspace is left as it was. *)
Theorem complete_script_refines `{RedisServer R} (r : R) j last_update_time :
  let script :=
    complete_successful_lua (workflow_key w) (workflow_waiting_jobs_key w) EXECUTION_QUEUE_KEY
      (job_key w j) (successors_key w j) last_update_time (job_key w "") in
  (∀ v x, Rep w J (redis_state r) (redis_state r) v → view_ok v →
     v_jobs v !! job_key w j = Some x → Forall (λ id, job_key w id ∈ J) (succ_of v j) →
     script_does w J script r (complete_reply w (spec_complete w (server_now r) j x v).1)
       (spec_complete w (server_now r) j x v).2) ∧
  (∀ hw hj, hash_at (redis_state r) (workflow_key w) = Some hw →
     hash_at (redis_state r) (job_key w j) = Some hj →
     hw !! "status" = None ∨ hj !! "status" = None →
     (redis_eval script r).1 = Some ["0"] ∧ redis_state (redis_eval script r).2 = redis_state r).
Proof.
  intros script. split.
  - intros v x HR Hok Hx Hs. apply script_does_wp. by apply complete_refines.
  - intros hw hj Hw Hj Hn.
    edestruct (redis_eval_wp script (λ a s', a = ["0"] ∧ s' = redis_state r)) as (a & Ha & -> & ?);
      [by eapply complete_missing|done].
Qed.

(** C8. [complete_failed_job_runtime_async]'s script: the job becomes FAILED;
    when the workflow is RUNNING it fails, and every job of the list that has not
    been started is ABORTED and leaves its queue ([spec_fail]). *)
Theorem fail_script_refines `{RedisServer R} (r : R) v j x retry ids :
  Rep w J (redis_state r) (redis_state r) v → view_ok v →
  v_jobs v !! job_key w j = Some x → Forall (λ id, job_key w id ∈ J) ids →
  Z.of_nat (length ids) < 2 ^ 52 →
  script_does w J
    (complete_failed_lua (workflow_key w) (workflow_waiting_jobs_key w) EXECUTION_QUEUE_KEY
       JOB_RETRY_STREAM_KEY (job_key w j) (to_str retry) ((λ id, (id, job_key w id)) <$> ids)) r
    (fail_reply (spec_fail w j retry ids x v).1) (spec_fail w j retry ids x v).2.
Proof. intros HR Hok Hx Hids Hl. apply script_does_wp. by apply fail_refines. Qed.

(** C9. The scripts of a retry.  [schedule_job_retry_async]'s: the job waits in
    the retry queue until its time, its slot is returned and the best waiting job
    promoted ([spec_retry]).  [promote_retry_job_async]'s: a job whose delay is
    over is queued when a slot is free and nothing waits, else it joins the
    waiting set and the best waiting job is promoted when a slot is free; a job
    of a workflow that is not RUNNING is ABORTED ([spec_promote_retry]). *)
Theorem retry_scripts_refine `{RedisServer R} (r : R) v j x retry at_ms :
  Rep w J (redis_state r) (redis_state r) v → view_ok v → v_jobs v !! job_key w j = Some x →
  script_does w J
    (schedule_job_retry_lua (workflow_key w) (workflow_waiting_jobs_key w) EXECUTION_QUEUE_KEY
       (job_key w j) JOB_RETRY_STREAM_KEY (to_str retry) at_ms JOB_RETRY_READY_CHANNEL) r
    (promoted_reply (spec_retry w j retry at_ms x v).1) (spec_retry w j retry at_ms x v).2 ∧
  script_does w J
    (promote_retry_job_lua (workflow_key w) (workflow_waiting_jobs_key w) EXECUTION_QUEUE_KEY
       (job_key w j)) r
    (promoted_reply (spec_promote_retry w j x v).1) (spec_promote_retry w j x v).2.
Proof.
  intros HR Hok Hx. split; apply script_does_wp; [by apply schedule_retry_refines|by apply promote_retry_refines].
Qed.

(** C11. The scripts that start a job.  The claim of the scheduler: exactly a
    READY or QUEUED job becomes PENDING_EXECUTION ([spec_claim]).
    [try_set_job_to_running_async]'s: the job becomes RUNNING, the first one
    starts the workflow, a job of a failed workflow is ABORTED, and each
    inconsistency fails the workflow ([spec_start]). *)
Theorem start_scripts_refine `{RedisServer R} (r : R) v j x scheduler_id :
  Rep w J (redis_state r) (redis_state r) v → v_jobs v !! job_key w j = Some x →
  script_does w J (claim_lua (job_key w j) scheduler_id) r
    [if (spec_claim (job_key w j) x v).1 then "1" else "0"] (spec_claim (job_key w j) x v).2 ∧
  script_does w J (try_set_job_to_running_lua (workflow_key w) (job_key w j)) r
    (start_reply (spec_start w (server_now r) j x v).1) (spec_start w (server_now r) j x v).2.
Proof. intros HR Hx. split; apply script_does_wp; [by apply claim_refines|by apply start_refines]. Qed.
End scripts.

Lemma complete_script_refines_witness :
  let script :=
    complete_successful_lua (workflow_key sample_w) (workflow_waiting_jobs_key sample_w)
      EXECUTION_QUEUE_KEY key_a (successors_key sample_w "a") "1700000005" (job_key sample_w "") in
  (∃ v x, v_jobs v !! key_a = Some x ∧
    script_does sample_w sample_J script sample_s4
      (complete_reply sample_w (spec_complete sample_w 1700000000 "a" x v).1)
      (spec_complete sample_w 1700000000 "a" x v).2) ∧
  (redis_eval script (mkR ∅ 0)).1 = Some ["0"].
Proof.
  split.
  - destruct sample_view4 as (v & x & HR & Hok & Hx & Hs & _). exists v, x. split; [exact Hx|].
    exact (proj1 (complete_script_refines sample_w sample_J sample_s4 "a" "1700000005") v x HR Hok Hx Hs).
  - exact (proj1 (proj2 (complete_script_refines sample_w sample_J (mkR ∅ 0) "a" "1700000005")
      ∅ ∅ eq_refl eq_refl (or_introl eq_refl))).
Defined.

Lemma fail_script_refines_witness :
  ∃ v x, v_jobs v !! key_a = Some x ∧
    script_does sample_w sample_J
      (complete_failed_lua (workflow_key sample_w) (workflow_waiting_jobs_key sample_w)
         EXECUTION_QUEUE_KEY JOB_RETRY_STREAM_KEY key_a (to_str 1)
         ((λ id, (id, job_key sample_w id)) <$> ["a"; "b"]))
      sample_s4 (fail_reply (spec_fail sample_w "a" 1 ["a"; "b"] x v).1)
      (spec_fail sample_w "a" 1 ["a"; "b"] x v).2.
Proof.
  destruct sample_view4 as (v & x & HR & Hok & Hx & _). exists v, x. split; [exact Hx|].
  refine (fail_script_refines sample_w sample_J sample_s4 v "a" x 1 ["a"; "b"] HR Hok Hx _ _).
  - constructor; [exact key_a_in|constructor; [exact key_b_in|constructor]].
  - reflexivity.
Defined.

Lemma retry_scripts_refine_witness :
  ∃ v x, v_jobs v !! key_a = Some x ∧
    script_does sample_w sample_J
      (schedule_job_retry_lua (workflow_key sample_w) (workflow_waiting_jobs_key sample_w)
         EXECUTION_QUEUE_KEY key_a JOB_RETRY_STREAM_KEY (to_str 1) 1700000010000
         JOB_RETRY_READY_CHANNEL)
      sample_s4 (promoted_reply (spec_retry sample_w "a" 1 1700000010000 x v).1)
      (spec_retry sample_w "a" 1 1700000010000 x v).2 ∧
    script_does sample_w sample_J
      (promote_retry_job_lua (workflow_key sample_w) (workflow_waiting_jobs_key sample_w)
         EXECUTION_QUEUE_KEY key_a)
      sample_s4 (promoted_reply (spec_promote_retry sample_w "a" x v).1)
      (spec_promote_retry sample_w "a" x v).2.
Proof.
  destruct sample_view4 as (v & x & HR & Hok & Hx & _). exists v, x. split; [exact Hx|].
  exact (retry_scripts_refine sample_w sample_J sample_s4 v "a" x 1 1700000010000 HR Hok Hx).
Defined.

Lemma start_scripts_refine_witness :
  ∃ v x, v_jobs v !! key_a = Some x ∧
    script_does sample_w sample_J (claim_lua key_a "scheduler1") sample_s4
      [if (spec_claim key_a x v).1 then "1" else "0"] (spec_claim key_a x v).2 ∧
    script_does sample_w sample_J (try_set_job_to_running_lua (workflow_key sample_w) key_a) sample_s4
      (start_reply (spec_start sample_w 1700000000 "a" x v).1)
      (spec_start sample_w 1700000000 "a" x v).2.
Proof.
  destruct sample_view4 as (v & x & HR & Hok & Hx & _). exists v, x. split; [exact Hx|].
  exact (start_scripts_refine sample_w sample_J sample_s4 v "a" x "scheduler1" HR Hx).
Defined.

(** ** Job by job

    The scripts of a completion and of a failure, as the store calls them. *)
Abbreviation complete_script w j last_update_time :=
  (complete_successful_lua (workflow_key w) (workflow_waiting_jobs_key w) EXECUTION_QUEUE_KEY
     (job_key w j) (successors_key w j) last_update_time (job_key w "")).
Abbreviation fail_script w j retry ids :=
  (complete_failed_lua (workflow_key w) (workflow_waiting_jobs_key w) EXECUTION_QUEUE_KEY
     JOB_RETRY_STREAM_KEY (job_key w j) (to_str retry) ((λ id, (id, job_key w id)) <$> ids)).

(** The keyspace of [r] represents [v], in which [j] is the job [x]. *)
Definition represents `{RedisServer R} (w : WorkflowIdentity) (J : gset string) (r : R) (v : wview)
  (j : string) (x : jobv) : Prop :=
  Rep w J (redis_state r) (redis_state r) v ∧ view_ok v ∧ v_jobs v !! job_key w j = Some x ∧
  Forall (λ id, job_key w id ∈ J) (succ_of v j).

Lemma complete_does `{RedisServer R} w J (r : R) v j x lut :
  represents w J r v j x →
  script_does w J (complete_script w j lut) r
    (complete_reply w (spec_complete w (server_now r) j x v).1)
    (spec_complete w (server_now r) j x v).2.
Proof. intros (HR & Hok & Hx & Hs). apply script_does_wp. by apply complete_refines. Qed.

Lemma fail_does `{RedisServer R} w J (r : R) v j x retry ids :
  represents w J r v j x → Forall (λ id, job_key w id ∈ J) ids → Z.of_nat (length ids) < 2 ^ 52 →
  script_does w J (fail_script w j retry ids) r
    (fail_reply (spec_fail w j retry ids x v).1) (spec_fail w j retry ids x v).2.
Proof. intros (HR & Hok & Hx & Hs) Hids Hl. apply script_does_wp. by apply fail_refines. Qed.

(** C13. A completion releases exactly the dependants that wait for nothing else:
    on a RUNNING workflow within its deadline the script reports them as ready,
    they become READY (QUEUED if promoted), a dependant with other predecessors
    left loses one, and every other job but the completed and the promoted one
    keeps its record. *)
Theorem completion_releases `{RedisServer R} w J (r : R) v j x last_update_time :
  represents w J r v j x → NoDup (succ_of v j) → j ∉ succ_of v j →
  jv_status x ≠ JobStatus.COMPLETED → w_status (v_wf v) = WorkflowStatus.RUNNING →
  past_deadline (server_now r) (default 0 (w_start (v_wf v))) (w_maxrun (v_wf v)) = false →
  ∃ wf promoted v',
    let newly := List.filter (λ id, match v_jobs v !! job_key w id with
                                    | Some y => becomes_ready y | None => false end) (succ_of v j) in
    script_does w J (complete_script w j last_update_time) r
      (complete_reply w (Completed wf promoted newly)) v' ∧
    ∀ k, v_jobs v' !! k =
      let y := if decide (k = job_key w j) then Some (job_st JobStatus.COMPLETED x)
               else if decide (Exists (λ id, k = job_key w id) (succ_of v j))
               then released <$> v_jobs v !! k else v_jobs v !! k in
      if decide (promoted = Some k) then job_st JobStatus.QUEUED <$> y else y.
Proof.
  intros Hrep Hnd Hj Hx Hw Hd.
  destruct (complete_completes w (server_now r) j x v Hx Hw Hd) as (wf & promoted & newly & E).
  pose proof (complete_does w J r v j x last_update_time Hrep) as Hdo. rewrite E in Hdo.
  destruct (complete_jobs w _ _ _ _ _ _ _ E Hnd Hj) as [-> Hjobs].
  by exists wf, promoted, (spec_complete w (server_now r) j x v).2.
Qed.

(** Two jobs, [b] waiting for [a], and their keyspace. *)
Definition example_jobs (a b : jobv) : gmap string jobv := {[ key_a := a; key_b := b ]}.
Definition example_view (wf : wfv) (a b : jobv) : wview :=
  mkView wf (example_jobs a b) ∅ ∅ ∅ {[ "a" := ["b"] ]}.
Definition wf_hash (x : wfv) : gmap string string :=
  list_to_map
    [ ("status", WorkflowStatus.to_string (w_status x));
      ("reserved_execution_slots", to_str (w_reserved x));
      ("max_concurrent_jobs", to_str (w_maxc x)); ("total_jobs", to_str (w_total x));
      ("completed_jobs", to_str (w_completed x)); ("failed_jobs", to_str (w_failed x));
      ("pending_jobs", to_str (w_pending x)); ("max_run_time", to_str (w_maxrun x));
      ("start_run_time", start_str (w_start x)) ].
Definition job_hash (x : jobv) : gmap string string :=
  list_to_map
    [ ("status", JobStatus.to_string (jv_status x));
      ("remaining_dependencies", to_str (jv_deps x)); ("priority", to_str (jv_prio x));
      ("current_retry_count", to_str (jv_retry x)) ].
Definition example_state (wf : wfv) (a b : jobv) (now : Z) : rstate :=
  mkR {[ workflow_key sample_w := (RHash (wf_hash wf), None);
         key_a := (RHash (job_hash a), None); key_b := (RHash (job_hash b), None);
         successors_key sample_w "a" := (RList ["b"], None) ]} (now * 1000000).

Lemma example_rep wf a b now :
  Rep sample_w sample_J (example_state wf a b now) (example_state wf a b now) (example_view wf a b).
Proof.
  assert (Hhash : ∀ k h, r_keys (example_state wf a b now) !! k = Some (RHash h, None) →
    hash_at (example_state wf a b now) k = Some h)
    by (intros k h E; unfold hash_at, look; by rewrite E).
  assert (Hnone : ∀ k, r_keys (example_state wf a b now) !! k = None →
    look (example_state wf a b now) k = None) by (intros k E; unfold look; by rewrite E).
  split.
  - unfold sample_J, example_view, example_jobs, key_a, key_b. cbn [v_jobs]. rewrite dom_insert_L, dom_singleton_L.
    set_solver.
  - intros k [-> | ->]%sample_J_elem; eexists; reflexivity.
  - exists (wf_hash wf). split; [apply Hhash; reflexivity|]. unfold wf_hash. fields_tac.
  - intros k x Hk. unfold example_view, example_jobs in Hk. cbn [v_jobs] in Hk.
    apply lookup_insert_Some in Hk as [[<- <-]|[_ [<- <-]%lookup_singleton_Some]];
      eexists; (split; [apply Hhash; reflexivity|unfold job_hash; fields_tac]).
  - unfold zset_at. by rewrite Hnone by reflexivity.
  - split; [set_solver|]. exists ∅, ∅. unfold zset_at. rewrite Hnone by reflexivity. done.
  - split; [set_solver|]. exists ∅, ∅. unfold zset_at. rewrite Hnone by reflexivity. done.
  - intros j [E|E]%sample_J_elem; unfold key_a, key_b in E; apply (inj (job_key sample_w)) in E as ->.
    + unfold list_at, look. reflexivity.
    + unfold list_at. rewrite Hnone by reflexivity. reflexivity.
  - done.
  - done.
Qed.

Lemma example_represents wf a b now :
  view_ok (example_view wf a b) →
  represents sample_w sample_J (example_state wf a b now) (example_view wf a b) "a" a.
Proof.
  intros Hok. split_and!; [apply example_rep|done|apply lookup_insert_eq|].
  constructor; [exact key_b_in|constructor].
Qed.

(** Job [a] RUNNING with [b] PENDING, and a workflow that waits for its start. *)
Definition running_wf : wfv := mkWfv WorkflowStatus.RUNNING 1 1 2 0 0 1 3600 (Some 1700000000).
Definition ready_wf : wfv := mkWfv WorkflowStatus.READY 1 1 2 0 0 1 3600 None.
Definition job_a (st : JobStatus.t) : jobv := mkJobv st 0 5 0.
Definition job_b : jobv := mkJobv JobStatus.PENDING 1 9 0.

Lemma example_ok wf st :
  wf = running_wf ∨ wf = ready_wf → view_ok (example_view wf (job_a st) job_b).
Proof.
  intros Hwf. split; try (destruct Hwf; subst; unfold small; cbn; lia); [|set_solver].
  intros k x Hk. unfold example_view, example_jobs in Hk. cbn [v_jobs] in Hk. unfold small.
  apply lookup_insert_Some in Hk as [[_ <-]|[_ [_ <-]%lookup_singleton_Some]]; cbn; lia.
Qed.

Lemma completion_releases_witness :
  ∃ wf promoted v',
    script_does sample_w sample_J (complete_script sample_w "a" "1700000005")
      (example_state running_wf (job_a JobStatus.RUNNING) job_b 1700000001)
      (complete_reply sample_w (Completed wf promoted ["b"])) v' ∧
    ∀ k, v_jobs v' !! k =
      let y := if decide (k = key_a) then Some (job_a JobStatus.COMPLETED)
               else if decide (Exists (λ id, k = job_key sample_w id) ["b"])
               then released <$> example_jobs (job_a JobStatus.RUNNING) job_b !! k
               else example_jobs (job_a JobStatus.RUNNING) job_b !! k in
      if decide (promoted = Some k) then job_st JobStatus.QUEUED <$> y else y.
Proof.
  refine (completion_releases sample_w sample_J
    (example_state running_wf (job_a JobStatus.RUNNING) job_b 1700000001)
    (example_view running_wf (job_a JobStatus.RUNNING) job_b) "a" (job_a JobStatus.RUNNING)
    "1700000005" _ _ _ _ _ _).
  - apply example_represents, example_ok. left. reflexivity.
  - apply NoDup_singleton.
  - intros H. apply list_elem_of_singleton in H. discriminate H.
  - discriminate.
  - reflexivity.
  - vm_compute. reflexivity.
Defined.

(** C14. A failure ends the workflow: on a RUNNING workflow, with the full list of
    its jobs, the failure script leaves no job PENDING, READY, QUEUED or
    RETRY_DELAY and marks the workflow FAILED; a job that was already started or
    ended keeps its record. *)
Theorem failure_cancels `{RedisServer R} w J (r : R) v j x retry ids :
  represents w J r v j x → Forall (λ id, job_key w id ∈ J) ids → Z.of_nat (length ids) < 2 ^ 52 →
  w_status (v_wf v) = WorkflowStatus.RUNNING →
  (∀ k, k ∈ J → Exists (λ id, k = job_key w id) ids) →
  ∃ reply v', script_does w J (fail_script w j retry ids) r reply v' ∧
    w_status (v_wf v') = WorkflowStatus.FAILED ∧
    ∀ k y, v_jobs v' !! k = Some y →
      cancelable (jv_status y) = false ∧
      (k ≠ job_key w j → ∀ x', v_jobs v !! k = Some x' → cancelable (jv_status x') = false → y = x').
Proof.
  intros Hrep Hids Hl Hst Hall. pose proof (fail_does w J r v j x retry ids Hrep Hids Hl) as Hdo.
  destruct Hrep as (HR & _ & Hx & _). eexists _, _. split; [exact Hdo|].
  split; [by apply fail_status|]. intros k y. rewrite fail_jobs by done.
  destruct (decide (k = job_key w j)) as [->|Hk]; [intros [= <-]; split; [done|by intros []]|].
  destruct (v_jobs v !! k) as [x'|] eqn:Hx'; [|by case_decide].
  rewrite decide_True by (apply Hall; rewrite <-(rep_dom _ _ _ _ _ HR); by apply elem_of_dom_2 in Hx').
  intros [= <-]. split; [apply canceled_done|]. intros _ z [= <-] Hz. unfold canceled. by rewrite Hz.
Qed.

Lemma sample_ids : Forall (λ id, job_key sample_w id ∈ sample_J) ["a"; "b"].
Proof. constructor; [exact key_a_in|constructor; [exact key_b_in|constructor]]. Qed.

Lemma failure_cancels_witness :
  ∃ reply v',
    script_does sample_w sample_J (fail_script sample_w "a" 1 ["a"; "b"])
      (example_state running_wf (job_a JobStatus.RUNNING) job_b 1700000001) reply v' ∧
    w_status (v_wf v') = WorkflowStatus.FAILED ∧
    ∀ k y, v_jobs v' !! k = Some y →
      cancelable (jv_status y) = false ∧
      (k ≠ key_a → ∀ x', example_jobs (job_a JobStatus.RUNNING) job_b !! k = Some x' →
         cancelable (jv_status x') = false → y = x').
Proof.
  refine (failure_cancels sample_w sample_J
    (example_state running_wf (job_a JobStatus.RUNNING) job_b 1700000001)
    (example_view running_wf (job_a JobStatus.RUNNING) job_b) "a" (job_a JobStatus.RUNNING)
    1 ["a"; "b"] _ sample_ids _ _ _).
  - apply example_represents, example_ok. left. reflexivity.
  - reflexivity.
  - reflexivity.
  - intros k Hk. apply sample_J_elem in Hk as [-> | ->]; [left|right; left]; reflexivity.
Defined.

(** Priority: the job a script promotes from the waiting set has the highest
    priority of the set. *)
Lemma promotion_by_priority wk wr eq last_update_time s z k s' :
  zset_at s wr = Some z →
  run redis_doc (promote_waiting wk wr eq last_update_time) s = (Some (Some k), s') →
  ∃ p, z !! k = Some p ∧ ∀ k' p', z !! k' = Some p' → p' ≤ p.
Proof. apply promote_best. Qed.

(** A workflow past its deadline is stranded: the completion script of a job
    that ends after the deadline marks the workflow FAILED and reports a
    failure, and the failure script that the handler runs next finds it already
    FAILED: it reports no failed workflow, cancels no sibling and leaves their
    records as they are. *)
Lemma deadline_strands_siblings `{RedisServer R} w J (r : R) v j x last_update_time retry ids :
  represents w J r v j x → Forall (λ id, job_key w id ∈ J) ids → Z.of_nat (length ids) < 2 ^ 52 →
  jv_status x ≠ JobStatus.COMPLETED → w_status (v_wf v) = WorkflowStatus.RUNNING →
  past_deadline (server_now r) (default 0 (w_start (v_wf v))) (w_maxrun (v_wf v)) = true →
  let '(reply, r1) := redis_eval (complete_script w j last_update_time) r in
  reply = Some ["-1"] ∧
  ∃ all_done v2, script_does w J (fail_script w j retry ids) r1 ["1"; "0"; all_done; "0"] v2 ∧
    w_status (v_wf v2) = WorkflowStatus.FAILED ∧
    ∀ k, k ≠ job_key w j → v_jobs v2 !! k = v_jobs v !! k.
Proof.
  intros Hrep Hids Hl Hx Hw Hd.
  pose proof (complete_does w J r v j x last_update_time Hrep) as [Ha HR1].
  rewrite (complete_deadline w _ j x v Hx Hw Hd) in Ha, HR1.
  destruct (redis_eval _ r) as [reply r1]. cbn [fst snd] in *. split; [done|].
  set (v1 := with_wf _ v) in HR1.
  assert (represents w J r1 v1 j x) as Hrep1.
  { destruct Hrep as (_ & [] & Hj & Hs). split_and!; [by eapply rep_rebase|by split|done|done]. }
  pose proof (fail_does w J r1 v1 j x retry ids Hrep1 Hids Hl) as Hdo.
  eexists _, _. split; [exact Hdo|]. split; [done|].
  intros k Hk. cbn [spec_fail wf_is v1 with_wf set_status v_wf w_status].
  change (<[job_key w j := job_st JobStatus.FAILED (job_retry retry x)]> (v_jobs v) !! k = v_jobs v !! k).
  by rewrite lookup_insert_ne.
Qed.

Lemma deadline_strands_siblings_witness :
  let '(reply, r1) := redis_eval (complete_script sample_w "a" "1700009999")
      (example_state running_wf (job_a JobStatus.RUNNING) job_b 1700009999) in
  reply = Some ["-1"] ∧
  ∃ all_done v2,
    script_does sample_w sample_J (fail_script sample_w "a" 1 ["a"; "b"]) r1
      ["1"; "0"; all_done; "0"] v2 ∧
    w_status (v_wf v2) = WorkflowStatus.FAILED ∧
    ∀ k, k ≠ key_a → v_jobs v2 !! k = example_jobs (job_a JobStatus.RUNNING) job_b !! k.
Proof.
  refine (deadline_strands_siblings sample_w sample_J
    (example_state running_wf (job_a JobStatus.RUNNING) job_b 1700009999)
    (example_view running_wf (job_a JobStatus.RUNNING) job_b) "a" (job_a JobStatus.RUNNING)
    "1700009999" 1 ["a"; "b"] _ sample_ids _ _ _ _).
  - apply example_represents, example_ok. left. reflexivity.
  - reflexivity.
  - discriminate.
  - reflexivity.
  - vm_compute. reflexivity.
Defined.

(** A job that fails before its workflow has started (its payload cannot be
    read) is recorded as FAILED, but the failure script leaves the workflow
    READY with the job's slot reserved and cancels nothing: its dependants stay
    PENDING. *)
Lemma early_failure_leaks_slot `{RedisServer R} w J (r : R) v j x retry ids :
  represents w J r v j x → Forall (λ id, job_key w id ∈ J) ids → Z.of_nat (length ids) < 2 ^ 52 →
  w_status (v_wf v) = WorkflowStatus.READY →
  ∃ all_done v', script_does w J (fail_script w j retry ids) r ["1"; "0"; all_done; "0"] v' ∧
    w_status (v_wf v') = WorkflowStatus.READY ∧
    w_reserved (v_wf v') = w_reserved (v_wf v) ∧
    v_jobs v' = <[job_key w j := job_st JobStatus.FAILED (job_retry retry x)]> (v_jobs v).
Proof.
  intros Hrep Hids Hl Hw. pose proof (fail_does w J r v j x retry ids Hrep Hids Hl) as Hdo.
  pose proof (early_failure_no_cancel w j retry ids x v Hw) as He.
  destruct (spec_fail w j retry ids x v) as [[f c l] v'] eqn:E. cbn [fst snd] in *.
  destruct He as (Hf & Hc & He). cbn in Hf, Hc. subst. eexists _, v'. split; [exact Hdo|done].
Qed.

Lemma early_failure_leaks_slot_witness :
  ∃ all_done v',
    script_does sample_w sample_J (fail_script sample_w "a" 1 ["a"; "b"])
      (example_state ready_wf (job_a JobStatus.PENDING_EXECUTION) job_b 1700000001)
      ["1"; "0"; all_done; "0"] v' ∧
    w_status (v_wf v') = WorkflowStatus.READY ∧ w_reserved (v_wf v') = 1 ∧
    v_jobs v' = <[key_a := mkJobv JobStatus.FAILED 0 5 1]>
                  (example_jobs (job_a JobStatus.PENDING_EXECUTION) job_b).
Proof.
  refine (early_failure_leaks_slot sample_w sample_J
    (example_state ready_wf (job_a JobStatus.PENDING_EXECUTION) job_b 1700000001)
    (example_view ready_wf (job_a JobStatus.PENDING_EXECUTION) job_b) "a"
    (job_a JobStatus.PENDING_EXECUTION) 1 ["a"; "b"] _ sample_ids _ _).
  - apply example_represents, example_ok. right. reflexivity.
  - reflexivity.
  - reflexivity.
Defined.
