(* ===== verification/PropsStore.v ===== *)
(** * Properties of the stored data

    Keys, the completion stream, job records and payloads: what is written is
    what is read. *)

From S2P Require Import Prelude.
From S2P Require Import Prog.
From S2P Require Import RedisServer.
From S2P Require Import Models.
From S2P Require Import RedisKeys.
From S2P Require Import Scripts.
From S2P Require Import RedisExec.
From S2P Require Import RedisRuntime.
From S2P Require Import RuntimeInit.
From S2P Require Import Streams.
From S2P Require Import Sample.

(** C18. The completion stream is a queue: a message that is enqueued goes to the
    back, and the message dequeued is the oldest one, as it was sent. *)
Theorem completion_stream_fifo s m ms m' clk :
  stream_holds s (m :: ms) → well_formed_message m = true → 0 ≤ r_clock s →
  ∃ s1 id s2, run redis_io (enqueue_job_completion_async m') (mkWorld s [] clk)
      = (Some true, mkWorld s1 [] clk) ∧
    run redis_io dequeue_job_completion_async (mkWorld s1 [] clk)
      = (Some (Some m), mkWorld s2 [] clk) ∧
    stream_holds s2 (ms ++ [with_id id m'])%list.
Proof.
  intros Hs Hm Hc. destruct (enqueue_completion s (m :: ms) m' clk Hs Hc) as (s1 & id & H1 & Hs1 & Hc1).
  destruct (dequeue_completion s1 m (ms ++ [with_id id m'])%list clk Hs1 Hm) as (s2 & H2 & Hs2 & _).
  by exists s1, id, s2.
Qed.

Definition example_message : JobCompletionData :=
  mkJobCompletionData "5-0" sample_w "a" JobStatus.COMPLETED StatusCodes.OK.

Definition example_stream : rstate :=
  mkR {[ JOB_COMPLETION_STREAM_KEY :=
           (RStream [((5, 0), message_fields example_message)] (5, 0), None) ]} 6000.

Lemma completion_stream_fifo_witness :
  ∃ s1 id s2,
    run redis_io (enqueue_job_completion_async example_message) (mkWorld example_stream [] 0)
      = (Some true, mkWorld s1 [] 0) ∧
    run redis_io dequeue_job_completion_async (mkWorld s1 [] 0)
      = (Some (Some example_message), mkWorld s2 [] 0) ∧
    stream_holds s2 [with_id id example_message].
Proof.
  apply (completion_stream_fifo example_stream example_message [] example_message 0).
  - eexists _, _. split; [vm_compute; reflexivity|]. split; [simpl; lia|]. split; [|split].
    + intros [|i] e He; [|discriminate He]. injection He as <-. simpl. unfold id_lt. simpl. lia.
    + intros [|i] [|j] e e' Hi Hj Hij; [lia|discriminate Hj|discriminate Hi|discriminate Hi].
    + constructor; [split; vm_compute; reflexivity|constructor].
  - vm_compute. reflexivity.
  - simpl. lia.
Defined.

Definition example_job : JobRuntimeData :=
  mkJobRuntimeData 7 "a" "" "PENDING" 2 (-5) 600 0 3 0 10 128 "LINEAR" ["b"; "c"].

(** C21. The job store, when no call fails.  A job record whose integers fit in an
    int and that is stored under a key not in use is read back with its
    identifier, status, remaining dependencies, priority, timeout, retry limit,
    retry count, retry delay, payload size and backoff policy ([fetched]); the
    UUID, the name, the start time and the successors are not read back and
    have their defaults.  A payload read back is the payload stored, whatever
    its bytes.  When the client and workflow identifiers are not empty and
    contain no colon ([plain_identity]; the job identifier is not empty and may
    contain any character), a job key parses back to the client, workflow and job
    it was made of, and no two such workflows share a job key. *)
Theorem job_store_roundtrip w d payload s clk :
  in_range d = true →
  look s (job_key w (jr_job_id d)) = None → look s (successors_key w (jr_job_id d)) = None →
  wp redis_io
    (let* ok := set_job_runtime_async w d in
     let* r := fetch_job_runtime_async w (jr_job_id d) in Ret (ok, r))
    (λ res _, res = (true, Some (fetched d))) (mkWorld s [] clk) ∧
  wp redis_io
    (let* ok := set_job_payload_async w (jr_job_id d) payload in
     let* r := fetch_job_payload_async w (jr_job_id d) in Ret (ok, r))
    (λ res _, res = (true, Some payload)) (mkWorld s [] clk) ∧
  (plain_identity w = true → str_empty (jr_job_id d) = false →
   parse_job_key (job_key w (jr_job_id d)) = Some (mkJobRetryData w (jr_job_id d)) ∧
   (∀ w' j', plain_identity w' = true → job_key w (jr_job_id d) = job_key w' j' → w = w' ∧ jr_job_id d = j')).
Proof.
  intros Hd Hk Hs. split_and!; [by apply set_fetch_job_runtime|apply set_fetch_payload|].
  intros Hw Hj. split; [by apply parse_job_key_job_key|]. intros w' j' Hw'. by apply workflow_keys_disjoint.
Qed.

Lemma job_store_roundtrip_witness :
  wp redis_io
    (let* ok := set_job_runtime_async sample_w example_job in
     let* r := fetch_job_runtime_async sample_w "a" in Ret (ok, r))
    (λ res _, res = (true, Some (fetched example_job))) (mkWorld sample_s0 [] 0) ∧
  wp redis_io
    (let* ok := set_job_payload_async sample_w "a" "bytes" in
     let* r := fetch_job_payload_async sample_w "a" in Ret (ok, r))
    (λ res _, res = (true, Some "bytes")) (mkWorld sample_s0 [] 0) ∧
  parse_job_key (job_key sample_w "a") = Some (mkJobRetryData sample_w "a").
Proof.
  assert (in_range example_job = true) as H1 by (vm_compute; reflexivity).
  assert (look sample_s0 (job_key sample_w "a") = None) as H2 by (vm_compute; reflexivity).
  assert (look sample_s0 (successors_key sample_w "a") = None) as H3 by (vm_compute; reflexivity).
  destruct (job_store_roundtrip sample_w example_job "bytes" sample_s0 0 H1 H2 H3) as (P1 & P2 & P3).
  split; [exact P1|]. split; [exact P2|]. exact (proj1 (P3 eq_refl eq_refl)).
Defined.

(** With colons in the identifiers, which the request schema allows, two
    clients share the keys of their jobs, a workflow's hash is the waiting set
    of another, and a key parses to the wrong workflow. *)
Lemma colon_identifiers_collide :
  job_key (mkIdentity "a:b" "c") "j" = job_key (mkIdentity "a" "b:c") "j" ∧
  workflow_waiting_jobs_key (mkIdentity "a" "w") = workflow_key (mkIdentity "a" "w:waiting_ready") ∧
  parse_job_key (job_key (mkIdentity "a:b" "c") "j") =
    Some (mkJobRetryData (mkIdentity "a" "b") "c:j").
Proof. split_and!; vm_compute; reflexivity. Qed.
