(* ===== verification/PropsAdmission.v ===== *)
(** * Properties of request admission

    The checks of a submitted workflow, the runtime built for it, and the
    atomic admission script. *)

From S2P Require Import Prelude.
From S2P Require Import Prog.
From S2P Require Import RedisServer.
From S2P Require Import Models.
From S2P Require Import RedisKeys.
From S2P Require Import Scripts.
From S2P Require Import WorkflowView.
From S2P Require Import WorkflowSpec.
From S2P Require Import WorkflowInv.
From S2P Require Import Interleaving.
From S2P Require Import RedisExec.
From S2P Require Import RedisRuntime.
From S2P Require Import Json.
From S2P Require Import Validation.
From S2P Require Import Database.
From S2P Require Import RuntimeGen.
From S2P Require Import RuntimeInit.
From S2P Require Import RedisAdmission.
From S2P Require Import Sample.
From Stdlib Require Import Sorted.

(** C25. The dependency check is correct: a workflow is accepted exactly when all
    its dependencies are defined and acyclic, with the successor lists of the
    graph; otherwise the reason is the right one.  Kahn's algorithm always
    terminates, in any iteration order of the hash containers. *)
Theorem dependency_check_correct `{HashOrder} m info :
  fresh_map m →
  match validate_dependencies m info with
  | Ok info' =>
      deps_defined m ∧ acyclic m ∧
      ∀ d, ∃ l, succ_list info' d = (succ_list info d ++ l)%list ∧ NoDup l ∧
             ∀ j, j ∈ l ↔ d ∈ dependencies m j
  | Rejected c =>
      c = StatusCodes.MISSING_DEPENDENCY ∧ ¬ deps_defined m ∨
      c = StatusCodes.CIRCULAR_DEPENDENCY ∧ deps_defined m ∧ ¬ acyclic m
  | Raised => False
  end.
Proof. apply validate_dependencies_spec. Qed.

(** A cycle of two jobs. *)
Definition example_cycle : gmap string DagData :=
  {[ "a" := new_dag {[ "b" ]}; "b" := new_dag {[ "a" ]} ]}.

Lemma dependency_check_correct_witness :
  validate_dependencies example_cycle ∅ = Rejected StatusCodes.CIRCULAR_DEPENDENCY ∧
  (StatusCodes.CIRCULAR_DEPENDENCY = StatusCodes.MISSING_DEPENDENCY ∧ ¬ deps_defined example_cycle ∨
   StatusCodes.CIRCULAR_DEPENDENCY = StatusCodes.CIRCULAR_DEPENDENCY ∧ deps_defined example_cycle ∧
   ¬ acyclic example_cycle).
Proof.
  split; [vm_compute; reflexivity|].
  refine (dependency_check_correct example_cycle ∅ _).
  intros j d Hj. unfold example_cycle in Hj.
  apply lookup_insert_Some in Hj as [[_ <-]|[_ Hj]]; [split; reflexivity|].
  apply lookup_singleton_Some in Hj as [_ <-]. split; reflexivity.
Defined.

(** C26. The semantic check accepts exactly the job lists with distinct ids and
    no dependency listed twice, and returns their dependency graph. *)
Theorem semantic_check_correct data specs :
  mapM job_spec (jobs_of data) = Some specs →
  match validate_semantic data with
  | Ok m => well_formed_jobs specs ∧ m = spec_map specs
  | Rejected c =>
      (c = StatusCodes.DUPLICATE_DEPENDENCY ∨ c = StatusCodes.DUPLICATE_JOB_ID) ∧
      ¬ well_formed_jobs specs
  | Raised => False
  end.
Proof.
  intros Hs. unfold validate_semantic. pose proof (semantic_loop_spec (jobs_of data) ∅ specs Hs) as H.
  destruct (semantic_loop (jobs_of data) ∅) as [m|c|]; [|split|done].
  - destruct H as (Hw & _ & ->). done.
  - apply H.
  - intros Hw. apply H. split; [done|]. intros s _. apply lookup_empty.
Qed.

Lemma semantic_check_correct_witness :
  well_formed_jobs sample_specs ∧
  unwrap ∅ (validate_semantic sample_data) = spec_map sample_specs.
Proof.
  exact (semantic_check_correct sample_data sample_specs eq_refl).
Defined.

(** C27. The policy check accepts exactly the workflows with at least one job, at
    most the allowed number of jobs and no job over the allowed size. *)
Theorem policy_check_correct dump_size data p :
  Z.of_nat (length (jobs_of data)) ≤ int_max → 0 ≤ pp_max_job_size_bytes p ≤ int_max →
  Forall (λ job, is_Some (jfield "job_id" job ≫= jstr)) (jobs_of data) →
  match validate_admission_client_workflow_policy dump_size data p with
  | Ok _ => jobs_of data ≠ [] ∧ Z.of_nat (length (jobs_of data)) ≤ pp_max_jobs_in_workflow p ∧
            Forall (λ job, dump_size job ≤ pp_max_job_size_bytes p) (jobs_of data)
  | Rejected StatusCodes.JOB_COUNT_EXCEEDED =>
      pp_max_jobs_in_workflow p < Z.of_nat (length (jobs_of data))
  | Rejected StatusCodes.JOB_COUNT_ZERO => jobs_of data = []
  | Rejected StatusCodes.JOB_SIZE_EXCEEDED =>
      Exists (λ job, pp_max_job_size_bytes p < dump_size job) (jobs_of data)
  | _ => False
  end.
Proof.
  intros Hn Hm Hf. unfold validate_admission_client_workflow_policy.
  rewrite to_int32_id by (unfold in_int, int_min; lia).
  destruct (Z.ltb_spec (pp_max_jobs_in_workflow p) (Z.of_nat (length (jobs_of data)))); [done|].
  destruct (Z.eqb_spec (Z.of_nat (length (jobs_of data))) 0) as [E|E].
  { destruct (jobs_of data); [done|simpl in E; lia]. }
  pose proof (check_job_sizes_spec dump_size (jobs_of data) (pp_max_job_size_bytes p) Hm Hf) as Hs.
  destruct (check_job_sizes _ _ _) as [[]|c|]; [|by destruct Hs as [-> Hs]|done].
  split_and!; [by intros E0; rewrite E0 in E|done|done].
Qed.

Lemma policy_check_correct_witness :
  validate_admission_client_workflow_policy (λ _, 100) sample_data sample_policy = Ok tt ∧
  jobs_of sample_data ≠ [] ∧ Z.of_nat (length (jobs_of sample_data)) ≤ 10 ∧
  Forall (λ job, 100 ≤ 4096) (jobs_of sample_data).
Proof.
  split; [vm_compute; reflexivity|].
  refine (policy_check_correct (λ _, 100) sample_data sample_policy _ _ _).
  - vm_compute. discriminate.
  - vm_compute. split; discriminate.
  - repeat constructor; vm_compute; eauto.
Defined.



(** C29. Initialization: for a request that was built and validated, with fresh
    keys, no network fault and a database that records the ready jobs,
    [initialize_runtime_data] succeeds, and every state reachable from the
    keyspace it leaves satisfies the runtime invariant. *)
Theorem admitted_workflow_safe `{HashOrder} `{Database D} uuids dump_size version data p request
  info ready info' wd s clk (d : D) ms jit :
  Inj (=) (=) uuids → Z.of_nat (length (jobs_of data)) ≤ int_max →
  0 ≤ pp_max_concurrent_jobs p ≤ int_max →
  build_jobs_runtime_info uuids data p = Ok (info, ready) →
  validate_workflow dump_size version data p info request = Ok (info', wd) →
  (∀ ids, fresh_keys (identity_of request) ids s) →
  (∀ q r, (db_exec _ (UpdateReadyJobs (rq_client_id request) (rq_workflow_id request) q r) d).1
            = Some true) →
  ∃ J σ s', run app_io (initialize_runtime_data data p wd ready info')
      (mkApp (mkWorld s [] clk) d ms jit) = (Some true, σ) ∧ wd_redis (aw_redis σ) = s' ∧
    ∀ c, creachable (identity_of request) J (mkC s' ∅ ∅ ∅) c →
      Good (identity_of request) J (successors_of info') c.
Proof.
  intros Hu Hn Hm Hb Hv Hf Hdb.
  destruct (planned _ _ _ _ _ _ _ _ _ _ Hu Hn Hb Hv) as (specs & _ & HP & Hi & Ht & _).
  pose proof (initialize_good data p wd specs info' ready s clk d ms jit HP Hm Ht) as Hwp.
  rewrite Hi in Hwp. specialize (Hwp (build_jobs_parsed _ _ _ _ _ _ _ Hb) (Hf _) Hdb).
  apply wp_run in Hwp as (ok & σ & Hrun & -> & s' & Hs' & HG). eexists _, σ, s'.
  split_and!; [done|by rewrite Hs'|]. intros c Hc. by eapply creachable_good.
Qed.

Lemma admitted_workflow_safe_witness :
  ∃ J σ s', run app_io (initialize_runtime_data sample_data sample_policy sample_valid.2
        sample_built.2 sample_valid.1)
      (mkApp (mkWorld sample_s0 [] 1700000000) tt 0 0) = (Some true, σ) ∧ wd_redis (aw_redis σ) = s' ∧
    ∀ c, creachable (identity_of sample_request) J (mkC s' ∅ ∅ ∅) c →
      Good (identity_of sample_request) J (successors_of sample_valid.1) c.
Proof.
  assert (Z.of_nat (length (jobs_of sample_data)) ≤ int_max) as H1 by (vm_compute; discriminate).
  assert (0 ≤ pp_max_concurrent_jobs sample_policy ≤ int_max) as H2
    by (vm_compute; split; discriminate).
  assert (build_jobs_runtime_info Z.of_nat sample_data sample_policy
    = Ok (sample_built.1, sample_built.2)) as H3
    by (rewrite sample_build; destruct sample_built; reflexivity).
  assert (validate_workflow (λ _, 100) "1.0" sample_data sample_policy sample_built.1 sample_request
    = Ok (sample_valid.1, sample_valid.2)) as H4
    by (rewrite sample_validate; destruct sample_valid; reflexivity).
  assert (∀ ids, fresh_keys (identity_of sample_request) ids sample_s0) as H5.
  { intros ids. split; [reflexivity|]. split; [reflexivity|]. split; [split; reflexivity|].
    intros K [-> | ->]; exists ∅; split; reflexivity. }
  exact (admitted_workflow_safe Z.of_nat (λ _, 100) "1.0" sample_data sample_policy sample_request
    sample_built.1 sample_built.2 sample_valid.1 sample_valid.2 sample_s0 1700000000 tt 0 0
    Nat2Z.inj H1 H2 H3 H4 H5 (λ _ _, eq_refl)).
Defined.

Lemma sample_buckets : buckets sample_s0 "acme" 1700000000 3 (λ _, 0).
Proof. intros i _ _. split; [vm_compute; reflexivity|lia]. Qed.

(** C31. The admission of a request.  The outcome is the first check that fails, in
    the order duplicate request, rate limit, active workflow, workflow limit, and
    the coroutine reports its status code.  A rejected request leaves the rate
    bucket and the set of active workflows as they were, an admitted one counts
    once and adds its workflow, and nothing else in the keyspace changes.  It
    admits only when the request was new, the requests of the window including
    this one are within the limit, and the client's active workflows including
    this one are too. *)
Theorem admission_code_correct cid rid wid max_active max_req window ttl f A s clk :
  0 ≤ window → 0 < ttl → buckets s cid (r_clock s `div` 1000000) window f →
  set_at s (active_workflows_key cid) = Some A →
  let a := decide_admission (bool_decide (is_Some (look s (request_key cid rid))))
             (window_total window f) A wid max_active max_req in
  (∃ s', run redis_io (admit_request_async ttl cid rid wid max_active max_req window)
      (mkWorld s [] clk) = (Some (admission_code a), mkWorld s' [] clk) ∧
    admitted_state cid rid wid s f A a s') ∧
  (a = Accepted → look s (request_key cid rid) = None ∧ window_total window f + 1 ≤ max_req ∧
     wid ∉ A ∧ Z.of_nat (size ({[wid]} ∪ A)) ≤ max_active).
Proof.
  intros Hw Ht Hb HA a. split; [by apply admit_request_async_spec|].
  intros Ha. unfold a, decide_admission in Ha.
  destruct (look s (request_key cid rid)) as [v|]; [by rewrite bool_decide_true in Ha by eauto|].
  rewrite bool_decide_false in Ha by (intros [? ?]; done).
  destruct (Z.ltb_spec max_req (window_total window f + 1)); [done|].
  destruct (decide (wid ∈ A)); [done|].
  destruct (Z.ltb_spec max_active (Z.of_nat (size A) + 1)); [done|].
  split_and!; try done. rewrite size_union, size_singleton by set_solver. lia.
Qed.

Lemma admission_code_correct_witness :
  let a := decide_admission (bool_decide (is_Some (look sample_s0 (request_key "acme" "req1"))))
             (window_total 3 (λ _, 0)) ∅ "wf1" 2 5 in
  (∃ s', run redis_io (admit_request_async 900 "acme" "req1" "wf1" 2 5 3)
      (mkWorld sample_s0 [] 0) = (Some (admission_code a), mkWorld s' [] 0) ∧
    admitted_state "acme" "req1" "wf1" sample_s0 (λ _, 0) ∅ a s') ∧
  (a = Accepted → look sample_s0 (request_key "acme" "req1") = None ∧
     window_total 3 (λ _, 0) + 1 ≤ 5 ∧
     "wf1" ∉ (∅ : gset string) ∧ Z.of_nat (size ({[ "wf1" ]} ∪ ∅ : gset string)) ≤ 2).
Proof.
  assert (0 ≤ 3) as H1 by lia. assert (0 < 900) as H2 by lia.
  assert (set_at sample_s0 (active_workflows_key "acme") = Some ∅) as H3 by reflexivity.
  exact (admission_code_correct "acme" "req1" "wf1" 2 5 3 900 (λ _, 0) ∅ sample_s0 0
           H1 H2 sample_buckets H3).
Defined.
