(* ===== verification/PropsServices.v ===== *)
(** * Properties of the services

    The completion handler, the workers and the retry handler change Redis and
    then the database: after each of them, when no call fails, the database still
    mirrors the running workflow ([Mirror]), but for a completion past the
    deadline.  A worker reports each job once. *)

From S2P Require Import Prelude.
From S2P Require Import Prog.
From S2P Require Import RedisServer.
From S2P Require Import Models.
From S2P Require Import RedisKeys.
From S2P Require Import Scripts.
From S2P Require Import WorkflowView.
From S2P Require Import WorkflowSpec.
From S2P Require Import WorkflowFacts.
From S2P Require Import RedisExec.
From S2P Require Import RedisRuntime.
From S2P Require Import Streams.
From S2P Require Import Database.
From S2P Require Import Calls.
From S2P Require Import Sqlite.
From S2P Require Import SqliteDb.
From S2P Require Import SqliteFacts.
From S2P Require Import StatusStore.
From S2P Require Import CompletionHandler.
From S2P Require Import ClientConfigs.
From S2P Require Import Json.
From S2P Require Import Validation.
From S2P Require Import AdmissionService.
From S2P Require Import BlockingQueue.
From S2P Require Import Scheduling.
From S2P Require Import Mirror.
From S2P Require Import Sample.
From S2P Require Import PropsScripts.

(** ** An example for the witnesses

    SQLite holds the rows of the two jobs [a] and [b], [b] waiting for [a]. *)
#[global] Instance example_database : Database conn := sqlite_database RequestStatus.UNKNOWN.
#[global] Instance example_store : StatusStore conn := sqlite_store RequestStatus.UNKNOWN.

Definition example_row (uuid j : string) (st : JobStatus.t) : job_row :=
  mkJobRow uuid "acme" "wf1" j (JobStatus.to_int st) 0 None None None None None.
Definition example_tables (a b : JobStatus.t) (ws : WorkflowStatus.t) : tables :=
  mkTables [] [mkWorkflowRow "acme" "wf1" "type" "1" (WorkflowStatus.to_int ws) 2 0 None None None] []
    [example_row "1" "a" a; example_row "2" "b" b] [] [] [].
Definition example_conn (a b : JobStatus.t) (ws : WorkflowStatus.t) : conn :=
  mkConn (example_tables a b ws) None 0 [] 1700000000.
Definition example_world (wf : wfv) (a b : jobv) (now : Z) : app_world rstate conn :=
  mkApp (mkWorld (example_state wf a b now) [] now)
    (example_conn (persisted (jv_status a)) (persisted (jv_status b)) (w_status wf)) (now * 1000) 17.

Lemma example_tables_ok a b ws : tables_ok (example_tables a b ws).
Proof.
  split; simpl; repeat first [constructor | by eexists | set_solver].
Qed.

Lemma example_running wf a b now :
  Running sample_w sample_J (example_state wf a b now) (aw_db (example_world wf a b now))
    (example_view wf a b) (example_world wf a b now).
Proof.
  split; [done|apply example_rep|]. split; [|intros j|simpl|done|done].
  - split; [done|apply example_tables_ok].
  - change (stored_job (example_tables (persisted (jv_status a)) (persisted (jv_status b)) (w_status wf))
      "acme" "wf1" j = view_job sample_w (example_view wf a b) j).
    unfold stored_job, view_job, example_view, example_jobs. cbn [v_jobs].
    destruct (decide (j = "a")) as [->|Ha]; [rewrite lookup_insert_eq; simpl; by rewrite JobStatus_from_to|].
    rewrite lookup_insert_ne by (intros ?%(inj (job_key sample_w)); congruence).
    destruct (decide (j = "b")) as [->|Hb]; [rewrite lookup_singleton_eq; simpl; by rewrite JobStatus_from_to|].
    rewrite lookup_singleton_ne by (intros ?%(inj (job_key sample_w)); congruence).
    destruct (_ && _); [|done]. unfold is_job. simpl.
    by rewrite !(proj2 (String.eqb_neq _ _)) by done.
  - unfold stored_workflow. simpl. by rewrite WorkflowStatus_from_to.
Qed.

(** ** Completions *)

(** C20. A completion is recorded, when no Redis or database call fails.  Take a
    job, not yet COMPLETED, of a RUNNING workflow that the database mirrors.
    Within the deadline of the workflow, [handle_job_completed] leaves the
    database with the job COMPLETED, its released dependants READY, the promoted
    job QUEUED, the workflow COMPLETED if this was its last job, and everything
    else unchanged: it mirrors what the script left in Redis; unless the workflow
    is over, the handler reports success and Redis holds the specified view.
    Past the deadline the script fails the workflow in Redis, no job changes, and
    the handler reports failure without touching the database, which still has
    the workflow RUNNING. *)
Theorem completion_recorded `{RedisServer R} `{StatusStore D} w J indeterminate c v x
  (σ : app_world R D) :
  let j := jc_job_id c in
  let now := r_clock (keyspace σ) `div` 1000000 in
  let v' := (spec_complete w now j x v).2 in
  jc_identity c = w → job_key w "" ∉ J → Running w J (keyspace σ) (aw_db σ) v σ → view_ok v →
  v_jobs v !! job_key w j = Some x → Forall (λ id, job_key w id ∈ J) (succ_of v j) →
  NoDup (succ_of v j) → j ∉ succ_of v j → Z.of_nat (length (succ_of v j)) < 2 ^ 64 →
  jv_status x ≠ JobStatus.COMPLETED → w_status (v_wf v) = WorkflowStatus.RUNNING →
  ∃ ok σ', run app_io (handle_job_completed indeterminate c) σ = (Some ok, σ') ∧
    if past_deadline now (default 0 (w_start (v_wf v))) (w_maxrun (v_wf v)) then
      ok = false ∧ aw_db σ' = aw_db σ ∧
      workflow_status (aw_db σ') (client_id w) (workflow_id w) = Some WorkflowStatus.RUNNING ∧
      Rep w J (keyspace σ) (keyspace σ') (with_wf (set_status WorkflowStatus.FAILED (v_wf v)) v)
    else
      mirrors w (aw_db σ) v' (aw_db σ') ∧
      (w_status (v_wf v') ≠ WorkflowStatus.COMPLETED →
       ok = true ∧ Running w J (keyspace σ) (aw_db σ) v' σ').
Proof.
  intros j now v' Hw Hn Hr Hok Hx Hs Hnd Hj Hl Hst Hws. apply wp_run.
  destruct (past_deadline _ _ _) eqn:Hdl; [|by apply handle_job_completed_mirrors].
  eapply wp_mono; [|by apply (handle_job_completed_late w J (keyspace σ) (aw_db σ) _ c v x σ)].
  intros ok σ' (-> & Ed & HR). split_and!; [done|done| |done].
  rewrite Ed, <-Hws. apply (rec_workflow _ _ _ _ _ (running_record _ _ _ _ _ _ Hr)).
Qed.

Definition example_completion (st : JobStatus.t) : JobCompletionData :=
  mkJobCompletionData "1-0" sample_w "a" st StatusCodes.OK.

Lemma sample_names : job_key sample_w "" ∉ sample_J.
Proof. intros [E|E]%sample_J_elem; apply (inj (job_key sample_w)) in E; discriminate E. Qed.

Lemma completion_recorded_witness :
  let σ := example_world running_wf (job_a JobStatus.RUNNING) job_b 1700000001 in
  let v := example_view running_wf (job_a JobStatus.RUNNING) job_b in
  ∃ ok σ', run app_io (handle_job_completed (λ _, 0) (example_completion JobStatus.COMPLETED)) σ
      = (Some ok, σ') ∧
    mirrors sample_w (aw_db σ) (spec_complete sample_w 1700000001 "a" (job_a JobStatus.RUNNING) v).2
      (aw_db σ') ∧
    (w_status (v_wf (spec_complete sample_w 1700000001 "a" (job_a JobStatus.RUNNING) v).2)
       ≠ WorkflowStatus.COMPLETED →
     ok = true ∧ Running sample_w sample_J (keyspace σ) (aw_db σ)
       (spec_complete sample_w 1700000001 "a" (job_a JobStatus.RUNNING) v).2 σ').
Proof.
  intros σ v.
  assert (H1 : Running sample_w sample_J (keyspace σ) (aw_db σ) v σ) by apply example_running.
  assert (H2 : view_ok v) by (apply example_ok; left; reflexivity).
  assert (H3 : v_jobs v !! job_key sample_w "a" = Some (job_a JobStatus.RUNNING)) by apply lookup_insert_eq.
  assert (H4 : Forall (λ id, job_key sample_w id ∈ sample_J) (succ_of v "a"))
    by (constructor; [exact key_b_in|constructor]).
  assert (H5 : "a" ∉ succ_of v "a") by (intros E; apply list_elem_of_singleton in E; discriminate E).
  exact (completion_recorded sample_w sample_J (λ _, 0) (example_completion JobStatus.COMPLETED) v
    (job_a JobStatus.RUNNING) σ eq_refl sample_names H1 H2 H3 H4 (NoDup_singleton "b") H5
    ltac:(vm_compute; reflexivity) ltac:(discriminate) eq_refl).
Defined.




Definition example_record (current_retry_count max_retries : Z) : JobRuntimeData :=
  mkJobRuntimeData 1 "a" "a" "RUNNING" 0 5 60 1700000000 max_retries current_retry_count 3 0 "" [].


(** C32. A failed attempt is repeated exactly when the code may repeat it, and the
    retry is recorded (when no Redis or database call fails).  [may_retry]
    answers yes exactly when the message says FAILED, the fields read of the
    workflow say RUNNING, the attempts counted with this one are at most
    [max_retries], and the job is not over its run time.  Then
    [handle_job_failed] leaves the job in RETRY_DELAY in both stores, with one
    more attempt counted, in the retry queue until the delay and the jitter have
    passed; the job that takes over its slot is QUEUED in both. *)
Theorem retry_recorded `{RedisServer R} `{StatusStore D} w J indeterminate c d fields v x
  (σ : app_world R D) :
  let j := jc_job_id c in
  let count := jr_current_retry_count d + 1 in
  jc_identity c = w → job_key w "" ∉ J → Running w J (keyspace σ) (aw_db σ) v σ → view_ok v →
  v_jobs v !! job_key w j = Some x →
  ∃ retry, run app_io (may_retry c d fields) σ = (Some retry, σ) ∧
    (retry = true ↔
       jc_status c = JobStatus.FAILED ∧ fields !! "status" = Some "RUNNING" ∧
       count ≤ jr_max_retries d ∧
       (0 < jr_start_run_time d → 0 < jr_timeout_sec d →
        wd_clock (aw_redis σ) - jr_start_run_time d ≤ jr_timeout_sec d)) ∧
    (retry = true → ∃ v' σ',
       run app_io (handle_job_failed indeterminate c d fields) σ = (Some true, σ') ∧
       Running w J (keyspace σ) (aw_db σ) v' σ' ∧
       (v_waiting v !! job_key w j = None →
        v_jobs v' !! job_key w j = Some (job_st JobStatus.RETRY_DELAY (job_retry count x))) ∧
       v_retry v' !! job_key w j =
         Some (aw_ms σ + Z.max 0 (jr_retry_delay_sec d) * 1000 + aw_jitter σ)).
Proof.
  intros j count Hw Hn Hr Hok Hx. set (at_ms := aw_ms σ + _ + _).
  exists (retry_allowed c d fields (wd_clock (aw_redis σ))). split_and!.
  - apply may_retry_run.
  - apply retry_allowed_spec.
  - intros Hret. destruct (retry_job_kept w j count at_ms x v) as [Hq Hj].
    assert (wp app_io (handle_job_failed indeterminate c d fields) (λ ok σ',
      ok = true ∧ Running w J (keyspace σ) (aw_db σ) (spec_retry w j count at_ms x v).2 σ') σ) as Hwp.
    { unfold handle_job_failed. cbn zeta. apply wp_bind, wp_may_retry. rewrite Hret.
      by apply handle_job_retry_mirrors. }
    apply wp_run in Hwp as (ok & σ' & Hrun & -> & Hr'). exists (spec_retry w j count at_ms x v).2, σ'.
    split_and!; [done|done|done|by rewrite Hq, lookup_insert_eq].
Qed.

Definition example_fields : gmap string string := {[ "status" := "RUNNING" ]}.

Lemma retry_recorded_witness :
  let σ := example_world running_wf (job_a JobStatus.RUNNING) job_b 1700000001 in
  let v := example_view running_wf (job_a JobStatus.RUNNING) job_b in
  ∃ v' σ', run app_io (handle_job_failed (λ _, 0) (example_completion JobStatus.FAILED)
      (example_record 0 2) example_fields) σ = (Some true, σ') ∧
    Running sample_w sample_J (keyspace σ) (aw_db σ) v' σ' ∧
    (v_waiting v !! key_a = None →
     v_jobs v' !! key_a = Some (job_st JobStatus.RETRY_DELAY (job_retry 1 (job_a JobStatus.RUNNING)))) ∧
    v_retry v' !! key_a = Some (1700000001000 + 3 * 1000 + 17).
Proof.
  intros σ v.
  assert (H1 : Running sample_w sample_J (keyspace σ) (aw_db σ) v σ) by apply example_running.
  assert (H2 : view_ok v) by (apply example_ok; left; reflexivity).
  assert (H3 : v_jobs v !! job_key sample_w "a" = Some (job_a JobStatus.RUNNING)) by apply lookup_insert_eq.
  destruct (retry_recorded sample_w sample_J (λ _, 0) (example_completion JobStatus.FAILED)
    (example_record 0 2) example_fields v (job_a JobStatus.RUNNING) σ eq_refl sample_names H1 H2 H3)
    as (retry & _ & Hiff & Hret).
  apply Hret, Hiff. split; [reflexivity|]. split; [reflexivity|]. split; [vm_compute; discriminate|].
  intros _ _. vm_compute. discriminate.
Defined.

(** ** Workers *)

(** C34. A worker reports each job exactly once, when no Redis or database call
    fails.  Whatever the status of the job and of its workflow, the body of the
    worker loop appends one message for the job to the completion stream, behind
    those already there.  A job it can start (claimed, of a workflow that is
    RUNNING, or READY and not yet started) is RUNNING in both stores, and so is
    its workflow, and the message has the outcome of its execution.  Any other
    is not executed: the message says ABORTED, the database is left as it was,
    and a claimed job is ABORTED in Redis. *)
Theorem worker_reports_once `{RedisServer R} `{StatusStore D} w J execute job v x ms
  (σ : app_world R D) :
  let j := je_job_id job in
  let v' := (spec_start w (r_clock (keyspace σ) `div` 1000000) j x v).2 in
  let starts :=
    jv_status x = JobStatus.PENDING_EXECUTION ∧
    (w_status (v_wf v) = WorkflowStatus.RUNNING ∨
     w_status (v_wf v) = WorkflowStatus.READY ∧ w_start (v_wf v) = None) in
  je_identity job = w → Running w J (keyspace σ) (aw_db σ) v σ →
  v_jobs v !! job_key w j = Some x → stream_holds (keyspace σ) ms → 0 ≤ r_clock (keyspace σ) →
  ∃ σ' id st code, run app_io (run_job execute job) σ = (Some tt, σ') ∧
    stream_holds (keyspace σ') (ms ++ [mkJobCompletionData id w j st code])%list ∧
    Rep w J (keyspace σ') (keyspace σ') v' ∧
    (starts →
       (st, code) = (if execute job then (JobStatus.COMPLETED, StatusCodes.OK)
                     else (JobStatus.FAILED, StatusCodes.JOB_EXECUTION_FAILURE)) ∧
       mirrors w (aw_db σ) v' (aw_db σ') ∧
       v_jobs v' !! job_key w j = Some (job_st JobStatus.RUNNING x) ∧
       w_status (v_wf v') = WorkflowStatus.RUNNING) ∧
    (¬ starts →
       (st, code) = (JobStatus.ABORTED, StatusCodes.STATUS_UPDATED_FAILURE) ∧
       aw_db σ' = aw_db σ ∧
       (jv_status x = JobStatus.PENDING_EXECUTION →
        v_jobs v' !! job_key w j = Some (job_st JobStatus.ABORTED x))).
Proof.
  intros j v' starts Hw Hr Hx Hms Hclk.
  pose proof (run_job_reports w J _ _ execute job v x σ ms Hw Hr Hx Hms Hclk)
    as ([] & σ' & Hrun & id & Hs)%wp_run.
  pose proof (startable_iff x v) as Hst. fold starts in Hst.
  pose proof (start_job w (r_clock (keyspace σ) `div` 1000000) j x v) as Hj. cbn zeta in Hs.
  assert (∃ st code, stream_holds (keyspace σ') (ms ++ [mkJobCompletionData id w j st code])%list ∧
    Rep w J (keyspace σ') (keyspace σ') v' ∧
    (st, code) = (if negb (startable x v) then (JobStatus.ABORTED, StatusCodes.STATUS_UPDATED_FAILURE)
      else if execute job then (JobStatus.COMPLETED, StatusCodes.OK)
      else (JobStatus.FAILED, StatusCodes.JOB_EXECUTION_FAILURE)) ∧
    (if startable x v then mirrors w (aw_db σ) v' (aw_db σ') else aw_db σ' = aw_db σ))
    as (st & code & Hm & HR & Ec & Hd).
  { destruct (if negb (startable x v) then _ else _) as [st code]. exists st, code. naive_solver. }
  exists σ', id, st, code. split_and!; [done|done|done|..]; intros Hc.
  - destruct (Hj (proj1 Hc)) as [Hj1 Hj2]. apply Hst in Hc. rewrite Hc in Hj1, Hd, Ec. auto.
  - assert (startable x v = false) as E by (destruct (startable x v); [by destruct Hc; apply Hst|done]).
    rewrite E in Hj, Hd, Ec. split_and!; [done|done|]. intros Hp. by destruct (Hj Hp).
Qed.

Lemma worker_reports_once_witness :
  let job := mkJobExeData sample_w "a" "a" 0 "" JobStatus.UNKNOWN in
  let σ := example_world ready_wf (job_a JobStatus.PENDING_EXECUTION) job_b 1700000001 in
  let v := example_view ready_wf (job_a JobStatus.PENDING_EXECUTION) job_b in
  let v' := (spec_start sample_w 1700000001 "a" (job_a JobStatus.PENDING_EXECUTION) v).2 in
  ∃ σ' id st code, run app_io (run_job execute_job job) σ = (Some tt, σ') ∧
    stream_holds (keyspace σ') ([] ++ [mkJobCompletionData id sample_w "a" st code])%list ∧
    (st, code) = (JobStatus.COMPLETED, StatusCodes.OK) ∧
    mirrors sample_w (aw_db σ) v' (aw_db σ') ∧
    v_jobs v' !! key_a = Some (job_a JobStatus.RUNNING).
Proof.
  intros job σ v v'.
  assert (H1 : Running sample_w sample_J (keyspace σ) (aw_db σ) v σ) by apply example_running.
  assert (H3 : v_jobs v !! job_key sample_w "a" = Some (job_a JobStatus.PENDING_EXECUTION))
    by apply lookup_insert_eq.
  assert (H4 : stream_holds (keyspace σ) []).
  { exists [], (0, 0). split_and!; [reflexivity|cbn; lia|intros i e E; discriminate E|intros i j e e' E; discriminate E|constructor]. }
  destruct (worker_reports_once sample_w sample_J execute_job job v (job_a JobStatus.PENDING_EXECUTION) [] σ
    eq_refl H1 H3 H4 ltac:(vm_compute; discriminate)) as (σ' & id & st & code & Hr & Hs & _ & Hst & _).
  destruct (Hst (conj eq_refl (or_intror (conj eq_refl eq_refl)))) as (Ec & Hm & Hj & _).
  exists σ', id, st, code. exact (conj Hr (conj Hs (conj Ec (conj Hm Hj)))).
Defined.

(** C35. The queue between the scheduler and its workers, under any interleaving
    of pushes, pops and a close: it never holds more than its capacity, the
    values delivered are the first ones accepted, in order, a close lets the
    workers take every value that is left and then stops them, and producers and
    consumers are never all blocked. *)
Theorem worker_queue_correct {T : Type} capacity (σ : history T) (x : T) :
  (0 < capacity)%nat → qreachable capacity σ →
  let q := h_queue σ in
  (length (queue_ q) ≤ capacity)%nat ∧
  h_pushed σ = (h_popped σ ++ queue_ q)%list ∧
  drain (S (length (queue_ q))) (close q) = Some (queue_ q) ∧
  ¬ (push x q = None ∧ pop q = None).
Proof.
  intros Hc Hr q. destruct (qreachable_inv _ _ Hr) as [Hcap Hb Hf]. split_and!; [done|done| |].
  - apply (drain_closed (close q)); [done|simpl; lia].
  - intros [Hpush Hpop]. apply push_waits in Hpush as [_ Hl]. apply pop_waits in Hpop as [_ Hq].
    fold q in Hcap. rewrite Hq in Hl. simpl in Hl. lia.
Qed.

Lemma worker_queue_correct_witness :
  let σ := mkHistory (mkQueue 1 [7] false) [7] [] in
  (length (queue_ (h_queue σ)) ≤ 1)%nat ∧
  h_pushed σ = (h_popped σ ++ queue_ (h_queue σ))%list ∧
  drain (S (length (queue_ (h_queue σ)))) (close (h_queue σ)) = Some (queue_ (h_queue σ)) ∧
  ¬ (push 8 (h_queue σ) = None ∧ pop (h_queue σ) = None).
Proof.
  apply (worker_queue_correct 1 (mkHistory (mkQueue 1 [7] false) [7] []) 8); [lia|].
  apply rtc_once. exact (qstep_push (initial 1) 7 true (mkQueue 1 [7] false) eq_refl).
Defined.

(** ** Configuration *)

(** C33. On an empty database the client configuration manager inserts the
    default plans and the clients client_1 .. client_10 and loads them back, in
    whatever order the rows are returned: each client has its rate limit plan
    and its policy plan, but for the four limits on single jobs
    (max_job_dependencies, max_job_retry_delay_sec, default_retry_backoff_policy,
    max_job_priority), which are neither stored nor read and are indeterminate. *)
Theorem default_clients_loaded `{RowOrder} {D : Type} `{!SqlEngine D} indeterminate (d : D) out i :
  quiet (sql_conn d) → cn_tables (sql_conn d) = no_tables → 1 ≤ i ≤ 10 →
  ∃ m d' r p, run sql_exec (new_manager indeterminate) d = (Some m, d') ∧
    plan_of rl_plan_name rate_names rplans i = Some r ∧
    plan_of pp_plan_name policy_names pplans i = Some p ∧
    get_client_config m ("client_" +:+ to_str i) out =
      Some (mkClientConfig ("client_" +:+ to_str i) r (reloaded indeterminate p)).
Proof.
  intros Hq Ht Hi.
  destruct (engine_wp _ _ _ (new_manager_fresh indeterminate _ Hq Ht)) as (m & d' & Hr & ->).
  destruct (fresh_client_config indeterminate (cn_clock (sql_conn d)) out i Hi) as (r & p & Er & Ep & Hc).
  eexists _, d', r, p. split; [exact Hr|]. split; [exact Er|]. split; [exact Ep|exact Hc].
Qed.

Definition fresh_conn : conn := mkConn no_tables None 0 [] 1700000000.
Definition no_policy : PolicyPlan := mkPolicyPlan "" 0 0 0 0 0 0 0 0 0 0 0 0 0 0 0 0.

Lemma default_clients_loaded_witness :
  ∃ m d' r p, run sql_exec (new_manager no_policy) fresh_conn = (Some m, d') ∧
    plan_of rl_plan_name rate_names rplans 7 = Some r ∧
    plan_of pp_plan_name policy_names pplans 7 = Some p ∧
    get_client_config m ("client_" +:+ to_str 7)
      (mkClientConfig "" (mkRateLimitConfig "" 0 0 0) no_policy) =
      Some (mkClientConfig ("client_" +:+ to_str 7) r (reloaded no_policy p)).
Proof.
  apply (default_clients_loaded no_policy fresh_conn (mkClientConfig "" (mkRateLimitConfig "" 0 0 0) no_policy) 7);
    [split; reflexivity|reflexivity|lia].
Defined.

(** ** Rejections *)

(** C40. A rejection gives back what the admission took, when no Redis call fails
    and the database answers: once Redis has admitted a request, every rejected
    outcome of [submit_workflow], at whatever later stage, leaves the request
    identifier free and the workflow out of the client's active set; and the
    failure handler, called at any stage from the persisting of the request on,
    answers with the reason and its text and leaves them released, whatever the
    database reports. *)
Theorem rejection_releases `{RedisServer R} `{Database D} `{HashOrder} parse schema_error
  client_config dump_size version key_retention_ttl uuids uuid_text body data r cfg code
  (σ σ1 : app_world R D) :
  answers D → wd_faults (aw_redis σ) = [] →
  parse_request parse schema_error body = Some (inl (data, r)) →
  client_config (rq_client_id r) = Some cfg →
  run app_io (admit_request key_retention_ttl r (cc_rate_limit_config cfg)) σ = (Some (true, code), σ1) →
  (∀ res σ', run app_io (submit_workflow parse schema_error client_config dump_size version
       key_retention_ttl uuids uuid_text body) σ = (Some res, σ') →
     vr_valid res = false → request_released r (redis_of σ')) ∧
  (∀ stage reason (σ2 : app_world R D), wd_faults (aw_redis σ2) = [] →
     AdmissionStage.to_int AdmissionStage.PERSIST_REQUEST ≤ AdmissionStage.to_int stage →
     ∃ σ', run app_io (handle_rejection r stage reason) σ2 =
         (Some (mkValidationResult false reason (StatusCodes.to_string reason)), σ') ∧
       request_released r (redis_of σ')).
Proof.
  intros HD Hf Hp Hc Ha. split.
  - intros res σ' Hrun Hv. by eapply submit_workflow_rejected.
  - intros stage reason σ2 Hf2 Hs.
    pose proof (handle_rejection_releases r stage reason σ2 HD Hf2 Hs) as (res & σ' & Hrun & -> & Hr)%wp_run.
    by exists σ'.
Qed.

(** A request whose payload is over the limit of its client. *)
Definition tiny_config : ClientConfig :=
  mkClientConfig "acme" (mkRateLimitConfig "sandbox" 10 60 1) no_policy.
Definition example_request : RequestData :=
  mkRequestData "acme" "r1" "wf1" 4 "CREATE" RequestStatus.RECEIVED "".
Definition request_json : json :=
  JObj [("client_id", JStr "acme"); ("request_id", JStr "r1"); ("workflow_id", JStr "wf1"); ("jobs", JArr [])].
Definition start_world : app_world rstate conn :=
  mkApp (mkWorld sample_s0 [] 1700000000) fresh_conn 0 0.
Definition example_submit : option ValidationResult * app_world rstate conn :=
  run app_io (submit_workflow (λ _, inl request_json) (λ _, None) (λ _, Some tiny_config) (λ _, 100) "1.0"
    86400 Z.of_nat to_str "body") start_world.

Lemma sqlite_answers : answers conn.
Proof.
  split.
  - intros r d. simpl. unfold sqlite_exec. apply sqlite_returns. simpl. unfold update_request_status. no_throw.
  - intros cid wid d. simpl. unfold sqlite_exec. apply sqlite_returns. simpl.
    unfold fail_workflow, fail_all_jobs_waiting_to_run, update_workflow_status, write. no_throw.
Qed.

Lemma rejection_releases_witness :
  vr_status_code (default (mkValidationResult true StatusCodes.OK "") example_submit.1) =
    StatusCodes.WORKFLOW_SIZE_EXCEEDED ∧
  request_released example_request (redis_of example_submit.2).
Proof.
  assert (Hs : example_submit = (Some (mkValidationResult false StatusCodes.WORKFLOW_SIZE_EXCEEDED
    (StatusCodes.to_string StatusCodes.WORKFLOW_SIZE_EXCEEDED)), example_submit.2)) by (vm_compute; reflexivity).
  split; [rewrite Hs; reflexivity|].
  set (σ1 := (run app_io (admit_request 86400 example_request (cc_rate_limit_config tiny_config)) start_world).2).
  assert (Ha : run app_io (admit_request 86400 example_request (cc_rate_limit_config tiny_config)) start_world
    = (Some (true, StatusCodes.REQUEST_ADMITTED), σ1)) by (vm_compute; reflexivity).
  exact (proj1 (rejection_releases (λ _, inl request_json) (λ _, None) (λ _, Some tiny_config) (λ _, 100)
    "1.0" 86400 Z.of_nat to_str "body" request_json example_request tiny_config StatusCodes.REQUEST_ADMITTED
    start_world σ1 sqlite_answers eq_refl eq_refl eq_refl Ha) _ _ Hs eq_refl).
Defined.
