(* ===== verification/PropsDatabase.v ===== *)
(** * Properties of the SQLite database

    For every engine that behaves as documented and every failure of its calls:
    the tables stay well formed, what the answer to a status update says of them,
    and what the operations that span several statements leave behind. *)

From S2P Require Import Prelude.
From S2P Require Import Prog.
From S2P Require Import Models.
From S2P Require Import Database.
From S2P Require Import Sqlite.
From S2P Require Import SqliteDb.
From S2P Require Import SqliteFacts.
From S2P Require Import Pool.

(** However the calls of concurrent operations interleave on the connection and
    whichever calls fail, a database that was created empty is well formed: keys
    are unique, statuses are numbers of statuses, identifiers are C strings. *)
Lemma sqlite_well_formed `{RowOrder} {D : Type} `{!SqlEngine D} indeterminate (d0 : D) σ :
  cn_tables (sql_conn d0) = no_tables → cn_saved (sql_conn d0) = None →
  rtc (pstep indeterminate) (mkPool d0 []) σ → conn_ok (sql_conn (pl_db σ)).
Proof.
  intros Ht Hs Hr. eapply psteps_ok; [exact Hr|]. split; [|constructor]. unfold conn_ok, durable. cbn.
  rewrite Ht, Hs. split; apply no_tables_ok.
Qed.

Definition empty_conn : conn := mkConn no_tables None 0 [] 1700000000.
Definition two_jobs : WorkflowJobList :=
  mkWorkflowJobList "acme" "wf1" 1
    [mkJobData "u1" "a" JobStatus.PENDING; mkJobData "u2" "b" JobStatus.PENDING].

(** ** Status updates *)

(** The row of a job that goes to status [st] at [now]: the times of READY,
    QUEUED and RUNNING are recorded the first time, the time of the end each
    time; nothing else changes. *)
Definition job_after (now : Z) (st : JobStatus.t) (j : job_row) : job_row :=
  let once on recorded := if bool_decide (st = on) then Some (default now recorded) else recorded in
  mkJobRow (jb_uuid j) (jb_client j) (jb_workflow j) (jb_job j) (JobStatus.to_int st) (jb_retry_count j)
    (jb_submitted_at j) (once JobStatus.READY (jb_ready_at j)) (once JobStatus.QUEUED (jb_queued_at j))
    (once JobStatus.RUNNING (jb_started_at j))
    (if bool_decide (st ∈ [JobStatus.COMPLETED; JobStatus.FAILED; JobStatus.ABORTED]) then Some now
     else jb_completed_at j).

(** The row of a workflow: the times of READY, RUNNING and the end are those of
    the last transition. *)
Definition workflow_after (now : Z) (st : WorkflowStatus.t) (w : workflow_row) : workflow_row :=
  let at_ on recorded := if bool_decide (st ∈ on) then Some now else recorded in
  mkWorkflowRow (wr_client w) (wr_workflow w) (wr_type w) (wr_version w) (WorkflowStatus.to_int st)
    (wr_total w) (wr_received_at w) (at_ [WorkflowStatus.RUNNING] (wr_started_at w))
    (at_ [WorkflowStatus.READY] (wr_ready_at w))
    (at_ [WorkflowStatus.COMPLETED; WorkflowStatus.FAILED; WorkflowStatus.CANCELED] (wr_completed_at w)).

(** The statuses that can be recorded. *)
Definition recorded_jobs : list JobStatus.t :=
  [JobStatus.PENDING; JobStatus.READY; JobStatus.QUEUED; JobStatus.RUNNING; JobStatus.RETRY_DELAY;
   JobStatus.COMPLETED; JobStatus.FAILED; JobStatus.ABORTED].
Definition recorded_workflows : list WorkflowStatus.t :=
  [WorkflowStatus.READY; WorkflowStatus.RUNNING; WorkflowStatus.COMPLETED; WorkflowStatus.FAILED;
   WorkflowStatus.CANCELED].

Lemma job_column_after st :
  match job_column st with
  | Some column => st ∈ recorded_jobs ∧
      ∀ now j, set_job_status (JobStatus.to_int st) column now j = job_after now st j
  | None => st ∉ recorded_jobs
  end.
Proof.
  destruct st; cbn [job_column]; try (split; [set_solver|]);
    try (intros now j; unfold set_job_status, set_job_row, job_after; cbn; unfold coalesce; by repeat case_match);
    unfold recorded_jobs; set_solver.
Qed.

Lemma workflow_column_after st :
  match workflow_column st with
  | Some column => st ∈ recorded_workflows ∧
      ∀ now w, set_workflow_status (WorkflowStatus.to_int st) column now w = workflow_after now st w
  | None => st ∉ recorded_workflows
  end.
Proof. destruct st; cbn [workflow_column]; try (split; [set_solver|done]); unfold recorded_workflows; set_solver. Qed.

Definition added_conn : conn := (run sql_doc (add_workflow_jobs two_jobs) empty_conn).2.

(** C36. The answer to a status update is true to what is stored, whatever fails,
    when no other operation uses the connection meanwhile.
    [update_job_status] and [update_workflow_status]: [true] means that the
    status is one that can be recorded, the row exists, and exactly that row got
    the status and the time of the transition (a time of READY, QUEUED or RUNNING
    already recorded for a job being kept); [false] means that nothing was
    stored; and when no call fails, a recordable status of an existing row is
    answered with [true].  [update_request_status]: [true] means that the row of
    the request, if there is one, and no other got the status and the reason,
    [false] that nothing was stored. *)
Theorem status_updates_truthful `{RowOrder} {D : Type} `{!SqlEngine D} cid wid jid jst wst r (d : D) :
  cn_saved (sql_conn d) = None →
  let t := cn_tables (sql_conn d) in
  let now := cn_clock (sql_conn d) in
  let fine := cn_faults (sql_conn d) = [] in
  (let mine := is_job (c_str cid) (c_str wid) (c_str jid) in
   ∃ b d', run sql_exec (update_job_status cid wid jid jst) d = (Some b, d') ∧
     durable (sql_conn d') =
       (if b then set_jobs ((λ j, if mine j then job_after now jst j else j) <$> t_jobs t) t else t) ∧
     (b = true → jst ∈ recorded_jobs ∧ existsb mine (t_jobs t) = true) ∧
     (fine → jst ∈ recorded_jobs → existsb mine (t_jobs t) = true → b = true)) ∧
  (let mine := is_workflow (c_str cid) (c_str wid) in
   ∃ b d', run sql_exec (update_workflow_status cid wid wst) d = (Some b, d') ∧
     durable (sql_conn d') =
       (if b then set_workflows ((λ w, if mine w then workflow_after now wst w else w) <$> t_workflows t) t
        else t) ∧
     (b = true → wst ∈ recorded_workflows ∧ existsb mine (t_workflows t) = true) ∧
     (fine → wst ∈ recorded_workflows → existsb mine (t_workflows t) = true → b = true)) ∧
  (let mine x := String.eqb (c_str (rq_client_id r)) (rr_client_id x) &&
                 String.eqb (c_str (rq_request_id r)) (rr_request_id x) in
   ∃ b d', run sql_exec (update_request_status r) d = (Some b, d') ∧
     durable (sql_conn d') =
       (if b then set_requests ((λ x, if mine x
          then mkRequestRow (rr_client_id x) (rr_request_id x) (rr_workflow_id x) (rr_payload_size x)
                 (rr_operation_type x) (RequestStatus.to_int (rq_status r)) (c_str (rq_reject_reason r))
                 (rr_received_at x)
          else x) <$> t_requests t) t
        else t)).
Proof.
  intros Hs t now fine. split_and!.
  - intros mine. pose proof (job_column_after jst) as Hcol.
    destruct (job_column jst) as [column|] eqn:Ec.
    + destruct Hcol as [Hrec Hrow].
      destruct (engine_wp _ _ _ (update_job_status_wp cid wid jid jst column (sql_conn d) Ec))
        as (b & d' & Hrun & Hsav & Ht & Hb & Hf).
      exists b, d'. split; [done|]. unfold durable. rewrite Hsav, Hs, Ht. cbn [default].
      split_and!; [|auto|auto]. destruct b; [|done]. unfold set_jobs. f_equal.
      apply list_fmap_ext. intros i j _. unfold mine. by rewrite Hrow.
    + unfold update_job_status. rewrite Ec. exists false, d. unfold durable. by rewrite Hs.
  - intros mine. pose proof (workflow_column_after wst) as Hcol.
    destruct (workflow_column wst) as [column|] eqn:Ec.
    + destruct Hcol as [Hrec Hrow].
      destruct (engine_wp _ _ _ (update_workflow_status_wp cid wid wst column (sql_conn d) Ec))
        as (b & d' & Hrun & Hsav & Ht & Hb & Hf).
      exists b, d'. split; [done|]. unfold durable. rewrite Hsav, Hs, Ht. cbn [default].
      split_and!; [|auto|auto]. destruct b; [|done]. unfold set_workflows. f_equal.
      apply list_fmap_ext. intros i j _. unfold mine. by rewrite Hrow.
    + unfold update_workflow_status. rewrite Ec. exists false, d. unfold durable. by rewrite Hs.
  - intros mine. destruct (engine_wp _ _ _ (update_request_status_wp r (sql_conn d)))
      as (b & d' & Hrun & Hsav & Ht).
    exists b, d'. split; [done|]. unfold durable. rewrite Hsav, Hs, Ht. by destruct b.
Qed.

Lemma status_updates_truthful_witness :
  ∃ b d', run sql_exec (update_job_status "acme" "wf1" "a" JobStatus.RUNNING) added_conn = (Some b, d') ∧
    b = true ∧ jb_started_at <$> t_jobs (durable d') = [Some 1700000000; None].
Proof.
  assert (cn_saved (sql_conn added_conn) = None) as Hs by (vm_compute; reflexivity).
  destruct (status_updates_truthful "acme" "wf1" "a" JobStatus.RUNNING WorkflowStatus.RUNNING
    (mkRequestData "acme" "r1" "wf1" 4 "CREATE" RequestStatus.RECEIVED "") added_conn Hs)
    as ((b & d' & Hrun & Hd & _ & Hb) & _).
  exists b, d'. split; [exact Hrun|]. assert (b = true) as ->.
  { apply Hb; [reflexivity| |vm_compute; reflexivity]. apply list_elem_of_In. cbn. tauto. }
  split; [reflexivity|]. transitivity (jb_started_at <$> t_jobs (durable (sql_conn d'))); [reflexivity|].
  rewrite Hd. vm_compute. reflexivity.
Defined.

(** C37. Writes of several rows are all or nothing, whatever fails, when no other
    operation uses the connection meanwhile.
    [update_ready_jobs]: success means that every job of the two lists had a row
    and that exactly these rows were marked QUEUED or READY, a transition time
    already recorded being kept; failure that the durable tables are as before.
    [add_workflow_jobs], when BEGIN TRANSACTION succeeds: success means that one
    PENDING row per job was appended, in the order of the list, failure that the
    durable tables are as before. *)
Theorem batches_atomic `{RowOrder} {D : Type} `{!SqlEngine D} cid wid queued ready l (d : D) :
  cn_saved (sql_conn d) = None →
  let t := cn_tables (sql_conn d) in
  (∃ b d', run sql_exec (update_ready_jobs cid wid queued ready) d = (Some b, d') ∧
    if b then
      cn_saved (sql_conn d') = None ∧
      all_present cid wid (ready ++ queued)%list (t_jobs t) = true ∧
      durable (sql_conn d') =
        set_jobs (mark_ready (cn_clock (sql_conn d)) cid wid queued ready <$> t_jobs t) t
    else durable (sql_conn d') = t) ∧
  (next_fault (past_fault (sql_conn d)) = SqlFine →
   ∃ r d', run sql_exec (add_workflow_jobs l) d = (Some r, d') ∧
    match r with
    | inl _ => durable (sql_conn d') = set_jobs (t_jobs t ++
        (job_row_of (wl_client_id l) (wl_workflow_id l) (cn_clock (sql_conn d)) <$> wl_jobs l))%list t
    | inr code => code = StatusCodes.INTERNAL_DB_FAILURE ∧ durable (sql_conn d') = t
    end).
Proof.
  intros Hs t. unfold t. split.
  - destruct (engine_wp _ _ _ (update_ready_jobs_wp cid wid queued ready _ Hs)) as (b & d' & Hr & Hb).
    exists b, d'. split; [done|]. unfold durable in *. destruct b; [|by rewrite Hs in Hb].
    destruct Hb as (Hs' & Hp & Ht). by rewrite Hs', Ht.
  - intros Hf. destruct (engine_wp _ _ _ (add_workflow_jobs_wp l _ Hs Hf)) as (r & d' & Hr & Hb).
    exists r, d'. split; [done|]. unfold durable in *. destruct r; [|by rewrite Hs in Hb].
    destruct Hb as (Hs' & Ht). by rewrite Hs', Ht.
Qed.

Definition failing_conn : conn :=
  mkConn (cn_tables added_conn) None 0 [SqlFine; SqlFine; SqlFine; SqlFail 0] 1700000009.

Lemma batches_atomic_witness :
  (∃ b d', run sql_exec (update_ready_jobs "acme" "wf1" ["a"] ["b"]) failing_conn = (Some b, d') ∧
    if b then
      cn_saved d' = None ∧
      all_present "acme" "wf1" ["b"; "a"] (t_jobs (cn_tables failing_conn)) = true ∧
      durable d' = set_jobs (mark_ready 1700000009 "acme" "wf1" ["a"] ["b"] <$> t_jobs (cn_tables failing_conn))
                     (cn_tables failing_conn)
    else durable d' = cn_tables failing_conn) ∧
  (∃ r d', run sql_exec (add_workflow_jobs two_jobs) empty_conn = (Some r, d') ∧
    match r with
    | inl _ => durable d' = set_jobs (job_row_of "acme" "wf1" 1700000000 <$> wl_jobs two_jobs) no_tables
    | inr code => code = StatusCodes.INTERNAL_DB_FAILURE ∧ durable d' = no_tables
    end).
Proof.
  split.
  - exact (proj1 (batches_atomic "acme" "wf1" ["a"] ["b"] two_jobs failing_conn eq_refl)).
  - exact (proj2 (batches_atomic "acme" "wf1" ["a"] ["b"] two_jobs empty_conn eq_refl) eq_refl).
Defined.

(** A failed BEGIN TRANSACTION goes unnoticed in [add_workflow_jobs], which
    tests the return code of the statement's preparation: when a later insertion
    fails, the operation reports an error and the jobs before it stay in the
    database. *)
Lemma begin_failure_unnoticed `{RowOrder} t n clk retries cid wid job1 job2 jobs l :
  insert_row same_job (job_row_of cid wid clk job1) (t_jobs t) = Some l →
  let c := mkConn t None n [SqlFine; SqlFail 0; SqlFine; SqlFail 0] clk in
  ∃ c', run sql_doc (add_workflow_jobs (mkWorkflowJobList cid wid retries (job1 :: job2 :: jobs))) c
      = (Some (inr StatusCodes.INTERNAL_DB_FAILURE), c') ∧
    t_jobs (durable c') = l ∧ (length (t_jobs t) < length (t_jobs (durable c')))%nat.
Proof.
  intros Hl c. eexists. split; [|split].
  - unfold add_workflow_jobs, c. cbn [wl_client_id wl_workflow_id wl_jobs insert_jobs].
    rewrite !run_trigger_bind. simpl. unfold job_row_of in Hl. rewrite Hl. reflexivity.
  - reflexivity.
  - simpl. unfold insert_row in Hl. destruct (existsb _ _); [done|]. injection Hl as <-.
    rewrite length_app. simpl. lia.
Qed.

Lemma begin_failure_unnoticed_witness :
  ∃ c', run sql_doc (add_workflow_jobs two_jobs)
      (mkConn no_tables None 0 [SqlFine; SqlFail 0; SqlFine; SqlFail 0] 1700000000)
      = (Some (inr StatusCodes.INTERNAL_DB_FAILURE), c') ∧
    t_jobs (durable c') = [job_row_of "acme" "wf1" 1700000000 (mkJobData "u1" "a" JobStatus.PENDING)] ∧
    (0 < length (t_jobs (durable c')))%nat.
Proof.
  exact (begin_failure_unnoticed no_tables 0 1700000000 1 "acme" "wf1" (mkJobData "u1" "a" JobStatus.PENDING)
    (mkJobData "u2" "b" JobStatus.PENDING) [] _ eq_refl).
Defined.

(** A transaction is the connection's, not the operation's.  No call fails: one
    operation sets job [a] RUNNING and answers [true] while another has a
    transaction open, for a job that does not exist; the rollback of the latter
    takes the update back. *)
Definition racing_operations : list operation :=
  [mkOp _ (update_ready_jobs "acme" "wf1" [] ["missing"]);
   mkOp _ (update_job_status "acme" "wf1" "a" JobStatus.RUNNING)].

Definition stored_status (c : conn) : list Z := jb_status <$> t_jobs (durable c).

Lemma acknowledged_write_lost :
  ∃ σ, schedule [0; 0; 1; 1; 1; 1; 0; 0; 0; 0]%nat (mkPool added_conn racing_operations) = Some σ ∧
    (∃ o, pl_ops σ !! 1%nat = Some (mkOp bool o) ∧ o = Ret true) ∧
    stored_status (pl_db σ) = JobStatus.to_int <$> [JobStatus.PENDING; JobStatus.PENDING].
Proof. eexists. split; [vm_compute; reflexivity|]. split; [eexists; split; reflexivity|reflexivity]. Qed.
