(* ===== verification/PropsWire.v ===== *)
(** * The connection to Redis: theorems

    What is written and read on the wire ([Resp]), the loop that takes a job
    ([Dequeue]), and the wake-up of the completion handler ([Waits]). *)

From S2P Require Import Prelude.
From S2P Require Import Prog.
From S2P Require Import RedisServer.
From S2P Require Import Models.
From S2P Require Import RedisKeys.
From S2P Require Import Scripts.
From S2P Require Import RedisExec.
From S2P Require Import Resp.
From S2P Require Import RedisRuntime.
From S2P Require Import Dequeue.
From S2P Require Import Waits.
From S2P Require Import Sample.

(** C23. The framing of the connection is exact.  The words of a command are read
    back as they were, byte for byte, whatever they contain, so no word can start
    another command.  The documented reply of each command is read as
    [reply_of] says: as the reply itself, except that in an array a nil element
    reads as the empty text and a nested array too.  An error reply is thrown.
    In each case the next reply starts where this one ends.  On any bytes
    whatever, the reader gives a reply, raises, or waits for more bytes; the
    first two leave a suffix no longer than the input. *)
Theorem wire_roundtrip {X} (c : redis_cmd X) (x : X) args message buf rest :
  command_ok args = true → wire_ok (wire c x) = true → text_line message = true →
  parse_reply (write_command args +:+ rest) = Got (Array args) rest ∧
  parse_reply (encode (wire c x) +:+ rest) = Got (reply_of c x) rest ∧
  parse_reply (encode (RError message) +:+ rest) = Raised rest ∧
  match parse_reply buf with
  | Got _ rest' | Raised rest' => (String.length rest' ≤ String.length buf)%nat
  | Starved => True
  | OutOfFuel => False
  end.
Proof.
  intros Ha Hc Hm. split_and!.
  - by apply parse_write_command.
  - by apply parse_wire.
  - by rewrite parse_reply_encode.
  - exact (parse_reply_settled _ buf (Nat.lt_succ_diag_r _)).
Qed.

Lemma wire_roundtrip_witness :
  parse_reply (write_command ["SET"; "k"; crlf] +:+ "+OK") = Got (Array ["SET"; "k"; crlf]) "+OK" ∧
  parse_reply (encode (wire (MGET ["a"; "b"]) [Some "1"; None]) +:+ "+OK") = Got (Array ["1"; ""]) "+OK" ∧
  parse_reply (encode (RError "ERR") +:+ "+OK") = Raised "+OK" ∧
  match parse_reply "*3" with
  | Got _ rest' | Raised rest' => (String.length rest' ≤ String.length "*3")%nat
  | Starved => True
  | OutOfFuel => False
  end.
Proof.
  apply (wire_roundtrip (MGET ["a"; "b"]) [Some "1"; None] ["SET"; "k"; crlf] "ERR" "*3" "+OK");
    vm_compute; reflexivity.
Defined.

(** C16. Taking a job ends, on any server and whatever commands or replies are
    lost: the loop returns within one round more than the queue has entries.  A
    job it returns is claimed by this scheduler and off the queue.  It returns
    without a job only after a fault, on a malformed queue, or when it has left
    the queue empty. *)
Theorem dequeue_terminates `{RedisServer R} fuel sid (σ : world R) :
  (entries (keys_of σ) < fuel)%nat → sid ≠ "" →
  ∃ r σ', run redis_io (blocking_dequeue_job_for_execution_async fuel sid) σ = (Some (Some r), σ') ∧
    match r with
    | Some job => (entries (keys_of σ') < entries (keys_of σ))%nat ∧
                  claimed (job_key (rt_identity job) (rt_job_id job)) sid (keys_of σ')
    | None => orderly σ → entries (keys_of σ') = 0%nat
    end.
Proof.
  intros Hf Hs. pose proof (blocking_dequeue_wp fuel sid σ Hf) as Hw. unfold wp in Hw.
  destruct (run redis_io _ σ) as [[[r|]|] σ']; try done.
  exists r, σ'. split; [done|]. destruct r as [job|]; naive_solver.
Qed.

Lemma dequeue_terminates_witness :
  ∃ r σ', run redis_io (blocking_dequeue_job_for_execution_async 2 "scheduler1") (mkWorld sample_s1 [Fine; Fine; LostReply] 0)
    = (Some (Some r), σ') ∧
    match r with
    | Some job => (entries (keys_of σ') < 1)%nat ∧
                  claimed (job_key (rt_identity job) (rt_job_id job)) "scheduler1" (keys_of σ')
    | None => orderly (mkWorld sample_s1 [Fine; Fine; LostReply] 0) → entries (keys_of σ') = 0%nat
    end.
Proof.
  assert (entries (keys_of (mkWorld sample_s1 [Fine; Fine; LostReply] 0)) = 1%nat) as E
    by (vm_compute; reflexivity).
  pose proof (dequeue_terminates 2 "scheduler1" (mkWorld sample_s1 [Fine; Fine; LostReply] 0)) as T.
  rewrite E in T. apply T; [lia|discriminate].
Defined.

(** C39. No completion is missed.  However its steps interleave with the other
    clients of the server, and whatever commands or replies are lost: when the
    main loop of the completion handler waits for a message while the completion
    stream holds an entry, a message is there to end the wait. *)
Theorem completions_wake_handler `{RedisServer R} indeterminate fuel (r : R) σ k e l last :
  rtc wstep (mkW _ (completion_handler_main_loop indeterminate fuel) r [] []) σ →
  ws_prog _ σ = Vis (WaitMessage JOB_COMPLETION_READY_CHANNEL) k →
  look (redis_state (ws_redis _ σ)) JOB_COMPLETION_STREAM_KEY = Some (RStream (e :: l) last) →
  ∃ σ', wstep σ σ' ∧ ws_prog _ σ' = k Message.
Proof.
  intros Hr Hw Hl.
  destruct (decide (Exists (λ m, m.1 = JOB_COMPLETION_READY_CHANNEL) (ws_mail _ σ))) as [Hm|Hm].
  - apply Exists_exists in Hm as ([ch m] & Hin & Hch). cbn in Hch. subst ch.
    apply list_elem_of_split in Hin as (pre & post & Hmail).
    destruct σ as [p r' subs mail]. cbn in *. subst. eexists. split; [apply step_message|done].
  - exfalso. pose proof (never_sleeps_on_work _ r σ k (disciplined_loop _ _ _) Hr Hw) as Hd.
    apply (Hd (λ '(ex_intro _ m Hin), Hm (proj2 (Exists_exists _ _) (ex_intro _ _ (conj Hin eq_refl))))) in Hl.
    done.
Qed.

(** The handler subscribes, sees no completion and waits; then a worker reports
    one. *)
Lemma completions_wake_handler_witness :
  ∃ (σ : wsys (option unit)) k e last,
    ws_prog _ σ = Vis (WaitMessage JOB_COMPLETION_READY_CHANNEL) k ∧
    look (redis_state (ws_redis _ σ)) JOB_COMPLETION_STREAM_KEY = Some (RStream [e] last) ∧
    ∃ σ', wstep σ σ' ∧ ws_prog _ σ' = k Message.
Proof.
  set (empty := mkR ∅ 1700000000000000).
  assert (Hr : ∃ σ, rtc wstep (mkW _ (completion_handler_main_loop (λ _, 0) 1) empty [] []) σ ∧
    ∃ k e last, ws_prog _ σ = Vis (WaitMessage JOB_COMPLETION_READY_CHANNEL) k ∧
    look (redis_state (ws_redis _ σ)) JOB_COMPLETION_STREAM_KEY = Some (RStream [e] last)).
  { eexists. split.
    - eapply rtc_l; [apply (step_running _ _ _ _ true)|].
      eapply rtc_l; [apply (step_running _ _ _ _ true)|].
      eapply rtc_l; [apply (step_connect _ _ _ _ true)|].
      eapply rtc_l; [apply step_subscribe|].
      eapply rtc_l; [apply step_redis, (answered_served _ _ (Some (Integer 0)) empty); reflexivity|].
      eapply rtc_l; [|apply rtc_refl].
      apply step_elsewhere. eapply (other_completion empty "acme" "wf1" "a" "COMPLETED" "0").
      vm_compute. reflexivity.
    - do 3 eexists. split; [reflexivity|]. vm_compute. reflexivity. }
  destruct Hr as (σ & Hr & k & e & last & Hw & Hl). exists σ, k, e, last.
  split; [exact Hw|]. split; [exact Hl|]. exact (completions_wake_handler _ _ _ _ _ _ _ _ Hr Hw Hl).
Defined.
