(* ===== verification/PropsHttp.v ===== *)
(** * Requests and the process: theorems

    What a query over HTTP answers ([Http]), and the life of the runtime
    ([Lifecycle]). *)

From S2P Require Import Prelude.
From S2P Require Import Prog.
From S2P Require Import RedisServer.
From S2P Require Import Models.
From S2P Require Import RedisExec.
From S2P Require Import Json.
From S2P Require Import Database.
From S2P Require Import SqliteFacts.
From S2P Require Import StatusStore.
From S2P Require Import WorkflowView.
From S2P Require Import Lifecycle.
From S2P Require Import Http.
From S2P Require Import PropsScripts.
From S2P Require Import PropsServices.

(** C17. A query is answered from the record.  GET on a workflow, with the client
    as a query parameter, is routed to the right handler with the identifiers as
    they were written.  On a working database it answers 404 when the client has
    no such workflow, and otherwise 200 with the recorded status of the workflow
    and of exactly its jobs; Redis is not asked and no record changes. *)
Theorem workflow_query_answered `{RedisServer R} `{StatusStore D} dump parse submit runtime
  max_body error_status keep_alive id client body alive (σ : app_world R D) :
  segment_ok id = true → str_empty client = false → no_char "&" client = true → nul_free client = true →
  Z.of_nat (String.length body) ≤ max_body → healthy (aw_db σ) →
  let target := path_of ["api"; "v1"; "workflows"; id] +:+ "?" +:+ "client_id" +:+ "=" +:+ client in
  let answer := run app_io (serve_request dump parse submit runtime max_body error_status keep_alive
                  (mkRequest Verb.get target body alive)) σ in
  ∃ σ', aw_redis σ' = aw_redis σ ∧ healthy (aw_db σ') ∧
    (∀ c w, workflow_status (aw_db σ') c w = workflow_status (aw_db σ) c w) ∧
    match workflow_status (aw_db σ) client id with
    | None =>
        answer = (Some (make_json_response HttpStatus.not_found alive (error_text "workflow not found")), σ')
    | Some st => ∃ total jobs,
        answer = (make_json_response HttpStatus.ok alive <$> dump (recorded_json client id st total jobs), σ') ∧
        NoDup jobs.*1 ∧ ∀ j s, (j, s) ∈ jobs ↔ job_status (aw_db σ) client id j = Some s
    end.
Proof.
  intros Hid Hne Hamp Hnul Hb Hh target answer.
  set (cx := mkCtx id client "" error_status alive).
  assert (forallb segment_ok ["api"; "v1"; "workflows"; id] = true) as Hseg by (cbn; by rewrite Hid).
  assert (get_handler max_body (mkCtx "" "" "" error_status keep_alive) (mkRequest Verb.get target body alive) =
    (GetWorkflowHandler, cx)) as Hg.
  { unfold get_handler. cbn [hr_body hr_target hr_method hr_keep_alive].
    rewrite (proj2 (Z.ltb_ge _ _)) by lia. unfold target.
    rewrite split_path_segments by (done || right; by eexists).
    by rewrite get_query_param_only by (done || by apply no_query). }
  subst answer. unfold serve_request. rewrite Hg. cbn [handle].
  exact (handle_get_workflow_spec dump cx σ Hh Hnul Hne).
Qed.

Lemma workflow_query_answered_witness :
  let σ := example_world running_wf (job_a JobStatus.RUNNING) job_b 1700000001 in
  let answer := run app_io (serve_request (λ _, Some "{}") (λ _, inr "")
    (λ _, Ret (mkValidationResult false StatusCodes.OK "")) None 100 HttpStatus.ok false
    (mkRequest Verb.get "/api/v1/workflows/wf1?client_id=acme" "" true)) σ in
  workflow_status (aw_db σ) "acme" "wf1" = Some WorkflowStatus.RUNNING ∧
  ∃ σ', aw_redis σ' = aw_redis σ ∧ healthy (aw_db σ') ∧
    (∀ c w, workflow_status (aw_db σ') c w = workflow_status (aw_db σ) c w) ∧
    ∃ total jobs,
      answer = (make_json_response HttpStatus.ok true <$>
        (λ _, Some "{}") (recorded_json "acme" "wf1" WorkflowStatus.RUNNING total jobs), σ') ∧
      NoDup jobs.*1 ∧ ∀ j s, (j, s) ∈ jobs ↔ job_status (aw_db σ) "acme" "wf1" j = Some s.
Proof.
  split; [reflexivity|].
  refine (workflow_query_answered (λ _, Some "{}") (λ _, inr "")
    (λ _, Ret (mkValidationResult false StatusCodes.OK "")) None 100 HttpStatus.ok false "wf1" "acme" "" true
    (example_world running_wf (job_a JobStatus.RUNNING) job_b 1700000001) _ _ _ _ _ _);
    try reflexivity; try (vm_compute; discriminate).
  split; [split; reflexivity|apply example_tables_ok].
Defined.

(** C22. The runtime owns what it has not asked to stop.  However calls
    interleave at their critical sections: the components that were started and
    not asked to stop are exactly those the runtime owns, each once; a started
    runtime has the configured number of I/O threads; and once it is shutting
    down every component has been asked to stop, none is owned, and no later call
    creates one or starts the runtime again. *)
Theorem runtime_owns_components io schedulers handlers r :
  rtc rstep (new_runtime io schedulers handlers) r →
  (fr_unstopped r ≡ₚ components r ∧ NoDup (fr_unstopped r)) ∧
  (fr_started r = true → fr_redis_io_threads r = fr_redis_io_thread_count r) ∧
  (fr_shutting_down r = true → ∀ r', rtc rstep r r' →
     fr_unstopped r' = [] ∧ components r' = [] ∧ fr_created r' = fr_created r ∧
     fr_started (start r') = fr_started r').
Proof.
  intros Hr. assert (RuntimeInv r) as Hi by (eapply rsteps_inv; [exact Hr|apply new_runtime_inv]).
  split_and!; [apply Hi|rewrite (own_unstopped _ Hi); apply Hi|by apply own_counts|].
  intros Hd r' Hr'. destruct (shutting_down_forever _ _ Hr' Hd) as [Hd' Hc].
  assert (RuntimeInv r') as Hi' by (by eapply rsteps_inv).
  pose proof (own_idle _ Hi' (or_intror Hd')) as Hn. split_and!; [|done|done|].
  - apply Permutation_nil_r. rewrite <- Hn. apply Hi'.
  - unfold start. by rewrite Hd', orb_true_r.
Qed.

Lemma runtime_owns_components_witness :
  let r := start (new_runtime 2 1 0) in
  fr_unstopped r = [0; 1; 2]%nat ∧
  (fr_unstopped r ≡ₚ components r ∧ NoDup (fr_unstopped r)) ∧
  (fr_started r = true → fr_redis_io_threads r = fr_redis_io_thread_count r) ∧
  (fr_shutting_down r = true → ∀ r', rtc rstep r r' →
     fr_unstopped r' = [] ∧ components r' = [] ∧ fr_created r' = fr_created r ∧
     fr_started (start r') = fr_started r').
Proof.
  split; [reflexivity|]. apply (runtime_owns_components 2 1 0). apply rtc_once, rstep_start.
Defined.
