(* ===== verification/PropsShutdown.v ===== *)
(** * Stopping: theorems

    The end of a scheduler and its workers, and of the two handlers
    ([Shutdown]). *)

From S2P Require Import Prelude.
From S2P Require Import Models.
From S2P Require Import Scheduling.
From S2P Require Import BlockingQueue.
From S2P Require Import Shutdown.

(** C30. A scheduler stops, and no thread outlives it.  However the dispatcher, the
    workers, [request_stop] and the destructor interleave, and whatever the
    awaited calls return or throw: once [running_] is [false] the number of steps
    left is bounded, and there is always a step until the destructor has
    returned.  When it has, the dispatcher and every worker have ended, and every
    job that the queue accepted was handled to the end by a worker, unless an
    exception ended a worker's loop. *)
Theorem scheduler_stops workers capacity σ :
  rtc sstep (new_scheduler workers capacity) σ →
  (sc_running σ = false →
     (∀ n σ', nsteps sstep n σ σ' → (n ≤ stop_bound σ)%nat) ∧
     ((∀ σ', ¬ sstep σ σ') → sc_dtor σ = Destroyed)) ∧
  (sc_dtor σ = Destroyed →
     sc_main σ = MFinished ∧ Forall (λ pc, ended pc = true) (sc_workers σ) ∧
     (Forall (λ pc, pc = WEnded None) (sc_workers σ) → sc_accepted σ ≡ₚ sc_handled σ)).
Proof.
  intros Hr. destruct (ssteps_inv _ _ Hr (new_scheduler_inv _ _)) as [I Hl].
  pose proof (new_scheduler_workers workers capacity) as Hn. rewrite <- Hl in Hn.
  split.
  - intros Hstop. split; [|by apply stuck_destroyed].
    intros n σ' Hs. pose proof (sstep_steps_bound _ _ _ Hstop Hs). lia.
  - intros Hd. destruct I as [_ _ Hf Hh Hdone _ _ Ho]. unfold dtor_ok in Ho. rewrite Hd in Ho.
    destruct Ho as (_ & Hm & He). split_and!; [done|by apply Forall_lookup|].
    intros Hall. rewrite Hf, Hh, (held_ended _ Hall), app_nil_r.
    destruct (sc_workers σ) as [|pc l] eqn:Ew; [cbn in Hn; lia|]. apply Forall_cons_1 in Hall as [-> _].
    destruct (Hdone 0%nat (WEnded None) eq_refl eq_refl) as [_ ->]. by rewrite app_nil_r.
Qed.

(** One worker: a job is pushed, the owner asks to stop, the worker handles the
    job and ends, the destructor returns. *)
Definition one_job : JobExeData :=
  mkJobExeData (mkIdentity "acme" "wf1") "a" "fetch" 0 "" JobStatus.UNKNOWN.

Definition stopped_scheduler : scheduler :=
  mkScheduler false false (close (new_queue 1)) MFinished true [WEnded None] 0 Destroyed
    [one_job] [one_job] [one_job].

Lemma scheduler_stops_witness :
  (∀ n σ', nsteps sstep n stopped_scheduler σ' → (n ≤ 0)%nat) ∧
  [one_job] ≡ₚ sc_handled stopped_scheduler.
Proof.
  assert (Hr : rtc sstep (new_scheduler 1 1) stopped_scheduler).
  { eapply rtc_l; [apply s_dispatch, d_loop|]. eapply rtc_l; [apply s_dispatch, d_next|].
    eapply rtc_l; [apply s_dispatch, d_dequeued|].
    eapply rtc_l; [apply s_dispatch, (d_runtime _ one_job); cbn; lia|].
    eapply rtc_l; [eapply (s_push _ one_job true); reflexivity|].
    eapply rtc_l; [eapply s_request_stop; reflexivity|].
    eapply rtc_l; [eapply (s_fetch _ 0 (Some one_job)); reflexivity|].
    eapply rtc_l; [eapply s_request_stop_close; reflexivity|].
    eapply rtc_l; [apply s_dispatch, d_loop|].
    eapply rtc_l; [apply s_main_finished; reflexivity|].
    eapply rtc_l; [eapply (s_work _ 0); [reflexivity|apply w_started]|].
    eapply rtc_l; [eapply (s_work _ 0); [reflexivity|apply w_executed]|].
    eapply rtc_l; [eapply (s_work _ 0); [reflexivity|apply w_reported]|].
    eapply rtc_l; [eapply (s_fetch _ 0 None); reflexivity|].
    eapply rtc_l; [eapply (s_worker_finished _ 0); reflexivity|].
    eapply rtc_l; [apply s_dtor_stopped; reflexivity|]. eapply rtc_l; [apply s_dtor_main; reflexivity|].
    eapply rtc_l; [eapply (s_dtor_join _ 0); reflexivity|]. eapply rtc_l; [eapply (s_dtor_joined _ 1); reflexivity|].
    eapply rtc_l; [apply s_dtor_workers; reflexivity|]. apply rtc_refl. }
  destruct (scheduler_stops 1 1 stopped_scheduler Hr) as [H1 H2].
  split; [exact (proj1 (H1 eq_refl))|]. apply H2; [reflexivity|]. by apply Forall_singleton.
Defined.

(** C38. A handler stops, and its loop does not outlive it.  For the completion
    handler and the retry handler alike, whatever the awaited calls return or
    throw: once [running_] is [false] the number of steps left is bounded; there
    is always a step until the destructor has returned; and when it has, the
    main loop has ended or was never started. *)
Theorem handlers_stop loop auto_start h :
  loop = completion_loop ∨ loop = retry_loop → rtc (hstep loop) (new_handler auto_start) h →
  (hd_running h = false → ∀ n h', nsteps (hstep loop) n h h' → (n ≤ hd_bound h)%nat) ∧
  ((∀ h', ¬ hstep loop h h') → hd_dtor h = HDestroyed) ∧
  (hd_dtor h = HDestroyed → if auto_start then hd_pc h = Some HFinished else hd_pc h = None).
Proof.
  intros Hl Hr. assert (StopsOnRequest loop) as Hs by (destruct Hl as [-> | ->]; apply _).
  pose proof (hsteps_inv loop _ _ Hr (new_handler_inv _)) as I. split_and!.
  - intros Hstop n h' Hn. pose proof (hstep_steps_bound loop _ _ _ Hstop Hn). lia.
  - intros Hstuck. by apply (handler_stuck loop).
  - intros Hd. pose proof (hi_destroyed _ I Hd) as Ho.
    pose proof (handler_over _ I Ho) as Hov. rewrite (hsteps_started loop _ _ Hr) in Hov.
    by destruct auto_start.
Qed.

Lemma handlers_stop_witness :
  let h := mkHandler false true true (Some HFinished) HDestroyed in
  rtc (hstep retry_loop) (new_handler true) h ∧
  (∀ n h', nsteps (hstep retry_loop) n h h' → (n ≤ 0)%nat) ∧ hd_pc h = Some HFinished.
Proof.
  intros h.
  assert (Hr : rtc (hstep retry_loop) (new_handler true) h).
  { eapply rtc_l; [eapply (h_move _ _ HLoop); [reflexivity|apply r_shared, h_loop]|].
    eapply rtc_l; [eapply (h_move _ _ HGet); [reflexivity|apply r_shared, h_get]|].
    eapply rtc_l; [eapply (h_move _ _ HFirst); [reflexivity|apply r_not_due]|].
    eapply rtc_l; [apply h_dtor_stop; reflexivity|].
    eapply rtc_l; [eapply (h_move _ _ HSecond); [reflexivity|apply r_timeout_or_event]|].
    eapply rtc_l; [eapply (h_move _ _ HGet); [reflexivity|apply r_shared, h_get]|].
    eapply rtc_l; [eapply (h_move _ _ HNone); [reflexivity|apply r_shared, h_none]|].
    eapply rtc_l; [apply h_finished; reflexivity|].
    eapply rtc_l; [apply h_dtor_waited; reflexivity|]. apply rtc_refl. }
  destruct (handlers_stop retry_loop true h (or_intror eq_refl) Hr) as (H1 & _ & H3).
  split; [exact Hr|]. split; [exact (H1 eq_refl)|exact (H3 eq_refl)].
Defined.
