(* ===== verification/PropsSchema.v ===== *)
(** * The schema: theorems

    The statements of the program under the schema it creates ([Schema],
    [SchemaFacts]). *)

From S2P Require Import Prelude.
From S2P Require Import Prog.
From S2P Require Import Models.
From S2P Require Import Database.
From S2P Require Import Sqlite.
From S2P Require Import SqliteDb.
From S2P Require Import SqliteFacts.
From S2P Require Import Schema.
From S2P Require Import SchemaFacts.

(** C10. The model of the statements is their SQL.  On a database with the tables
    of the program, what [exec_stmt] does to the records is what the SQL of the
    statement does to their rows under the declared keys and NOT NULL columns:
    the same rows, the same number of changes, SQLITE_CONSTRAINT in the same
    cases, and no other table touched.  A query gives the columns it names of
    the records that [eval_query] selects.  The operations only make statements
    of this form. *)
Theorem statements_are_sql {A} s (q : query A) t indeterminate X (e : db_ev X) :
  stmt_ok s →
  match exec_stmt s t with
  | Some (t', changes) =>
      execute_sql all_tables (sql_of s) (λ m, table_rows m t) =
        Some (Some (table_rows (stmt_table (sql_of s)) t', changes)) ∧
      ∀ m, m ≠ stmt_table (sql_of s) → table_rows m t' = table_rows m t
  | None => execute_sql all_tables (sql_of s) (λ m, table_rows m t) = Some None
  end ∧
  execute_query all_tables (query_of q) (λ m, table_rows m t) = Some (query_values q <$> eval_query q t) ∧
  emits_ok (sqlite_prog indeterminate e).
Proof. intros Hs. split_and!; [by apply exec_stmt_is_sql|apply eval_query_is_sql|apply sqlite_emits]. Qed.

(** A second job with the identifiers of the first is refused. *)
Definition a_job : job_row :=
  mkJobRow "u1" "acme" "wf1" "a" (JobStatus.to_int JobStatus.PENDING) 0 (Some 1700000000) None None None None.
Definition another_job : job_row :=
  mkJobRow "u2" "acme" "wf1" "a" (JobStatus.to_int JobStatus.PENDING) 0 (Some 1700000001) None None None None.

Lemma statements_are_sql_witness :
  let t := set_jobs [a_job] no_tables in
  execute_sql all_tables (sql_of (INSERT_JOB another_job)) (λ m, table_rows m t) = Some None ∧
  execute_query all_tables (query_of (SELECT_JOBS "acme" "wf1")) (λ m, table_rows m t) = Some [job_values a_job].
Proof.
  assert (Hs : stmt_ok (INSERT_JOB another_job)).
  { split; [exists JobStatus.PENDING; reflexivity|]. repeat split; reflexivity. }
  destruct (statements_are_sql (INSERT_JOB another_job) (SELECT_JOBS "acme" "wf1") (set_jobs [a_job] no_tables)
    RequestStatus.UNKNOWN _ GetAllActiveWorkflows Hs) as (H1 & H2 & _).
  split; [exact H1|exact H2].
Defined.

(** C12. The schema types the statements.  Creating the schema leaves the tables of
    an existing file as they are, and when it does not throw every table of the
    program exists.  On a new file these are the tables as declared: every
    statement names an existing table and existing columns, gives each NOT NULL
    column a value, and binds to each column a value of its declared type, NULL
    only where it is allowed; but for the one that stores a client, which binds
    a text to the INTEGER column [status]. *)
Theorem schema_types_statements f faults w :
  run file_doc create_schema (f, faults) = (Some true, w) →
  (∀ n td, find_table n (f_tables f) = Some td → find_table n (f_tables w.1) = Some td) ∧
  (∀ td, td ∈ all_tables → is_Some (find_table (td_name td) (f_tables w.1))) ∧
  (f_tables f = [] → f_tables w.1 = all_tables ∧
   ∀ s, ∃ td, find_table (stmt_table (sql_of s)) (f_tables w.1) = Some td ∧
     forallb (has_column td) (stmt_columns (sql_of s)) = true ∧
     typed_stmt td (sql_of s) = negb (is_replace_client s)).
Proof.
  intros Hr. destruct (create_schema_spec _ _ _ _ Hr) as [Hx [Hn|[_ Hc]]]; [done|]. split_and!; [done..|].
  intros Hf. destruct f as [l ix]. cbn in Hf. subst l. pose proof (create_schema_new _ _ _ Hr) as ->.
  split; [done|]. apply stmt_typed.
Qed.

(** A file of which only the table of jobs was created. *)
Lemma schema_types_statements_witness :
  ∃ w, run file_doc create_schema (mkFile [jobs] [], []) = (Some true, w) ∧
    find_table "jobs" (f_tables w.1) = Some jobs ∧ is_Some (find_table "clients" (f_tables w.1)).
Proof.
  destruct (run file_doc create_schema (mkFile [jobs] [], [])) as [r w] eqn:E.
  assert (Hr : r = Some true) by (vm_compute in E; injection E as <- _; reflexivity). subst r.
  exists w. split; [reflexivity|]. destruct (schema_types_statements _ _ _ E) as (H1 & H2 & _).
  split; [apply H1; reflexivity|]. apply (H2 clients). apply elem_of_cons; right; apply elem_of_cons; right; apply elem_of_cons; left; reflexivity.
Defined.
