(* ===== verification/PropsStartup.v ===== *)
(** * Starting and serving: theorems

    How the process starts and ends ([Startup]), and what a connection is
    answered ([Session]). *)

From S2P Require Import Prelude.
From S2P Require Import Prog.
From S2P Require Import RedisServer.
From S2P Require Import Models.
From S2P Require Import RedisExec.
From S2P Require Import Json.
From S2P Require Import Validation.
From S2P Require Import Database.
From S2P Require Import AdmissionService.
From S2P Require Import SqliteDb.
From S2P Require Import Schema.
From S2P Require Import Lifecycle.
From S2P Require Import Http.
From S2P Require Import Session.
From S2P Require Import Startup.
From S2P Require Import StartupFacts.
From S2P Require Import PropsScripts.
From S2P Require Import PropsServices.

(** C15. How the process ends, whatever the command line and whichever calls fail.
    A number that cannot be read ends it with a failure before any call.
    Otherwise ports are 16-bit, there is at least one of each component and
    thread, and the process makes the calls of [setup_calls], those of the
    listener, those of [launch_calls] in their order up to the first that fails,
    the listener's excepted: when none fails it waits for a signal and ends
    successfully; a failure before the first component is an exit code; one
    after it and before the first I/O thread hangs the process in the
    destructor of the runtime, or terminates it when a scheduler has started
    some of its workers; one later is an exit code again.  Unless the exit code
    is a failure, every table exists. *)
Theorem startup_outcome parent_path args w :
  ∃ o w', run boot_io (main_ parent_path args) w = (Some o, w') ∧
    match parse_args 1 args default_config with
    | None => o = EXIT_FAILURE_ ∧ w' = w
    | Some c => config_ok c ∧
        (∃ log, b_log w' = (b_log w ++ log)%list ∧ ends parent_path c o log) ∧
        (o ≠ EXIT_FAILURE_ → ∀ t, t ∈ all_tables → is_Some (find_table (td_name t) (f_tables (b_file w'))))
    end.
Proof. apply main_run. Qed.

(** The connection of the retry handler cannot be opened. *)
Definition start_args : list string := ["9000"; "localhost:6380"; "--schedulers"; "2"].
Definition start_world : boot_world :=
  mkBoot (mkFile [] []) (replicate 26 false ++ [true]) [].

Lemma start_can_hang :
  (run boot_io (main_ (λ _, "db") start_args) start_world).1 = Some Hangs ∧
  (run boot_io (main_ (λ _, "db") start_args) (mkBoot (mkFile [] []) [] [])).1 = Some EXIT_SUCCESS_.
Proof. split; vm_compute; reflexivity. Qed.

(** C19. A connection is answered in order, each request with the answer of its
    own handler.  Whatever arrives and whichever calls fail: the [i]-th answer of
    a session is to the [i]-th request that arrived, is the response the handler
    of that request gives in the world the earlier handlers left, and keeps the
    connection open as the request asked when it has a route of its own; every
    answer but the last keeps it open.  A session that still waits has answered
    everything that arrived.  A session is closed exactly when its last answer
    closes the connection, or the next input gets no answer because nothing
    could be read, the handler threw, or the answer could not be written. *)
Theorem session_serves `{RedisServer R} `{Database D} dump parse submit runtime max_body inputs
  (σ : app_world R D) :
  let '(log, e, σ') := session_run dump parse submit runtime max_body inputs σ in
  (∀ i req res, log !! i = Some (req, res) →
     ∃ error_status keep_alive, inputs !! i = Some (Request req error_status keep_alive true) ∧
       (run app_io (serve_request dump parse submit runtime max_body error_status keep_alive req)
          (handled dump parse submit runtime max_body (take i inputs) σ)).1 = Some res ∧
       (routed max_body req → hs_keep_alive res = hr_keep_alive req) ∧
       ((S i < length log)%nat → hs_keep_alive res = true)) ∧
  (e = Waiting → length log = length inputs ∧
     σ' = handled dump parse submit runtime max_body inputs σ) ∧
  (e = Closed ↔ (∃ p, last log = Some p ∧ hs_keep_alive p.2 = false) ∨
     ∃ i, inputs !! length log = Some i ∧
       unanswered dump parse submit runtime max_body i
         (handled dump parse submit runtime max_body (take (length log) inputs) σ)).
Proof.
  destruct (session_run dump parse submit runtime max_body inputs σ) as [[log e] σ'] eqn:E.
  apply session_log in E as (Hlog & Hw & Hc). split_and!; [exact Hlog|naive_solver|].
  split; [exact Hc|]. destruct e; [|done]. destruct (Hw eq_refl) as (Hl & _ & Hf).
  intros [(p & Hp%last_Some_elem_of & Hk)|(i & Hi & _)].
  - rewrite Forall_forall in Hf. specialize (Hf p Hp). congruence.
  - apply lookup_lt_Some in Hi. lia.
Qed.

(** Two queries on one connection, the second of which closes it; the third is
    not answered. *)
Definition example_query (alive : bool) : input :=
  Request (mkRequest Verb.get "/api/v1/workflows/wf1?client_id=acme" "" alive) HttpStatus.ok false true.
Definition example_inputs : list input := [example_query true; example_query false; example_query true].

Lemma session_serves_witness :
  let σ := example_world running_wf (job_a JobStatus.RUNNING) job_b 1700000001 in
  let '(log, e, _) := session_run (λ _, Some "{}") (λ _, inr "")
    (λ _, Ret (mkValidationResult false StatusCodes.OK "")) None 100 example_inputs σ in
  length log = 2%nat ∧ e = Closed ∧
  ∀ req res, log !! 0%nat = Some (req, res) →
    ∃ error_status keep_alive, Some (example_query true) = Some (Request req error_status keep_alive true) ∧
    (run app_io (serve_request (λ _, Some "{}") (λ _, inr "")
      (λ _, Ret (mkValidationResult false StatusCodes.OK "")) None 100 error_status keep_alive req) σ).1
    = Some res.
Proof.
  pose proof (session_serves (λ _, Some "{}") (λ _, inr "")
    (λ _, Ret (mkValidationResult false StatusCodes.OK "")) None 100 example_inputs
    (example_world running_wf (job_a JobStatus.RUNNING) job_b 1700000001)) as Hs.
  cbn zeta. revert Hs.
  assert (Hl : length (session_run (λ _, Some "{}") (λ _, inr "")
    (λ _, Ret (mkValidationResult false StatusCodes.OK "")) None 100 example_inputs
    (example_world running_wf (job_a JobStatus.RUNNING) job_b 1700000001)).1.1 = 2%nat) by (vm_compute; reflexivity).
  assert (He : (session_run (λ _, Some "{}") (λ _, inr "")
    (λ _, Ret (mkValidationResult false StatusCodes.OK "")) None 100 example_inputs
    (example_world running_wf (job_a JobStatus.RUNNING) job_b 1700000001)).1.2 = Closed) by (vm_compute; reflexivity).
  revert Hl He. destruct (session_run _ _ _ _ _ _ _) as [[log e] σ']. cbn [fst snd].
  intros Hl He (H1 & _). split; [exact Hl|]. split; [exact He|]. intros req res Hi.
  destruct (H1 0%nat req res Hi) as (er & ka & Hin & Ha & _). exists er, ka. split; [exact Hin|exact Ha].
Defined.
